(* ===== verification/_CoqProject ===== *)
-Q . S2P
Prelude.v
StringPiece.v
Decimal.v
Float.v
Probe.v
Table.v
SampleKernel.v
DeltaTable.v
StateTable.v
GlobalTable.v
Cluster.v
Master.v
Worker.v
Job.v
Cache.v
FlatStore.v
MMap.v
LruCache.v
BlockStore.v
Maiter.v
Loading.v
Examples.v
Iteration.v
Components.v
Passes.v
RunLoop.v
Rpc.v
RpcSync.v
Startup.v
Transport.v
Progress.v
RecordFile.v
Checkpoint.v
Registry.v
BitReader.v
WebGraph.v
WebText.v
WebDatabase.v
Descriptor.v
Untyped.v
WorkerLoop.v
Files.v
Utilities.v
WeightedGraph.v
Logger.v
Sums.v
StoreFiles.v
