(* ===== verification/Prelude.v ===== *)
(** * MaiterStore: a verification development

    MaiterStore runs delta-accumulative graph iterations on a cluster.  A
    master assigns the shards of the vertex table to workers and sends them
    kernels to run; each worker keeps the rows of its shards in hash tables,
    takes rows by priority, adds their pending delta to their value and sends
    the effects to the neighbours, whose rows may be at other workers; a storage
    layer with caches in front serves the adjacency lists.  This library
    translates that code into executable definitions and proves what makes it
    correct.  Paths below are relative to the repository's src directory.

    ** Parts and files

    - Prelude.v (this file): the outcomes of C++ code, loops, machine integers,
      vectors, and the tactics and lemmas that the other files share.
    - StringPiece.v, Decimal.v: util/stringpiece.h, util/stringpiece.cc,
      util/hash.h; numbers as text, and the order of file names with numbers.
    - Float.v: [float] and [double], on the Standard Library's [spec_float].
    - Probe.v: linear probing, the code that kernel/statetable.h and
      kernel/deltatable.h share.
    - Table.v: kernel/table.h (sharding, marshalling, decode iterators,
      termination checker, the kernel interface as the class [IterateKernel])
      and the coders of kernel/global-table.cc.
    - SampleKernel.v: an instance of that class, on which theorems are evaluated.
    - DeltaTable.v, StateTable.v: the two local tables, with the iterators that
      choose the rows to process.
    - GlobalTable.v: kernel/global-table.h and .cc, the partitioned table:
      ownership, buffering, flushing, applying.
    - Cluster.v: several workers exchanging put requests (worker/worker.cc,
      [HandlePutRequest]), as a step relation over all interleavings.
    - Maiter.v, Loading.v: the kernels of kernel/kernel.h and the start-up of a
      worker.
    - Master.v: master/master.cc, tasks, assignment, dispatching, stealing, the
      barrier, termination checks and checkpoints; Job.v: the constructor, the
      whole loop of the barrier with stealing, checkpoints and termination, and
      the runs of a job ([run_maiter]).
    - Worker.v: worker/worker.cc, the handlers of a worker (assignments, put
      requests, epoch markers, flushes, checkpoints, the kernel loop), over
      GlobalTable.v; it receives what Master.v sends.
    - Cache.v, FlatStore.v, MMap.v, LruCache.v, BlockStore.v: the storage layer
      of store/; StoreFiles.v: the opening of its files, over FlatStore.v, MMap.v
      and BlockStore.v.
    - Examples.v: the kernels of examples/ as instances of [IterateKernel], and
      the generator of their graphs (gengraph.cc); WeightedGraph.v: its weighted
      graphs and the files it writes for Hadoop.
    - Iteration.v: iterations of any rows by all workers, with flushes and
      deliveries, as a step relation over Cluster.v; Components.v applies it to
      connected components, Passes.v shows that the passes of the kernel loop
      are sequences of its steps, RunLoop.v the same of the loop as a whole,
      with what the other workers do while it pauses; Sums.v applies it to the
      kernels that add.
    - Rpc.v: util/rpc.h and util/rpc.cc, the network thread: requests, queues,
      callbacks, and the interleavings of several such threads; RpcSync.v: the
      blocking [Read], [Call], [Flush] and [SyncBroadcast] over them; Startup.v:
      the registration of the workers at the master; Transport.v and
      Progress.v: the workers of Iteration.v over these network threads.
    - RecordFile.v: util/file.h and util/file.cc: local and compressed files as
      instances of one class, record files over that class, the byte encoders.
    - Checkpoint.v: kernel/local-table.cc (checkpoint files and delta logs) and
      the restoring of tables, workers and the master.
    - Registry.v: the registries of kernels and tables (kernel/kernel.h,
      kernel/table-registry.h), the checks of the master, the kernel objects of
      a worker, and the iterator service ([HandleIteratorRequest]).
    - Descriptor.v: the descriptors of tables and shards and the triggers of
      kernel/table.h, as pointers to shared objects; Untyped.v: access to tables
      by marshalled keys; WorkerLoop.v: the constructor and the main loop of
      worker/worker.cc, over Worker.v and Checkpoint.v.
    - Files.v: whole files and directories (util/file.cc); Utilities.v: ranges,
      histograms, statistics, spin locks, hashes of tuples and initialisers
      (util/common.h, util/common.cc, util/tuple.h, util/static-initializers.h);
      Logger.v: the logger of the storage layer (kernel/logger.hpp).
    - BitReader.v, WebGraph.v, WebText.v, WebDatabase.v: external/webgraph, the
      reader of compressed web graphs: bit codes, adjacency lists, properties
      and URLs, and the opening of a database.

    The calls of one part into another follow the code:
    GlobalTable.v calls StateTable.v and DeltaTable.v through their operations,
    Maiter.v calls GlobalTable.v, Cluster.v and Loading.v compose them.  The
    user's kernel is a class ([IterateKernel]) with its laws in a second class,
    so the theorems hold for every program of examples/ that meets them.
    Checkpoint.v reads and writes files through the class [FileOps] of
    RecordFile.v and tables through the class [Checkpointed], so that its
    theorems hold for both kinds of file and both local tables.

    ** How code becomes definitions

    A method is a function from the state of its object to an [outcome]: a
    value, a failed [CHECK], a C++ exception, undefined behaviour, or a loop of
    the model out of fuel.  Integers are [Z] and every conversion to a narrower
    type is written out.  [vector] access out of range, a dereferenced [end()]
    and a null [dynamic_cast] are [Undefined].  Random draws, clocks and system
    calls are arguments.  What is sent over the network is returned by the
    function that sends it.

    Fuel: the probing loops of Probe.v recurse on the number of buckets left, so
    they need none; [DeltaTable.put] carries the depth of its call through
    [resize], and 2 is enough because a doubled table is never over loaded again
    (shown by [delta_refines]); [GlobalTable.send_loop] has fuel 1, because a
    delta table is empty after [reset]; the loops that do diverge in the program
    are shown to use up every fuel ([sampling_empty_diverges],
    [erase_loop_diverges]).  The block loops of [LZOFile] take the number of
    bytes as fuel, since every turn moves at least one; [LocalTable.restore]
    takes a bound on the entries of a file, and its theorems hold for every
    fuel above the number of entries.  The loops of WebGraph.v and WebText.v
    take the number of bits or bytes that are left, since every turn reads at
    least one.  The barrier and the kernel loop end only when the workers report
    and the signal comes: [job_completes] and [kernel_loop] show that they never
    fail, however many turns they make, that [OutOfFuel] then means a
    master that still waits, and give the number of turns that is enough
    when the environment is fair.  The blocking calls of RpcSync.v wait for other processes; their theorems say what holds when
    they return, and [restore_blocks] that one of them never does.

    ** What the theorems show

    - Delivery of updates (Cluster.v, GlobalTable.v): no update is lost or
      duplicated under any interleaving, the owner ends with the accumulation of
      all of them, the order does not matter, delivery can always complete; and
      the same for each operation alone.
    - Iteration (Maiter.v, Loading.v): one iteration of a vertex moves its delta
      into its value and conserves what it sends; start-up loads exactly the
      rows a worker owns; the dump lists them.
    - The computation as a whole (Iteration.v, Components.v): whatever the
      interleaving of iterations, flushes and deliveries, a settled cluster
      holds the least solution of the kernel's constraints, and a settled state
      can always be reached; for connected components the values are the
      labels of the components.  For kernels that add (Sums.v), value and
      pending deltas of a vertex make up its start value and what all vertices
      contribute, at every moment; a drained cluster solves that equation.  A pass of the kernel loop (Passes.v), with its
      iterator and the cached store, is such a sequence of iterations, and so is
      all that the loop does (RunLoop.v) until the termination signal ends it,
      as long as no epoch marker arrives.
    - The network (Rpc.v): no packet is lost, duplicated or misrouted, and the
      packets of one sender, receiver and tag are taken in the order posted;
      SyncBroadcast is a barrier; at start-up every worker is counted once; the
      asynchronous iteration over the network threads (Transport.v) is one over
      the network of Cluster.v, so that what is shown there holds for it, and
      it can always be brought to its end (Progress.v).
    - Files and checkpoints (RecordFile.v, Checkpoint.v): records survive plain
      and compressed files; a checkpointed delta table and its log, the rows of
      a worker's table and the master's newest mark are restored.
      Processes that make the same directories at a checkpoint do not disturb
      each other (Files.v).
    - Registration (Registry.v): a request that passes the master's checks runs
      at a worker, and one kernel object serves each kernel, table and shard.
      Triggers keep their identifiers, and the master's request switches exactly
      the trigger it names at every worker (Descriptor.v).
    - Examples (Examples.v, WeightedGraph.v): generated graphs, weighted ones up
      to the printing of their weights, are read back; SimRank sends each pair
      of neighbours once.
    - Local tables (DeltaTable.v, StateTable.v): refinement of the bucket arrays
      to finite maps for every operation, no undefined behaviour in any sequence
      of operations on a delta table, round trips over the network, and what
      the schedulers select.
    - The master (Master.v): every shard has exactly one living server at every
      point of a run, the barrier is never stuck and ends with all tasks done,
      termination checks wait for all workers, checkpoints complete; a job
      never fails, and makes all its runs and returns when its workers answer,
      report and converge (Job.v).
    - The workers (Worker.v): all agree with the master on the owner of each
      shard; a rolling checkpoint of a worker without state tables writes its
      local shards, sends its markers and reports done once, in whatever order
      the peers' markers arrive; a new worker owns nothing, and
      its main loop answers every request it takes once (WorkerLoop.v).
    - Storage (Cache.v, FlatStore.v, LruCache.v, BlockStore.v, MMap.v): caches
      stay consistent and within their bounds and are transparent (but the
      lists of the influence file come before those of the store), files read
      back what was written, the LRU list is refined by its pointer structure;
      what the flat store writes to its files is read through their mappings,
      and the index of a block store names the first key of every block
      (StoreFiles.v).
    - Web graphs (BitReader.v to WebDatabase.v): the codes are decoded, and a
      database that was written, properties and lists, is read back.
    - Utilities (StringPiece.v, Table.v, Utilities.v): splitting and joining,
      sharding in range, histograms count every value once, spin locks exclude;
      the lines of several threads are logged whole and as each thread alone
      would log them (Logger.v).
    - Where the code misbehaves, the theorem says so and when: a full state
      table, a checkpoint of a state table and the replay of its delta log, a
      reassigned shard, an overrun of the closing pass, an empty table, a block
      without fill characters, a reopened mapping, sends posted in the opposite
      order, a request shared by callback threads, a file renamed before it is
      complete, a chunk of almost 2^31 bytes in a compressed file, an opening
      iterator request, a restore that waits for replies
      nobody sends, a termination flag that is never reset, damage of a
      compressed file that goes unnoticed, an inverted priority, float sums that
      depend on the order, a log level shared by threads, blocks without an end.

    ** Not modelled

    Threads and locks inside one operation (each operation is one atomic step;
    Rpc.v interleaves the rounds of the network threads with senders and
    readers); MPI itself, which Rpc.v takes to deliver the packets between two
    processes in order; the LZO library and protocol buffers, which are
    parameters; symbolic links, and names of checkpoint directories with the
    characters that [glob] and [sscanf] interpret; zlib, whose files WebGraph.v takes as the bytes they hold; the
    random numbers and the logarithm of gengraph.cc, which are parameters.  The
    rounding of additive kernels: Sums.v is about exact arithmetic, and Examples.v
    shows that [float] sums depend on the order.

    Left out because they only produce output or only call the system: timers,
    system information, printing, the start of MPI and of the programs, the
    shell commands that upload generated graphs.  Left out as third-party code
    that the program only calls: the logging and flags libraries of external/. *)
From stdpp Require Export base option list gmap numbers strings.
From Stdlib Require Export ZArith Lia ZifyBool.
Open Scope Z_scope.

(** ** Outcomes of C++ code

    A call of the program returns a value, stops the process through one of
    glog's [CHECK]/[LOG(FATAL)] macros, throws a C++ exception, or has
    undefined behaviour (a vector index out of range, a dereferenced [end()]
    iterator or null pointer).  [OutOfFuel] is not a behaviour of the program:
    it marks a loop of the model whose fuel was too small, and the theorems
    about loops show that it does not occur, or (Job.v) what it means. *)
Inductive outcome (A : Type) : Type :=
  | Ok (a : A)
  | Fatal
  | Throw
  | Undefined
  | OutOfFuel.
Arguments Ok {A} _.
Arguments Fatal {A}.
Arguments Throw {A}.
Arguments Undefined {A}.
Arguments OutOfFuel {A}.

#[global] Instance outcome_eq_dec {A} `{EqDecision A} : EqDecision (outcome A).
Proof. solve_decision. Defined.
#[global] Instance outcome_ret : MRet outcome := fun _ => Ok.
#[global] Instance outcome_bind : MBind outcome := fun A B f m =>
  match m with
  | Ok a => f a
  | Fatal => Fatal
  | Throw => Throw
  | Undefined => Undefined
  | OutOfFuel => OutOfFuel
  end.
#[global] Instance outcome_fmap : FMap outcome := fun A B f m => m ≫= (fun a => Ok (f a)).

(** [CHECK(b)]: the process stops when the condition is false. *)
Definition CHECK (b : bool) : outcome unit := if b then Ok tt else Fatal.

(** A partial operation whose failure is undefined behaviour. *)
Definition deref {A} (o : option A) : outcome A :=
  match o with Some a => Ok a | None => Undefined end.

(** A left-to-right loop over a range, stopping at the first failure. *)
Fixpoint for_each {A S} (f : S -> A -> outcome S) (l : list A) (s : S) : outcome S :=
  match l with
  | [] => Ok s
  | x :: l => s' ← f s x; for_each f l s'
  end.

(** ** Machine integers

    Integers are [Z]; a conversion to a [w]-bit type is written out. *)
Definition wrapu (w : Z) (x : Z) : Z := x mod 2 ^ w.
Definition wraps (w : Z) (x : Z) : Z :=
  let y := x mod 2 ^ w in if y <? 2 ^ (w - 1) then y else y - 2 ^ w.
Abbreviation to_uint32 := (wrapu 32).
Abbreviation to_uint64 := (wrapu 64).
Abbreviation to_int8 := (wraps 8).
Abbreviation to_int32 := (wraps 32).
Abbreviation to_int64 := (wraps 64).

(** ** Vectors *)
Section Vectors.
Context {A : Type}.

(** [v[i]] of a [std::vector], undefined when the index is out of range. *)
Definition vec_at (v : list A) (i : Z) : outcome A :=
  if i <? 0 then Undefined else deref (v !! Z.to_nat i).

(** [v[i] = x]. *)
Definition vec_set (v : list A) (i : Z) (x : A) : outcome (list A) :=
  if (i <? 0) || (Z.of_nat (length v) <=? i) then Undefined
  else Ok (<[Z.to_nat i := x]> v).

(** [v.resize(n)], where [d] is the value-initialised element. *)
Definition vec_resize (d : A) (v : list A) (n : nat) : list A :=
  take n v ++ replicate (n - length v) d.

Lemma vec_at_Some v i x : v !! i = Some x -> vec_at v (Z.of_nat i) = Ok x.
Proof. intros H. unfold vec_at. rewrite Nat2Z.id, H. by case_match; [lia|]. Qed.

Lemma vec_set_lt v i x : (i < length v)%nat -> vec_set v (Z.of_nat i) x = Ok (<[i := x]> v).
Proof. intros H. unfold vec_set. rewrite Nat2Z.id. case_match eqn:E; [|done]. lia. Qed.

Lemma length_vec_resize d v n : length (vec_resize d v n) = n.
Proof. unfold vec_resize. rewrite length_app, length_take, length_replicate. lia. Qed.
End Vectors.

(** The value of [T()], for elements created by [resize]. *)
Class ValueInit (A : Type) := value_init : A.
#[export] Instance ValueInit_Z : ValueInit Z := 0.
#[export] Instance ValueInit_bool : ValueInit bool := false.
#[export] Instance ValueInit_list A : ValueInit (list A) := [].
#[export] Instance ValueInit_prod A B `{!ValueInit A, !ValueInit B} : ValueInit (A * B) :=
  (value_init, value_init).

(** ** Lemmas on machine integers *)
Lemma wrapu_small w x : 0 <= x < 2 ^ w -> wrapu w x = x.
Proof. apply Z.mod_small. Qed.

Lemma wrapu_range w x : 0 <= w -> 0 <= wrapu w x < 2 ^ w.
Proof. intros. apply Z.mod_pos_bound. lia. Qed.

Lemma wraps_small w x : 0 < w -> - 2 ^ (w - 1) <= x < 2 ^ (w - 1) -> wraps w x = x.
Proof.
  intros Hw Hx. unfold wraps.
  assert (2 ^ w = 2 * 2 ^ (w - 1)) as E.
  { rewrite <- Z.pow_succ_r by lia. f_equal. lia. }
  destruct (Z.le_gt_cases 0 x).
  - rewrite Z.mod_small by lia. case_match; lia.
  - replace (x mod 2 ^ w) with (x + 2 ^ w).
    + case_match; lia.
    + apply (Z.mod_unique_pos _ _ (-1)); lia.
Qed.

Lemma wraps_range w x : 0 < w -> - 2 ^ (w - 1) <= wraps w x < 2 ^ (w - 1).
Proof.
  intros Hw. unfold wraps.
  assert (2 ^ w = 2 * 2 ^ (w - 1)) as E.
  { rewrite <- Z.pow_succ_r by lia. f_equal. lia. }
  pose proof (Z.mod_pos_bound x (2 ^ w)).
  assert (0 < 2 ^ (w - 1)) by (apply Z.pow_pos_nonneg; lia).
  case_match; lia.
Qed.

Lemma to_int32_small x : - 2147483648 <= x < 2147483648 -> to_int32 x = x.
Proof. intros. by apply wraps_small. Qed.

Lemma to_uint32_small x : 0 <= x < 4294967296 -> to_uint32 x = x.
Proof. intros. by apply wrapu_small. Qed.

Lemma vec_at_Z {A} (v : list A) z x : 0 <= z -> v !! Z.to_nat z = Some x -> vec_at v z = Ok x.
Proof. intros Hz Hx. rewrite <- (Z2Nat.id z) by done. by apply vec_at_Some. Qed.

(** Filters that keep everything or nothing. *)
Lemma filter_all {A} (P : A -> Prop) `{!forall x, Decision (P x)} (l : list A) : (forall x, x ∈ l -> P x) -> filter P l = l.
Proof.
  induction l as [|x l IH]; intros Hl; [done|]. rewrite filter_cons_True by (apply Hl; left).
  rewrite IH; [done|]. intros y Hy. apply Hl. by right.
Qed.
Lemma filter_none {A} (P : A -> Prop) `{!forall x, Decision (P x)} (l : list A) : (forall x, x ∈ l -> ~ P x) -> filter P l = [].
Proof.
  induction l as [|x l IH]; intros Hl; [done|]. rewrite filter_cons_False by (apply Hl; left).
  apply IH. intros y Hy. apply Hl. by right.
Qed.

(** ** Automation

    [simplify_ok] runs the monadic binds whose first computation is known and
    inverts hypotheses that say that a bind returned. *)
Lemma bind_Ok {A B} (m : outcome A) (f : A -> outcome B) b :
  m ≫= f = Ok b -> exists a, m = Ok a /\ f a = Ok b.
Proof. destruct m; simpl; naive_solver. Qed.

Lemma CHECK_true b : CHECK b = Ok tt <-> b = true.
Proof. by destruct b. Qed.

Lemma deref_Ok {A} (o : option A) a : deref o = Ok a <-> o = Some a.
Proof. destruct o; naive_solver. Qed.

Ltac inv_ok :=
  repeat match goal with
  | H : _ ≫= _ = Ok _ |- _ =>
      let a := fresh "a" in apply bind_Ok in H; destruct H as (a & ? & H)
  | H : CHECK _ = Ok _ |- _ => apply CHECK_true in H
  | H : deref _ = Ok _ |- _ => apply deref_Ok in H
  | H : Ok _ = Ok _ |- _ => injection H; clear H; intros; subst
  end; try discriminate.

(** Runs the binds of the goal whose first computation is known. *)
Ltac run := cbn [mbind outcome_bind mret outcome_ret fmap outcome_fmap CHECK deref negb].

(** Rewriting steps of the model that need only arithmetic side conditions. *)
Create HintDb maiter discriminated.
#[export] Hint Resolve vec_at_Some vec_set_lt : maiter.

Lemma for_each_app {A S} (f : S -> A -> outcome S) l1 l2 s :
  for_each f (l1 ++ l2) s = for_each f l1 s ≫= for_each f l2.
Proof. revert s. induction l1; intros s; simpl; [done|]. destruct (f s a); simpl; auto. Qed.

Lemma for_each_fmap {A B S} (g : A -> B) (f : S -> B -> outcome S) l s :
  for_each f (g <$> l) s = for_each (fun s x => f s (g x)) l s.
Proof. revert s. induction l as [|x l IH]; intros s; simpl; [done|]. destruct (f s (g x)); simpl; auto. Qed.

(** A loop whose body always succeeds under an invariant succeeds. *)
Lemma for_each_inv {A S} (f : S -> A -> outcome S) (P : list A -> S -> Prop) l s :
  P [] s ->
  (forall pre x todo s, l = pre ++ x :: todo -> P pre s ->
    exists s', f s x = Ok s' /\ P (pre ++ [x]) s') ->
  exists s', for_each f l s = Ok s' /\ P l s'.
Proof.
  intros H0 Hstep.
  cut (forall todo pre s, l = pre ++ todo -> P pre s ->
         exists s', for_each f todo s = Ok s' /\ P l s').
  { intros Hc. apply (Hc l []); done. }
  induction todo as [|x todo IH]; intros pre s1 El Hs; simpl.
  - exists s1. split; [done|]. by rewrite El, app_nil_r.
  - destruct (Hstep pre x todo s1 El Hs) as (s2 & E2 & H2). rewrite E2; simpl.
    apply (IH (pre ++ [x])); [|done]. by rewrite <- app_assoc.
Qed.

Lemma mjoin_cons {A} (l : list A) ls : mjoin (l :: ls) = l ++ mjoin ls.
Proof. done. Qed.

(** ** Sums over lists *)
Lemma sum_with_add {A} (f g h : A -> nat) (l : list A) : (forall x, h x = f x + g x)%nat ->
  sum_list_with h l = (sum_list_with f l + sum_list_with g l)%nat.
Proof. intros E. induction l as [|x l IH]; cbn; [done|]. rewrite E, IH. lia. Qed.
Lemma sum_with_zero {A} (f : A -> nat) (l : list A) : (forall x, f x = 0)%nat -> sum_list_with f l = 0%nat.
Proof. intros E. induction l as [|x l IH]; cbn; [done|]. by rewrite E, IH. Qed.
Lemma sum_with_single (l : list nat) (j : nat) : NoDup l ->
  sum_list_with (fun i => if decide (i = j) then 1 else 0)%nat l = if decide (j ∈ l) then 1%nat else 0%nat.
Proof.
  induction 1 as [|x l Hx Hnd IH]; cbn; [by rewrite decide_False by apply not_elem_of_nil|]. rewrite IH.
  destruct (decide (x = j)) as [->|Hne].
  - rewrite decide_False, decide_True by (done || by left). done.
  - rewrite (decide_ext (j ∈ l) (j ∈ x :: l)); [done|]. rewrite elem_of_cons. naive_solver.
Qed.
Lemma sum_with_tight {A} (f g : A -> nat) (l : list A) :
  (forall x, x ∈ l -> f x <= g x)%nat -> (sum_list_with g l <= sum_list_with f l)%nat ->
  forall x, x ∈ l -> f x = g x.
Proof.
  assert (forall l' : list A, (forall x, x ∈ l' -> f x <= g x)%nat -> (sum_list_with f l' <= sum_list_with g l')%nat) as Hle.
  { induction l' as [|y l' IH]; intros H; cbn; [done|].
    pose proof (H y ltac:(by left)). assert (forall x, x ∈ l' -> f x <= g x)%nat as H' by (intros; apply H; by right).
    specialize (IH H'). lia. }
  induction l as [|y l IH]; intros H Hs x Hx; [by apply not_elem_of_nil in Hx|]. cbn in Hs.
  assert (forall z, z ∈ l -> f z <= g z)%nat as H' by (intros; apply H; by right).
  pose proof (Hle l H'). pose proof (H y ltac:(by left)). apply elem_of_cons in Hx as [->|Hx]; [lia|].
  apply IH; [done|lia|done].
Qed.
