(* ===== verification/StringPiece.v ===== *)
(** * Strings and hashing: util/hash.h, util/stringpiece.h, util/stringpiece.cc

    A [std::string], and the bytes behind a [StringPiece], is a list of
    characters.  The file holds the string operations of the C++ library that
    the program uses ([find], [substr], Boost's [trim_right] and [split],
    [getline]), [SuperFastHash], and the operations of [StringPiece]. *)
From Stdlib Require Export Ascii.
From S2P Require Import Prelude.

Abbreviation cstr := (list ascii).
Definition lit (s : string) : cstr := String.list_ascii_of_string s.

(** The value of a byte as [uint8_t] and as (signed) [char]. *)
Definition uchar (c : ascii) : Z := Z.of_N (N_of_ascii c).
Definition schar (c : ascii) : Z := to_int8 (uchar c).
Definition char_of (x : Z) : ascii := ascii_of_N (Z.to_N x).

Lemma uchar_char_of x : 0 <= x < 256 -> uchar (char_of x) = x.
Proof.
  intros. unfold uchar, char_of. rewrite N_ascii_embedding by lia. lia.
Qed.

Lemma uchar_range c : 0 <= uchar c < 256.
Proof. unfold uchar. pose proof (N_ascii_bounded c). lia. Qed.

(** [isspace] in the C locale. *)
Definition isspace (c : ascii) : bool :=
  let n := uchar c in (n =? 32) || ((9 <=? n) && (n <=? 13)).
Definition isdigit (c : ascii) : bool :=
  let n := uchar c in (48 <=? n) && (n <=? 57).

(** ** The C++ library *)

(** [s.find(c)]: [None] is [npos]. *)
Fixpoint find_char (c : ascii) (s : cstr) : option nat :=
  match s with
  | [] => None
  | x :: s => if decide (x = c) then Some 0%nat else S <$> find_char c s
  end.

(** [s.substr(pos, len)] for [pos <= s.size()]; a larger [pos] throws
    [std::out_of_range]. *)
Definition substr (s : cstr) (pos len : nat) : outcome cstr :=
  if decide (pos <= length s)%nat then Ok (take len (drop pos s)) else Throw.

Fixpoint drop_while (f : ascii -> bool) (s : cstr) : cstr :=
  match s with
  | [] => []
  | x :: t => if f x then drop_while f t else s
  end.
Definition trim_right_if (f : ascii -> bool) (s : cstr) : cstr := rev (drop_while f (rev s)).
(** Boost's [trim_right]. *)
Definition trim_right (s : cstr) : cstr := trim_right_if isspace s.

(** Boost's [split] with [token_compress_off]: the fields between the
    separators, empty ones included. *)
Fixpoint split_on (f : ascii -> bool) (s : cstr) : list cstr :=
  match s with
  | [] => [[]]
  | x :: s =>
    if f x then [] :: split_on f s
    else match split_on f s with
         | [] => [[x]]
         | w :: ws => (x :: w) :: ws
         end
  end.
Definition is_char (c : ascii) (x : ascii) : bool := bool_decide (x = c).

(** Repeated [getline(stream, word, delim)] until the stream fails: like
    [split_on], but a separator at the very end starts no further word. *)
Definition getlines (c : ascii) (s : cstr) : list cstr :=
  let ws := split_on (is_char c) s in
  match last ws with
  | Some [] => removelast ws
  | _ => ws
  end.

Fixpoint join (sep : cstr) (ws : list cstr) : cstr :=
  match ws with
  | [] => []
  | [w] => w
  | w :: ws => w ++ sep ++ join sep ws
  end.

(** ** [SuperFastHash] (util/hash.h) *)
Definition get16bits (d0 d1 : ascii) : Z := Z.shiftl (uchar d1) 8 + uchar d0.

(** One round of the main loop, on four bytes. *)
Definition hash_round (hash : Z) (d0 d1 d2 d3 : ascii) : Z :=
  let hash := to_uint32 (hash + get16bits d0 d1) in
  let tmp := Z.lxor (to_uint32 (Z.shiftl (get16bits d2 d3) 11)) hash in
  let hash := Z.lxor (to_uint32 (Z.shiftl hash 16)) tmp in
  to_uint32 (hash + Z.shiftr hash 11).

(** The [switch (rem)] on the bytes that are left.  The third byte, and the
    only byte of the last case, are read through a [const char*]: they are
    sign-extended. *)
Definition hash_tail (hash : Z) (data : cstr) : Z :=
  match data with
  | [d0; d1; d2] =>
      let hash := to_uint32 (hash + get16bits d0 d1) in
      let hash := Z.lxor hash (to_uint32 (Z.shiftl hash 16)) in
      let hash := Z.lxor hash (to_uint32 (Z.shiftl (schar d2) 18)) in
      to_uint32 (hash + Z.shiftr hash 11)
  | [d0; d1] =>
      let hash := to_uint32 (hash + get16bits d0 d1) in
      let hash := Z.lxor hash (to_uint32 (Z.shiftl hash 11)) in
      to_uint32 (hash + Z.shiftr hash 17)
  | [d0] =>
      let hash := to_uint32 (hash + schar d0) in
      let hash := Z.lxor hash (to_uint32 (Z.shiftl hash 10)) in
      to_uint32 (hash + Z.shiftr hash 1)
  | _ => hash
  end.

Fixpoint hash_loop (hash : Z) (data : cstr) : Z :=
  match data with
  | d0 :: d1 :: d2 :: d3 :: data => hash_loop (hash_round hash d0 d1 d2 d3) data
  | _ => hash_tail hash data
  end.

Definition hash_avalanche (hash : Z) : Z :=
  let hash := Z.lxor hash (to_uint32 (Z.shiftl hash 3)) in
  let hash := to_uint32 (hash + Z.shiftr hash 5) in
  let hash := Z.lxor hash (to_uint32 (Z.shiftl hash 4)) in
  let hash := to_uint32 (hash + Z.shiftr hash 17) in
  let hash := Z.lxor hash (to_uint32 (Z.shiftl hash 25)) in
  to_uint32 (hash + Z.shiftr hash 6).

Definition SuperFastHash (data : cstr) : Z :=
  match data with
  | [] => 0
  | _ => hash_avalanche (hash_loop (to_uint32 (Z.of_nat (length data))) data)
  end.

(** ** [StringPiece] (util/stringpiece.cc) *)
Definition sp_hash (s : cstr) : Z := SuperFastHash s.

(** [strip]: whitespace removed from the front, then from the back. *)
Definition strip (s : cstr) : cstr := trim_right_if isspace (drop_while isspace s).

(** The inner loop of [split]: from [next] up to the first delimiter. *)
Fixpoint scan_delim (delim : cstr) (s : cstr) : cstr * option cstr :=
  match s with
  | [] => ([], None)
  | x :: s =>
    if bool_decide (x ∈ delim) then ([], Some s)
    else let '(w, r) := scan_delim delim s in (x :: w, r)
  end.

(** The outer loop [while (c < sp.data + sp.len)]; each round consumes at least
    one character, so [length s] rounds are enough. *)
Fixpoint split_loop (fuel : nat) (delim s : cstr) : list cstr :=
  match fuel, s with
  | S fuel, _ :: _ =>
      let '(w, r) := scan_delim delim s in
      match r with
      | Some rest => w :: split_loop fuel delim rest
      | None => [w]
      end
  | _, _ => []
  end.
Definition split (sp delim : cstr) : list cstr := split_loop (length sp) delim sp.

(** [strnstr] of util/stringpiece.h: the offset of the first occurrence of
    [needle] at an offset below [len - strlen(needle)]. *)
Fixpoint strnstr_loop (haystack needle : cstr) (i fuel : nat) : option nat :=
  match fuel with
  | O => None
  | S fuel =>
      if bool_decide (take (length needle) (drop i haystack) = needle) then Some i
      else strnstr_loop haystack needle (S i) fuel
  end.
Definition strnstr (haystack needle : cstr) : option nat :=
  strnstr_loop haystack needle 0 (length haystack - length needle).

Definition JoinString (ws : list cstr) (delim : cstr) : cstr := join delim ws.

(** ** Theorems *)
Lemma hash_round_range h d0 d1 d2 d3 : 0 <= hash_round h d0 d1 d2 d3 < 2 ^ 32.
Proof. apply wrapu_range. lia. Qed.

Lemma hash_tail_range h data : 0 <= h < 2 ^ 32 -> 0 <= hash_tail h data < 2 ^ 32.
Proof.
  intros. unfold hash_tail. repeat case_match; try done; apply wrapu_range; lia.
Qed.

Lemma hash_loop_range data : forall h, 0 <= h < 2 ^ 32 -> 0 <= hash_loop h data < 2 ^ 32.
Proof.
  induction data as [[|d0 [|d1 [|d2 [|d3 data]]]] IH] using (induction_ltof1 _ (@length ascii));
    intros h Hh; try (by apply hash_tail_range).
  cbn [hash_loop]. apply IH; [unfold ltof; simpl; lia|]. apply hash_round_range.
Qed.

Lemma SuperFastHash_uint32 data : 0 <= SuperFastHash data < 2 ^ 32.
Proof. destruct data; [done|]. apply wrapu_range. lia. Qed.

Lemma drop_while_suffix f s : exists pre, s = pre ++ drop_while f s /\ Forall (fun c => f c = true) pre.
Proof.
  induction s as [|x s (pre & E & Hp)]; [by exists []|]. simpl. destruct (f x) eqn:Hx.
  - exists (x :: pre). simpl. rewrite <- E. auto.
  - by exists [].
Qed.

Lemma drop_while_head f s x t : drop_while f s = x :: t -> f x = false.
Proof. induction s as [|y s IH]; simpl; [done|]. destruct (f y) eqn:E; naive_solver. Qed.

Lemma trim_right_if_prefix f s :
  exists post, s = trim_right_if f s ++ post /\ Forall (fun c => f c = true) post.
Proof.
  destruct (drop_while_suffix f (rev s)) as (pre & E & Hp).
  exists (rev pre). unfold trim_right_if. rewrite <- rev_app_distr, <- E, rev_involutive.
  split; [done|]. by apply Forall_rev.
Qed.

Lemma trim_right_if_last f s c : last (trim_right_if f s) = Some c -> f c = false.
Proof.
  unfold trim_right_if. destruct (drop_while f (rev s)) as [|x t] eqn:E; [done|]. simpl.
  rewrite last_snoc. intros [= <-]. by eapply drop_while_head.
Qed.

Lemma trim_right_if_id f s c : last s = Some c -> f c = false -> trim_right_if f s = s.
Proof.
  intros Hl Hf. destruct (last_Some s c) as [Hs _]. destruct (Hs Hl) as [t ->].
  unfold trim_right_if. rewrite rev_app_distr. simpl. rewrite Hf. simpl. by rewrite rev_involutive.
Qed.

Lemma scan_delim_spec delim s w r :
  scan_delim delim s = (w, r) ->
  Forall (fun x => x ∉ delim) w /\
  match r with
  | Some rest => exists c, c ∈ delim /\ s = w ++ c :: rest
  | None => s = w
  end.
Proof.
  revert w r. induction s as [|x s IH]; intros w r E; simpl in E; [naive_solver|].
  case_bool_decide as Hx; [injection E as <- <-; split; [done|]; by exists x|].
  destruct (scan_delim delim s) as [w' r'] eqn:Es. injection E as <- <-.
  destruct (IH _ _ eq_refl) as [Hw Hr]. split; [by constructor|].
  destruct r'; naive_solver.
Qed.

Lemma split_loop_no_delim fuel delim s :
  Forall (fun w => Forall (fun x => x ∉ delim) w) (split_loop fuel delim s).
Proof.
  revert s. induction fuel as [|fuel IH]; intros [|x s]; try constructor. cbn [split_loop].
  destruct (scan_delim delim (x :: s)) as [w r] eqn:E. apply scan_delim_spec in E as [Hw _].
  destruct r; auto.
Qed.

(** The input without one trailing delimiter. *)
Definition chop (c : ascii) (s : cstr) : cstr :=
  match last s with
  | Some x => if decide (x = c) then removelast s else s
  | None => s
  end.

Lemma chop_app c w s : s <> [] -> chop c (w ++ s) = w ++ chop c s.
Proof.
  intros Hs. destruct s as [|x s _] using rev_ind; [done|].
  unfold chop. rewrite app_assoc, !last_snoc. case_decide; [|by rewrite <- app_assoc].
  by rewrite !removelast_last.
Qed.

Lemma chop_id c s : Forall (fun x => x ∉ [c]) s -> chop c s = s.
Proof.
  intros Hs. unfold chop. destruct (last s) as [x|] eqn:E; [|done]. case_decide as Hx; [|done].
  apply last_Some in E as [t ->]. apply Forall_app in Hs as [_ Hx']. inversion Hx'. set_solver.
Qed.

Lemma join_split_loop c fuel s :
  (length s <= fuel)%nat -> join [c] (split_loop fuel [c] s) = chop c s.
Proof.
  revert s. induction fuel as [|fuel IH]; intros [|x s] Hf; try done; [simpl in Hf; lia|].
  cbn [split_loop]. destruct (scan_delim [c] (x :: s)) as [w r] eqn:E.
  apply scan_delim_spec in E as [Hw Hr]. destruct r as [rest|]; [|simpl; by rewrite Hr, chop_id].
  destruct Hr as (c' & Hc & Es). assert (c' = c) as -> by set_solver. rewrite Es.
  specialize (IH rest). assert (length rest < length (x :: s))%nat as Hl
    by (rewrite Es, length_app; simpl; lia).
  rewrite chop_app by done. destruct rest as [|y rest].
  - destruct fuel; simpl; unfold chop; simpl; rewrite decide_True by done; by rewrite app_nil_r.
  - replace (c :: y :: rest) with ([c] ++ y :: rest) by done. rewrite chop_app by done.
    rewrite <- IH by (simpl in *; lia).
    destruct fuel as [|fuel]; [simpl in *; lia|]. cbn [split_loop].
    destruct (scan_delim [c] (y :: rest)) as [w' [r'|]]; done.
Qed.

(** [StringPiece::split] on one delimiter: no piece contains it, and joining
    the pieces with it gives the input back, less one trailing delimiter. *)
Lemma split_correct c s :
  Forall (fun w => Forall (fun x => x <> c) w) (split s [c]) /\ JoinString (split s [c]) [c] = chop c s.
Proof.
  split; [|apply join_split_loop; done].
  eapply Forall_impl; [apply split_loop_no_delim|]. intros w Hw.
  eapply Forall_impl; [apply Hw|]. set_solver.
Qed.

(** [strip] removes exactly a whitespace prefix and a whitespace suffix. *)
Lemma strip_correct s :
  exists pre post, s = pre ++ strip s ++ post /\
    Forall (fun c => isspace c = true) (pre ++ post) /\
    (forall c, head (strip s) = Some c -> isspace c = false) /\
    (forall c, last (strip s) = Some c -> isspace c = false).
Proof.
  destruct (drop_while_suffix isspace s) as (pre & E & Hpre).
  destruct (trim_right_if_prefix isspace (drop_while isspace s)) as (post & E' & Hpost).
  exists pre, post. unfold strip. split; [by rewrite <- E'|]. split; [by apply Forall_app|].
  split; [|apply trim_right_if_last].
  intros c Hc. destruct (trim_right_if isspace (drop_while isspace s)) as [|y t] eqn:Et; [done|].
  injection Hc as ->. by eapply (drop_while_head isspace s c (t ++ post)).
Qed.

(** Searching and splitting at a separator after a word without it. *)
Lemma find_char_app c s t : c ∉ s -> find_char c (s ++ c :: t) = Some (length s).
Proof.
  induction s as [|x s IH]; intros Hs; cbn; [by rewrite decide_True|].
  apply not_elem_of_cons in Hs as [Hx Hs]. rewrite decide_False by congruence. by rewrite IH.
Qed.
Lemma split_on_app c w s : c ∉ w -> split_on (is_char c) (w ++ c :: s) = w :: split_on (is_char c) s.
Proof.
  induction w as [|x w IH]; intros Hw; cbn.
  - unfold is_char at 1. by rewrite bool_decide_eq_true_2.
  - apply not_elem_of_cons in Hw as [Hx Hw]. unfold is_char at 1.
    rewrite bool_decide_eq_false_2 by congruence. by rewrite IH.
Qed.
Lemma split_on_nonempty f s : split_on f s <> [].
Proof. destruct s as [|x s]; cbn; [done|]. destruct (f x); [done|]. by destruct (split_on f s). Qed.
Lemma getlines_app c w rest : c ∉ w -> getlines c (w ++ c :: rest) = w :: getlines c rest.
Proof.
  intros Hc. unfold getlines. rewrite (split_on_app c w rest Hc).
  pose proof (split_on_nonempty (is_char c) rest) as Hn.
  destruct (split_on (is_char c) rest) as [|x l] eqn:E; [done|].
  change (last (w :: x :: l)) with (last (x :: l)).
  change (removelast (w :: x :: l)) with (w :: removelast (x :: l)).
  by destruct (last (x :: l)) as [[|]|].
Qed.

(** [strnstr] scans one offset too few: it never finds a needle that ends the
    haystack, not even the haystack itself. *)
Lemma strnstr_self needle : strnstr needle needle = None.
Proof. unfold strnstr. by rewrite Nat.sub_diag. Qed.

(** Splitting a string at a separator gives pieces without the separator,
    and joining them again gives the string, less a separator at its end. *)
Theorem split_join_roundtrip c s :
  Forall (fun w => Forall (fun x => x <> c) w) (split s [c]) /\ JoinString (split s [c]) [c] = chop c s.
Proof. apply split_correct. Qed.

(** [strip] removes exactly the white space at both ends. *)
Theorem strip_ends s :
  exists pre post, s = pre ++ strip s ++ post /\
    Forall (fun c => isspace c = true) (pre ++ post) /\
    (forall c, head (strip s) = Some c -> isspace c = false) /\
    (forall c, last (strip s) = Some c -> isspace c = false).
Proof. apply strip_correct. Qed.
