(* ===== verification/Decimal.v ===== *)
(** * Numbers as text

    [operator<<] of an [int], [StringPrintf] with [%d] and [%05d], and the
    reading of such numbers.  Checkpoint paths carry epochs printed with
    [%05d]; they sort like the numbers as long as five digits are enough. *)
From stdpp Require Import sorting.
From S2P Require Import Prelude StringPiece.

Fixpoint digits (fuel : nat) (n : Z) (acc : cstr) : cstr :=
  match fuel with
  | O => acc
  | S fuel =>
    let acc := char_of (48 + n mod 10) :: acc in
    if n <? 10 then acc else digits fuel (n / 10) acc
  end.
Definition show_int (n : Z) : cstr :=
  if n <? 0 then "-"%char :: digits 20 (- n) [] else digits 20 n [].

(** [%05d]: zeros up to five characters, the sign included. *)
Definition zero_pad (width : nat) (s : cstr) : cstr := replicate (width - length s) "0"%char ++ s.
Definition show_05d (n : Z) : cstr :=
  if n <? 0 then "-"%char :: zero_pad 4 (digits 20 (- n) []) else zero_pad 5 (digits 20 n []).

(** Reading. *)
Definition parse_digits (s : cstr) (n : Z) : Z := fold_left (fun n c => 10 * n + (uchar c - 48)) s n.
Definition parse_int (s : cstr) : outcome Z :=
  match s with
  | [] => Throw
  | c :: s' => if decide (c = "-"%char) then Ok (- parse_digits s' 0) else Ok (parse_digits s 0)
  end.

(** ** Printed numbers *)
(** A character that a printed number may have. *)
Definition plain (c : ascii) : bool := isdigit c || bool_decide (c = "-"%char).

Lemma digit_plain x : 0 <= x < 10 -> plain (char_of (48 + x)) = true.
Proof.
  intros Hx. unfold plain, isdigit. rewrite uchar_char_of by lia.
  apply orb_true_iff. left. apply andb_true_iff. split; apply Z.leb_le; lia.
Qed.
Lemma digits_plain fuel : forall n acc, Forall (fun c => plain c = true) acc ->
  Forall (fun c => plain c = true) (digits fuel n acc).
Proof.
  induction fuel as [|fuel IH]; intros n acc Hacc; [done|]. cbn [digits].
  assert (Forall (fun c => plain c = true) (char_of (48 + n mod 10) :: acc)) as Hc.
  { constructor; [|done]. apply digit_plain, Z.mod_pos_bound. lia. }
  destruct (n <? 10); [done|]. by apply IH.
Qed.
Lemma show_int_plain n : Forall (fun c => plain c = true) (show_int n).
Proof.
  unfold show_int. destruct (n <? 0); [constructor; [done|]|]; by apply digits_plain.
Qed.
Lemma digits_nonempty fuel : forall n acc, acc <> [] -> digits fuel n acc <> [].
Proof. induction fuel as [|fuel IH]; intros n acc Ha; [done|]. cbn. destruct (n <? 10); [done|]. by apply IH. Qed.
Lemma show_int_nonempty n : show_int n <> [].
Proof.
  unfold show_int. destruct (n <? 0); [done|]. cbn [digits].
  destruct (n <? 10); [done|]. by apply (digits_nonempty 19).
Qed.

Lemma parse_digits_spec fuel : forall n acc, 0 <= n < 10 ^ Z.of_nat fuel ->
  parse_digits (digits fuel n acc) 0 = parse_digits acc n.
Proof.
  induction fuel as [|fuel IH]; intros n acc Hn; [cbn in *; by replace n with 0 by lia|]. cbn [digits].
  assert (parse_digits (char_of (48 + n mod 10) :: acc) (n / 10) = parse_digits acc n) as E.
  { cbn [parse_digits fold_left]. unfold parse_digits. f_equal.
    pose proof (Z.mod_pos_bound n 10 ltac:(lia)). rewrite uchar_char_of by lia.
    pose proof (Z.div_mod n 10). lia. }
  destruct (Z.ltb_spec n 10).
  - rewrite <- E. by rewrite Z.div_small by lia.
  - rewrite IH; [done|]. rewrite Nat2Z.inj_succ, Z.pow_succ_r in Hn by lia.
    split; [apply Z.div_pos; lia|]. apply Z.div_lt_upper_bound; lia.
Qed.
Lemma digits_head fuel n : 0 <= n -> forall acc, head acc <> Some "-"%char -> head (digits fuel n acc) <> Some "-"%char.
Proof.
  revert n. induction fuel as [|fuel IH]; intros n Hn acc Ha; [done|]. cbn [digits].
  assert (head (char_of (48 + n mod 10) :: acc) <> Some "-"%char) as Hc.
  { cbn. intros [= E]. apply (f_equal uchar) in E. pose proof (Z.mod_pos_bound n 10 ltac:(lia)).
    rewrite uchar_char_of in E by lia. change (uchar "-") with 45 in E. lia. }
  destruct (n <? 10); [done|]. apply IH; [|done]. by apply Z.div_pos.
Qed.
Lemma parse_show i : - 2 ^ 31 <= i < 2 ^ 31 -> parse_int (show_int i) = Ok i.
Proof.
  intros Hi. unfold show_int. destruct (Z.ltb_spec i 0).
  - unfold parse_int. rewrite decide_True by done. rewrite parse_digits_spec by lia. cbn. f_equal. lia.
  - pose proof (digits_head 20 i ltac:(lia) [] ltac:(done)) as Hh.
    pose proof (parse_digits_spec 20 i [] ltac:(lia)) as Hp.
    destruct (digits 20 i []) as [|c s] eqn:E.
    { exfalso. pose proof (show_int_nonempty i) as Hs. unfold show_int in Hs.
      destruct (Z.ltb_spec i 0); [lia|]. by rewrite E in Hs. }
    unfold parse_int. rewrite decide_False by (by intros ->). by rewrite Hp.
Qed.

(** ** Fixed width: the order of the texts is the order of the numbers *)
Definition is_digits (s : cstr) : Prop := Forall (fun c => isdigit c = true) s.

Lemma parse_digits_app s t n : parse_digits (s ++ t) n = parse_digits t (parse_digits s n).
Proof. apply fold_left_app. Qed.
Lemma parse_zeros k n : parse_digits (replicate k "0"%char) n = n * 10 ^ Z.of_nat k.
Proof.
  revert n. induction k as [|k IH]; intros n; [cbn; lia|]. cbn [replicate parse_digits fold_left].
  change (fold_left _ (replicate k "0"%char) ?m) with (parse_digits (replicate k "0"%char) m). rewrite IH.
  change (uchar "0") with 48. rewrite Nat2Z.inj_succ, Z.pow_succ_r by lia. lia.
Qed.
Lemma digits_digits fuel : forall n acc, is_digits acc -> is_digits (digits fuel n acc).
Proof.
  induction fuel as [|fuel IH]; intros n acc Hacc; [done|]. cbn [digits].
  assert (is_digits (char_of (48 + n mod 10) :: acc)) as Hc.
  { constructor; [|done]. pose proof (Z.mod_pos_bound n 10 ltac:(lia)). unfold isdigit.
    rewrite uchar_char_of by lia. apply andb_true_iff. split; apply Z.leb_le; lia. }
  destruct (n <? 10); [done|]. by apply IH.
Qed.
Lemma digits_length fuel : forall n acc k, 0 <= n < 10 ^ Z.of_nat k -> (0 < k)%nat ->
  (length (digits fuel n acc) <= length acc + k)%nat.
Proof.
  induction fuel as [|fuel IH]; intros n acc k Hn Hk; [cbn; lia|]. cbn [digits].
  destruct (Z.ltb_spec n 10); [cbn; lia|]. destruct k as [|[|k]]; [lia|cbn in Hn; lia|].
  etransitivity; [apply (IH _ _ (S k))|cbn; lia]; [|lia].
  rewrite (Nat2Z.inj_succ (S k)), Z.pow_succ_r in Hn by lia.
  split; [apply Z.div_pos; lia|]. apply Z.div_lt_upper_bound; lia.
Qed.

Lemma show_05d_spec n : 0 <= n < 10 ^ 5 ->
  length (show_05d n) = 5%nat /\ is_digits (show_05d n) /\ parse_digits (show_05d n) 0 = n.
Proof.
  intros Hn. unfold show_05d, zero_pad. destruct (Z.ltb_spec n 0); [lia|].
  pose proof (digits_length 20 n [] 5 ltac:(lia) ltac:(lia)) as Hl. cbn [length] in Hl.
  split_and!.
  - rewrite length_app, length_replicate. lia.
  - apply Forall_app. split; [by apply Forall_replicate|apply digits_digits, Forall_nil_2].
  - rewrite parse_digits_app, parse_zeros, Z.mul_0_l. by rewrite parse_digits_spec by lia.
Qed.

(** The order of [glob]'s result: byte by byte. *)
Fixpoint bytes_leb (s t : cstr) : bool :=
  match s, t with
  | [], _ => true
  | _ :: _, [] => false
  | a :: s, b :: t => if uchar a =? uchar b then bytes_leb s t else uchar a <? uchar b
  end.
Lemma bytes_leb_app p s t : bytes_leb (p ++ s) (p ++ t) = bytes_leb s t.
Proof. induction p as [|c p IH]; [done|]. cbn. by rewrite Z.eqb_refl. Qed.
Lemma parse_digits_shift s n : parse_digits s n = n * 10 ^ Z.of_nat (length s) + parse_digits s 0.
Proof.
  revert n. induction s as [|c s IH]; intros n; [cbn; lia|]. cbn [parse_digits fold_left length].
  change (fold_left _ s ?m) with (parse_digits s m). rewrite (IH (10 * n + _)), (IH (10 * 0 + _)).
  rewrite Nat2Z.inj_succ, Z.pow_succ_r by lia. lia.
Qed.
Lemma isdigit_range c : isdigit c = true -> 48 <= uchar c <= 57.
Proof. unfold isdigit. intros [?%Z.leb_le ?%Z.leb_le]%andb_true_iff. lia. Qed.
Lemma parse_digits_bound s : is_digits s -> 0 <= parse_digits s 0 < 10 ^ Z.of_nat (length s).
Proof.
  induction 1 as [|c s Hc Hs IH]; [cbn; lia|]. cbn [parse_digits fold_left length].
  change (fold_left _ s ?m) with (parse_digits s m). rewrite parse_digits_shift.
  apply isdigit_range in Hc. rewrite Nat2Z.inj_succ, Z.pow_succ_r by lia. nia.
Qed.
Lemma bytes_leb_digits s : forall t, is_digits s -> is_digits t -> length s = length t ->
  bytes_leb s t = (parse_digits s 0 <=? parse_digits t 0).
Proof.
  induction s as [|a s IH]; intros [|b t] Hs Ht Hl; try done.
  apply Forall_cons in Hs as [Ha Hs]. apply Forall_cons in Ht as [Hb Ht]. injection Hl as Hl.
  cbn [bytes_leb parse_digits fold_left].
  change (fold_left _ s ?m) with (parse_digits s m). change (fold_left _ t ?m) with (parse_digits t m).
  rewrite (parse_digits_shift s), (parse_digits_shift t), (IH t Hs Ht Hl), <- Hl.
  pose proof (parse_digits_bound s Hs). pose proof (parse_digits_bound t Ht) as Hbt. rewrite <- Hl in Hbt.
  apply isdigit_range in Ha, Hb. set (p := 10 ^ Z.of_nat (length s)) in *.
  destruct (Z.eqb_spec (uchar a) (uchar b)) as [->|Hne].
  - destruct (Z.leb_spec (parse_digits s 0) (parse_digits t 0)); symmetry; [apply Z.leb_le|apply Z.leb_gt]; lia.
  - destruct (Z.ltb_spec (uchar a) (uchar b)); symmetry; [apply Z.leb_le|apply Z.leb_gt]; nia.
Qed.

(** The order is total, so that sorted lists end with a largest element. *)
Definition bytes_le (s t : cstr) : Prop := bytes_leb s t = true.
#[export] Instance bytes_le_dec : RelDecision bytes_le := fun s t => decide (bytes_leb s t = true).
#[export] Instance bytes_le_total : Total bytes_le.
Proof.
  intros s. unfold bytes_le. induction s as [|a s IH]; intros [|b t]; cbn; auto.
  rewrite (Z.eqb_sym (uchar b)). destruct (Z.eqb_spec (uchar a) (uchar b)); [apply IH|].
  destruct (Z.ltb_spec (uchar a) (uchar b)); [by left|]. right. apply Z.ltb_lt. lia.
Qed.
#[export] Instance bytes_le_trans : Transitive bytes_le.
Proof.
  intros s. unfold bytes_le. induction s as [|a s IH]; intros [|b t] [|c u]; cbn; try done.
  destruct (Z.eqb_spec (uchar a) (uchar b)) as [->|]; destruct (Z.eqb_spec (uchar b) (uchar c)) as [E|];
    rewrite ?Z.ltb_lt; intros H1 H2.
  - by eapply IH.
  - done.
  - rewrite <- E. destruct (Z.eqb_spec (uchar a) (uchar b)); [done|]. by apply Z.ltb_lt.
  - destruct (Z.eqb_spec (uchar a) (uchar c)); [lia|]. apply Z.ltb_lt. lia.
Qed.
Lemma sorted_last l m x : StronglySorted bytes_le l -> last l = Some m -> x ∈ l -> x = m \/ bytes_le x m.
Proof.
  induction 1 as [|a l Hs IH Ha]; intros Hl Hx; [done|].
  apply elem_of_cons in Hx as [->|Hx].
  - destruct l as [|b l]; [injection Hl as ->; by left|]. right. rewrite Forall_forall in Ha. apply Ha.
    apply last_Some_elem_of. by rewrite <- Hl.
  - apply IH; [|done]. by destruct l; [by apply not_elem_of_nil in Hx|].
Qed.
