(* ===== verification/Float.v ===== *)
(** * IEEE 754 arithmetic

    The program computes with [float] and [double].  Both are modelled by the
    Standard Library's [spec_float], whose operations round to nearest even at
    a given precision: [prec] 24, [emax] 128 for [float] and [prec] 53, [emax]
    1024 for [double].  The file also shows that the comparison [<] is a strict
    weak order on the numbers that are not NaN, which is what a [std::multimap]
    keyed by [float] needs. *)
From Stdlib Require Export SpecFloat.
From S2P Require Import Prelude.

Definition f32_add (x y : spec_float) : spec_float := SFadd 24 128 x y.
Definition f32_sub (x y : spec_float) : spec_float := SFsub 24 128 x y.
Definition f32_mul (x y : spec_float) : spec_float := SFmul 24 128 x y.
Definition f32_div (x y : spec_float) : spec_float := SFdiv 24 128 x y.
Definition f64_add (x y : spec_float) : spec_float := SFadd 53 1024 x y.
Definition f64_sub (x y : spec_float) : spec_float := SFsub 53 1024 x y.
Definition f64_mul (x y : spec_float) : spec_float := SFmul 53 1024 x y.
Definition f64_div (x y : spec_float) : spec_float := SFdiv 53 1024 x y.

(** Conversions: of an integer, and between the two formats. *)
Definition f32_of_Z (n : Z) : spec_float := binary_normalize 24 128 n 0 false.
Definition f64_of_Z (n : Z) : spec_float := binary_normalize 53 1024 n 0 false.
Definition convert (prec emax : Z) (x : spec_float) : spec_float :=
  match x with
  | S754_finite s m e => binary_normalize prec emax (cond_Zopp s (Z.pos m)) e s
  | _ => x
  end.
Definition f64_of_f32 : spec_float -> spec_float := convert 53 1024.
Definition f32_of_f64 : spec_float -> spec_float := convert 24 128.

(** [std::numeric_limits<T>::max()]. *)
Definition f32_max : spec_float := S754_finite false (2 ^ 24 - 1) 104.
Definition f64_max : spec_float := S754_finite false (2 ^ 53 - 1) 971.

Definition not_nan (x : spec_float) : Prop := x <> S754_nan.
#[export] Instance not_nan_dec x : Decision (not_nan x).
Proof. destruct x; (by left) || (right; by intros []). Defined.

(** ** Numbers

    Rounding keeps the significand non-negative, so that the conversion of an
    integer, or of a number of another format, is never NaN. *)
Lemma shr_1_nonneg r : 0 <= shr_m r -> 0 <= shr_m (shr_1 r).
Proof. destruct r as [[|[]|] ? ?]; cbn; lia. Qed.
Lemma iter_shr_nonneg p r : 0 <= shr_m r -> 0 <= shr_m (SpecFloat.iter_pos shr_1 p r).
Proof. revert r. induction p as [p IH|p IH|]; intros r Hr; cbn; auto using shr_1_nonneg. Qed.
Lemma shr_fexp_nonneg prec emax m e l : 0 <= m -> 0 <= shr_m (shr_fexp prec emax m e l).1.
Proof.
  intros Hm. unfold shr_fexp, shr.
  assert (0 <= shr_m (shr_record_of_loc m l)) as Hr by (by destruct l as [|[]]).
  case_match; cbn; auto using iter_shr_nonneg.
Qed.
Lemma binary_round_aux_num prec emax sx m e l : 0 <= m -> not_nan (binary_round_aux prec emax sx m e l).
Proof.
  intros Hm. unfold binary_round_aux. pose proof (shr_fexp_nonneg prec emax m e l Hm) as H1.
  destruct (shr_fexp prec emax m e l) as [r1 e1]. cbn [fst] in H1. set (q := round_nearest_even _ _).
  assert (0 <= q) as Hq by (subst q; unfold round_nearest_even; repeat case_match; lia).
  pose proof (shr_fexp_nonneg prec emax q e1 loc_Exact Hq) as H2.
  destruct (shr_fexp prec emax q e1 loc_Exact) as [r2 e2]. cbn [fst] in H2.
  destruct (shr_m r2); [done|by case_match|lia].
Qed.
Lemma binary_normalize_num prec emax m e s : not_nan (binary_normalize prec emax m e s).
Proof.
  destruct m; [done|..]; cbn [binary_normalize]; unfold binary_round; case_match; by apply binary_round_aux_num.
Qed.
Lemma convert_num prec emax x : not_nan x -> not_nan (convert prec emax x).
Proof. destruct x; try done. intros _. apply binary_normalize_num. Qed.
Lemma f32_of_integer n : not_nan (f32_of_f64 (f64_of_Z n)).
Proof. apply convert_num, binary_normalize_num. Qed.

(** ** The order

    [rank] embeds the numbers in triples ordered lexicographically. *)
Definition rank (x : spec_float) : Z * Z * Z :=
  match x with
  | S754_zero _ => (0, 0, 0)
  | S754_infinity s => (if s then -2 else 2, 0, 0)
  | S754_nan => (0, 0, 0)
  | S754_finite s m e => if s then (-1, - e, Z.neg m) else (1, e, Z.pos m)
  end.
Definition lex_lt (a b : Z * Z * Z) : Prop :=
  a.1.1 < b.1.1 \/ (a.1.1 = b.1.1 /\ (a.1.2 < b.1.2 \/ (a.1.2 = b.1.2 /\ a.2 < b.2))).

Lemma SFltb_rank x y : not_nan x -> not_nan y -> SFltb x y = true <-> lex_lt (rank x) (rank y).
Proof.
  unfold not_nan, SFltb, lex_lt. intros Hx Hy.
  destruct x as [sx|sx| |sx mx ex], y as [sy|sy| |sy my ey]; try done;
    try (destruct sx); try (destruct sy); cbn; try (split; (done || lia)).
  all: change (Pos.compare_cont Eq mx my) with (Pos.compare mx my).
  all: destruct (Z.compare_spec ex ey); destruct (Pos.compare_spec mx my); cbn; split; (done || lia).
Qed.

Lemma SFltb_irrefl x : SFltb x x = false.
Proof.
  destruct x as [s|s| |s m e]; [done|by destruct s|done|]. unfold SFltb; cbn.
  change (Pos.compare_cont Eq m m) with (Pos.compare m m).
  rewrite Z.compare_refl, Pos.compare_refl. by destruct s.
Qed.

Lemma SFltb_trans x y z : not_nan y -> SFltb x y = true -> SFltb y z = true -> SFltb x z = true.
Proof.
  intros Hy H1 H2.
  assert (not_nan x) by (intros ->; done).
  assert (not_nan z) by (intros ->; destruct y; done).
  rewrite SFltb_rank in * by done. unfold lex_lt in *. lia.
Qed.

(** Incomparability is transitive, so [<] and [<=] mix as in a total preorder. *)
Lemma SFltb_weak x y z :
  not_nan x -> not_nan y -> not_nan z -> SFltb x y = false -> SFltb y z = false -> SFltb x z = false.
Proof.
  intros Hx Hy Hz H1 H2. apply not_true_is_false. intros H.
  apply not_true_iff_false in H1, H2. rewrite SFltb_rank in * by done. unfold lex_lt in *. lia.
Qed.

Lemma SFltb_asym x y : not_nan y -> SFltb x y = true -> SFltb y x = false.
Proof.
  intros Hy H1. apply not_true_is_false. intros H2.
  pose proof (SFltb_trans x y x Hy H1 H2) as H3. by rewrite SFltb_irrefl in H3.
Qed.
