(* ===== verification/Probe.v ===== *)
(** * Linear probing

    The two local tables of the kernel ([StateTable] in kernel/statetable.h and
    [DeltaTable] in kernel/deltatable.h) store their rows in a vector of buckets
    and share, word for word, the hash index [bucket_idx], the search loop of
    [bucket_for_key] and the search loop at the head of [put].  This file holds
    that common code over an abstract payload, the invariant of the bucket
    array and the abstraction of the array to a finite map.  The tables
    instantiate the payload with their value fields. *)
From S2P Require Import Prelude.

(** [std::tr1::hash<K>]: a [size_t] for each key.  The instance for the
    integral keys of the examples is the identity cast of libstdc++. *)
Class Hashable (K : Type) := {
  hash : K -> Z;
  hash_nonneg : forall k, 0 <= hash k
}.

#[export] Instance Hashable_long : Hashable Z.
Proof. refine {| hash := to_uint64 |}. intros. apply wrapu_range. lia. Defined.

Record bucket (K A : Type) : Type := Bucket { bk : K; bval : A; in_use : bool }.
Arguments Bucket {K A} _ _ _.
Arguments bk {K A} _.
Arguments bval {K A} _.
Arguments in_use {K A} _.

Section Probe.
Context {K A : Type} `{Countable K} `{!Hashable K}.
Implicit Types (bs : list (bucket K A)) (k : K) (i d h n : nat).

(** [uint32_t bucket_idx(K k) { return hashobj_(k) % size_; }], converted to
    the [int] that the callers keep it in. *)
Definition bucket_idx (size : Z) k : Z := to_int32 (to_uint32 (hash k mod to_uint64 size)).

(** The [do ... while] loop of [bucket_for_key]: one unfolding per iteration. *)
Fixpoint find_loop bs (size : Z) k (start : Z) (fuel : nat) (b : Z) : outcome Z :=
  match fuel with
  | O => OutOfFuel
  | S fuel =>
    x ← vec_at bs b;
    if in_use x then
      if decide (bk x = k) then Ok b
      else
        let b' := Z.rem (b + 1) size in
        if b' =? start then Ok (-1) else find_loop bs size k start fuel b'
    else Ok (-1)
  end.

(** The [do ... while] loop of [put]: the final [b] and the flag [found]. *)
Fixpoint put_loop bs (size : Z) k (start : Z) (fuel : nat) (b : Z) : outcome (Z * bool) :=
  match fuel with
  | O => OutOfFuel
  | S fuel =>
    x ← vec_at bs b;
    if negb (in_use x) then Ok (b, false)
    else if decide (bk x = k) then Ok (b, true)
    else
      let b' := Z.rem (b + 1) size in
      if b' =? start then Ok (b', false) else put_loop bs size k start fuel b'
  end.

(** Rows of the array in bucket order. *)
Definition row_of (x : bucket K A) : option (K * A) :=
  if in_use x then Some (bk x, bval x) else None.
Definition rows bs : list (K * A) := omap row_of bs.

#[local] Arguments rows _ : simpl never.

(** The finite map that the array represents. *)
Definition to_map bs : gmap K A := list_to_map (rows bs).

(** ** The invariant of the array *)
Definition home bs k : nat := Z.to_nat (hash k mod Z.of_nat (length bs)).
Definition slot_at n h d : nat := ((h + d) mod n)%nat.
Definition occupied bs i : Prop := exists x, bs !! i = Some x /\ in_use x = true.
Definition holds bs i k : Prop := exists x, bs !! i = Some x /\ in_use x = true /\ bk x = k.

Definition keys_unique bs : Prop := forall i j k, holds bs i k -> holds bs j k -> i = j.

(** No key is stored twice, and every stored key is reachable from its home
    bucket through occupied buckets only.  The size fits an [int]. *)
Record probe_inv bs : Prop := {
  inv_pos : (0 < length bs)%nat;
  inv_int : Z.of_nat (length bs) < 2 ^ 31;
  inv_unique : keys_unique bs;
  inv_reach : forall i k, holds bs i k ->
    exists d, (d < length bs)%nat /\ i = slot_at (length bs) (home bs k) d
      /\ forall d', (d' < d)%nat -> occupied bs (slot_at (length bs) (home bs k) d')
}.

Definition absent bs k : Prop := forall i, ~ holds bs i k.

(** ** Arithmetic of slots *)
Lemma bucket_idx_home bs k :
  (0 < length bs)%nat -> Z.of_nat (length bs) < 2 ^ 31 ->
  bucket_idx (Z.of_nat (length bs)) k = Z.of_nat (home bs k).
Proof.
  intros H1 H2. unfold bucket_idx, home.
  pose proof (hash_nonneg k).
  rewrite (wrapu_small 64) by lia.
  pose proof (Z.mod_pos_bound (hash k) (Z.of_nat (length bs))).
  rewrite to_uint32_small, to_int32_small by lia. lia.
Qed.

Lemma home_lt bs k : (0 < length bs)%nat -> (home bs k < length bs)%nat.
Proof.
  intros. unfold home. pose proof (Z.mod_pos_bound (hash k) (Z.of_nat (length bs))). lia.
Qed.

Lemma slot_at_lt n h d : (0 < n)%nat -> (slot_at n h d < n)%nat.
Proof. intros. apply Nat.mod_upper_bound. lia. Qed.

Lemma slot_at_0 n h : (h < n)%nat -> slot_at n h 0 = h.
Proof. intros. unfold slot_at. rewrite Nat.add_0_r. by apply Nat.mod_small. Qed.

Lemma slot_at_S n h d :
  (0 < n)%nat -> Z.rem (Z.of_nat (slot_at n h d) + 1) (Z.of_nat n) = Z.of_nat (slot_at n h (S d)).
Proof.
  intros. rewrite Z.rem_mod_nonneg by lia. unfold slot_at.
  rewrite !Nat2Z.inj_mod, !Nat2Z.inj_add. rewrite Zplus_mod_idemp_l. f_equal. lia.
Qed.

Lemma slot_at_inj n h d d' :
  (d < n)%nat -> (d' < n)%nat -> slot_at n h d = slot_at n h d' -> d = d'.
Proof.
  unfold slot_at. intros Hd Hd' E.
  pose proof (Nat.div_mod_eq (h + d) n). pose proof (Nat.div_mod_eq (h + d') n).
  assert ((h + d) / n = (h + d') / n)%nat by nia. nia.
Qed.

Lemma slot_at_wrap n h : (h < n)%nat -> slot_at n h n = h.
Proof.
  intros. unfold slot_at. rewrite <- (Nat.mul_1_l n) at 1. rewrite Nat.Div0.mod_add.
  by apply Nat.mod_small.
Qed.

(** Every index is some number of steps away from any home bucket. *)
Lemma slot_at_surj n h i : (h < n)%nat -> (i < n)%nat -> exists d, (d < n)%nat /\ slot_at n h d = i.
Proof.
  intros. unfold slot_at. destruct (decide (h <= i)%nat).
  - exists (i - h)%nat. split; [lia|]. rewrite Nat.mod_small; lia.
  - exists (i + n - h)%nat. split; [lia|].
    replace (h + (i + n - h))%nat with (i + 1 * n)%nat by lia.
    rewrite Nat.Div0.mod_add. apply Nat.mod_small. lia.
Qed.

(** ** The search loops

    [scanned bs k d]: the first [d] buckets of the probe sequence of [k] are
    occupied by other keys. *)
Definition scanned bs k d : Prop := forall d', (d' < d)%nat ->
  exists x, bs !! slot_at (length bs) (home bs k) d' = Some x /\ in_use x = true /\ bk x <> k.

Lemma scanned_S bs k d x :
  scanned bs k d -> bs !! slot_at (length bs) (home bs k) d = Some x ->
  in_use x = true -> bk x <> k -> scanned bs k (S d).
Proof.
  intros Hs Hx Hu Hk d' Hd'. destruct (decide (d' = d)) as [->|]; [eauto|].
  apply Hs. lia.
Qed.

(** A scan that stops at a free bucket shows that the key is absent. *)
Lemma scanned_free_absent bs k d x :
  probe_inv bs -> scanned bs k d ->
  bs !! slot_at (length bs) (home bs k) d = Some x -> in_use x = false -> absent bs k.
Proof.
  intros Hinv Hs Hx Hu i Hh. destruct (inv_reach _ Hinv _ _ Hh) as (e & He & -> & Hocc).
  destruct Hh as (y & Hy & Huy & Hky).
  destruct (Nat.lt_trichotomy e d) as [Hlt|[->|Hlt]].
  - destruct (Hs e Hlt) as (z & Hz & _ & Hne). congruence.
  - congruence.
  - destruct (Hocc d Hlt) as (z & Hz & Huz). congruence.
Qed.

(** A scan of the whole array shows that the key is absent and no bucket free. *)
Lemma scanned_full bs k :
  (0 < length bs)%nat -> scanned bs k (length bs) ->
  absent bs k /\ forall i, (i < length bs)%nat -> occupied bs i.
Proof.
  intros Hn Hs. split.
  - intros i (x & Hx & Hu & Hk). pose proof (lookup_lt_Some _ _ _ Hx) as Hi.
    destruct (slot_at_surj _ (home bs k) i (home_lt bs k Hn) Hi) as (d & Hd & <-).
    destruct (Hs d Hd) as (z & Hz & _ & Hne). congruence.
  - intros i Hi. destruct (slot_at_surj _ (home bs k) i (home_lt bs k Hn) Hi) as (d & Hd & <-).
    destruct (Hs d Hd) as (z & Hz & Hu & _). by exists z.
Qed.

Lemma slot_lookup bs k d :
  (0 < length bs)%nat -> exists x, bs !! slot_at (length bs) (home bs k) d = Some x.
Proof. intros. apply lookup_lt_is_Some_2, slot_at_lt. done. Qed.

(** The wrap-around test [b != start] of both loops. *)
Lemma slot_wrap_test bs k d :
  (0 < length bs)%nat -> (d < length bs)%nat ->
  (Z.of_nat (slot_at (length bs) (home bs k) (S d)) =? Z.of_nat (home bs k)) =
  bool_decide (S d = length bs).
Proof.
  intros Hn Hd. pose proof (home_lt bs k Hn) as Hh. apply Bool.eq_iff_eq_true.
  rewrite Z.eqb_eq, bool_decide_eq_true. split.
  - intros E. apply Nat2Z.inj in E.
    destruct (decide (S d = length bs)) as [|Hne]; [done|exfalso].
    rewrite <- (slot_at_0 (length bs) (home bs k)) in E at 2 by done.
    apply slot_at_inj in E; lia.
  - intros ->. by rewrite slot_at_wrap.
Qed.

Lemma find_loop_spec bs k fuel d :
  probe_inv bs -> scanned bs k d -> (d < length bs)%nat -> (length bs - d <= fuel)%nat ->
  let r := find_loop bs (Z.of_nat (length bs)) k (Z.of_nat (home bs k)) fuel
             (Z.of_nat (slot_at (length bs) (home bs k) d)) in
  (exists i, r = Ok (Z.of_nat i) /\ holds bs i k) \/ (r = Ok (-1) /\ absent bs k).
Proof.
  intros Hinv. pose proof (inv_pos _ Hinv) as Hn.
  revert d. induction fuel as [|fuel IH]; intros d Hs Hd Hf; [lia|]. cbn [find_loop].
  destruct (slot_lookup bs k d Hn) as (x & Hx).
  rewrite (vec_at_Some _ _ _ Hx). cbn [mbind outcome_bind].
  destruct (in_use x) eqn:Hu; [|right; eauto using scanned_free_absent].
  case_decide as Hk; [left; eexists; split; [done|]; by exists x|].
  rewrite slot_at_S, slot_wrap_test by done.
  assert (scanned bs k (S d)) as Hs' by eauto using scanned_S.
  case_bool_decide as HS.
  - right. split; [done|]. rewrite HS in Hs'. by apply scanned_full.
  - apply IH; [done|lia|lia].
Qed.

(** What [put_loop] finds: the bucket of the key, the first free bucket of
    its probe sequence, or, in a full array, its home bucket. *)
Definition put_found bs k i : Prop := holds bs i k.
Definition put_free bs k i : Prop := absent bs k /\
  exists d x, (d < length bs)%nat /\ i = slot_at (length bs) (home bs k) d /\
    scanned bs k d /\ bs !! i = Some x /\ in_use x = false.
Definition put_full bs k i : Prop := absent bs k /\ i = home bs k /\
  forall j, (j < length bs)%nat -> occupied bs j.

Lemma put_loop_spec bs k fuel d :
  probe_inv bs -> scanned bs k d -> (d < length bs)%nat -> (length bs - d <= fuel)%nat ->
  exists i found,
    put_loop bs (Z.of_nat (length bs)) k (Z.of_nat (home bs k)) fuel
      (Z.of_nat (slot_at (length bs) (home bs k) d)) = Ok (Z.of_nat i, found) /\
    (i < length bs)%nat /\
    if found then put_found bs k i else put_free bs k i \/ put_full bs k i.
Proof.
  intros Hinv. pose proof (inv_pos _ Hinv) as Hn.
  revert d. induction fuel as [|fuel IH]; intros d Hs Hd Hf; [lia|]. cbn [put_loop].
  destruct (slot_lookup bs k d Hn) as (x & Hx).
  rewrite (vec_at_Some _ _ _ Hx). cbn [mbind outcome_bind].
  pose proof (slot_at_lt (length bs) (home bs k) d Hn) as Hlt.
  destruct (in_use x) eqn:Hu; cbn [negb].
  2: { eexists _, false. split; [done|]. split; [done|]. left.
       split; [eauto using scanned_free_absent|]. by exists d, x. }
  case_decide as Hk; [eexists _, true; split; [done|]; split; [done|]; by exists x|].
  rewrite slot_at_S, slot_wrap_test by done.
  assert (scanned bs k (S d)) as Hs' by eauto using scanned_S.
  case_bool_decide as HS.
  - rewrite HS in Hs' |- *. rewrite slot_at_wrap by (by apply home_lt).
    eexists _, false. split; [done|]. split; [by apply home_lt|]. right.
    destruct (scanned_full bs k Hn Hs'). by repeat split.
  - apply IH; [done|lia|lia].
Qed.

(** ** The represented map *)
Lemma row_of_used (x : bucket K A) : in_use x = true -> row_of x = Some (bk x, bval x).
Proof. unfold row_of. by intros ->. Qed.

Lemma row_of_free (x : bucket K A) : in_use x = false -> row_of x = None.
Proof. unfold row_of. by intros ->. Qed.

Lemma rows_cons x bs :
  rows (x :: bs) = match row_of x with Some r => r :: rows bs | None => rows bs end.
Proof. reflexivity. Qed.

Lemma rows_app bs bs' : rows (bs ++ bs') = rows bs ++ rows bs'.
Proof. apply omap_app. Qed.

Lemma elem_of_rows bs k a :
  (k, a) ∈ rows bs <-> exists i x, bs !! i = Some x /\ in_use x = true /\ bk x = k /\ bval x = a.
Proof.
  unfold rows. rewrite list_elem_of_omap. split.
  - intros (x & Hx & Hr). apply list_elem_of_lookup in Hx as [i Hi].
    unfold row_of in Hr. destruct (in_use x) eqn:Hu; [|done]. exists i, x. naive_solver.
  - intros (i & x & Hi & Hu & <- & <-). exists x. split; [by eapply list_elem_of_lookup_2|].
    unfold row_of. by rewrite Hu.
Qed.

Lemma keys_unique_cons x bs : keys_unique (x :: bs) -> keys_unique bs.
Proof.
  intros Hu i j k (y & ? & ? & ?) (z & ? & ? & ?).
  enough (S i = S j) by lia. apply (Hu _ _ k); [exists y|exists z]; done.
Qed.

Lemma rows_keys_NoDup bs : keys_unique bs -> NoDup (rows bs).*1.
Proof.
  induction bs as [|x bs IH]; intros Hu; [constructor|].
  pose proof (IH (keys_unique_cons _ _ Hu)) as Hnd.
  rewrite rows_cons. destruct (in_use x) eqn:Hx; [|by rewrite row_of_free].
  rewrite row_of_used by done. cbn. constructor; [|done].
  intros Hin. apply list_elem_of_fmap in Hin as ([k a] & E & Hin). cbn in E. subst k.
  apply elem_of_rows in Hin as (i & y & Hi & Huy & Hk & _).
  enough (0%nat = S i) by lia. apply (Hu _ _ (bk x)); [by exists x|]. by exists y.
Qed.

Lemma lookup_to_map bs k a :
  keys_unique bs ->
  to_map bs !! k = Some a <->
  exists i x, bs !! i = Some x /\ in_use x = true /\ bk x = k /\ bval x = a.
Proof.
  intros Hu. unfold to_map. rewrite <- elem_of_rows.
  symmetry. by apply elem_of_list_to_map, rows_keys_NoDup.
Qed.

Lemma to_map_holds bs i k x :
  keys_unique bs -> bs !! i = Some x -> in_use x = true -> bk x = k ->
  to_map bs !! k = Some (bval x).
Proof. intros Hu Hi Hx Hk. apply lookup_to_map; [done|]. by exists i, x. Qed.

Lemma to_map_absent bs k : keys_unique bs -> absent bs k <-> to_map bs !! k = None.
Proof.
  intros Hu. split.
  - intros Ha. destruct (to_map bs !! k) as [a|] eqn:E; [|done].
    apply lookup_to_map in E as (i & x & ? & ? & ? & ?); [|done].
    destruct (Ha i). by exists x.
  - intros Hn i (x & Hi & Hx & Hk). rewrite (to_map_holds bs i k x) in Hn; done.
Qed.

Lemma size_to_map bs : keys_unique bs -> size (to_map bs) = length (rows bs).
Proof.
  intros Hu. unfold to_map. rewrite <- length_fmap with (f := fst).
  rewrite <- (map_to_list_to_map (rows bs)) at 2 by by apply rows_keys_NoDup.
  by rewrite length_fmap, length_map_to_list.
Qed.

Lemma length_rows_le bs : (length (rows bs) <= length bs)%nat.
Proof. induction bs as [|x bs IH]; [done|]. rewrite rows_cons. case_match; simpl; lia. Qed.

(** An array with fewer rows than buckets is not full. *)
Lemma rows_full bs :
  (forall i, (i < length bs)%nat -> occupied bs i) -> length (rows bs) = length bs.
Proof.
  induction bs as [|x bs IH]; intros Hf; [done|]. rewrite rows_cons.
  destruct (Hf 0%nat) as (y & [= <-] & Hx); [simpl; lia|].
  rewrite row_of_used by done. simpl. f_equal. apply IH.
  intros i Hi. destruct (Hf (S i)) as (y & Hy & Hu); [simpl; lia|]. by exists y.
Qed.

Lemma rows_insert_used bs i x y :
  bs !! i = Some x -> in_use x = true -> in_use y = true ->
  length (rows (<[i := y]> bs)) = length (rows bs).
Proof.
  revert i. induction bs as [|z bs IH]; intros [|i] Hi Hx Hy; simplify_eq/=; rewrite !rows_cons.
  - by rewrite !row_of_used.
  - specialize (IH i Hi Hx Hy). case_match; simpl; lia.
Qed.

Lemma rows_insert_free bs i x y :
  bs !! i = Some x -> in_use x = false -> in_use y = true ->
  length (rows (<[i := y]> bs)) = S (length (rows bs)).
Proof.
  revert i. induction bs as [|z bs IH]; intros [|i] Hi Hx Hy; simplify_eq/=; rewrite !rows_cons.
  - by rewrite row_of_used, row_of_free.
  - specialize (IH i Hi Hx Hy). case_match; simpl; lia.
Qed.

(** ** The loops from the home bucket, against the represented map *)
Lemma find_start bs k :
  probe_inv bs ->
  let n := Z.of_nat (length bs) in
  let r := find_loop bs n k (bucket_idx n k) (length bs) (bucket_idx n k) in
  (exists i x, r = Ok (Z.of_nat i) /\ bs !! i = Some x /\ in_use x = true /\ bk x = k
               /\ to_map bs !! k = Some (bval x)) \/
  (r = Ok (-1) /\ to_map bs !! k = None).
Proof.
  intros Hinv n r. subst n r. pose proof (inv_pos _ Hinv) as Hn.
  rewrite bucket_idx_home by apply Hinv.
  assert (scanned bs k 0) as H0 by (intros d' Hd'; lia).
  pose proof (find_loop_spec bs k (length bs) 0 Hinv H0 Hn ltac:(lia)) as Hspec.
  cbv zeta in Hspec. rewrite slot_at_0 in Hspec by (by apply home_lt).
  destruct Hspec as [(i & E & x & Hx & Hu & Hk)|[E Ha]]; rewrite E.
  - left. exists i, x. repeat split; try done. apply (to_map_holds _ i); try done. apply Hinv.
  - right. split; [done|]. apply to_map_absent; [apply Hinv|done].
Qed.

Lemma put_start bs k :
  probe_inv bs ->
  let n := Z.of_nat (length bs) in
  exists i found,
    put_loop bs n k (bucket_idx n k) (length bs) (bucket_idx n k) = Ok (Z.of_nat i, found) /\
    (i < length bs)%nat /\
    if found then put_found bs k i else put_free bs k i \/ put_full bs k i.
Proof.
  intros Hinv n. subst n. pose proof (inv_pos _ Hinv) as Hn.
  rewrite bucket_idx_home by apply Hinv.
  assert (scanned bs k 0) as H0 by (intros d' Hd'; lia).
  pose proof (put_loop_spec bs k (length bs) 0 Hinv H0 Hn ltac:(lia)) as Hspec.
  by rewrite slot_at_0 in Hspec by (by apply home_lt).
Qed.

(** ** Writing a bucket *)
Lemma holds_insert bs i j k y :
  holds (<[i := y]> bs) j k <->
  (j = i /\ (i < length bs)%nat /\ in_use y = true /\ bk y = k) \/ (j <> i /\ holds bs j k).
Proof.
  unfold holds. setoid_rewrite list_lookup_insert_Some. split.
  - intros (x & [(-> & -> & ?)|(? & ?)] & ? & ?); naive_solver.
  - intros [(-> & ? & ? & ?)|(? & x & ? & ? & ?)]; [exists y; naive_solver|exists x; naive_solver].
Qed.

Lemma occupied_insert bs i j y :
  in_use y = true -> occupied bs j -> occupied (<[i := y]> bs) j.
Proof.
  intros Hy (x & Hx & Hu). unfold occupied. setoid_rewrite list_lookup_insert_Some.
  pose proof (lookup_lt_Some _ _ _ Hx). destruct (decide (i = j)) as [->|]; eauto 10.
Qed.

Lemma home_insert bs i y k : home (<[i := y]> bs) k = home bs k.
Proof. unfold home. by rewrite length_insert. Qed.

Lemma reach_insert bs i y j k :
  in_use y = true ->
  (exists d, (d < length bs)%nat /\ j = slot_at (length bs) (home bs k) d
      /\ forall d', (d' < d)%nat -> occupied bs (slot_at (length bs) (home bs k) d')) ->
  exists d, (d < length (<[i := y]> bs))%nat /\
    j = slot_at (length (<[i := y]> bs)) (home (<[i := y]> bs) k) d
    /\ forall d', (d' < d)%nat ->
        occupied (<[i := y]> bs) (slot_at (length (<[i := y]> bs)) (home (<[i := y]> bs) k) d').
Proof.
  rewrite home_insert, length_insert. intros Hy (d & Hd & -> & Ho).
  exists d. split; [done|]. split; [done|]. eauto using occupied_insert.
Qed.

Lemma probe_inv_write_used bs i x y :
  probe_inv bs -> bs !! i = Some x -> in_use x = true -> in_use y = true -> bk y = bk x ->
  probe_inv (<[i := y]> bs).
Proof.
  intros Hinv Hx Hux Huy Hk.
  assert (forall j k, holds (<[i := y]> bs) j k -> holds bs j k) as Hh.
  { intros j k. rewrite holds_insert. intros [(-> & _ & _ & <-)|[_ ?]]; [|done]. by exists x. }
  split; [rewrite length_insert; apply Hinv..| |].
  - intros j j' k Hj Hj'. by apply (inv_unique _ Hinv _ _ k); apply Hh.
  - intros j k Hj. apply reach_insert; [done|]. by apply (inv_reach _ Hinv), Hh.
Qed.

Lemma probe_inv_write_free bs k i y :
  probe_inv bs -> put_free bs k i -> in_use y = true -> bk y = k -> probe_inv (<[i := y]> bs).
Proof.
  intros Hinv (Ha & d & x & Hd & -> & Hs & Hx & Hux) Hy Hk.
  split; [rewrite length_insert; apply Hinv..| |].
  - intros j j' k' Hj Hj'. rewrite holds_insert in Hj, Hj'.
    destruct Hj as [(-> & _ & _ & E)|[Hne Hj]], Hj' as [(-> & _ & _ & E')|[Hne' Hj']];
      [done|subst; by destruct (Ha j')|subst; by destruct (Ha j)|].
    by apply (inv_unique _ Hinv _ _ k').
  - intros j k' Hj.
    apply reach_insert; [done|]. apply holds_insert in Hj as [(-> & _ & _ & E)|[_ Hj]].
    + rewrite <- E, Hk. exists d. repeat split; [done|].
      intros d' Hd'. destruct (Hs d' Hd') as (z & ? & ? & _). by exists z.
    + by apply (inv_reach _ Hinv).
Qed.

Lemma to_map_write bs i y :
  probe_inv bs -> probe_inv (<[i := y]> bs) -> (i < length bs)%nat -> in_use y = true ->
  (forall x, bs !! i = Some x -> in_use x = true -> bk x = bk y) ->
  to_map (<[i := y]> bs) = <[bk y := bval y]> (to_map bs).
Proof.
  intros H1 H2 Hi Hy Hx. pose proof (inv_unique _ H1) as U1. pose proof (inv_unique _ H2) as U2.
  apply map_eq. intros k. destruct (decide (bk y = k)) as [<-|Hne].
  - rewrite lookup_insert_eq. apply (to_map_holds _ i); try done.
    by apply list_lookup_insert_eq.
  - rewrite lookup_insert_ne by done. apply option_eq. intros a.
    rewrite !lookup_to_map by done. setoid_rewrite list_lookup_insert_Some.
    split; intros (j & x & Hj & ? & ? & ?); exists j, x; [naive_solver|].
    repeat split; try done. right. split; [|done]. intros ->. naive_solver.
Qed.

(** ** An array without rows *)
Definition unuse (x : bucket K A) : bucket K A := Bucket (bk x) (bval x) false.

(** [for (int i = 0; i < size_; ++i) { buckets_[i].in_use = 0; }] *)
Definition clear_flags bs (size : Z) : outcome (list (bucket K A)) :=
  for_each (fun bs (i : Z) => x ← vec_at bs i; vec_set bs i (unuse x)) (seqZ 0 size) bs.

Lemma clear_flags_spec bs : clear_flags bs (Z.of_nat (length bs)) = Ok (unuse <$> bs).
Proof.
  destruct (for_each_inv (fun bs (i : Z) => x ← vec_at bs i; vec_set bs i (unuse x))
    (fun pre bs' => bs' = (unuse <$> take (length pre) bs) ++ drop (length pre) bs)
    (seqZ 0 (Z.of_nat (length bs))) bs) as (bs' & E & ->).
  - done.
  - intros pre i todo bs' El ->.
    assert (seqZ 0 (Z.of_nat (length bs)) !! length pre = Some i) as Hi
      by (rewrite El; by apply list_lookup_middle).
    apply lookup_seqZ in Hi as [-> Hlt]. rewrite Z.add_0_l.
    destruct (lookup_lt_is_Some_2 bs (length pre)) as [x Hx]; [lia|].
    assert (((unuse <$> take (length pre) bs) ++ drop (length pre) bs) !! length pre = Some x) as Hx'.
    { rewrite lookup_app_r by (rewrite length_fmap, length_take; lia).
      rewrite length_fmap, length_take, lookup_drop. rewrite <- Hx. f_equal. lia. }
    rewrite (vec_at_Some _ _ _ Hx'). cbn. rewrite vec_set_lt by (by eapply lookup_lt_Some).
    eexists. split; [done|].
    rewrite insert_app_r_alt by (rewrite length_fmap, length_take; lia).
    rewrite length_fmap, length_take, length_app. simpl.
    replace (length pre - length pre `min` length bs)%nat with 0%nat by lia.
    rewrite (drop_S _ _ _ Hx), Nat.add_1_r, (take_S_r _ _ _ Hx), fmap_app.
    rewrite <- app_assoc. done.
  - unfold clear_flags. rewrite E. rewrite length_seqZ, Nat2Z.id, take_ge, drop_ge by lia.
    by rewrite app_nil_r.
Qed.

Lemma unuse_absent bs k : absent (unuse <$> bs) k.
Proof.
  intros i (x & Hx & Hu & _). apply list_lookup_fmap_Some in Hx as (y & -> & _). done.
Qed.

Lemma probe_inv_unuse bs :
  (0 < length bs)%nat -> Z.of_nat (length bs) < 2 ^ 31 -> probe_inv (unuse <$> bs).
Proof.
  intros. split; rewrite ?length_fmap; try done.
  - intros i j k Hi. by apply unuse_absent in Hi.
  - intros i k Hi. by apply unuse_absent in Hi.
Qed.

Lemma rows_unuse bs : rows (unuse <$> bs) = [].
Proof. induction bs as [|x bs IH]; [done|]. cbn. by rewrite rows_cons, row_of_free. Qed.

Lemma to_map_unuse bs : to_map (unuse <$> bs) = ∅.
Proof. unfold to_map. by rewrite rows_unuse. Qed.

(** ** Iteration

    The loop of the iterators' [Next]:
    [do { ++pos; } while (pos < size_ && !buckets_[pos].in_use);] *)
Fixpoint next_loop bs (size : Z) (fuel : nat) (pos : Z) : outcome Z :=
  match fuel with
  | O => OutOfFuel
  | S fuel =>
    let pos := pos + 1 in
    if pos <? size then
      x ← vec_at bs pos;
      if negb (in_use x) then next_loop bs size fuel pos else Ok pos
    else Ok pos
  end.

(** [next_loop] steps from before bucket [p] to the next row, or to the end. *)
Lemma next_loop_spec bs fuel p :
  (p <= length bs)%nat -> (length bs - p < fuel)%nat ->
  exists q, next_loop bs (Z.of_nat (length bs)) fuel (Z.of_nat p - 1) = Ok (Z.of_nat q) /\
    (p <= q <= length bs)%nat /\ rows (drop p bs) = rows (drop q bs) /\
    (q = length bs \/ exists x, bs !! q = Some x /\ in_use x = true /\
       rows (drop q bs) = (bk x, bval x) :: rows (drop (S q) bs)).
Proof.
  revert p. induction fuel as [|fuel IH]; intros p Hp Hf; [lia|]. cbn [next_loop].
  replace (Z.of_nat p - 1 + 1) with (Z.of_nat p) by lia.
  destruct (Z.ltb_spec (Z.of_nat p) (Z.of_nat (length bs))) as [Hlt|Hge].
  - destruct (lookup_lt_is_Some_2 bs p) as [x Hx]; [lia|].
    rewrite (vec_at_Some _ _ _ Hx). run. rewrite (drop_S bs x p Hx).
    destruct (in_use x) eqn:Hu; cbn [negb].
    + exists p. rewrite rows_cons, row_of_used by done. split; [done|]. split; [lia|].
      rewrite (drop_S bs x p Hx), rows_cons, row_of_used by done.
      split; [done|]. right. by exists x.
    + destruct (IH (S p)) as (q & E & Hq & Hr & Hc); [lia|lia|].
      replace (Z.of_nat (S p) - 1) with (Z.of_nat p) in E by lia.
      exists q. rewrite rows_cons, row_of_free by done. split_and!; try done; lia.
  - exists p. split; [done|]. split; [lia|]. split; [done|]. left. lia.
Qed.
(** ** Deciding the invariant of a concrete array *)
Definition same_keyb bs i j : bool :=
  match bs !! i, bs !! j with
  | Some x, Some y => in_use x && in_use y && bool_decide (bk x = bk y)
  | _, _ => false
  end.
Definition occupiedb bs i : bool := match bs !! i with Some x => in_use x | None => false end.
Definition reachb bs i : bool :=
  match bs !! i with
  | Some x => negb (in_use x) || existsb (fun d =>
      (i =? slot_at (length bs) (home bs (bk x)) d)%nat &&
      forallb (fun d' => occupiedb bs (slot_at (length bs) (home bs (bk x)) d')) (seq 0 d)) (seq 0 (length bs))
  | None => true
  end.
Definition probe_invb bs : bool :=
  (0 <? length bs)%nat && (Z.of_nat (length bs) <? 2 ^ 31) &&
  forallb (fun i => forallb (fun j => (i =? j)%nat || negb (same_keyb bs i j)) (seq 0 (length bs)))
    (seq 0 (length bs)) &&
  forallb (reachb bs) (seq 0 (length bs)).

Lemma forallb_seq (f : nat -> bool) n i : forallb f (seq 0 n) = true -> (i < n)%nat -> f i = true.
Proof. intros Hf Hi. apply (proj1 (forallb_forall _ _) Hf). apply in_seq. lia. Qed.

Lemma probe_invb_sound bs : probe_invb bs = true -> probe_inv bs.
Proof.
  unfold probe_invb. rewrite !andb_true_iff. intros [[[Hp Hl] Hu] Hr]. split; [lia|lia| |].
  - intros i j k (x & Hx & Hux & Hkx) (y & Hy & Huy & Hky).
    pose proof (forallb_seq _ _ i Hu (lookup_lt_Some _ _ _ Hx)) as Hi. cbv beta in Hi.
    pose proof (forallb_seq _ _ j Hi (lookup_lt_Some _ _ _ Hy)) as Hj. cbv beta in Hj.
    apply orb_true_iff in Hj as [Hj|Hj]; [lia|]. unfold same_keyb in Hj.
    rewrite Hx, Hy, Hux, Huy, bool_decide_eq_true_2 in Hj by congruence. done.
  - intros i k (x & Hx & Hux & Hkx).
    pose proof (forallb_seq _ _ i Hr (lookup_lt_Some _ _ _ Hx)) as Hi. unfold reachb in Hi.
    rewrite Hx, Hux, Hkx in Hi. cbn [negb orb] in Hi.
    apply existsb_exists in Hi as (d & Hd & Hi). apply in_seq in Hd. apply andb_true_iff in Hi as [Hi Ho].
    exists d. split_and!; [lia|lia|]. intros d' Hd'. pose proof (forallb_seq _ _ d' Ho Hd') as Hx'.
    unfold occupiedb in Hx'. unfold occupied. by destruct (bs !! slot_at (length bs) (home bs k) d') as [y|]; [exists y|].
Qed.
End Probe.
#[global] Arguments rows {K A} _ : simpl never.
#[export] Hint Resolve inv_pos inv_int home_lt slot_at_lt : maiter.
