(* ===== verification/Table.v ===== *)
(** * The table layer's interfaces: kernel/table.h and util/common.h

    The user's iteration kernel, the marshalling of values, the sharding
    functions, the records and iterators that decode serialised tables, the
    termination checker, and the state every table carries ([TableDescriptor],
    [TableBase] and its triggers). *)
From S2P Require Import Prelude Float StringPiece Probe.

(** ** User code

    [IterateKernel<K, V, D>].  An [&] parameter that the code assigns is an
    argument and a result.  The last four fields are what the tables use of
    the type [V] itself: the conversion of the literal 0, [operator==],
    [operator<] and the cast to [double]. *)

Class IterateKernel (K V D : Type) := {
  read_data : cstr -> K -> D -> outcome (K * D);
  init_c : K -> V -> D -> V * D;
  default_v : V;
  init_v : K -> V -> D -> V * D;
  accumulate : V -> V -> V;
  process_delta_v : K -> V -> V -> D -> V * V * D;
  priority : V -> V -> V -> V;
  g_func : K -> V -> V -> D -> list (K * V) -> list (K * V);
  getKey : cstr -> outcome K;
  getValue : cstr -> outcome D;
  v_zero : V;
  v_eqb : V -> V -> bool;
  v_ltb : V -> V -> bool;
  v_double : V -> spec_float
}.

(** The accumulation of a kernel may be an idempotent or additive commutative
    monoid; the tables rely on these laws when updates are combined. *)
Class AccumulateLaws (K V D : Type) `{!IterateKernel K V D} := {
  accumulate_comm : forall a b, accumulate a b = accumulate b a;
  accumulate_assoc : forall a b c, accumulate a (accumulate b c) = accumulate (accumulate a b) c
}.

(** [priority] only writes its first parameter. *)
Class PriorityLaws (K V D : Type) `{!IterateKernel K V D} :=
  priority_out : forall p p' value delta, priority p value delta = priority p' value delta.

(** [Marshal<T>] (util/common.h).  [unmarshal] of a string that is too short
    reads past its end. *)
Class Marshal (T : Type) := {
  marshal : T -> cstr;
  unmarshal : cstr -> outcome T
}.

(** What the tables rely on: a value of the type survives the round trip.
    [representable] is the range of the machine type. *)
Class MarshalLaws (T : Type) `{!Marshal T} := {
  representable : T -> Prop;
  unmarshal_marshal : forall t, representable t -> unmarshal (marshal t) = Ok t
}.

(** [Marshal<long>]: the eight bytes of the value, least significant first. *)
Fixpoint le_bytes (n : nat) (x : Z) : cstr :=
  match n with
  | O => []
  | S n => char_of (x mod 256) :: le_bytes n (x / 256)
  end.
Fixpoint le_value (s : cstr) : Z :=
  match s with
  | [] => 0
  | c :: s => uchar c + 256 * le_value s
  end.
#[export] Instance Marshal_long : Marshal Z := {
  marshal x := le_bytes 8 (to_uint64 x);
  unmarshal s :=
    if decide (8 <= length s)%nat then Ok (to_int64 (le_value (take 8 s))) else Undefined
}.

(** [Marshal<int>], for the kernels whose keys are [int]s: four bytes. *)
Definition Marshal_int : Marshal Z := {|
  marshal x := le_bytes 4 (to_uint32 x);
  unmarshal s :=
    if decide (4 <= length s)%nat then Ok (to_int32 (le_value (take 4 s))) else Undefined
|}.

(** [Marshal<string>]: the characters themselves. *)
#[export] Instance Marshal_string : Marshal cstr := {
  marshal x := x;
  unmarshal s := Ok s
}.

(** ** Sharding *)
Class Sharder (K : Type) := shard_of : K -> Z -> Z.

Module Sharding.
Definition String (k : cstr) (shards : Z) : Z :=
  to_int32 (sp_hash k mod to_uint32 shards).
Definition Mod (key : Z) (shards : Z) : Z := to_int32 (Z.rem key shards).
Definition UintMod (key : Z) (shards : Z) : Z := to_int32 (to_uint32 key mod to_uint32 shards).
(** [Mod_str]: the number before the first ['_'].  [lexical_cast] is [cast]. *)
Definition Mod_str (cast : cstr -> outcome Z) (k : cstr) (shards : Z) : outcome Z :=
  let key := match find_char "_" k with Some pos => take pos k | None => k end in
  pos ← cast key; Ok (Z.rem pos shards).
End Sharding.

(** ** Records and decoding iterators *)
Record ClutterRecord (K V D : Type) := { rec_k : K; rec_v1 : V; rec_v2 : V; rec_v3 : D }.
Arguments rec_k {K V D} _.
Arguments rec_v1 {K V D} _.
Arguments rec_v2 {K V D} _.
Arguments rec_v3 {K V D} _.
Arguments Build_ClutterRecord {K V D} _ _ _ _.

(** [FileDecodeIterator] and [NetDecodeIterator] are the same vector with a
    cursor; they differ in the record type.  [append] leaves the cursor alone
    (the C++ iterator is invalid until [rewind]). *)
Record DecodeIterator (R : Type) := { decodedeque : list R; intit : nat }.
Arguments decodedeque {R} _.
Arguments intit {R} _.
Arguments Build_DecodeIterator {R} _ _.

Module Decode.
Section Decode.
Context {R : Type}.
Implicit Types it : DecodeIterator R.

Definition append it (r : R) : DecodeIterator R :=
  {| decodedeque := decodedeque it ++ [r]; intit := intit it |}.
Definition clear it : DecodeIterator R := {| decodedeque := []; intit := intit it |}.
Definition rewind it : DecodeIterator R := {| decodedeque := decodedeque it; intit := 0 |}.
Definition create : DecodeIterator R := rewind (clear {| decodedeque := []; intit := 0 |}).
Definition done it : bool := (intit it =? length (decodedeque it))%nat.
Definition Next it : DecodeIterator R := {| decodedeque := decodedeque it; intit := S (intit it) |}.
(** [key()], [value1()], ...: the field of the current record; past the end
    the function-local static keeps the value [last] of the previous call. *)
Definition field {F} (proj : R -> F) (last : F) it : F :=
  match decodedeque it !! intit it with Some r => proj r | None => last end.
End Decode.
End Decode.

Abbreviation FileDecodeIterator K V D := (DecodeIterator (ClutterRecord K V D)).
Abbreviation NetDecodeIterator K V := (DecodeIterator (K * V)).

(** ** Messages (worker/worker.proto, util/common.proto) *)
Record Arg := { arg_key : cstr; arg_value : cstr }.
Record FileRecord := { fr_key : cstr; fr_value1 : cstr; fr_value2 : cstr; fr_value3 : cstr }.
Record KVPairData := {
  source : Z; table : Z; shard : Z; done_ : bool;
  kv_data : list Arg; epoch : Z; marker : Z
}.
(** A message just constructed or cleared: [marker] has default -1. *)
Definition KVPairData_Clear : KVPairData :=
  {| source := 0; table := 0; shard := 0; done_ := false; kv_data := []; epoch := 0; marker := -1 |}.

(** The coders of kernel/global-table.cc: a message and a read position. *)
Record ProtoKVPairCoder := { kc_t : list Arg; kc_read_pos : nat }.
Record ProtoTableCoder := { tc_t : list FileRecord; tc_read_pos : nat }.

Definition WriteEntryToNet (c : ProtoKVPairCoder) (k v : cstr) : ProtoKVPairCoder :=
  {| kc_t := kc_t c ++ [{| arg_key := k; arg_value := v |}]; kc_read_pos := kc_read_pos c |}.
Definition ReadEntryFromNet (c : ProtoKVPairCoder) : option (cstr * cstr * ProtoKVPairCoder) :=
  match kc_t c !! kc_read_pos c with
  | Some a => Some (arg_key a, arg_value a, {| kc_t := kc_t c; kc_read_pos := S (kc_read_pos c) |})
  | None => None
  end.
Definition WriteEntryToFile (c : ProtoTableCoder) (k v1 v2 v3 : cstr) : ProtoTableCoder :=
  {| tc_t := tc_t c ++ [{| fr_key := k; fr_value1 := v1; fr_value2 := v2; fr_value3 := v3 |}];
     tc_read_pos := tc_read_pos c |}.
Definition ReadEntryFromFile (c : ProtoTableCoder) : option (FileRecord * ProtoTableCoder) :=
  match tc_t c !! tc_read_pos c with
  | Some a => Some (a, {| tc_t := tc_t c; tc_read_pos := S (tc_read_pos c) |})
  | None => None
  end.

(** ** Termination checking: [TermCheckers::Diff] *)

(** [LocalTableIterator<K, V>], the view of a table that [estimate_prog] gets.
    [Next] returns whether there is a row. *)
Class LocalTableIterator (It V : Type) := {
  it_done : It -> bool;
  it_Next : It -> outcome (It * bool);
  it_value2 : It -> outcome V;
  it_defaultV : It -> V
}.

Record Diff := { diff_last : spec_float; diff_curr : spec_float }.
Definition Diff_new : Diff := {| diff_last := SFopp f64_max; diff_curr := S754_zero false |}.

Fixpoint estimate_loop {K V D It} `{!IterateKernel K V D} `{!LocalTableIterator It V}
    (fuel : nat) (defaultv : V) (it : It) (partial_curr : spec_float) : outcome spec_float :=
  match fuel with
  | O => OutOfFuel
  | S fuel =>
    if it_done it then Ok partial_curr
    else
      '(it, cont) ← it_Next it;
      if negb cont then Ok partial_curr
      else
        v ← it_value2 it;
        estimate_loop (K := K) (D := D) fuel defaultv it
          (if negb (v_eqb (K := K) (D := D) v defaultv)
           then f64_add partial_curr (v_double (K := K) (D := D) v) else partial_curr)
  end.
Definition estimate_prog {K V D It} `{!IterateKernel K V D} `{!LocalTableIterator It V}
    (fuel : nat) (it : It) : outcome spec_float :=
  estimate_loop (K := K) (D := D) fuel (it_defaultV it) it (S754_zero false).

(** [Diff_terminate]: whether the total progress moved by at most the threshold;
    the checker remembers the new total only when it did not stop. *)
Definition Diff_terminate (threshold : spec_float) (c : Diff) (local_reports : list spec_float) : bool * Diff :=
  let curr := fold_left f64_add local_reports (S754_zero false) in
  if SFleb (SFabs (f64_sub curr (diff_last c))) threshold
  then (true, {| diff_last := diff_last c; diff_curr := curr |})
  else (false, {| diff_last := curr; diff_curr := curr |}).

(** ** Lemmas *)

Lemma length_le_bytes n x : length (le_bytes n x) = n.
Proof. revert x. induction n; intros; simpl; auto. Qed.

Lemma le_value_le_bytes n x : 0 <= x -> le_value (le_bytes n x) = x mod 256 ^ Z.of_nat n.
Proof.
  revert x. induction n as [|n IH]; intros x Hx; [by rewrite Z.mod_1_r|].
  cbn [le_bytes le_value]. pose proof (Z.mod_pos_bound x 256).
  rewrite uchar_char_of, IH by (lia || apply Z.div_pos; lia).
  rewrite Nat2Z.inj_succ, Z.pow_succ_r by lia.
  rewrite Z.rem_mul_r by lia. done.
Qed.

#[export] Instance MarshalLaws_long : MarshalLaws Z.
Proof.
  refine {| representable x := - 2 ^ 63 <= x < 2 ^ 63 |}. intros x Hx.
  unfold unmarshal, marshal, Marshal_long. rewrite decide_True by (rewrite length_le_bytes; lia).
  rewrite take_ge by (rewrite length_le_bytes; lia).
  pose proof (wrapu_range 64 x).
  rewrite le_value_le_bytes by lia. rewrite Z.mod_small by (simpl; lia).
  f_equal. unfold wrapu. unfold wraps. rewrite Z.mod_mod by lia. by apply wraps_small.
Defined.

Definition MarshalLaws_int : @MarshalLaws Z Marshal_int.
Proof.
  refine {| representable x := - 2 ^ 31 <= x < 2 ^ 31 |}. intros x Hx.
  unfold unmarshal, marshal, Marshal_int. rewrite decide_True by (rewrite length_le_bytes; lia).
  rewrite take_ge by (rewrite length_le_bytes; lia).
  pose proof (wrapu_range 32 x).
  rewrite le_value_le_bytes by lia. rewrite Z.mod_small by (simpl; lia).
  f_equal. unfold wrapu. unfold wraps. rewrite Z.mod_mod by lia. by apply wraps_small.
Defined.

#[export] Instance MarshalLaws_string : MarshalLaws cstr.
Proof. by refine {| representable _ := True |}. Defined.

(** [Sharding::Mod] maps a nonnegative key to a shard; a negative key gives a
    negative index. *)
Lemma Mod_range key shards :
  0 <= key -> 0 < shards < 2 ^ 31 -> 0 <= Sharding.Mod key shards < shards.
Proof.
  intros. unfold Sharding.Mod. rewrite Z.rem_mod_nonneg by lia.
  pose proof (Z.mod_pos_bound key shards). rewrite to_int32_small; lia.
Qed.

Lemma Mod_negative key shards :
  key < 0 -> 0 < shards < 2 ^ 31 -> Z.rem key shards <> 0 -> Sharding.Mod key shards < 0.
Proof.
  intros. unfold Sharding.Mod.
  pose proof (Z.rem_bound_pos_neg key shards). rewrite to_int32_small; lia.
Qed.

Lemma String_range k shards : 0 < shards < 2 ^ 31 -> 0 <= Sharding.String k shards < shards.
Proof.
  intros. unfold Sharding.String, sp_hash. rewrite (to_uint32_small shards) by lia.
  pose proof (Z.mod_pos_bound (SuperFastHash k) shards). rewrite to_int32_small; lia.
Qed.

Lemma UintMod_range key shards : 0 < shards < 2 ^ 31 -> 0 <= Sharding.UintMod key shards < shards.
Proof.
  intros. unfold Sharding.UintMod. rewrite (to_uint32_small shards) by lia.
  pose proof (Z.mod_pos_bound (to_uint32 key) shards). rewrite to_int32_small; lia.
Qed.

(** ** Decoding loops

    [deserializeFromNet] and [deserializeFromFile] of both tables: the entries
    that are left in the coder are unmarshalled into the iterator, which is
    then rewound. *)
Section Decoding.
Context {K V D : Type} `{!Marshal K} `{!Marshal V} `{!Marshal D}.

Fixpoint deserialize_loop (fuel : nat) (c : ProtoKVPairCoder) (it : NetDecodeIterator K V) :
    outcome (NetDecodeIterator K V) :=
  match fuel with
  | O => OutOfFuel
  | S fuel =>
    match ReadEntryFromNet c with
    | Some (kt, v1t, c) =>
        k ← unmarshal kt; v1 ← unmarshal v1t;
        deserialize_loop fuel c (Decode.append it (k, v1))
    | None => Ok (Decode.rewind it)
    end
  end.

Fixpoint deserialize_file_loop (fuel : nat) (c : ProtoTableCoder) (it : FileDecodeIterator K V D) :
    outcome (FileDecodeIterator K V D) :=
  match fuel with
  | O => OutOfFuel
  | S fuel =>
    match ReadEntryFromFile c with
    | Some (r, c) =>
        k ← unmarshal (fr_key r); v1 ← unmarshal (fr_value1 r);
        v2 ← unmarshal (fr_value2 r); v3 ← unmarshal (fr_value3 r);
        deserialize_file_loop fuel c (Decode.append it (Build_ClutterRecord k v1 v2 v3))
    | None => Ok (Decode.rewind it)
    end
  end.

(** What a sender writes for a row. *)
Definition marshal_row (r : K * V) : Arg :=
  {| arg_key := marshal r.1; arg_value := marshal r.2 |}.
Definition marshal_record (r : ClutterRecord K V D) : FileRecord :=
  {| fr_key := marshal (rec_k r); fr_value1 := marshal (rec_v1 r);
     fr_value2 := marshal (rec_v2 r); fr_value3 := marshal (rec_v3 r) |}.

Context `{!MarshalLaws K} `{!MarshalLaws V} `{!MarshalLaws D}.
Definition row_representable (r : K * V) : Prop := representable r.1 /\ representable r.2.
Definition record_representable (r : ClutterRecord K V D) : Prop :=
  representable (rec_k r) /\ representable (rec_v1 r) /\
  representable (rec_v2 r) /\ representable (rec_v3 r).

Lemma drop_nil_lookup {A} (l : list A) n : drop n l = [] -> l !! n = None.
Proof.
  intros E. apply lookup_ge_None. assert (length (drop n l) = 0%nat) as El by (by rewrite E).
  rewrite length_drop in El. lia.
Qed.

Lemma drop_cons_lookup {A} (l : list A) n x r : drop n l = x :: r -> l !! n = Some x /\ drop (S n) l = r.
Proof.
  intros E. assert (l !! n = Some x) as Hx.
  { rewrite <- (Nat.add_0_r n), <- lookup_drop. by rewrite E. }
  split; [done|]. rewrite (drop_S _ _ _ Hx) in E. by injection E.
Qed.

Lemma deserialize_loop_spec (l : list (K * V)) fuel c it :
  Forall row_representable l -> drop (kc_read_pos c) (kc_t c) = marshal_row <$> l ->
  (length l < fuel)%nat ->
  deserialize_loop fuel c it = Ok {| decodedeque := decodedeque it ++ l; intit := 0 |}.
Proof.
  revert fuel c it. induction l as [|[k v] l IH]; intros fuel c it Hl Hd Hf;
    (destruct fuel as [|fuel]; [simpl in Hf; lia|]); cbn [deserialize_loop]; unfold ReadEntryFromNet.
  - rewrite (drop_nil_lookup _ _ Hd). by rewrite app_nil_r.
  - inversion Hl as [|? ? [Hk Hv] Hl']; subst. rewrite fmap_cons in Hd.
    apply drop_cons_lookup in Hd as [Hx Hd]. rewrite Hx. cbn [arg_key arg_value marshal_row fst snd].
    rewrite !unmarshal_marshal by done. run. rewrite IH by (done || simpl in Hf; lia).
    cbn [decodedeque Decode.append]. by rewrite <- app_assoc.
Qed.

Lemma deserialize_file_loop_spec (l : list (ClutterRecord K V D)) fuel c it :
  Forall record_representable l -> drop (tc_read_pos c) (tc_t c) = marshal_record <$> l ->
  (length l < fuel)%nat ->
  deserialize_file_loop fuel c it = Ok {| decodedeque := decodedeque it ++ l; intit := 0 |}.
Proof.
  revert fuel c it. induction l as [|[k v1 v2 v3] l IH]; intros fuel c it Hl Hd Hf;
    (destruct fuel as [|fuel]; [simpl in Hf; lia|]); cbn [deserialize_file_loop]; unfold ReadEntryFromFile.
  - rewrite (drop_nil_lookup _ _ Hd). by rewrite app_nil_r.
  - inversion Hl as [|? ? (Hk & H1 & H2 & H3) Hl']; subst. rewrite fmap_cons in Hd.
    apply drop_cons_lookup in Hd as [Hx Hd]. rewrite Hx.
    cbn [fr_key fr_value1 fr_value2 fr_value3 marshal_record].
    rewrite !unmarshal_marshal by done. run. rewrite IH by (done || simpl in Hf; lia).
    cbn [decodedeque Decode.append]. by rewrite <- app_assoc.
Qed.
End Decoding.

(** C32. The sharding functions give a shard in range: [String] and [UintMod]
    for every key, [Mod] exactly for the keys whose remainder is not negative. *)
Theorem sharding_in_range (key : Z) (k : cstr) shards :
  0 < shards < 2 ^ 31 ->
  0 <= Sharding.String k shards < shards /\ 0 <= Sharding.UintMod key shards < shards /\
  (0 <= Sharding.Mod key shards < shards <-> 0 <= key \/ Z.rem key shards = 0).
Proof.
  intros Hs. split; [by apply String_range|]. split; [by apply UintMod_range|]. split.
  - intros Hr. destruct (Z_lt_le_dec key 0); [|by left]. right.
    destruct (Z.eq_dec (Z.rem key shards) 0) as [|Hne]; [done|].
    pose proof (Mod_negative key shards). lia.
  - intros [Hk|Hk]; [by apply Mod_range|]. unfold Sharding.Mod. rewrite Hk, to_int32_small; lia.
Qed.
Lemma sharding_in_range_witness :
  0 <= Sharding.String (lit "vertex") 7 < 7 /\ 0 <= Sharding.UintMod 10 7 < 7 /\
  (0 <= Sharding.Mod 10 7 < 7 <-> 0 <= 10 \/ Z.rem 10 7 = 0).
Proof. apply (sharding_in_range 10 (lit "vertex") 7). lia. Defined.
