(* ===== verification/SampleKernel.v ===== *)
(** * A concrete kernel

    A shortest-path kernel over 64-bit integers, in the style of
    examples/shortestpath.cc: the delta and the value of a vertex are
    distances, accumulation is the minimum, and the data is the adjacency list.
    The theorems of the components are evaluated on it. *)
From S2P Require Import Prelude Float StringPiece Probe Table.

Definition far : Z := 1000000.

#[export] Instance MinKernel : IterateKernel Z Z (list Z) := {
  read_data line k data := Ok (k, data);
  init_c k delta data := (if k =? 0 then 0 else far, data);
  default_v := far;
  init_v k v data := (far, data);
  accumulate a b := Z.min a b;
  process_delta_v k delta value data := (delta, value, data);
  priority pri value delta := value - Z.min value delta;
  g_func k delta value data output := output ++ ((fun j => (j, delta + 1)) <$> data);
  getKey line := Ok (Z.of_nat (length line));
  getValue line := Ok [];
  v_zero := 0;
  v_eqb := Z.eqb;
  v_ltb := Z.ltb;
  v_double := f64_of_Z
}.
#[export] Instance MinKernel_laws : AccumulateLaws Z Z (list Z).
Proof. split; intros; unfold accumulate, MinKernel; lia. Qed.
#[export] Instance MinKernel_priority : PriorityLaws Z Z (list Z).
Proof. by intros ????. Qed.
#[export] Instance ModSharder : Sharder Z := Sharding.Mod.

Lemma min_representable (a b : Z) :
  representable a -> representable b -> representable (accumulate (K := Z) (D := list Z) a b).
Proof. unfold representable, MarshalLaws_long, accumulate, MinKernel. lia. Qed.
