(* ===== verification/DeltaTable.v ===== *)
(** * The delta table: kernel/deltatable.h

    [DeltaTable<K, V1, D>] buffers, for a shard that another worker owns, the
    updates waiting to be sent.  It is a linear-probing hash table that grows
    when its load factor passes [kLoadFactor] (kernel/local-table.h). *)
From S2P Require Import Prelude Float StringPiece Probe Table SampleKernel.

Module DeltaTable.
Section DeltaTable.
Context {K V D : Type} `{Countable K} `{!Hashable K} `{!ValueInit K} `{!ValueInit V}.
Context `{!IterateKernel K V D} `{!Marshal K} `{!Marshal V}.

Record t := mk { buckets_ : list (bucket K V); entries_ : Z; size_ : Z }.
Implicit Types tb : t.

Definition empty_bucket : bucket K V := Bucket value_init value_init false.

(** [for (int i = 0; i < size_; ++i) { buckets_[i].in_use = 0; } entries_ = 0;] *)
Definition clear tb : outcome t :=
  bs ← clear_flags (buckets_ tb) (size_ tb);
  Ok {| buckets_ := bs; entries_ := 0; size_ := size_ tb |}.

(** [entries_ > size_ * kLoadFactor] with [kLoadFactor = 0.8].  The product is
    a [double]; for the sizes of an [int] it is exact when [4 * size_] is a
    multiple of 5 and otherwise lies between the same two integers as the
    rational product, so the comparison is the rational one. *)
Definition over_loaded tb : bool := 4 * size_ tb <? 5 * entries_ tb.

(** [resize], over the [put] it calls for each row of the old array. *)
Definition resize_with (put : t -> K -> V -> outcome t) tb (size : Z) : outcome t :=
  _ ← CHECK (0 <? size);
  if size_ tb =? size then Ok tb
  else
    let old_b := buckets_ tb in
    let old_entries := to_int32 (entries_ tb) in
    tb1 ← clear {| buckets_ := vec_resize empty_bucket (buckets_ tb) (Z.to_nat size);
                   entries_ := entries_ tb; size_ := size |};
    tb2 ← for_each (fun tb x => if in_use x then put tb (bk x) (bval x) else Ok tb) old_b tb1;
    _ ← CHECK (old_entries =? entries_ tb2);
    Ok tb2.

(** [put] and [resize] call each other: the fuel bounds the nesting. *)
Fixpoint put (fuel : nat) tb (k : K) (v1 : V) : outcome t :=
  match fuel with
  | O => OutOfFuel
  | S fuel =>
    let start := bucket_idx (size_ tb) k in
    '(b, found) ← put_loop (buckets_ tb) (size_ tb) k start (length (buckets_ tb)) start;
    if negb found then
      if over_loaded tb then
        tb' ← resize_with (put fuel) tb (to_int32 (1 + size_ tb * 2));
        put fuel tb' k v1
      else
        bs ← vec_set (buckets_ tb) b (Bucket k v1 true);
        Ok {| buckets_ := bs; entries_ := entries_ tb + 1; size_ := size_ tb |}
    else
      x ← vec_at (buckets_ tb) b;
      bs ← vec_set (buckets_ tb) b (Bucket (bk x) v1 (in_use x));
      Ok {| buckets_ := bs; entries_ := entries_ tb; size_ := size_ tb |}
  end.
Definition resize (fuel : nat) : t -> Z -> outcome t := resize_with (put fuel).

(** [DeltaTable(int size)], and [reset]. *)
Definition create (fuel : nat) (size : Z) : outcome t :=
  tb ← clear {| buckets_ := []; entries_ := 0; size_ := 0 |};
  resize fuel tb size.
Definition reset (fuel : nat) tb : outcome t :=
  resize fuel {| buckets_ := []; entries_ := 0; size_ := 0 |} 1.

Definition bucket_for_key tb (k : K) : outcome Z :=
  let start := bucket_idx (size_ tb) k in
  find_loop (buckets_ tb) (size_ tb) k start (length (buckets_ tb)) start.

Definition contains tb (k : K) : outcome bool := b ← bucket_for_key tb k; Ok (negb (b =? -1)).

Definition get tb (k : K) : outcome V :=
  b ← bucket_for_key tb k;
  _ ← CHECK (negb (b =? -1));
  x ← vec_at (buckets_ tb) b; Ok (bval x).

(** Overwrite the value of bucket [b]. *)
Definition set_v1 tb (b : Z) (f : V -> V) : outcome t :=
  x ← vec_at (buckets_ tb) b;
  bs ← vec_set (buckets_ tb) b (Bucket (bk x) (f (bval x)) (in_use x));
  Ok {| buckets_ := bs; entries_ := entries_ tb; size_ := size_ tb |}.

Definition update tb (k : K) (v : V) : outcome t :=
  b ← bucket_for_key tb k;
  _ ← CHECK (negb (b =? -1));
  set_v1 tb b (fun _ => v).

Definition accumulate (fuel : nat) tb (k : K) (v : V) : outcome t :=
  b ← bucket_for_key tb k;
  if b =? -1 then put fuel tb k v
  else set_v1 tb b (fun a => Table.accumulate (D := D) (K := K) a v).

Definition size tb : Z := entries_ tb.
Definition empty tb : bool := size tb =? 0.
Definition remove tb (k : K) : outcome bool := Fatal.

(** ** Iteration: [DeltaTable::Iterator] *)

Definition Next tb (pos : Z) : outcome Z :=
  next_loop (buckets_ tb) (size_ tb) (S (length (buckets_ tb))) pos.
Definition iter_begin tb : outcome Z := Next tb (-1).
Definition iter_done tb (pos : Z) : bool := pos =? size_ tb.

(** [serializeToNet]: every row is marshalled and written to the coder. *)
Fixpoint serialize_loop (fuel : nat) tb (pos : Z) (out : ProtoKVPairCoder) : outcome ProtoKVPairCoder :=
  match fuel with
  | O => OutOfFuel
  | S fuel =>
    if iter_done tb pos then Ok out
    else
      x ← vec_at (buckets_ tb) pos;
      let out := WriteEntryToNet out (marshal (bk x)) (marshal (bval x)) in
      pos ← Next tb pos;
      serialize_loop fuel tb pos out
  end.
Definition serializeToNet tb (out : ProtoKVPairCoder) : outcome ProtoKVPairCoder :=
  pos ← iter_begin tb;
  serialize_loop (S (length (buckets_ tb))) tb pos out.

(** [deserializeFromNet]: the entries that are left in the coder. *)
Definition deserializeFromNet (c : ProtoKVPairCoder) (it : NetDecodeIterator K V) :
    outcome (NetDecodeIterator K V) :=
  deserialize_loop (S (length (kc_t c))) c (Decode.clear it).

(** ** Well-formedness and the represented map *)
Record wf tb : Prop := {
  wf_inv : probe_inv (buckets_ tb);
  wf_size : size_ tb = Z.of_nat (length (buckets_ tb));
  wf_entries : entries_ tb = Z.of_nat (length (rows (buckets_ tb)))
}.
Definition contents tb : gmap K V := to_map (buckets_ tb).

(** A concrete table is checked by evaluation. *)
Definition wfb tb : bool :=
  probe_invb (buckets_ tb) && (size_ tb =? Z.of_nat (length (buckets_ tb))) &&
  (entries_ tb =? Z.of_nat (length (rows (buckets_ tb)))).
Lemma wfb_sound tb : wfb tb = true -> wf tb.
Proof.
  unfold wfb. rewrite !andb_true_iff. intros [[Hi Hs] He].
  split; [by apply probe_invb_sound|lia|lia].
Qed.

Lemma wf_entries_size tb : wf tb -> entries_ tb = Z.of_nat (base.size (contents tb)).
Proof. intros [Hi _ ->]. unfold contents. rewrite size_to_map; [done|apply Hi]. Qed.

Lemma wf_entries_le tb : wf tb -> 0 <= entries_ tb <= size_ tb.
Proof. intros [_ -> ->]. pose proof (length_rows_le (buckets_ tb)). lia. Qed.

Lemma wf_buckets_pos tb : wf tb -> 0 < size_ tb < 2 ^ 31.
Proof. intros [[Hp Hi _ _] -> _]. lia. Qed.

(** Writing a row into the bucket that the search found. *)
Lemma write_found tb k v i x :
  wf tb -> buckets_ tb !! i = Some x -> in_use x = true -> bk x = k ->
  let tb' := {| buckets_ := <[i := Bucket (bk x) v (in_use x)]> (buckets_ tb);
                entries_ := entries_ tb; size_ := size_ tb |} in
  wf tb' /\ contents tb' = <[k := v]> (contents tb).
Proof.
  intros [Hi Hs He] Hx Hu <-. cbv zeta. rewrite Hu. unfold contents; cbn.
  assert (probe_inv (<[i := Bucket (bk x) v true]> (buckets_ tb))) as Hi'
    by (by eapply probe_inv_write_used).
  split.
  - split; cbn; [done|by rewrite length_insert|]. by rewrite (rows_insert_used _ _ x).
  - rewrite to_map_write; try done; [by eapply lookup_lt_Some|]. naive_solver.
Qed.

Lemma write_new tb k v i :
  wf tb -> put_free (buckets_ tb) k i ->
  let tb' := {| buckets_ := <[i := Bucket k v true]> (buckets_ tb);
                entries_ := entries_ tb + 1; size_ := size_ tb |} in
  wf tb' /\ contents tb' = <[k := v]> (contents tb).
Proof.
  intros [Hi Hs He] Hf tb'. subst tb'. unfold contents; cbn.
  assert (probe_inv (<[i := Bucket k v true]> (buckets_ tb))) as Hi'
    by (by eapply probe_inv_write_free).
  destruct Hf as (Ha & d & x & Hd & -> & Hsc & Hx & Hux). split.
  - split; cbn; [done|by rewrite length_insert|]. rewrite (rows_insert_free _ _ x) by done. lia.
  - rewrite to_map_write; try done; [by eapply lookup_lt_Some|]. intros y Hy Huy. congruence.
Qed.

(** A table that is not over its load factor has a free bucket. *)
Lemma not_full tb k i : wf tb -> over_loaded tb = false -> ~ put_full (buckets_ tb) k i.
Proof.
  intros [Hi Hs He] Hl (_ & _ & Hf). unfold over_loaded in Hl.
  pose proof (inv_pos _ Hi). rewrite Hs, He, (rows_full _ Hf) in Hl. lia.
Qed.

Lemma put_direct fuel tb k v :
  wf tb -> contents tb !! k <> None \/ over_loaded tb = false ->
  exists tb', put (S fuel) tb k v = Ok tb' /\ wf tb' /\
    contents tb' = <[k := v]> (contents tb) /\ size_ tb' = size_ tb.
Proof.
  intros Hwf Hcase. pose proof (wf_inv _ Hwf) as Hi. cbn [put]. rewrite (wf_size _ Hwf).
  destruct (put_start (buckets_ tb) k Hi) as (i & found & E & Hlt & Hcl). rewrite E. cbn.
  destruct found; cbn.
  - destruct Hcl as (x & Hx & Hu & Hk). rewrite (vec_at_Some _ _ _ Hx). cbn.
    rewrite vec_set_lt by done. cbn. eexists. split; [done|]. rewrite <- (wf_size _ Hwf).
    destruct (write_found tb k v i x) as [? ?]; done.
  - assert (over_loaded tb = false) as Hl.
    { destruct Hcase as [Hc|]; [|done]. destruct Hc. apply to_map_absent; [apply Hi|].
      destruct Hcl as [[Ha _]|[Ha _]]; done. }
    destruct Hcl as [Hf|Hf]; [|by destruct (not_full tb k i)].
    rewrite Hl. cbn. rewrite vec_set_lt by done. cbn. eexists. split; [done|].
    rewrite <- (wf_size _ Hwf). destruct (write_new tb k v i) as [? ?]; done.
Qed.

(** ** [clear] and [resize] *)
Lemma clear_spec tb :
  size_ tb = Z.of_nat (length (buckets_ tb)) ->
  clear tb = Ok {| buckets_ := unuse <$> buckets_ tb; entries_ := 0; size_ := size_ tb |}.
Proof. intros Hs. unfold clear. by rewrite Hs, clear_flags_spec. Qed.

Lemma fresh_wf (bs : list (bucket K V)) (n : Z) :
  0 < n < 2 ^ 31 ->
  let tb := {| buckets_ := unuse <$> vec_resize empty_bucket bs (Z.to_nat n); entries_ := 0; size_ := n |} in
  wf tb /\ contents tb = ∅.
Proof.
  intros Hn. cbv zeta. split; [|apply to_map_unuse]. split; cbn.
  - apply probe_inv_unuse; rewrite length_vec_resize; lia.
  - rewrite length_fmap, length_vec_resize. lia.
  - by rewrite rows_unuse.
Qed.

(** Copying the rows of an array into a table with room for them. *)
Lemma rehash fuel (bs : list (bucket K V)) tb :
  keys_unique bs -> wf tb -> contents tb = ∅ ->
  5 * (Z.of_nat (length (rows bs)) - 1) <= 4 * size_ tb ->
  exists tb', for_each (fun tb x => if in_use x then put (S fuel) tb (bk x) (bval x) else Ok tb) bs tb
                = Ok tb' /\
    wf tb' /\ contents tb' = to_map bs /\ size_ tb' = size_ tb.
Proof.
  intros Hu Hwf Hem Hroom.
  apply (for_each_inv _ (fun pre tb' =>
    wf tb' /\ contents tb' = to_map pre /\ size_ tb' = size_ tb)).
  { by rewrite Hem. }
  intros pre x todo tb1 Ebs (Hw1 & Hc1 & Hs1).
  unfold to_map in *. rewrite rows_app, rows_cons.
  destruct (in_use x) eqn:Hx; [|rewrite row_of_free by done; exists tb1; by rewrite app_nil_r].
  rewrite row_of_used by done.
  pose proof (rows_keys_NoDup bs Hu) as Hnd. rewrite Ebs in Hnd, Hroom.
  rewrite rows_app, rows_cons, row_of_used in Hnd, Hroom by done.
  rewrite length_app in Hroom. cbn in Hroom. rewrite fmap_app in Hnd.
  apply NoDup_app in Hnd as (Hnd1 & Hnd2 & _).
  assert (bk x ∉ (rows pre).*1) as Hni by (intros Hin; apply (Hnd2 _ Hin); left).
  destruct (put_direct fuel tb1 (bk x) (bval x) Hw1) as (tb2 & E2 & Hw2 & Hc2 & Hs2).
  { right. unfold over_loaded. rewrite (wf_entries_size _ Hw1), Hc1, Hs1.
    rewrite map_size_list_to_map by done. lia. }
  exists tb2. split; [done|]. split; [done|]. split; [|congruence].
  rewrite Hc2, Hc1. symmetry. by apply list_to_map_snoc.
Qed.

Lemma resize_spec fuel tb n :
  wf tb -> 0 < n < 2 ^ 31 -> 5 * (entries_ tb - 1) <= 4 * n ->
  exists tb', resize (S fuel) tb n = Ok tb' /\ wf tb' /\ contents tb' = contents tb /\ size_ tb' = n.
Proof.
  intros Hwf Hn Hroom. unfold resize, resize_with.
  rewrite (proj2 (Z.ltb_lt 0 n)) by lia. run.
  destruct (Z.eqb_spec (size_ tb) n) as [<-|Hne]; [by exists tb|].
  destruct (fresh_wf (buckets_ tb) n Hn) as [Hwf0 Hc0].
  rewrite clear_spec by (cbn; rewrite length_vec_resize; lia). run. cbn [buckets_ size_].
  destruct (rehash fuel (buckets_ tb) _ (inv_unique _ (wf_inv _ Hwf)) Hwf0 Hc0)
    as (tb' & E & Hwf' & Hc' & Hs'); [rewrite (wf_entries _ Hwf) in Hroom; done|].
  rewrite E. run.
  pose proof (wf_entries_le _ Hwf). pose proof (wf_buckets_pos _ Hwf).
  rewrite (wf_entries_size _ Hwf'), Hc'. unfold contents in *.
  fold (contents tb). rewrite <- (wf_entries_size _ Hwf), to_int32_small by lia.
  rewrite Z.eqb_refl. cbn. by exists tb'.
Qed.

(** ** [put] *)

(** The size after an insertion: a table over its load factor grows. *)
Definition grown tb (n : Z) : Prop :=
  n = size_ tb \/ (over_loaded tb = true /\ n = 1 + 2 * size_ tb).

Lemma put_spec fuel tb k v :
  wf tb -> size_ tb < 2 ^ 30 - 1 ->
  exists tb', put (S (S fuel)) tb k v = Ok tb' /\ wf tb' /\
    contents tb' = <[k := v]> (contents tb) /\ grown tb (size_ tb').
Proof.
  intros Hwf Hsz. pose proof (wf_buckets_pos _ Hwf). pose proof (wf_entries_le _ Hwf).
  destruct (contents tb !! k) as [a|] eqn:Ek; [|destruct (over_loaded tb) eqn:Hl].
  1, 3: destruct (put_direct (S fuel) tb k v Hwf) as (tb' & ? & ? & ? & ?);
          [first [by right | left; by rewrite Ek]|]; exists tb'; split_and!; try done; by left.
  remember (S fuel) as f eqn:Ef. cbn [put].
  destruct (put_start (buckets_ tb) k (wf_inv _ Hwf)) as (i & found & E & Hlt & Hcl).
  rewrite <- (wf_size _ Hwf) in E. rewrite E. cbn.
  destruct found; cbn.
  { destruct Hcl as (x & Hx & Hu & Hk). unfold contents in Ek.
    rewrite (to_map_holds _ i k x) in Ek; try done. apply (wf_inv _ Hwf). }
  rewrite Hl. rewrite to_int32_small by lia. subst f.
  destruct (resize_spec fuel tb (1 + size_ tb * 2) Hwf) as (tb1 & E1 & Hw1 & Hc1 & Hs1); [lia|lia|].
  unfold resize in E1. rewrite E1. cbn [mbind outcome_bind].
  destruct (put_direct fuel tb1 k v Hw1) as (tb2 & E2 & Hw2 & Hc2 & Hs2).
  { right. unfold over_loaded. rewrite (wf_entries_size _ Hw1), Hc1, <- (wf_entries_size _ Hwf), Hs1. lia. }
  exists tb2. rewrite E2, Hc2, Hc1, Hs2, Hs1. split_and!; try done. right. split; [done|lia].
Qed.

(** ** Lookups and updates *)
Lemma bucket_for_key_spec tb k :
  wf tb ->
  (exists i x, bucket_for_key tb k = Ok (Z.of_nat i) /\ buckets_ tb !! i = Some x /\
     in_use x = true /\ bk x = k /\ contents tb !! k = Some (bval x)) \/
  (bucket_for_key tb k = Ok (-1) /\ contents tb !! k = None).
Proof.
  intros Hwf. unfold bucket_for_key. rewrite (wf_size _ Hwf).
  apply (find_start (buckets_ tb) k (wf_inv _ Hwf)).
Qed.

Lemma of_nat_neq_m1 i : (Z.of_nat i =? -1) = false.
Proof. lia. Qed.

Lemma contains_spec tb k :
  wf tb -> contains tb k = Ok (bool_decide (is_Some (contents tb !! k))).
Proof.
  intros Hwf. unfold contains.
  destruct (bucket_for_key_spec tb k Hwf) as [(i & x & E & _ & _ & _ & ->)|[E ->]]; rewrite E; run.
  - by rewrite of_nat_neq_m1.
  - done.
Qed.

Lemma get_spec tb k :
  wf tb -> get tb k = match contents tb !! k with Some v => Ok v | None => Fatal end.
Proof.
  intros Hwf. unfold get.
  destruct (bucket_for_key_spec tb k Hwf) as [(i & x & E & Hx & _ & _ & ->)|[E ->]]; rewrite E; run.
  - rewrite of_nat_neq_m1. run. by rewrite (vec_at_Some _ _ _ Hx).
  - done.
Qed.

Lemma set_v1_spec tb k i x f :
  wf tb -> buckets_ tb !! i = Some x -> in_use x = true -> bk x = k ->
  exists tb', set_v1 tb (Z.of_nat i) f = Ok tb' /\ wf tb' /\
    contents tb' = <[k := f (bval x)]> (contents tb) /\ size_ tb' = size_ tb.
Proof.
  intros Hwf Hx Hu Hk. unfold set_v1. rewrite (vec_at_Some _ _ _ Hx). run.
  rewrite vec_set_lt by (by eapply lookup_lt_Some). run. eexists. split; [done|].
  destruct (write_found tb k (f (bval x)) i x); done.
Qed.

Lemma update_spec tb k v :
  wf tb ->
  match contents tb !! k with
  | Some _ => exists tb', update tb k v = Ok tb' /\ wf tb' /\
                contents tb' = <[k := v]> (contents tb) /\ size_ tb' = size_ tb
  | None => update tb k v = Fatal
  end.
Proof.
  intros Hwf. unfold update.
  destruct (bucket_for_key_spec tb k Hwf) as [(i & x & E & Hx & Hu & Hk & ->)|[E ->]]; rewrite E; run.
  - rewrite of_nat_neq_m1. run. by apply (set_v1_spec tb k i x).
  - done.
Qed.

(** The effect of [accumulate] on the map of pending updates. *)
Definition merge (m : gmap K V) (k : K) (v : V) : gmap K V :=
  <[k := match m !! k with
         | Some a => Table.accumulate (K := K) (D := D) a v
         | None => v
         end]> m.

Lemma accumulate_spec fuel tb k v :
  wf tb -> size_ tb < 2 ^ 30 - 1 ->
  exists tb', accumulate (S (S fuel)) tb k v = Ok tb' /\ wf tb' /\
    contents tb' = merge (contents tb) k v /\ grown tb (size_ tb').
Proof.
  intros Hwf Hsz. unfold accumulate, merge. pose proof (wf_buckets_pos _ Hwf).
  destruct (bucket_for_key_spec tb k Hwf) as [(i & x & E & Hx & Hu & Hk & ->)|[E ->]]; rewrite E; run.
  - rewrite of_nat_neq_m1.
    destruct (set_v1_spec tb k i x (fun a => Table.accumulate a v)) as (tb' & ? & ? & ? & ?); try done.
    exists tb'. split_and!; try done. by left.
  - by apply put_spec.
Qed.

(** ** Construction, [reset] and [clear] *)
Lemma resize_empty fuel n :
  0 < n < 2 ^ 31 ->
  exists tb, resize fuel {| buckets_ := []; entries_ := 0; size_ := 0 |} n = Ok tb /\
    wf tb /\ contents tb = ∅ /\ size_ tb = n.
Proof.
  intros Hn. unfold resize, resize_with.
  rewrite (proj2 (Z.ltb_lt 0 n)) by lia. run. cbn [size_ buckets_ entries_].
  destruct (Z.eqb_spec 0 n); [lia|].
  rewrite clear_spec by (cbn [size_ buckets_]; rewrite length_vec_resize; lia). run.
  destruct (fresh_wf [] n Hn) as [Hwf Hc]. eexists. split_and!; done.
Qed.

Lemma create_spec fuel n :
  0 < n < 2 ^ 31 ->
  exists tb, create fuel n = Ok tb /\ wf tb /\ contents tb = ∅ /\ size_ tb = n.
Proof. intros Hn. by apply resize_empty. Qed.

Lemma reset_spec fuel tb :
  exists tb', reset fuel tb = Ok tb' /\ wf tb' /\ contents tb' = ∅ /\ size_ tb' = 1.
Proof. by apply resize_empty. Qed.

Lemma clear_wf tb :
  wf tb -> exists tb', clear tb = Ok tb' /\ wf tb' /\ contents tb' = ∅ /\ size_ tb' = size_ tb.
Proof.
  intros [Hi Hs He]. rewrite clear_spec by done. eexists. split; [done|].
  split_and!; [|apply to_map_unuse|done]. split; cbn.
  - apply probe_inv_unuse; apply Hi.
  - by rewrite length_fmap.
  - by rewrite rows_unuse.
Qed.

Lemma empty_spec tb : wf tb -> empty tb = bool_decide (contents tb = ∅).
Proof.
  intros Hwf. unfold empty, size. rewrite (wf_entries_size _ Hwf).
  apply Bool.eq_iff_eq_true. rewrite Z.eqb_eq, bool_decide_eq_true, <- map_size_empty_iff. lia.
Qed.

(** ** Serialisation *)
Lemma Next_spec tb p :
  wf tb -> (p <= length (buckets_ tb))%nat ->
  exists q, Next tb (Z.of_nat p - 1) = Ok (Z.of_nat q) /\
    (p <= q <= length (buckets_ tb))%nat /\
    rows (drop p (buckets_ tb)) = rows (drop q (buckets_ tb)) /\
    (q = length (buckets_ tb) \/ exists x, buckets_ tb !! q = Some x /\ in_use x = true /\
       rows (drop q (buckets_ tb)) = (bk x, bval x) :: rows (drop (S q) (buckets_ tb))).
Proof. intros Hwf Hp. unfold Next. rewrite (wf_size _ Hwf). apply next_loop_spec; lia. Qed.

Lemma serialize_loop_spec tb fuel q out :
  wf tb -> (q <= length (buckets_ tb))%nat -> (length (buckets_ tb) - q < fuel)%nat ->
  (q = length (buckets_ tb) \/ exists x, buckets_ tb !! q = Some x /\ in_use x = true /\
     rows (drop q (buckets_ tb)) = (bk x, bval x) :: rows (drop (S q) (buckets_ tb))) ->
  serialize_loop fuel tb (Z.of_nat q) out =
  Ok {| kc_t := kc_t out ++ (marshal_row <$> rows (drop q (buckets_ tb)));
        kc_read_pos := kc_read_pos out |}.
Proof.
  intros Hwf. revert q out. induction fuel as [|fuel IH]; intros q out Hq Hf Hc; [lia|].
  cbn [serialize_loop]. unfold iter_done. rewrite (wf_size _ Hwf).
  destruct Hc as [->|(x & Hx & Hu & Hr)].
  - rewrite Z.eqb_refl, drop_ge by done. cbn. rewrite app_nil_r. by destruct out.
  - pose proof (lookup_lt_Some _ _ _ Hx) as Hlt.
    destruct (Z.eqb_spec (Z.of_nat q) (Z.of_nat (length (buckets_ tb)))); [lia|].
    rewrite (vec_at_Some _ _ _ Hx). run.
    destruct (Next_spec tb (S q) Hwf Hlt) as (q' & E & Hq' & Hr' & Hc').
    replace (Z.of_nat (S q) - 1) with (Z.of_nat q) in E by lia. rewrite E. run.
    rewrite IH by (done || lia). rewrite Hr, Hr'. cbn. by rewrite <- app_assoc.
Qed.

(** [serializeToNet] writes the rows of the table, in bucket order. *)
Lemma serializeToNet_spec tb out :
  wf tb ->
  serializeToNet tb out =
  Ok {| kc_t := kc_t out ++ (marshal_row <$> rows (buckets_ tb)); kc_read_pos := kc_read_pos out |}.
Proof.
  intros Hwf. unfold serializeToNet, iter_begin.
  destruct (Next_spec tb 0 Hwf) as (q & E & Hq & Hr & Hc); [lia|].
  replace (Z.of_nat 0 - 1) with (-1) in E by lia. rewrite E. run.
  rewrite serialize_loop_spec by (done || lia). by rewrite <- Hr.
Qed.

Context `{!MarshalLaws K} `{!MarshalLaws V}.

(** The receiver decodes the rows that the sender's table held. *)
Lemma net_roundtrip tb it :
  wf tb -> Forall row_representable (rows (buckets_ tb)) ->
  (c ← serializeToNet tb {| kc_t := []; kc_read_pos := 0 |}; deserializeFromNet c it) =
  Ok {| decodedeque := rows (buckets_ tb); intit := 0 |}.
Proof.
  intros Hwf Hrep. rewrite serializeToNet_spec by done. run. unfold deserializeFromNet.
  cbn [kc_t app]. rewrite length_fmap.
  by rewrite (deserialize_loop_spec (rows (buckets_ tb))) by (done || lia).
Qed.

(** ** The table as a finite map *)

(** The operations that change the table ... *)
Inductive op := Put (k : K) (v : V) | Accumulate (k : K) (v : V) | Update (k : K) (v : V) | Remove (k : K) | Clear | Reset.
Definition exec (fuel : nat) tb (o : op) : outcome t :=
  match o with
  | Put k v => put fuel tb k v
  | Accumulate k v => accumulate fuel tb k v
  | Update k v => update tb k v
  | Remove k => _ ← remove tb k; Ok tb
  | Clear => clear tb
  | Reset => reset fuel tb
  end.
(** ... and what they do to the map it represents; an update of an unknown key
    is a failed [CHECK], and so is every [remove]. *)
Definition exec_spec (m : gmap K V) (o : op) : outcome (gmap K V) :=
  match o with
  | Put k v => Ok (<[k := v]> m)
  | Accumulate k v => Ok (merge m k v)
  | Update k v => match m !! k with Some _ => Ok (<[k := v]> m) | None => Fatal end
  | Remove _ => Fatal
  | Clear | Reset => Ok ∅
  end.

(** C24. Every operation of the delta table, on a well-formed table of fewer
    than 2^30 - 1 buckets, does to the represented map what its specification
    says, growing the array with [resize] when needed, and keeps the table well
    formed; it fails only where the specification fails: an update of an unknown
    key, and every [remove]. *)
Theorem delta_refines fuel tb o :
  wf tb -> size_ tb < 2 ^ 30 - 1 ->
  match exec_spec (contents tb) o with
  | Ok m => exists tb', exec (S (S fuel)) tb o = Ok tb' /\ wf tb' /\ contents tb' = m
  | _ => exec (S (S fuel)) tb o = Fatal
  end.
Proof.
  intros Hwf Hsz. destruct o as [k v|k v|k v|k| |]; cbn [exec exec_spec].
  - destruct (put_spec fuel tb k v Hwf Hsz) as (tb' & ? & ? & ? & _). by exists tb'.
  - destruct (accumulate_spec fuel tb k v Hwf Hsz) as (tb' & ? & ? & ? & _). by exists tb'.
  - pose proof (update_spec tb k v Hwf) as Hu. destruct (contents tb !! k); [|done].
    destruct Hu as (tb' & ? & ? & ? & _). by exists tb'.
  - done.
  - destruct (clear_wf tb Hwf) as (tb' & ? & ? & ? & _). by exists tb'.
  - destruct (reset_spec (S (S fuel)) tb) as (tb' & ? & ? & ? & _). by exists tb'.
Qed.

(** A sequence of operations. *)
Definition exec_all (fuel : nat) (ops : list op) tb : outcome t := for_each (exec fuel) ops tb.

(** The bounds after [m] operations on a table created with one bucket. *)
Definition within (m : Z) tb : Prop := wf tb /\ entries_ tb <= m /\ 2 * size_ tb <= 2 + 5 * m.
Lemma inserted_within m tb tb' k v : within m tb -> wf tb' -> grown tb (size_ tb') ->
  contents tb' = <[k := v]> (contents tb) -> within (m + 1) tb'.
Proof.
  intros (Hwf & He & Hs) Hwf' Hg Hc. split; [done|].
  assert (entries_ tb' <= entries_ tb + 1) as He'.
  { rewrite (wf_entries_size _ Hwf'), (wf_entries_size _ Hwf), Hc, map_size_insert. destruct (contents tb !! k); cbn; lia. }
  split; [lia|]. destruct Hg as [->|[Ho ->]]; [lia|]. unfold over_loaded in Ho. lia.
Qed.
Lemma emptied_within m tb tb' : 0 <= m -> within m tb -> wf tb' -> contents tb' = ∅ ->
  size_ tb' = size_ tb \/ size_ tb' = 1 -> within (m + 1) tb'.
Proof.
  intros Hm (_ & _ & Hs) Hwf' Hc Hsz. split; [done|]. rewrite (wf_entries_size _ Hwf'), Hc, map_size_empty. lia.
Qed.
Lemma exec_within fuel m tb o : within m tb -> 0 <= m < 2 ^ 28 ->
  (exists tb', exec (S (S fuel)) tb o = Ok tb' /\ within (m + 1) tb') \/ exec (S (S fuel)) tb o = Fatal.
Proof.
  intros Hin Hm. pose proof Hin as (Hwf & He & Hs). destruct o as [k v|k v|k v|k| |]; cbn [exec].
  - left. destruct (put_spec fuel tb k v Hwf ltac:(lia)) as (tb' & E & Hw & Hc & Hg). exists tb'. split; [done|].
    by eapply inserted_within.
  - left. destruct (accumulate_spec fuel tb k v Hwf ltac:(lia)) as (tb' & E & Hw & Hc & Hg). exists tb'. split; [done|].
    by eapply inserted_within.
  - pose proof (update_spec tb k v Hwf) as Hu. destruct (contents tb !! k); [|by right].
    destruct Hu as (tb' & E & Hw & Hc & Hg). left. exists tb'. split; [done|]. eapply inserted_within; [done..| |done]. by left.
  - by right.
  - left. destruct (clear_wf tb Hwf) as (tb' & E & Hw & Hc & Hsz). exists tb'. split; [done|].
    eapply emptied_within; [lia|done..|]. by left.
  - left. destruct (reset_spec (S (S fuel)) tb) as (tb' & E & Hw & Hc & Hsz). exists tb'. split; [done|].
    eapply emptied_within; [lia|done..|]. by right.
Qed.

(** C40. A delta table cannot go wrong: every sequence of fewer than 2^28
    operations on a new table ends in a well-formed table or in a failed
    [CHECK], never in an access outside the array, an endless probe or a size
    that overflows. *)
Theorem delta_type_safe fuel ops :
  Z.of_nat (length ops) < 2 ^ 28 ->
  exists tb, create (S (S fuel)) 1 = Ok tb /\
    ((exists tb', exec_all (S (S fuel)) ops tb = Ok tb' /\ wf tb') \/ exec_all (S (S fuel)) ops tb = Fatal).
Proof.
  intros Hn. destruct (create_spec (S (S fuel)) 1 ltac:(lia)) as (tb & E & Hwf & Hc & Hs). exists tb. split; [done|].
  assert (within 0 tb) as Hin.
  { split; [done|]. rewrite (wf_entries_size _ Hwf), Hc, map_size_empty. lia. }
  clear E Hwf Hc Hs. unfold exec_all. remember 0 as m eqn:Em.
  assert (0 <= m /\ m + Z.of_nat (length ops) < 2 ^ 28) as Hm by lia. clear Em Hn.
  revert tb m Hin Hm. induction ops as [|o ops IH]; intros tb m Hin Hm; cbn [for_each].
  { left. exists tb. split; [done|apply Hin]. }
  cbn [length] in Hm. destruct (exec_within fuel m tb o Hin ltac:(lia)) as [(tb' & -> & Hin') | -> ]; run; [|by right].
  apply (IH tb' (m + 1)); [done|lia].
Qed.

(** What is read is the represented map: [get] returns the value of a key
    or fails when there is none, [contains], [size] and [empty] agree with it. *)
Theorem delta_reads tb k :
  wf tb ->
  get tb k = match contents tb !! k with Some v => Ok v | None => Fatal end /\
  contains tb k = Ok (bool_decide (is_Some (contents tb !! k))) /\
  size tb = Z.of_nat (base.size (contents tb)) /\
  empty tb = bool_decide (contents tb = ∅).
Proof.
  intros Hwf. split_and!; [by apply get_spec|by apply contains_spec|by apply wf_entries_size|by apply empty_spec].
Qed.

(** C25. What [serializeToNet] writes for a delta table, [deserializeFromNet]
    reads back at the receiver: every row once, and no other. *)
Theorem delta_net_roundtrip tb it :
  wf tb -> map_Forall (fun k v => row_representable (k, v)) (contents tb) ->
  exists l, (c ← serializeToNet tb {| kc_t := []; kc_read_pos := 0 |}; deserializeFromNet c it) =
      Ok {| decodedeque := l; intit := 0 |} /\ l ≡ₚ map_to_list (contents tb).
Proof.
  intros Hwf Hrep. pose proof (rows_keys_NoDup _ (inv_unique _ (wf_inv _ Hwf))) as Hnd.
  exists (rows (buckets_ tb)). split.
  - apply net_roundtrip; [done|]. apply Forall_forall. intros [k v] Hin. apply Hrep.
    by apply elem_of_list_to_map.
  - unfold contents, to_map. symmetry. by apply map_to_list_to_map.
Qed.
End DeltaTable.
Arguments t K V : clear implicits.
Arguments op K V : clear implicits.

(** ** Witnesses on the sample kernel *)
Section Sample.
(** Two keys in a table that was created with one bucket and has grown. *)
Definition pair_table : t Z Z := Eval vm_compute in
  match (tb ← create (K := Z) (V := Z) 2 1; tb ← put 2 tb 4 7; put 2 tb 9 2) with
  | Ok tb => tb | _ => mk [] 0 0 end.
Lemma pair_table_wf : wf pair_table.
Proof. apply wfb_sound. vm_compute. reflexivity. Qed.
Lemma delta_refines_witness :
  exists tb', exec (D := list Z) 2 pair_table (Accumulate 4 3) = Ok tb' /\ wf tb' /\
    contents tb' = merge (D := list Z) (contents pair_table) 4 3.
Proof. apply (delta_refines (D := list Z) 0 pair_table (Accumulate 4 3) pair_table_wf). vm_compute. reflexivity. Defined.
Lemma delta_type_safe_witness :
  exists tb : t Z Z, create 2 1 = Ok tb /\
    ((exists tb', exec_all (D := list Z) 2 [Put 4 7; Accumulate 4 3; Clear; Update 4 1] tb = Ok tb' /\ wf tb') \/
     exec_all (D := list Z) 2 [Put 4 7; Accumulate 4 3; Clear; Update 4 1] tb = Fatal).
Proof. apply (delta_type_safe (D := list Z) 0 [Put 4 7; Accumulate 4 3; Clear; Update 4 1]). reflexivity. Defined.
Lemma delta_reads_witness : get pair_table 4 = Ok 7 /\ contains pair_table 5 = Ok false.
Proof.
  split; [exact (proj1 (delta_reads pair_table 4 pair_table_wf))
         |exact (proj1 (proj2 (delta_reads pair_table 5 pair_table_wf)))].
Defined.
Lemma delta_net_roundtrip_witness :
  exists l : list (Z * Z),
    (c ← serializeToNet pair_table {| kc_t := []; kc_read_pos := 0 |}; deserializeFromNet c Decode.create) =
      Ok {| decodedeque := l; intit := 0 |} /\ (length l = 2)%nat.
Proof.
  destruct (delta_net_roundtrip pair_table Decode.create pair_table_wf) as (l & E & Hl).
  - intros k v Hk. apply elem_of_list_to_map_2 in Hk.
    repeat (apply elem_of_cons in Hk as [[= -> ->]|Hk]; [by split|]). by apply not_elem_of_nil in Hk.
  - exists l. split; [exact E|]. rewrite Hl. vm_compute. reflexivity.
Defined.
End Sample.
End DeltaTable.
