(* ===== verification/StateTable.v ===== *)
(** * The state table: kernel/statetable.h

    [StateTable<K, V1, V2, V3>] holds the rows of the shards a worker owns: for
    each vertex its pending delta [v1], its value [v2], its data [v3] and a
    scheduling priority.  The kernel's [accumulate] and [priority] are applied
    to both value fields, so [V1] and [V2] are one type [V]; [V3] is [D]. *)
From stdpp Require Import sorting.
From S2P Require Import Prelude Float StringPiece Probe Table SampleKernel.

Module StateTable.
Section StateTable.
Context {K V D : Type} `{Countable K} `{!Hashable K}.
Context `{!ValueInit K} `{!ValueInit V} `{!ValueInit D}.
Context `{!IterateKernel K V D}.

(** The value fields of a [Bucket]. *)
Record cell := Cell { v1 : V; v2 : V; v3 : D; prio : V }.
Record t := mk {
  buckets_ : list (bucket K cell);
  entries_ : Z;
  size_ : Z;
  total_curr : spec_float;
  total_updates : Z;
  terminated_ : bool
}.
Implicit Types tb : t.

Definition empty_bucket : bucket K cell :=
  Bucket value_init (Cell value_init value_init value_init value_init) false.
Definition with_buckets tb (bs : list (bucket K cell)) (entries size : Z) : t :=
  mk bs entries size (total_curr tb) (total_updates tb) (terminated_ tb).

Definition clear tb : outcome t :=
  bs ← clear_flags (buckets_ tb) (size_ tb); Ok (with_buckets tb bs 0 (size_ tb)).

(** [resize]; the check that the number of entries is kept is commented out
    in the source. *)
Definition resize_with (put : t -> K -> V -> V -> D -> outcome t) tb (size : Z) : outcome t :=
  _ ← CHECK (0 <? size);
  if size_ tb =? size then Ok tb
  else
    let old_b := buckets_ tb in
    tb1 ← clear (with_buckets tb (vec_resize empty_bucket (buckets_ tb) (Z.to_nat size))
                   (entries_ tb) size);
    for_each (fun tb x =>
      if in_use x then put tb (bk x) (v1 (bval x)) (v2 (bval x)) (v3 (bval x)) else Ok tb) old_b tb1.

(** The value fields written by [put]; [priority] gets the bucket's old
    priority by reference. *)
Definition new_cell (old : cell) (w1 w2 : V) (w3 : D) : cell :=
  Cell w1 w2 w3 (priority (D := D) (K := K) (prio old) w2 w1).

Fixpoint put (fuel : nat) tb (k : K) (w1 w2 : V) (w3 : D) : outcome t :=
  match fuel with
  | O => OutOfFuel
  | S fuel =>
    let start := bucket_idx (size_ tb) k in
    '(b, found) ← put_loop (buckets_ tb) (size_ tb) k start (length (buckets_ tb)) start;
    if negb found then
      if size_ tb <? entries_ tb then
        tb' ← resize_with (put fuel) tb (to_int32 (1 + size_ tb * 2));
        tb' ← put fuel tb' k w1 w2 w3;
        Ok (with_buckets tb' (buckets_ tb') (entries_ tb' + 1) (size_ tb'))
      else
        x ← vec_at (buckets_ tb) b;
        bs ← vec_set (buckets_ tb) b (Bucket k (new_cell (bval x) w1 w2 w3) true);
        Ok (with_buckets tb bs (entries_ tb + 1) (size_ tb))
    else
      x ← vec_at (buckets_ tb) b;
      bs ← vec_set (buckets_ tb) b (Bucket (bk x) (new_cell (bval x) w1 w2 w3) (in_use x));
      Ok (with_buckets tb bs (entries_ tb) (size_ tb))
  end.
Definition resize (fuel : nat) : t -> Z -> outcome t := resize_with (put fuel).

(** [StateTable(int size)]; [Init] clears the termination flag. *)
Definition create (fuel : nat) (size : Z) : outcome t :=
  tb ← clear (mk [] 0 0 (S754_zero false) 0 false);
  resize fuel tb size.

Definition bucket_for_key tb (k : K) : outcome Z :=
  let start := bucket_idx (size_ tb) k in
  find_loop (buckets_ tb) (size_ tb) k start (length (buckets_ tb)) start.

Definition contains tb (k : K) : outcome bool := b ← bucket_for_key tb k; Ok (negb (b =? -1)).

(** The lookup that the accessors share: [bucket_for_key], [CHECK_NE(b, -1)]
    and the bucket. *)
Definition checked_bucket tb (k : K) : outcome (Z * bucket K cell) :=
  b ← bucket_for_key tb k;
  _ ← CHECK (negb (b =? -1));
  x ← vec_at (buckets_ tb) b;
  Ok (b, x).
Definition getF1 tb (k : K) : outcome V := '(_, x) ← checked_bucket tb k; Ok (v1 (bval x)).
Definition getF2 tb (k : K) : outcome V := '(_, x) ← checked_bucket tb k; Ok (v2 (bval x)).
Definition getF3 tb (k : K) : outcome D := '(_, x) ← checked_bucket tb k; Ok (v3 (bval x)).
Definition get tb (k : K) : outcome (ClutterRecord K V D) :=
  '(_, x) ← checked_bucket tb k;
  Ok (Build_ClutterRecord k (v1 (bval x)) (v2 (bval x)) (v3 (bval x))).

(** Assign the value fields of bucket [b]. *)
Definition set_cell tb (b : Z) (x : bucket K cell) (c : cell) : outcome t :=
  bs ← vec_set (buckets_ tb) b (Bucket (bk x) c (in_use x));
  Ok (with_buckets tb bs (entries_ tb) (size_ tb)).

(** [updateF1]: "didn't use priority function, assume the smallest priority is 0". *)
Definition updateF1 tb (k : K) (v : V) : outcome t :=
  '(b, x) ← checked_bucket tb k;
  tb ← set_cell tb b x (Cell v (v2 (bval x)) (v3 (bval x)) (v_zero (K := K) (D := D)));
  Ok (mk (buckets_ tb) (entries_ tb) (size_ tb) (total_curr tb) (total_updates tb + 1) (terminated_ tb)).
Definition updateF2 tb (k : K) (v : V) : outcome t :=
  '(b, x) ← checked_bucket tb k;
  set_cell tb b x (Cell (v1 (bval x)) v (v3 (bval x)) (prio (bval x))).
Definition updateF3 tb (k : K) (v : D) : outcome t :=
  '(b, x) ← checked_bucket tb k;
  set_cell tb b x (Cell (v1 (bval x)) (v2 (bval x)) v (prio (bval x))).
Definition accumulateF1 tb (k : K) (v : V) : outcome t :=
  '(b, x) ← checked_bucket tb k;
  let a := accumulate (K := K) (D := D) (v1 (bval x)) v in
  set_cell tb b x (Cell a (v2 (bval x)) (v3 (bval x))
    (priority (K := K) (D := D) (prio (bval x)) (v2 (bval x)) a)).
Definition accumulateF2 tb (k : K) (v : V) : outcome t :=
  '(b, x) ← checked_bucket tb k;
  set_cell tb b x (Cell (v1 (bval x)) (accumulate (K := K) (D := D) (v2 (bval x)) v)
    (v3 (bval x)) (prio (bval x))).
Definition accumulateF3 tb (k : K) (v : D) : outcome t := Ok tb.
Definition remove tb (k : K) : outcome bool := Fatal.
Definition size tb : Z := entries_ tb.
Definition empty tb : bool := size tb =? 0.
Definition reset tb : t := tb.
Definition terminate tb : t :=
  mk (buckets_ tb) (entries_ tb) (size_ tb) (total_curr tb) (total_updates tb) true.

(** ** Iterators

    [Iterator] and [EntirePassIterator] walk over the buckets in use; the
    former ignores its [total].  [done] holds when the cursor is on the last
    bucket. *)
Record EntirePassIterator := { ep_parent : t; ep_pos : Z; ep_total : Z }.
Definition EntirePass tb : EntirePassIterator := {| ep_parent := tb; ep_pos := -1; ep_total := 0 |}.
Definition ep_Next (it : EntirePassIterator) : outcome (EntirePassIterator * bool) :=
  let tb := ep_parent it in
  pos ← next_loop (buckets_ tb) (size_ tb) (S (length (buckets_ tb))) (ep_pos it);
  Ok ({| ep_parent := tb; ep_pos := pos; ep_total := ep_total it + 1 |}, negb (size_ tb <=? pos)).
Definition ep_done (it : EntirePassIterator) : bool := ep_pos it + 1 =? size_ (ep_parent it).
Definition ep_bucket (it : EntirePassIterator) : outcome (bucket K cell) :=
  vec_at (buckets_ (ep_parent it)) (ep_pos it).
#[export] Instance EntirePass_iterator : LocalTableIterator EntirePassIterator V := {
  it_done := ep_done;
  it_Next := ep_Next;
  it_value2 it := x ← ep_bucket it; Ok (v2 (bval x));
  it_defaultV it := default_v (K := K) (D := D)
}.

(** [serializeToSnapshot]: the number of updates and the progress estimate. *)
Definition serializeToSnapshot tb : outcome (t * Z * spec_float) :=
  curr ← estimate_prog (K := K) (D := D) (S (S (length (buckets_ tb)))) (EntirePass tb);
  Ok (mk (buckets_ tb) (entries_ tb) (size_ tb) curr (total_updates tb) (terminated_ tb),
      total_updates tb, curr).

(** The pass of [get_iterator] after ten trials: it stops when [Next] says
    that no row is left. *)
Fixpoint total_pass (fuel : nat) (it : EntirePassIterator) (curr : spec_float) :
    outcome (EntirePassIterator * spec_float) :=
  match fuel with
  | O => OutOfFuel
  | S fuel =>
    if ep_done it then Ok (it, curr)
    else
      '(it, cont) ← ep_Next it;
      if negb cont then Ok (it, curr)
      else
        x ← ep_bucket it;
        total_pass fuel it (f64_add curr (v_double (K := K) (D := D) (v2 (bval x))))
  end.

(** The same pass in [schedule_iterator]: the result of [Next] is not tested. *)
Fixpoint total_pass_sched (fuel : nat) (it : EntirePassIterator) (curr : spec_float) :
    outcome (EntirePassIterator * spec_float) :=
  match fuel with
  | O => OutOfFuel
  | S fuel =>
    if ep_done it then Ok (it, curr)
    else
      '(it, _) ← ep_Next it;
      x ← ep_bucket it;
      total_pass_sched fuel it (f64_add curr (v_double (K := K) (D := D) (v2 (bval x))))
  end.

(** ** Priority scheduling: the constructor of [ScheduledIterator] *)
Definition sample_size : Z := 1000.

(** The truncation of [sample_size * schedule_portion] to an [int]. *)
Definition trunc (x : spec_float) : Z :=
  match x with
  | S754_finite s m e => cond_Zopp s (if 0 <=? e then Z.pos m * 2 ^ e else Z.pos m / 2 ^ (- e))
  | _ => 0
  end.

(** The table has at most [sample_size] rows: all of them are scheduled.
    [b_no_change] is the conjunction the constructor computes. *)
Definition schedule_all tb : outcome (list Z * bool) :=
  for_each (fun '(pos, no_change) (i : Z) =>
      x ← vec_at (buckets_ tb) i;
      if in_use x then
        Ok (pos ++ [i], no_change && negb (v_eqb (K := K) (D := D) (v1 (bval x)) (default_v (K := K) (D := D))))
      else Ok (pos, no_change))
    (seqZ 0 (size_ tb)) ([], true).

(** Drawing random positions until one is in use. *)
Fixpoint draw (fuel : nat) tb (rand : nat -> Z) (n : nat) : outcome (Z * nat) :=
  match fuel with
  | O => OutOfFuel
  | S fuel =>
    let rand_pos := rand n in
    x ← vec_at (buckets_ tb) rand_pos;
    if in_use x then Ok (rand_pos, S n) else draw fuel tb rand (S n)
  end.
Fixpoint sample (fuel count : nat) tb (rand : nat -> Z) (n : nat) : outcome (list Z) :=
  match count with
  | O => Ok []
  | S count =>
    '(p, n) ← draw fuel tb rand n;
    ps ← sample fuel count tb rand n;
    Ok (p :: ps)
  end.

(** [compare_priority]: larger priorities first. *)
Definition prio_at tb (p : Z) : V :=
  match buckets_ tb !! Z.to_nat p with Some x => prio (bval x) | None => value_init end.
Definition compare_priority tb (a b : Z) : bool := v_ltb (K := K) (D := D) (prio_at tb b) (prio_at tb a).

(** [sort(...)] as an insertion sort: only the priority found at an index of
    the result is used, and it does not depend on the order of equal ones.
    (The library asks for a strict weak order, which [>] is not when some
    priorities are NaN: the theorems on the sample ask for it too.) *)
Fixpoint insert_pos tb (p : Z) (l : list Z) : list Z :=
  match l with
  | [] => [p]
  | q :: l => if compare_priority tb p q then p :: q :: l else q :: insert_pos tb p l
  end.
Definition sort_pos tb (l : list Z) : list Z := foldr (insert_pos tb) [] l.

(** The rows in use, with a pending delta, whose priority passes the test. *)
Definition schedule_if tb (test : V -> bool) : outcome (list Z) :=
  for_each (fun pos (i : Z) =>
      x ← vec_at (buckets_ tb) i;
      if negb (in_use x) then Ok pos
      else if v_eqb (K := K) (D := D) (v1 (bval x)) (default_v (K := K) (D := D)) then Ok pos
      else if test (prio (bval x)) then Ok (pos ++ [i]) else Ok pos)
    (seqZ 0 (size_ tb)) [].

(** The constructor: the scheduled positions and [b_no_change]. *)
Definition ScheduledIterator (fuel : nat) tb (portion : spec_float) (rand : nat -> Z) (bfilter : bool) :
    outcome (list Z * bool) :=
  if entries_ tb <=? sample_size then
    '(pos, no_change) ← schedule_all tb;
    if no_change && bfilter then Ok (pos, no_change)
    else Ok (pos, if bfilter then no_change else false)
  else
    sampled_pos ← sample fuel (Z.to_nat sample_size) tb rand 0;
    let no_change := forallb (fun p => match buckets_ tb !! Z.to_nat p with
                       | Some x => v_eqb (K := K) (D := D) (v1 (bval x)) (default_v (K := K) (D := D))
                       | None => false end) sampled_pos in
    if no_change && bfilter then Ok ([], no_change)
    else
      let no_change := if bfilter then no_change else false in
      let sorted_pos := sort_pos tb sampled_pos in
      let cut_index := trunc (f64_mul (f64_of_Z sample_size) portion) in
      cut ← vec_at sorted_pos cut_index;
      first ← vec_at sorted_pos 0;
      let threshold := prio_at tb cut in
      let lt := v_ltb (K := K) (D := D) in
      pos ← (if (cut_index =? 0) || v_eqb (K := K) (D := D) (prio_at tb first) threshold
             then schedule_if tb (fun p => lt threshold p || v_eqb (K := K) (D := D) p threshold)
             else schedule_if tb (fun p => lt threshold p));
      Ok (pos, no_change).

(** ** Iterators handed to the iteration loop

    [Iterator]'s constructor with [bfilter] samples up to [sample_size] rows
    while the conjunction holds; without it, [b_no_change] is false.  The
    sample is drawn from the random numbers [rand]. *)
Fixpoint Iterator_sample (fuel count : nat) tb (rand : nat -> Z) (n : nat) : outcome bool :=
  match count with
  | O => Ok true
  | S count =>
    '(p, n) ← draw fuel tb rand n;
    x ← vec_at (buckets_ tb) p;
    if v_eqb (K := K) (D := D) (v1 (bval x)) (default_v (K := K) (D := D)) then Ok false
    else Iterator_sample fuel count tb rand n
  end.
Definition Iterator (fuel : nat) tb (rand : nat -> Z) (bfilter : bool) : outcome bool :=
  if bfilter then Iterator_sample fuel (Z.to_nat sample_size) tb rand 0 else Ok false.

(** The [TableIterator*] results. *)
Inductive TableIterator :=
  | NoIterator
  | RowIterator
  | PositionIterator (scheduled_pos : list Z)
  | EntireIterator (it : EntirePassIterator).

(** One [SendTermcheck(-1, updates, current)]. *)
Definition termcheck_msg : Type := Z * spec_float.

Section Waiting.
(** The table is an object of a process, in a state of type [S]: [self] reads
    [*this] and [set_self] assigns it. *)
Context {S : Type}.
Variables (self : S -> outcome t) (set_self : S -> t -> outcome S).
(** [helper->FlushUpdates()], a pause and [helper->HandlePutRequest()], for the
    [n]-th time: other workers' updates and the termination signal may change
    the process. *)
Variable exchange : nat -> S -> outcome S.
(** The construction of the [n]-th iterator and the closing pass. *)
Variable make : nat -> t -> outcome (TableIterator * bool).
Variable pass : nat -> EntirePassIterator -> spec_float -> outcome (EntirePassIterator * spec_float).

(** [while (iter->b_no_change)], with the number of trials made. *)
Fixpoint wait_loop (fuel trial : nat) (st : S) (iter : TableIterator) (no_change : bool) :
    outcome (S * TableIterator * list termcheck_msg) :=
  match fuel with
  | O => OutOfFuel
  | Datatypes.S fuel =>
    if negb no_change then Ok (st, iter, [])
    else
      st ← exchange (Datatypes.S trial) st;
      tb ← self st;
      if terminated_ tb then Ok (st, NoIterator, [])
      else
        '(iter, no_change) ← make (Datatypes.S trial) tb;
        if decide (10 <= Datatypes.S trial)%nat then
          '(it, curr) ← pass (2 + length (buckets_ tb))%nat (EntirePass tb) (S754_zero false);
          st ← set_self st (mk (buckets_ tb) (entries_ tb) (size_ tb) curr (total_updates tb) (terminated_ tb));
          Ok (st, EntireIterator it, [(total_updates tb, curr)])
        else wait_loop fuel (Datatypes.S trial) st iter no_change
  end.
Definition iterator_with (st : S) : outcome (S * TableIterator * list termcheck_msg) :=
  tb ← self st;
  if terminated_ tb then Ok (st, NoIterator, [])
  else
    st ← exchange 0 st;
    tb ← self st;
    '(iter, no_change) ← make 0 tb;
    wait_loop 11 0 st iter no_change.
End Waiting.

(** [get_iterator]: the first iterator is always filtered. *)
Definition get_iterator {S : Type} (self : S -> outcome t) (set_self : S -> t -> outcome S) (fuel : nat)
    (exchange : nat -> S -> outcome S) (rand : nat -> nat -> Z) (st : S) (bfilter : bool) :
    outcome (S * TableIterator * list termcheck_msg) :=
  iterator_with self set_self exchange
    (fun n tb => b ← Iterator fuel tb (rand n) (if decide (n = 0)%nat then true else bfilter);
                 Ok (RowIterator, b))
    total_pass st.
Definition schedule_iterator {S : Type} (self : S -> outcome t) (set_self : S -> t -> outcome S) (fuel : nat)
    (exchange : nat -> S -> outcome S) (rand : nat -> nat -> Z) (portion : spec_float) (st : S) (bfilter : bool) :
    outcome (S * TableIterator * list termcheck_msg) :=
  iterator_with self set_self exchange
    (fun n tb => '(ps, b) ← ScheduledIterator fuel tb portion (rand n) bfilter;
                 Ok (PositionIterator ps, b))
    total_pass_sched st.
Definition entirepass_iterator tb : TableIterator := EntireIterator (EntirePass tb).

(** [deserializeFromFile] and [deserializeFromNet]. *)
Definition deserializeFromFile `{!Marshal K, !Marshal V, !Marshal D} (c : ProtoTableCoder)
    (it : FileDecodeIterator K V D) : outcome (FileDecodeIterator K V D) :=
  deserialize_file_loop (S (length (tc_t c))) c (Decode.clear it).
Definition deserializeFromNet `{!Marshal K, !Marshal V} (c : ProtoKVPairCoder)
    (it : NetDecodeIterator K V) : outcome (NetDecodeIterator K V) :=
  deserialize_loop (S (length (kc_t c))) c (Decode.clear it).

(** ** Well-formedness and the represented map *)
Record wf tb : Prop := {
  wf_inv : probe_inv (buckets_ tb);
  wf_size : size_ tb = Z.of_nat (length (buckets_ tb));
  wf_entries : entries_ tb = Z.of_nat (length (rows (buckets_ tb)))
}.
Definition contents tb : gmap K cell := to_map (buckets_ tb).

(** A concrete table is checked by evaluation. *)
Definition wfb tb : bool :=
  probe_invb (buckets_ tb) && (size_ tb =? Z.of_nat (length (buckets_ tb))) &&
  (entries_ tb =? Z.of_nat (length (rows (buckets_ tb)))).
Lemma state_wfb_sound tb : wfb tb = true -> wf tb.
Proof.
  unfold wfb. rewrite !andb_true_iff. intros [[Hi Hs] He].
  split; [by apply probe_invb_sound|lia|lia].
Qed.

Lemma state_wf_entries_size tb : wf tb -> entries_ tb = Z.of_nat (base.size (contents tb)).
Proof. intros [Hi _ ->]. unfold contents. rewrite size_to_map; [done|apply Hi]. Qed.

Lemma state_wf_entries_le tb : wf tb -> 0 <= entries_ tb <= size_ tb.
Proof. intros [_ -> ->]. pose proof (length_rows_le (buckets_ tb)). lia. Qed.

Lemma state_wf_buckets_pos tb : wf tb -> 0 < size_ tb < 2 ^ 31.
Proof. intros [[Hp Hi _ _] -> _]. lia. Qed.

(** Writing the fields of a row that is there. *)
Lemma state_write_found tb i x c :
  wf tb -> buckets_ tb !! i = Some x -> in_use x = true ->
  let tb' := with_buckets tb (<[i := Bucket (bk x) c (in_use x)]> (buckets_ tb)) (entries_ tb) (size_ tb) in
  wf tb' /\ contents tb' = <[bk x := c]> (contents tb).
Proof.
  intros [Hi Hs He] Hx Hu. cbv zeta. rewrite Hu. unfold contents; cbn.
  assert (probe_inv (<[i := Bucket (bk x) c true]> (buckets_ tb))) as Hi'
    by (by eapply probe_inv_write_used).
  split.
  - split; cbn; [done|by rewrite length_insert|]. by rewrite (rows_insert_used _ _ x).
  - rewrite to_map_write; try done; [by eapply lookup_lt_Some|]. naive_solver.
Qed.

Lemma state_write_new tb k c i :
  wf tb -> put_free (buckets_ tb) k i ->
  let tb' := with_buckets tb (<[i := Bucket k c true]> (buckets_ tb)) (entries_ tb + 1) (size_ tb) in
  wf tb' /\ contents tb' = <[k := c]> (contents tb).
Proof.
  intros [Hi Hs He] Hf. cbv zeta. unfold contents; cbn.
  assert (probe_inv (<[i := Bucket k c true]> (buckets_ tb))) as Hi'
    by (by eapply probe_inv_write_free).
  destruct Hf as (Ha & d & x & Hd & -> & Hsc & Hx & Hux). split.
  - split; cbn; [done|by rewrite length_insert|]. rewrite (rows_insert_free _ _ x) by done. lia.
  - rewrite to_map_write; try done; [by eapply lookup_lt_Some|]. intros y Hy Huy. congruence.
Qed.

(** ** [put] *)
Context `{!PriorityLaws K V D}.

(** The row that [put] stores. *)
Definition fresh_cell (w1 w2 : V) (w3 : D) : cell :=
  Cell w1 w2 w3 (priority (K := K) (D := D) (v_zero (K := K) (D := D)) w2 w1).

Lemma new_cell_fresh old w1 w2 w3 : new_cell old w1 w2 w3 = fresh_cell w1 w2 w3.
Proof. unfold new_cell, fresh_cell. f_equal. apply priority_out. Qed.

Lemma put_room fuel tb k w1 w2 w3 :
  wf tb -> contents tb !! k <> None \/ entries_ tb < size_ tb ->
  exists tb', put (S fuel) tb k w1 w2 w3 = Ok tb' /\ wf tb' /\
    contents tb' = <[k := fresh_cell w1 w2 w3]> (contents tb) /\ size_ tb' = size_ tb.
Proof.
  intros Hwf Hcase. pose proof (wf_inv _ Hwf) as Hi. cbn [put]. rewrite (wf_size _ Hwf).
  destruct (put_start (buckets_ tb) k Hi) as (i & found & E & Hlt & Hcl). rewrite E. run.
  rewrite <- (wf_size _ Hwf). destruct found; run.
  - destruct Hcl as (x & Hx & Hu & <-). rewrite (vec_at_Some _ _ _ Hx). run.
    rewrite vec_set_lt by done. run. eexists. split; [done|]. rewrite new_cell_fresh.
    destruct (state_write_found tb i x (fresh_cell w1 w2 w3)) as [? ?]; done.
  - pose proof (state_wf_entries_le _ Hwf).
    destruct (Z.ltb_spec (size_ tb) (entries_ tb)); [lia|].
    destruct Hcl as [Hf|(Ha & _ & Hfull)].
    + destruct (lookup_lt_is_Some_2 _ _ Hlt) as [x Hx]. rewrite (vec_at_Some _ _ _ Hx). run.
      rewrite vec_set_lt by done. run. eexists. split; [done|]. rewrite new_cell_fresh.
      destruct (state_write_new tb k (fresh_cell w1 w2 w3) i) as [? ?]; done.
    + exfalso. destruct Hcase as [Hc|Hc].
      * apply Hc, to_map_absent; [apply Hi|done].
      * rewrite (wf_size _ Hwf), (wf_entries _ Hwf), (rows_full _ Hfull) in Hc. lia.
Qed.

(** Storing several rows, with room for all of them. *)
Lemma puts_room {A} fuel tb (key : A -> K) (f1 f2 : A -> V) (f3 : A -> D) (l : list A) :
  wf tb -> entries_ tb + Z.of_nat (length l) <= size_ tb ->
  exists tb', for_each (fun tb a => put (S fuel) tb (key a) (f1 a) (f2 a) (f3 a)) l tb = Ok tb' /\
    wf tb' /\ size_ tb' = size_ tb.
Proof.
  intros Hwf Hroom.
  destruct (for_each_inv (fun tb a => put (S fuel) tb (key a) (f1 a) (f2 a) (f3 a))
    (fun pre tb' => wf tb' /\ entries_ tb' <= entries_ tb + Z.of_nat (length pre) /\ size_ tb' = size_ tb) l tb)
    as (tb' & E & ? & _ & ?); [split_and!; try done; cbn; lia| |by exists tb'].
  intros pre a todo tb1 -> (Hw1 & He1 & Hs1). rewrite length_app in Hroom. cbn [length] in Hroom.
  destruct (put_room fuel tb1 (key a) (f1 a) (f2 a) (f3 a) Hw1) as (tb2 & E2 & Hw2 & Hc2 & Hs2); [right; lia|].
  exists tb2. split; [done|]. split_and!; [done| |congruence].
  rewrite (state_wf_entries_size _ Hw2), Hc2, length_app. cbn [length].
  rewrite (state_wf_entries_size _ Hw1) in He1. rewrite map_size_insert. case_match; unfold id; lia.
Qed.

(** Writing a new key over an occupied home bucket. *)
Lemma probe_inv_overwrite (bs : list (bucket K cell)) k c :
  probe_inv bs -> put_full bs k (home bs k) ->
  probe_inv (<[home bs k := Bucket k c true]> bs).
Proof.
  intros Hinv (Ha & _ & Hfull). pose proof (inv_pos _ Hinv) as Hn.
  split; [rewrite length_insert; apply Hinv..| |].
  - intros j j' k' Hj Hj'. rewrite holds_insert in Hj, Hj'.
    destruct Hj as [(-> & _ & _ & E)|[Hne Hj]], Hj' as [(-> & _ & _ & E')|[Hne' Hj']];
      [done|cbn in E; subst; by destruct (Ha j')|cbn in E'; subst; by destruct (Ha j)|].
    by apply (inv_unique _ Hinv _ _ k').
  - intros j k' Hj. apply reach_insert; [done|].
    apply holds_insert in Hj as [(-> & _ & _ & E)|[_ Hj]].
    + cbn in E. subst k'. exists 0%nat. rewrite slot_at_0 by (by apply home_lt).
      split_and!; [done..|]. lia.
    + by apply (inv_reach _ Hinv).
Qed.

Lemma to_map_overwrite (bs : list (bucket K cell)) k c x :
  probe_inv bs -> put_full bs k (home bs k) -> bs !! home bs k = Some x -> in_use x = true ->
  to_map (<[home bs k := Bucket k c true]> bs) = <[k := c]> (delete (bk x) (to_map bs)).
Proof.
  intros Hinv Hf Hx Hu. pose proof (probe_inv_overwrite bs k c Hinv Hf) as Hinv'.
  pose proof (inv_unique _ Hinv) as U. pose proof (inv_unique _ Hinv') as U'.
  destruct Hf as (Ha & _ & _). pose proof (lookup_lt_Some _ _ _ Hx) as Hlt.
  apply map_eq. intros k'. destruct (decide (k = k')) as [<-|Hne].
  - rewrite lookup_insert_eq.
    apply (to_map_holds _ (home bs k) k (Bucket k c true)); try done.
    by apply list_lookup_insert_eq.
  - rewrite lookup_insert_ne by done. apply option_eq. intros a.
    rewrite lookup_delete_Some, !lookup_to_map by done. setoid_rewrite list_lookup_insert_Some.
    split.
    + intros (j & y & [(<- & <- & _)|[Hj Hy]] & Huy & Hk & Hv); [by cbn in Hk|].
      split; [|by exists j, y]. intros E. apply Hj. apply (U _ _ k'); [by exists x|by exists y].
    + intros (Hd & j & y & Hy & Huy & Hk & Hv). exists j, y. split_and!; try done.
      right. split; [|done]. intros <-. rewrite Hx in Hy. naive_solver.
Qed.

(** On a full table [put] of a new key overwrites the row in the key's home
    bucket: that row is lost, and [entries_] no longer counts the rows. *)
Lemma put_on_full fuel tb k w1 w2 w3 :
  wf tb -> contents tb !! k = None -> entries_ tb = size_ tb ->
  exists tb' x, put (S fuel) tb k w1 w2 w3 = Ok tb' /\
    buckets_ tb !! home (buckets_ tb) k = Some x /\ in_use x = true /\
    buckets_ tb' = <[home (buckets_ tb) k := Bucket k (fresh_cell w1 w2 w3) true]> (buckets_ tb) /\
    is_Some (contents tb !! bk x) /\
    contents tb' = <[k := fresh_cell w1 w2 w3]> (delete (bk x) (contents tb)) /\
    probe_inv (buckets_ tb') /\ size_ tb' = size_ tb /\ entries_ tb' = size_ tb + 1.
Proof.
  intros Hwf Hk Hfull. pose proof (wf_inv _ Hwf) as Hi. cbn [put].
  rewrite Hfull, Z.ltb_irrefl, (wf_size _ Hwf).
  destruct (put_start (buckets_ tb) k Hi) as (i & found & E & Hlt & Hcl). rewrite E. run.
  apply to_map_absent in Hk; [|apply Hi].
  destruct found; [by destruct (Hk i)|run].
  destruct Hcl as [(_ & d & x & Hd & -> & _ & Hx & Hu)|Hf].
  { exfalso. pose proof (rows_insert_free (buckets_ tb) _ x (Bucket k (bval x) true) Hx Hu eq_refl) as Hr.
    pose proof (length_rows_le (<[slot_at (length (buckets_ tb)) (home (buckets_ tb) k) d :=
      Bucket k (bval x) true]> (buckets_ tb))) as Hle.
    rewrite length_insert in Hle. rewrite (wf_entries _ Hwf), (wf_size _ Hwf) in Hfull. lia. }
  assert (i = home (buckets_ tb) k) as -> by apply Hf.
  destruct (proj2 (proj2 Hf) _ Hlt) as (x & Hx & Hu).
  rewrite (vec_at_Some _ _ _ Hx). run. rewrite vec_set_lt by done. run.
  eexists _, x. split; [done|]. rewrite new_cell_fresh. unfold contents. cbn [buckets_ with_buckets].
  split_and!; try done.
  - exists (bval x). apply (to_map_holds _ (home (buckets_ tb) k)); try done. apply Hi.
  - by apply to_map_overwrite.
  - by apply probe_inv_overwrite.
Qed.

(** ** [clear] and [resize] *)
Lemma state_clear_spec tb :
  size_ tb = Z.of_nat (length (buckets_ tb)) ->
  clear tb = Ok (with_buckets tb (unuse <$> buckets_ tb) 0 (size_ tb)).
Proof. intros Hs. unfold clear. by rewrite Hs, clear_flags_spec. Qed.

Lemma state_fresh_wf tb (bs : list (bucket K cell)) (n : Z) :
  0 < n < 2 ^ 31 ->
  let tb' := with_buckets tb (unuse <$> vec_resize empty_bucket bs (Z.to_nat n)) 0 n in
  wf tb' /\ contents tb' = ∅.
Proof.
  intros Hn. cbv zeta. split; [|apply to_map_unuse]. split; cbn.
  - apply probe_inv_unuse; rewrite length_vec_resize; lia.
  - rewrite length_fmap, length_vec_resize. lia.
  - by rewrite rows_unuse.
Qed.

(** A row as it is after it was stored again: its priority is recomputed. *)
Definition refresh (c : cell) : cell := fresh_cell (v1 c) (v2 c) (v3 c).

Lemma state_rehash fuel (bs : list (bucket K cell)) tb :
  keys_unique bs -> wf tb -> contents tb = ∅ -> Z.of_nat (length (rows bs)) <= size_ tb ->
  exists tb', for_each (fun tb x =>
      if in_use x then put (S fuel) tb (bk x) (v1 (bval x)) (v2 (bval x)) (v3 (bval x)) else Ok tb) bs tb
      = Ok tb' /\
    wf tb' /\ contents tb' = refresh <$> to_map bs /\ size_ tb' = size_ tb.
Proof.
  intros Hu Hwf Hem Hroom.
  apply (for_each_inv _ (fun pre tb' =>
    wf tb' /\ contents tb' = refresh <$> to_map pre /\ size_ tb' = size_ tb)).
  { rewrite Hem. split_and!; [done| |done]. symmetry. apply fmap_empty. }
  intros pre x todo tb1 Ebs (Hw1 & Hc1 & Hs1).
  unfold to_map in *. rewrite rows_app, rows_cons.
  destruct (in_use x) eqn:Hx; [|rewrite row_of_free by done; exists tb1; by rewrite app_nil_r].
  rewrite row_of_used by done.
  pose proof (rows_keys_NoDup bs Hu) as Hnd. rewrite Ebs in Hnd, Hroom.
  rewrite rows_app, rows_cons, row_of_used in Hnd, Hroom by done.
  rewrite length_app in Hroom. cbn in Hroom. rewrite fmap_app in Hnd.
  apply NoDup_app in Hnd as (Hnd1 & Hnd2 & _).
  assert (bk x ∉ (rows pre).*1) as Hni by (intros Hin; apply (Hnd2 _ Hin); left).
  destruct (put_room fuel tb1 (bk x) (v1 (bval x)) (v2 (bval x)) (v3 (bval x)) Hw1)
    as (tb2 & E2 & Hw2 & Hc2 & Hs2).
  { right. rewrite (state_wf_entries_size _ Hw1), Hc1, Hs1, map_size_fmap.
    rewrite map_size_list_to_map by done. lia. }
  exists tb2. split; [done|]. split; [done|]. split; [|congruence].
  rewrite Hc2, Hc1. change (rows []) with (@nil (K * cell)).
  rewrite list_to_map_snoc by done. by rewrite fmap_insert.
Qed.

Lemma resize_rows fuel tb n :
  probe_inv (buckets_ tb) -> 0 < n < 2 ^ 31 -> size_ tb <> n ->
  Z.of_nat (length (rows (buckets_ tb))) <= n ->
  exists tb', resize (S fuel) tb n = Ok tb' /\ wf tb' /\
    contents tb' = refresh <$> contents tb /\ size_ tb' = n.
Proof.
  intros Hinv Hn Hne Hroom. unfold resize, resize_with.
  rewrite (proj2 (Z.ltb_lt 0 n)) by lia. run.
  destruct (Z.eqb_spec (size_ tb) n) as [|_]; [done|].
  destruct (state_fresh_wf tb (buckets_ tb) n Hn) as [Hwf0 Hc0].
  rewrite state_clear_spec by (cbn; rewrite length_vec_resize; lia). run. cbn [buckets_ size_ with_buckets].
  destruct (state_rehash fuel (buckets_ tb) _ (inv_unique _ Hinv) Hwf0 Hc0 Hroom) as (tb' & E & ? & ? & ?).
  by exists tb'.
Qed.

Lemma state_resize_spec fuel tb n :
  wf tb -> 0 < n < 2 ^ 31 -> entries_ tb <= n ->
  exists tb', resize (S fuel) tb n = Ok tb' /\ wf tb' /\ size_ tb' = n /\
    contents tb' = if decide (size_ tb = n) then contents tb else refresh <$> contents tb.
Proof.
  intros Hwf Hn Hroom. case_decide as Hs.
  - exists tb. unfold resize, resize_with. rewrite (proj2 (Z.ltb_lt 0 n)) by lia. run.
    by rewrite (proj2 (Z.eqb_eq _ _) Hs).
  - rewrite (wf_entries _ Hwf) in Hroom.
    destruct (resize_rows fuel tb n (wf_inv _ Hwf) Hn Hs Hroom) as (tb' & ? & ? & ? & ?).
    by exists tb'.
Qed.

(** Once a full table has overflowed, the next new key makes it grow: the rows
    are kept, but [entries_] is incremented twice for the new row. *)
Lemma put_grow fuel tb k w1 w2 w3 :
  probe_inv (buckets_ tb) -> size_ tb = Z.of_nat (length (buckets_ tb)) -> size_ tb < 2 ^ 30 - 1 ->
  contents tb !! k = None -> size_ tb < entries_ tb ->
  exists tb', put (S (S fuel)) tb k w1 w2 w3 = Ok tb' /\
    contents tb' = <[k := fresh_cell w1 w2 w3]> (refresh <$> contents tb) /\
    size_ tb' = 1 + size_ tb * 2 /\
    entries_ tb' = Z.of_nat (base.size (contents tb')) + 1.
Proof.
  intros Hinv Hs Hsz Hk Hover. remember (S fuel) as f eqn:Ef. cbn [put].
  rewrite (proj2 (Z.ltb_lt _ _) Hover).
  destruct (put_start (buckets_ tb) k Hinv) as (i & found & E & Hlt & Hcl).
  rewrite <- Hs in E. rewrite E. run. pose proof (inv_pos _ Hinv) as Hpos.
  assert (absent (buckets_ tb) k) as Ha by (apply to_map_absent; [apply Hinv|done]).
  destruct found; [by destruct (Ha i)|run]. rewrite to_int32_small by lia. subst f.
  pose proof (length_rows_le (buckets_ tb)).
  destruct (resize_rows fuel tb (1 + size_ tb * 2) Hinv) as (tb1 & E1 & Hw1 & Hc1 & Hs1); [lia..|].
  unfold resize in E1. rewrite E1. run.
  destruct (put_room fuel tb1 k w1 w2 w3 Hw1) as (tb2 & E2 & Hw2 & Hc2 & Hs2).
  { right. rewrite (state_wf_entries_size _ Hw1), Hc1, map_size_fmap, Hs1. unfold contents.
    rewrite size_to_map by apply Hinv. lia. }
  rewrite E2. run. eexists. split; [done|]. cbn [size_ entries_ with_buckets].
  unfold contents at 1 3; cbn [buckets_ with_buckets]. fold (contents tb2).
  rewrite <- (state_wf_entries_size _ Hw2), Hc2, Hc1. split_and!; [done|lia|done].
Qed.

Lemma state_create_spec fuel n :
  0 < n < 2 ^ 31 -> exists tb, create (S fuel) n = Ok tb /\ wf tb /\ contents tb = ∅ /\ size_ tb = n.
Proof.
  intros Hn. unfold create. rewrite state_clear_spec by done. run. unfold resize, resize_with.
  rewrite (proj2 (Z.ltb_lt 0 n)) by lia. run. cbn [size_ with_buckets].
  destruct (Z.eqb_spec 0 n); [lia|].
  rewrite state_clear_spec by (cbn; rewrite length_vec_resize; lia). run. cbn [for_each buckets_ with_buckets].
  destruct (state_fresh_wf (with_buckets (mk [] 0 0 (S754_zero false) 0 false) [] 0 0) [] n Hn) as [? ?].
  eexists. by split_and!.
Qed.
Lemma clear_contents tb :
  wf tb -> exists tb', clear tb = Ok tb' /\ wf tb' /\ contents tb' = ∅ /\ size_ tb' = size_ tb.
Proof.
  intros [Hi Hs He]. rewrite state_clear_spec by done. eexists. split; [done|].
  split_and!; [|apply to_map_unuse|done]. split; cbn.
  - apply probe_inv_unuse; apply Hi.
  - by rewrite length_fmap.
  - by rewrite rows_unuse.
Qed.

(** ** Lookups and updates of one row *)
Lemma checked_bucket_spec tb k :
  wf tb ->
  match contents tb !! k with
  | Some c => exists i, checked_bucket tb k = Ok (Z.of_nat i, Bucket k c true) /\
                buckets_ tb !! i = Some (Bucket k c true)
  | None => checked_bucket tb k = Fatal
  end.
Proof.
  intros Hwf. unfold checked_bucket, bucket_for_key. rewrite (wf_size _ Hwf).
  destruct (find_start (buckets_ tb) k (wf_inv _ Hwf)) as [(i & x & E & Hx & Hu & Hk & Hc)|[E Hc]];
    unfold contents; rewrite E, Hc; run; [|done].
  destruct (Z.eqb_spec (Z.of_nat i) (-1)); [lia|]. run. rewrite (vec_at_Some _ _ _ Hx). run.
  destruct x; cbn in *; subst. by exists i.
Qed.

Lemma state_contains_spec tb k :
  wf tb -> contains tb k = Ok (bool_decide (is_Some (contents tb !! k))).
Proof.
  intros Hwf. unfold contains, bucket_for_key. rewrite (wf_size _ Hwf).
  destruct (find_start (buckets_ tb) k (wf_inv _ Hwf)) as [(i & x & E & _ & _ & _ & Hc)|[E Hc]];
    unfold contents; rewrite E, Hc; run; [|done]. by destruct (Z.eqb_spec (Z.of_nat i) (-1)); [lia|].
Qed.

(** Reading fields: those of the row, or a failed [CHECK]. *)
Lemma gets_spec tb k :
  wf tb ->
  match contents tb !! k with
  | Some c => getF1 tb k = Ok (v1 c) /\ getF2 tb k = Ok (v2 c) /\ getF3 tb k = Ok (v3 c) /\
      get tb k = Ok (Build_ClutterRecord k (v1 c) (v2 c) (v3 c))
  | None => getF1 tb k = Fatal /\ getF2 tb k = Fatal /\ getF3 tb k = Fatal /\ get tb k = Fatal
  end.
Proof.
  intros Hwf. pose proof (checked_bucket_spec tb k Hwf) as E. unfold getF1, getF2, getF3, get.
  destruct (contents tb !! k) as [c|]; [destruct E as (i & E & _)|]; by rewrite E.
Qed.

(** Assigning the fields of a row. *)
Lemma set_cell_spec tb i k c c' :
  wf tb -> buckets_ tb !! i = Some (Bucket k c true) ->
  exists tb', set_cell tb (Z.of_nat i) (Bucket k c true) c' = Ok tb' /\ wf tb' /\
    contents tb' = <[k := c']> (contents tb) /\ size_ tb' = size_ tb /\
    tb' = with_buckets tb (buckets_ tb') (entries_ tb) (size_ tb).
Proof.
  intros Hwf Hx. unfold set_cell. rewrite vec_set_lt by (by eapply lookup_lt_Some). run.
  destruct (state_write_found tb i _ c' Hwf Hx) as [? ?]; [done|]. eexists. by split_and!.
Qed.

(** The same for the bucket at a known position. *)
Lemma checked_bucket_at tb p x :
  wf tb -> buckets_ tb !! p = Some x -> in_use x = true ->
  checked_bucket tb (bk x) = Ok (Z.of_nat p, x).
Proof.
  intros Hwf Hx Hu. pose proof (wf_inv _ Hwf) as Hi. pose proof (checked_bucket_spec tb (bk x) Hwf) as Hc.
  unfold contents in Hc. rewrite (to_map_holds _ _ (bk x) x (inv_unique _ Hi) Hx Hu eq_refl) in Hc.
  destruct Hc as (j & E & Hj). rewrite E. destruct x as [k c u]. cbn in *. subst u.
  assert (j = p) as -> by (apply (inv_unique _ Hi _ _ k); [by exists (Bucket k c true)|by exists (Bucket k c true)]).
  done.
Qed.
Lemma set_cell_at tb p x c :
  wf tb -> buckets_ tb !! p = Some x -> in_use x = true ->
  let tb' := with_buckets tb (<[p := Bucket (bk x) c (in_use x)]> (buckets_ tb)) (entries_ tb) (size_ tb) in
  set_cell tb (Z.of_nat p) x c = Ok tb' /\ wf tb' /\ contents tb' = <[bk x := c]> (contents tb) /\
  buckets_ tb' !! p = Some (Bucket (bk x) c (in_use x)).
Proof.
  intros Hwf Hx Hu. cbv zeta. pose proof (lookup_lt_Some _ _ _ Hx) as Hlt. unfold set_cell.
  rewrite vec_set_lt by done. run. destruct (state_write_found tb p x c Hwf Hx Hu) as [? ?].
  split_and!; try done. by apply list_lookup_insert_eq.
Qed.

(** An operation that rewrites one row: the row's new fields are a function
    [f] of its old ones; a missing row is a failed [CHECK]. *)
Definition rewrites (op : t -> K -> outcome t) (f : cell -> cell) (incr : Z) : Prop :=
  forall tb k, wf tb ->
  match contents tb !! k with
  | Some c => exists tb', op tb k = Ok tb' /\ wf tb' /\
      contents tb' = <[k := f c]> (contents tb) /\ size_ tb' = size_ tb /\
      entries_ tb' = entries_ tb /\
      total_updates tb' = total_updates tb + incr /\ terminated_ tb' = terminated_ tb
  | None => op tb k = Fatal
  end.

Lemma rewrites_by (f : cell -> cell) :
  rewrites (fun tb k => '(b, x) ← checked_bucket tb k; set_cell tb b x (f (bval x))) f 0.
Proof.
  intros tb k Hwf. pose proof (checked_bucket_spec tb k Hwf) as E.
  destruct (contents tb !! k) as [c|]; [destruct E as (i & E & Hx)|]; rewrite E; run; [|done].
  destruct (set_cell_spec tb i k c (f c) Hwf Hx) as (tb' & E' & Hwf' & Hc' & Hs' & Et).
  exists tb'. split_and!; try done; rewrite Et; cbn; lia.
Qed.

Lemma updateF1_spec v :
  rewrites (fun tb k => updateF1 tb k v)
    (fun c => Cell v (v2 c) (v3 c) (v_zero (K := K) (D := D))) 1.
Proof.
  intros tb k Hwf. pose proof (rewrites_by
    (fun c => Cell v (v2 c) (v3 c) (v_zero (K := K) (D := D))) tb k Hwf) as E. cbv beta in E.
  unfold updateF1. destruct (contents tb !! k) as [c|].
  - destruct E as (tb' & E & Hwf' & Hc' & Hs' & He' & Hu' & Ht').
    apply bind_Ok in E as ([b x] & Eb & Es). rewrite Eb. run. rewrite Es. run.
    eexists. split; [done|]. unfold contents in *. cbn. rewrite He', Hu', Ht', Hs', Hc'.
    split_and!; try done; [|lia]. destruct Hwf' as [Hi Hs He].
    split; cbn [buckets_ size_ entries_]; [done|by rewrite <- Hs'|by rewrite <- He'].
  - destruct (checked_bucket tb k) as [[b x]| | | |]; try done.
    revert E. run. unfold set_cell. by destruct (vec_set _ _ _).
Qed.

Lemma updateF2_spec v :
  rewrites (fun tb k => updateF2 tb k v) (fun c => Cell (v1 c) v (v3 c) (prio c)) 0.
Proof. exact (rewrites_by (fun c => Cell (v1 c) v (v3 c) (prio c))). Qed.
Lemma updateF3_spec v :
  rewrites (fun tb k => updateF3 tb k v) (fun c => Cell (v1 c) (v2 c) v (prio c)) 0.
Proof. exact (rewrites_by (fun c => Cell (v1 c) (v2 c) v (prio c))). Qed.

(** The row after a delta [v] has arrived. *)
Definition receive (v : V) (c : cell) : cell :=
  let a := accumulate (K := K) (D := D) (v1 c) v in
  Cell a (v2 c) (v3 c) (priority (K := K) (D := D) (prio c) (v2 c) a).
Lemma accumulateF1_spec v : rewrites (fun tb k => accumulateF1 tb k v) (receive v) 0.
Proof. exact (rewrites_by (receive v)). Qed.
Lemma accumulateF2_spec v :
  rewrites (fun tb k => accumulateF2 tb k v)
    (fun c => Cell (v1 c) (accumulate (K := K) (D := D) (v2 c) v) (v3 c) (prio c)) 0.
Proof. exact (rewrites_by (fun c => Cell (v1 c) (accumulate (v2 c) v) (v3 c) (prio c))). Qed.

(** ** Passes over the table *)

(** One [Next] of [EntirePassIterator]: the cursor is before bucket [p]. *)
Lemma ep_Next_spec tb p tot :
  wf tb -> (p < length (buckets_ tb))%nat ->
  exists q, ep_Next {| ep_parent := tb; ep_pos := Z.of_nat p - 1; ep_total := tot |} =
      Ok ({| ep_parent := tb; ep_pos := Z.of_nat q; ep_total := tot + 1 |},
          bool_decide (q < length (buckets_ tb))%nat) /\
    (p <= q <= length (buckets_ tb))%nat /\
    rows (drop p (buckets_ tb)) = rows (drop q (buckets_ tb)) /\
    (q = length (buckets_ tb) \/ exists x, buckets_ tb !! q = Some x /\ in_use x = true /\
       rows (drop q (buckets_ tb)) = (bk x, bval x) :: rows (drop (S q) (buckets_ tb))).
Proof.
  intros Hwf Hp. unfold ep_Next. cbn [ep_parent ep_pos ep_total]. rewrite (wf_size _ Hwf).
  destruct (next_loop_spec (buckets_ tb) (S (length (buckets_ tb))) p) as (q & E & Hq & Hr & Hc); [lia..|].
  rewrite E. run. exists q. split_and!; try done; try lia. do 2 f_equal.
  case_bool_decide; destruct (Z.leb_spec (Z.of_nat (length (buckets_ tb))) (Z.of_nat q)); (done || lia).
Qed.

Lemma ep_done_spec tb p tot :
  wf tb ->
  ep_done {| ep_parent := tb; ep_pos := Z.of_nat p - 1; ep_total := tot |} =
  bool_decide (p = length (buckets_ tb))%nat.
Proof.
  intros Hwf. unfold ep_done. cbn [ep_parent ep_pos]. rewrite (wf_size _ Hwf).
  case_bool_decide; destruct (Z.eqb_spec (Z.of_nat p - 1 + 1) (Z.of_nat (length (buckets_ tb)))); (done || lia).
Qed.

(** The progress measure that [estimate_prog] adds up: the values different
    from the default, in bucket order. *)
Definition progress (l : list (K * cell)) (acc : spec_float) : spec_float :=
  fold_left (fun acc r =>
    if negb (v_eqb (K := K) (D := D) (v2 r.2) (default_v (K := K) (D := D)))
    then f64_add acc (v_double (K := K) (D := D) (v2 r.2)) else acc) l acc.

Lemma estimate_loop_spec tb fuel p tot acc :
  wf tb -> (p <= length (buckets_ tb))%nat -> (length (buckets_ tb) - p < fuel)%nat ->
  estimate_loop (K := K) (D := D) fuel (default_v (K := K) (D := D))
    {| ep_parent := tb; ep_pos := Z.of_nat p - 1; ep_total := tot |} acc =
  Ok (progress (rows (drop p (buckets_ tb))) acc).
Proof.
  intros Hwf. revert p tot acc. induction fuel as [|fuel IH]; intros p tot acc Hp Hf; [lia|].
  cbn [estimate_loop it_done it_Next it_value2 EntirePass_iterator].
  rewrite ep_done_spec by done. case_bool_decide as Hd; [by rewrite drop_ge by lia|].
  destruct (ep_Next_spec tb p tot Hwf) as (q & E & Hq & Hr & Hc); [lia|]. rewrite E, Hr. run.
  destruct Hc as [->|(x & Hx & Hu & Hr')].
  - rewrite bool_decide_eq_false_2 by lia. run. by rewrite drop_ge.
  - pose proof (lookup_lt_Some _ _ _ Hx). rewrite bool_decide_eq_true_2 by lia. run.
    unfold ep_bucket. cbn [ep_parent ep_pos]. rewrite (vec_at_Some _ _ _ Hx). run.
    replace (Z.of_nat q) with (Z.of_nat (S q) - 1) by lia. rewrite IH by lia. by rewrite Hr'.
Qed.

(** [serializeToSnapshot] reports the number of updates and the measure of all
    the rows of the table. *)
Lemma snapshot_spec tb :
  wf tb -> exists tb', serializeToSnapshot tb =
    Ok (tb', total_updates tb, progress (rows (buckets_ tb)) (S754_zero false)) /\
    wf tb' /\ contents tb' = contents tb.
Proof.
  intros Hwf. unfold serializeToSnapshot, estimate_prog, EntirePass.
  cbn [it_defaultV EntirePass_iterator].
  pose proof (estimate_loop_spec tb (S (S (length (buckets_ tb)))) 0 0 (S754_zero false) Hwf) as E.
  replace (Z.of_nat 0 - 1) with (-1) in E by lia. rewrite E by lia. run.
  eexists. split; [done|]. split; [|done]. by destruct Hwf.
Qed.

(** The closing pass of [get_iterator] leaves the iterator at the end, so the
    caller's loop over it runs no row. *)
Definition total (l : list (K * cell)) (acc : spec_float) : spec_float :=
  fold_left (fun acc r => f64_add acc (v_double (K := K) (D := D) (v2 r.2))) l acc.

Lemma total_pass_spec tb fuel p tot acc :
  wf tb -> (p <= length (buckets_ tb))%nat -> (length (buckets_ tb) - p < fuel)%nat ->
  exists it, total_pass fuel {| ep_parent := tb; ep_pos := Z.of_nat p - 1; ep_total := tot |} acc =
    Ok (it, total (rows (drop p (buckets_ tb))) acc) /\
    (ep_done it = true \/ ep_pos it = size_ tb).
Proof.
  intros Hwf. revert p tot acc. induction fuel as [|fuel IH]; intros p tot acc Hp Hf; [lia|].
  cbn [total_pass]. rewrite ep_done_spec by done. case_bool_decide as Hd.
  { rewrite drop_ge by lia. eexists. split; [done|]. left. rewrite ep_done_spec by done.
    by apply bool_decide_eq_true. }
  destruct (ep_Next_spec tb p tot Hwf) as (q & E & Hq & Hr & Hc); [lia|]. rewrite E, Hr. run.
  destruct Hc as [->|(x & Hx & Hu & Hr')].
  - rewrite bool_decide_eq_false_2 by lia. run. rewrite drop_ge by lia. eexists. split; [done|].
    right. cbn. by rewrite (wf_size _ Hwf).
  - pose proof (lookup_lt_Some _ _ _ Hx). rewrite bool_decide_eq_true_2 by lia. run.
    unfold ep_bucket. cbn [ep_parent ep_pos]. rewrite (vec_at_Some _ _ _ Hx). run.
    replace (Z.of_nat q) with (Z.of_nat (S q) - 1) by lia.
    destruct (IH (S q) (tot + 1) (f64_add acc (v_double (K := K) (D := D) (v2 (bval x)))))
      as (it & Ei & Hi); [lia..|]. exists it. split; [|done]. rewrite Ei. by rewrite Hr'.
Qed.

(** The pass of [schedule_iterator] has no test of [Next]: when the last bucket
    is free it reads the bucket after the end of the array. *)
Lemma total_pass_sched_overrun tb fuel p tot acc y :
  wf tb -> (p < length (buckets_ tb))%nat -> (length (buckets_ tb) - p < fuel)%nat ->
  last (buckets_ tb) = Some y -> in_use y = false ->
  total_pass_sched fuel {| ep_parent := tb; ep_pos := Z.of_nat p - 1; ep_total := tot |} acc = Undefined.
Proof.
  intros Hwf Hp0 Hf0 Hl Hy. revert p tot acc Hp0 Hf0.
  induction fuel as [|fuel IH]; intros p tot acc Hp Hf; [lia|].
  cbn [total_pass_sched]. rewrite ep_done_spec by done. rewrite bool_decide_eq_false_2 by lia.
  destruct (ep_Next_spec tb p tot Hwf) as (q & E & Hq & Hr & Hc); [lia|]. rewrite E. run.
  unfold ep_bucket. cbn [ep_parent ep_pos].
  destruct Hc as [->|(x & Hx & Hu & Hr')].
  - unfold vec_at. destruct (Z.ltb_spec (Z.of_nat (length (buckets_ tb))) 0); [done|].
    rewrite Nat2Z.id. by rewrite (proj2 (lookup_ge_None (buckets_ tb) _)).
  - pose proof (lookup_lt_Some _ _ _ Hx). rewrite (vec_at_Some _ _ _ Hx). run.
    replace (Z.of_nat q) with (Z.of_nat (S q) - 1) by lia. apply IH; [|lia].
    rewrite last_lookup in Hl. destruct (decide (S q = length (buckets_ tb))) as [Eq|]; [|lia].
    rewrite <- Eq in Hl. cbn in Hl. congruence.
Qed.
(** ** Scheduling *)

(** A loop over all the positions that keeps those whose bucket passes. *)
Definition keep tb (test : bucket K cell -> bool) (i : Z) : bool :=
  match buckets_ tb !! Z.to_nat i with Some x => in_use x && test x | None => false end.

Lemma vec_at_pos tb i :
  wf tb -> i ∈ seqZ 0 (size_ tb) -> exists x, vec_at (buckets_ tb) i = Ok x /\ buckets_ tb !! Z.to_nat i = Some x.
Proof.
  intros Hwf Hi. apply elem_of_seqZ in Hi. rewrite (wf_size _ Hwf) in Hi.
  destruct (lookup_lt_is_Some_2 (buckets_ tb) (Z.to_nat i)) as [x Hx]; [lia|]. exists x.
  split; [|done]. unfold vec_at. rewrite Hx. by case_match; [lia|].
Qed.

Lemma schedule_if_spec tb test :
  wf tb ->
  schedule_if tb test = Ok (filter (fun i => keep tb (fun x =>
    negb (v_eqb (K := K) (D := D) (v1 (bval x)) (default_v (K := K) (D := D))) &&
    test (prio (bval x))) i = true) (seqZ 0 (size_ tb))).
Proof.
  intros Hwf. unfold schedule_if.
  match goal with |- for_each ?f _ _ = Ok (filter ?P _) =>
    destruct (for_each_inv f (fun pre pos => pos = filter P pre) (seqZ 0 (size_ tb)) [])
      as (pos & E & ->); [done| |done] end.
  intros pre i todo pos Hs ->. destruct (vec_at_pos tb i Hwf) as (x & Ex & Hx).
  { rewrite Hs. apply elem_of_app. right. left. }
  rewrite filter_app, Ex. run. rewrite filter_cons, filter_nil. unfold keep. rewrite Hx.
  destruct (in_use x), (v_eqb _ _), (test _); cbn; rewrite ?app_nil_r; eauto.
Qed.

(** With few rows every row is scheduled, and [b_no_change] says whether every
    row has a pending delta. *)
Lemma schedule_all_spec tb :
  wf tb ->
  schedule_all tb =
  Ok (filter (fun i => keep tb (fun _ => true) i = true) (seqZ 0 (size_ tb)),
      forallb (fun i => negb (keep tb (fun x =>
        v_eqb (K := K) (D := D) (v1 (bval x)) (default_v (K := K) (D := D))) i)) (seqZ 0 (size_ tb))).
Proof.
  intros Hwf. unfold schedule_all.
  match goal with |- for_each ?f _ _ = Ok (filter ?P _, forallb ?Q _) =>
    destruct (for_each_inv f (fun pre s => s = (filter P pre, forallb Q pre)) (seqZ 0 (size_ tb)) ([], true))
      as (pos & E & ->); [done| |done] end.
  intros pre i todo pos Hs ->. destruct (vec_at_pos tb i Hwf) as (x & Ex & Hx).
  { rewrite Hs. apply elem_of_app. right. left. }
  rewrite filter_app, forallb_app, Ex. run. rewrite filter_cons, filter_nil. cbn [forallb].
  unfold keep. rewrite Hx.
  destruct (in_use x); cbn; rewrite ?app_nil_r, ?andb_true_r; eauto.
Qed.

(** The scan over the positions tests every row. *)
Lemma pending_rows tb :
  wf tb ->
  forallb (fun i => negb (keep tb (fun x =>
    v_eqb (K := K) (D := D) (v1 (bval x)) (default_v (K := K) (D := D))) i)) (seqZ 0 (size_ tb)) =
  forallb (fun r => negb (v_eqb (K := K) (D := D) (v1 r.2) (default_v (K := K) (D := D)))) (rows (buckets_ tb)).
Proof.
  intros Hwf. apply eq_true_iff_eq. rewrite !forallb_forall. split.
  - intros Hall [k c] Hin. apply list_elem_of_In, elem_of_rows in Hin as (i & x & Hx & Hu & <- & <-).
    specialize (Hall (Z.of_nat i)). unfold keep in Hall. rewrite Nat2Z.id, Hx, Hu in Hall. apply Hall.
    apply list_elem_of_In, elem_of_seqZ. rewrite (wf_size _ Hwf). apply lookup_lt_Some in Hx. lia.
  - intros Hall i Hi. apply list_elem_of_In in Hi.
    destruct (vec_at_pos tb i Hwf Hi) as (x & _ & Hx). unfold keep. rewrite Hx.
    destruct (in_use x) eqn:Hu; [|done]. apply (Hall (bk x, bval x)), list_elem_of_In, elem_of_rows.
    by exists (Z.to_nat i), x.
Qed.

(** Every draw that ends gives a row of the table. *)
Lemma draw_row fuel tb rand n p n' :
  draw fuel tb rand n = Ok (p, n') -> exists x, vec_at (buckets_ tb) p = Ok x /\ in_use x = true.
Proof.
  revert n. induction fuel as [|fuel IH]; intros n E; [done|]. cbn [draw] in E.
  apply bind_Ok in E as (x & Ex & E). destruct (in_use x) eqn:Hu; [|by eapply IH].
  injection E as <- <-. by exists x.
Qed.

(** The draws never end on a table without rows. *)
Lemma draw_no_rows fuel tb rand n :
  wf tb -> contents tb = ∅ -> (forall m, 0 <= rand m < size_ tb) -> draw fuel tb rand n = OutOfFuel.
Proof.
  intros Hwf Hem Hr. revert n. induction fuel as [|fuel IH]; intros n; [done|]. cbn [draw].
  destruct (vec_at_pos tb (rand n) Hwf) as (x & Ex & Hx); [apply elem_of_seqZ; specialize (Hr n); lia|].
  rewrite Ex. run. destruct (in_use x) eqn:Hu; [|apply IH].
  pose proof (to_map_holds _ _ (bk x) x (inv_unique _ (wf_inv _ Hwf)) Hx Hu eq_refl) as Hk.
  unfold contents in Hem. by rewrite Hem in Hk.
Qed.

(** ** The sample, its order and the cut *)

(** The positions of the rows, and those whose row has nothing pending. *)
Definition row_at tb (p : Z) : bool := keep tb (fun _ => true) p.
Definition settled_at tb (p : Z) : bool :=
  match buckets_ tb !! Z.to_nat p with
  | Some x => v_eqb (K := K) (D := D) (v1 (bval x)) (default_v (K := K) (D := D))
  | None => false
  end.
Abbreviation prio_lt tb a b := (v_ltb (K := K) (D := D) (prio_at tb a) (prio_at tb b)).

(** The priorities of the rows are ordered as the library's [sort] requires:
    [<] is a strict weak order on them (for floating point: no NaN). *)
Definition priorities tb : list V := (fun r => prio r.2) <$> rows (buckets_ tb).
Record comparable tb : Prop := {
  cmp_asym p q : p ∈ priorities tb -> q ∈ priorities tb ->
    v_ltb (K := K) (D := D) p q = true -> v_ltb (K := K) (D := D) q p = false;
  cmp_trans p q r : p ∈ priorities tb -> q ∈ priorities tb -> r ∈ priorities tb ->
    v_ltb (K := K) (D := D) p q = false -> v_ltb (K := K) (D := D) q r = false ->
    v_ltb (K := K) (D := D) p r = false
}.

Lemma row_at_Some tb p : row_at tb p = true -> exists x, buckets_ tb !! Z.to_nat p = Some x /\ in_use x = true.
Proof. unfold row_at, keep. destruct (buckets_ tb !! Z.to_nat p) as [x|]; [|done]. rewrite andb_true_r. by exists x. Qed.
Lemma row_at_priority tb p : row_at tb p = true -> prio_at tb p ∈ priorities tb.
Proof.
  intros (x & Hx & Hu)%row_at_Some. unfold prio_at. rewrite Hx. apply list_elem_of_fmap.
  exists (bk x, bval x). split; [done|]. apply elem_of_rows. by exists (Z.to_nat p), x.
Qed.

(** One draw skips the free buckets and ends at the first row. *)
Lemma draw_first fuel tb rand n m :
  wf tb -> (forall j, 0 <= rand j < size_ tb) -> (n <= m < n + fuel)%nat -> row_at tb (rand m) = true ->
  exists j, draw fuel tb rand n = Ok (rand j, S j) /\ (n <= j)%nat /\
    filter (fun p => row_at tb p = true) (rand <$> seq n (S j - n)) = [rand j].
Proof.
  intros Hwf Hr. revert n. induction fuel as [|fuel IH]; intros n Hm Hrow; [lia|]. cbn [draw].
  destruct (vec_at_pos tb (rand n) Hwf) as (x & Ex & Hx); [apply elem_of_seqZ; specialize (Hr n); lia|].
  rewrite Ex. run. destruct (in_use x) eqn:Hu.
  - exists n. replace (S n - n)%nat with 1%nat by lia. cbn [seq fmap list_fmap].
    rewrite filter_cons_True; [done|]. unfold row_at, keep. by rewrite Hx, Hu.
  - assert (n <> m) by (intros <-; apply row_at_Some in Hrow as (y & Hy & ?); congruence).
    destruct (IH (S n)) as (j & E & Hj & Ef); [lia|done|]. exists j. split_and!; [done|lia|].
    replace (S j - n)%nat with (S (S j - S n))%nat by lia. cbn [seq fmap list_fmap].
    rewrite filter_cons_False; [done|]. unfold row_at, keep. by rewrite Hx, Hu.
Qed.

(** The sample is made of the first [count] rows among the draws. *)
Lemma sample_first fuel count tb rand n :
  wf tb -> (forall j, 0 <= rand j < size_ tb) ->
  (forall j, exists m, (j <= m < j + fuel)%nat /\ row_at tb (rand m) = true) ->
  exists d, let ps := filter (fun p => row_at tb p = true) (rand <$> seq n d) in
    sample fuel count tb rand n = Ok ps /\ length ps = count.
Proof.
  intros Hwf Hr Hh. revert n. induction count as [|count IH]; intros n; [by exists 0%nat|]. cbn [sample].
  destruct (Hh n) as (m & Hm & Hrow).
  destruct (draw_first fuel tb rand n m Hwf Hr Hm Hrow) as (j & -> & Hj & Ef). run.
  destruct (IH (S j)) as (d & -> & Hd). run. exists ((S j - n) + d)%nat.
  rewrite seq_app, fmap_app, filter_app, Ef. replace (n + (S j - n))%nat with (S j) by lia.
  split; [done|]. cbn. by rewrite Hd.
Qed.

(** The sort: a permutation, with no position before one of higher priority. *)
Definition not_below tb (a b : Z) : Prop := prio_lt tb a b = false.
Lemma insert_pos_perm tb p l : insert_pos tb p l ≡ₚ p :: l.
Proof.
  induction l as [|q l IH]; [done|]. cbn. case_match; [done|]. rewrite IH. apply Permutation_swap.
Qed.
Lemma sort_pos_perm tb l : sort_pos tb l ≡ₚ l.
Proof. induction l as [|p l IH]; [done|]. cbn. by rewrite insert_pos_perm, IH. Qed.
Lemma insert_pos_sorted tb p l :
  comparable tb -> row_at tb p = true -> Forall (fun q => row_at tb q = true) l ->
  StronglySorted (not_below tb) l -> StronglySorted (not_below tb) (insert_pos tb p l).
Proof.
  intros [Has Htr] Hp Hl Hs. induction Hs as [|q l Hs IH Hq]; cbn; [repeat constructor|].
  apply Forall_cons in Hl as [Hrq Hl]. pose proof (row_at_priority _ _ Hp). pose proof (row_at_priority _ _ Hrq).
  unfold compare_priority. destruct (prio_lt tb q p) eqn:Elt.
  - apply Has in Elt; [|done..]. constructor; [by constructor|]. constructor; [done|].
    rewrite Forall_forall in *. intros r Hr. apply (Htr _ (prio_at tb q)); [done|done| |done|by apply Hq].
    by apply row_at_priority, Hl.
  - constructor; [by apply IH|]. rewrite insert_pos_perm. by constructor.
Qed.
Lemma sort_pos_sorted tb l :
  comparable tb -> Forall (fun q => row_at tb q = true) l -> StronglySorted (not_below tb) (sort_pos tb l).
Proof.
  intros Hc. induction 1 as [|p l Hp Hl IH]; [constructor|].
  change (sort_pos tb (p :: l)) with (insert_pos tb p (sort_pos tb l)).
  apply insert_pos_sorted; [done..| |done]. by rewrite sort_pos_perm.
Qed.

(** What the position at index [c] of a sorted sample divides. *)
Lemma sorted_cut tb l c cut :
  comparable tb -> Forall (fun q => row_at tb q = true) l -> StronglySorted (not_below tb) l -> l !! c = Some cut ->
  (length (filter (fun q => prio_lt tb cut q = true) l) <= c <
   length (filter (fun q => prio_lt tb q cut = false) l))%nat.
Proof.
  intros Hc Hl Hs Hcut. pose proof (lookup_lt_Some _ _ _ Hcut) as Hlt.
  assert (prio_lt tb cut cut = false) as Hirr.
  { rewrite Forall_forall in Hl. pose proof (row_at_priority _ _ (Hl _ (list_elem_of_lookup_2 _ _ _ Hcut))) as Hin.
    destruct (prio_lt tb cut cut) eqn:E; [|done]. pose proof (cmp_asym _ Hc _ _ Hin Hin E). congruence. }
  rewrite <- (take_drop_middle l c cut Hcut) in Hs |- *. rewrite !filter_app, !length_app.
  apply StronglySorted_app in Hs as (Hpre & _ & Hsuf). inversion Hsuf as [|? ? _ Hafter]; subst.
  rewrite filter_cons_False, filter_cons_True by (done || congruence). split.
  - assert (filter (fun q => prio_lt tb cut q = true) (drop (S c) l) = []) as ->.
    { apply filter_none. intros q Hq E. rewrite Forall_forall in Hafter. specialize (Hafter q Hq).
      unfold not_below in Hafter. congruence. }
    pose proof (length_filter (fun q => prio_lt tb cut q = true) (take c l)). rewrite length_take in *. cbn. lia.
  - assert (filter (fun q => prio_lt tb q cut = false) (take c l) = take c l) as ->.
    { apply filter_all. intros q Hq. apply (Hpre q cut Hq). left. }
    rewrite length_take. cbn. lia.
Qed.
Lemma sorted_top tb l top :
  StronglySorted (not_below tb) l -> comparable tb -> Forall (fun q => row_at tb q = true) l ->
  l !! 0%nat = Some top -> forall q, q ∈ l -> prio_lt tb top q = false.
Proof.
  intros Hs Hc Hl. destruct Hs as [|p l Hs Hp]; [done|]. intros [= ->] q Hq.
  apply elem_of_cons in Hq as [->|Hq]; [|by rewrite Forall_forall in Hp; apply Hp].
  apply Forall_cons in Hl as [Hrow _]. apply row_at_priority in Hrow.
  destruct (prio_lt tb top top) eqn:E; [|done]. pose proof (cmp_asym _ Hc _ _ Hrow Hrow E). congruence.
Qed.

(** ** The table as a finite map of rows *)
Inductive op :=
  | Put (k : K) (w1 w2 : V) (w3 : D) | Resize (n : Z) | Clear
  | UpdateF1 (k : K) (v : V) | UpdateF2 (k : K) (v : V) | UpdateF3 (k : K) (v : D)
  | AccumulateF1 (k : K) (v : V) | AccumulateF2 (k : K) (v : V).
Definition exec (fuel : nat) tb (o : op) : outcome t :=
  match o with
  | Put k w1 w2 w3 => put fuel tb k w1 w2 w3
  | Resize n => resize fuel tb n
  | Clear => clear tb
  | UpdateF1 k v => updateF1 tb k v
  | UpdateF2 k v => updateF2 tb k v
  | UpdateF3 k v => updateF3 tb k v
  | AccumulateF1 k v => accumulateF1 tb k v
  | AccumulateF2 k v => accumulateF2 tb k v
  end.

(** A row operation rewrites the row of its key and fails when there is none. *)
Definition at_row (m : gmap K cell) (k : K) (f : cell -> cell) : outcome (gmap K cell) :=
  match m !! k with Some c => Ok (<[k := f c]> m) | None => Fatal end.
Definition exec_spec (sz : Z) (m : gmap K cell) (o : op) : outcome (gmap K cell) :=
  match o with
  | Put k w1 w2 w3 => Ok (<[k := fresh_cell w1 w2 w3]> m)
  | Resize n => Ok (if decide (sz = n) then m else refresh <$> m)
  | Clear => Ok ∅
  | UpdateF1 k v => at_row m k (fun c => Cell v (v2 c) (v3 c) (v_zero (K := K) (D := D)))
  | UpdateF2 k v => at_row m k (fun c => Cell (v1 c) v (v3 c) (prio c))
  | UpdateF3 k v => at_row m k (fun c => Cell (v1 c) (v2 c) v (prio c))
  | AccumulateF1 k v => at_row m k (receive v)
  | AccumulateF2 k v => at_row m k (fun c => Cell (v1 c) (accumulate (K := K) (D := D) (v2 c) v) (v3 c) (prio c))
  end.
(** [put] of a new key needs a free bucket, [resize] room for the rows. *)
Definition has_room tb (o : op) : Prop :=
  match o with
  | Put k _ _ _ => contents tb !! k <> None \/ entries_ tb < size_ tb
  | Resize n => 0 < n < 2 ^ 31 /\ entries_ tb <= n
  | _ => True
  end.

Lemma refines_row (f : t -> K -> outcome t) g incr tb k :
  rewrites f g incr -> wf tb ->
  match at_row (contents tb) k g with
  | Ok m => exists tb', f tb k = Ok tb' /\ wf tb' /\ contents tb' = m
  | _ => f tb k = Fatal
  end.
Proof.
  intros Hr Hwf. specialize (Hr tb k Hwf). unfold at_row. destruct (contents tb !! k); [|done].
  destruct Hr as (tb' & ? & ? & ? & _). by exists tb'.
Qed.

(** C23. Every operation of the state table that has room does to the rows what
    its specification says and keeps the table well formed: [put] stores a row
    with its priority, the updates and accumulations rewrite one field of one
    row (and the priority as documented) and fail on a missing row, [resize]
    keeps every row. *)
Theorem state_refines fuel tb o :
  wf tb -> has_room tb o ->
  match exec_spec (size_ tb) (contents tb) o with
  | Ok m => exists tb', exec (S fuel) tb o = Ok tb' /\ wf tb' /\ contents tb' = m
  | _ => exec (S fuel) tb o = Fatal
  end.
Proof.
  intros Hwf Hroom. destruct o as [k w1 w2 w3|n| |k v|k v|k v|k v|k v]; cbn [exec exec_spec].
  - destruct (put_room fuel tb k w1 w2 w3 Hwf Hroom) as (tb' & ? & ? & ? & _). by exists tb'.
  - destruct Hroom. destruct (state_resize_spec fuel tb n Hwf) as (tb' & ? & ? & ? & ?); [done..|]. by exists tb'.
  - destruct (clear_contents tb Hwf) as (tb' & ? & ? & ? & _). by exists tb'.
  - exact (refines_row _ _ _ tb k (updateF1_spec v) Hwf).
  - exact (refines_row _ _ _ tb k (updateF2_spec v) Hwf).
  - exact (refines_row _ _ _ tb k (updateF3_spec v) Hwf).
  - exact (refines_row _ _ _ tb k (accumulateF1_spec v) Hwf).
  - exact (refines_row _ _ _ tb k (accumulateF2_spec v) Hwf).
Qed.

(** What is read of a row is what it holds; reading a missing row fails. *)
Theorem state_reads tb k :
  wf tb ->
  contains tb k = Ok (bool_decide (is_Some (contents tb !! k))) /\
  match contents tb !! k with
  | Some c => getF1 tb k = Ok (v1 c) /\ getF2 tb k = Ok (v2 c) /\ getF3 tb k = Ok (v3 c) /\
      get tb k = Ok (Build_ClutterRecord k (v1 c) (v2 c) (v3 c))
  | None => getF1 tb k = Fatal /\ getF2 tb k = Fatal /\ getF3 tb k = Fatal /\ get tb k = Fatal
  end.
Proof. intros Hwf. split; [by apply state_contains_spec|by apply gets_spec]. Qed.

(** C33. On a full table [put] of a new key does not grow the table: it
    writes the new row into the key's home bucket (its hash modulo the number
    of buckets) and into no other, so that exactly the key that was there loses
    its row, and the entry count exceeds the number of buckets. *)
Theorem state_put_full fuel tb k w1 w2 w3 :
  wf tb -> contents tb !! k = None -> entries_ tb = size_ tb ->
  exists tb' x, put (S fuel) tb k w1 w2 w3 = Ok tb' /\
    buckets_ tb !! home (buckets_ tb) k = Some x /\ in_use x = true /\ bk x <> k /\
    buckets_ tb' = <[home (buckets_ tb) k := Bucket k (fresh_cell w1 w2 w3) true]> (buckets_ tb) /\
    is_Some (contents tb !! bk x) /\
    contents tb' = <[k := fresh_cell w1 w2 w3]> (delete (bk x) (contents tb)) /\
    size_ tb' = size_ tb /\ entries_ tb' = size_ tb + 1.
Proof.
  intros Hwf Hk Hf. destruct (put_on_full fuel tb k w1 w2 w3 Hwf Hk Hf) as (tb' & x & ? & ? & ? & ? & Hk0 & ? & ? & ? & ?).
  exists tb', x. split_and!; try done. intros E. rewrite E, Hk in Hk0. by destruct Hk0.
Qed.

(** A snapshot reports the number of updates and the sum of the values
    that differ from the default, over all the rows, and changes no row. *)
Theorem snapshot_reports tb :
  wf tb -> exists tb' l, serializeToSnapshot tb =
    Ok (tb', total_updates tb, progress l (S754_zero false)) /\
    l ≡ₚ map_to_list (contents tb) /\ wf tb' /\ contents tb' = contents tb.
Proof.
  intros Hwf. destruct (snapshot_spec tb Hwf) as (tb' & E & Hwf' & Hc').
  exists tb', (rows (buckets_ tb)). split_and!; try done.
  unfold contents, to_map. symmetry. apply map_to_list_to_map, rows_keys_NoDup, (wf_inv _ Hwf).
Qed.

(** The closing pass of [schedule_iterator] reads the bucket after the end
    of the array whenever the last bucket of the table is free. *)
Theorem schedule_pass_overruns tb y :
  wf tb -> last (buckets_ tb) = Some y -> in_use y = false ->
  total_pass_sched (S (S (length (buckets_ tb)))) (EntirePass tb) (S754_zero false) = Undefined.
Proof.
  intros Hwf Hl Hy. unfold EntirePass. change (-1) with (Z.of_nat 0 - 1).
  apply (total_pass_sched_overrun tb _ 0 0 _ y); try done; [|lia]. apply (inv_pos _ (wf_inv _ Hwf)).
Qed.

(** The pass of [get_iterator], which tests [Next], adds up the values of
    all the rows and ends. *)
Theorem closing_pass_total tb :
  wf tb -> exists it l, total_pass (S (S (length (buckets_ tb)))) (EntirePass tb) (S754_zero false) =
    Ok (it, total l (S754_zero false)) /\ l ≡ₚ map_to_list (contents tb).
Proof.
  intros Hwf. unfold EntirePass. change (-1) with (Z.of_nat 0 - 1).
  destruct (total_pass_spec tb (S (S (length (buckets_ tb)))) 0 0 (S754_zero false) Hwf) as (it & E & _); [lia..|].
  exists it, (rows (buckets_ tb)). split; [done|].
  unfold contents, to_map. symmetry. apply map_to_list_to_map, rows_keys_NoDup, (wf_inv _ Hwf).
Qed.

(** A table of at most [sample_size] rows: every row is scheduled exactly
    once, and with the filter [b_no_change] holds exactly when every row has a
    pending delta (the opposite of what its name says). *)
Theorem schedule_small fuel tb portion rand bfilter :
  wf tb -> entries_ tb <= sample_size ->
  exists ps no_change, ScheduledIterator fuel tb portion rand bfilter = Ok (ps, no_change) /\
    NoDup ps /\ (forall i, i ∈ ps <-> 0 <= i < size_ tb /\ keep tb (fun _ => true) i = true) /\
    no_change = bfilter && forallb (fun r =>
      negb (v_eqb (K := K) (D := D) (v1 r.2) (default_v (K := K) (D := D)))) (rows (buckets_ tb)).
Proof.
  intros Hwf Hs. unfold ScheduledIterator. rewrite (proj2 (Z.leb_le _ _) Hs), schedule_all_spec by done. run.
  rewrite <- (pending_rows tb) by done.
  set (nc := forallb _ _). eexists _, (bfilter && nc). split; [|split_and!; [..|done]].
  - by destruct nc, bfilter.
  - apply NoDup_filter, NoDup_seqZ.
  - intros i. rewrite list_elem_of_filter, elem_of_seqZ. naive_solver lia.
Qed.


(** Sampling a table that has no rows never ends: the loop that draws a
    position in use uses up any number of draws. *)
Theorem sampling_empty_diverges fuel tb rand n :
  wf tb -> contents tb = ∅ -> (forall m, 0 <= rand m < size_ tb) -> draw fuel tb rand n = OutOfFuel.
Proof. apply draw_no_rows. Qed.
End StateTable.
Arguments cell V D : clear implicits.
Arguments t K V D : clear implicits.
Arguments op K V D : clear implicits.

(** ** Witnesses on the sample kernel *)
Section Sample.
#[local] Abbreviation table := (t Z Z (list Z)).
Definition two_rows (size : Z) : outcome table :=
  tb ← create 2 size; tb ← put 2 tb 4 7 20 []; put 2 tb 9 far 30 [].
Definition no_rows : table := mk [] 0 0 (S754_zero false) 0 false.
(** A full table and one with a free last bucket. *)
Definition full2 : table := Eval vm_compute in match two_rows 2 with Ok tb => tb | _ => no_rows end.
Definition roomy3 : table := Eval vm_compute in match two_rows 3 with Ok tb => tb | _ => no_rows end.
Definition blank3 : table := Eval vm_compute in match create 2 3 with Ok tb => tb | _ => no_rows end.
Lemma full2_wf : wf full2.
Proof. apply state_wfb_sound. vm_compute. reflexivity. Qed.
Lemma full2_no6 : contents full2 !! 6 = None.
Proof. vm_compute. exact eq_refl. Qed.
Lemma roomy3_wf : wf roomy3.
Proof. apply state_wfb_sound. vm_compute. reflexivity. Qed.
Lemma blank3_wf : wf blank3.
Proof. apply state_wfb_sound. vm_compute. reflexivity. Qed.

Lemma state_refines_witness :
  exists tb', exec 1 roomy3 (AccumulateF1 4 3) = Ok tb' /\ wf tb' /\
    contents tb' = <[4 := Cell 3 20 [] 17]> (contents roomy3).
Proof. exact (state_refines 0 roomy3 (AccumulateF1 4 3) roomy3_wf I). Defined.
Lemma state_reads_witness : getF2 roomy3 4 = Ok 20.
Proof. exact (proj1 (proj2 (proj2 (state_reads roomy3 4 roomy3_wf)))). Defined.
(** Keys 4 and 9 fill two buckets; 6 goes to the bucket of 4. *)
Lemma state_put_full_witness :
  exists tb' x, put 1 full2 6 1 2 [] = Ok tb' /\ buckets_ full2 !! 0%nat = Some x /\ bk x = 4 /\
    contents tb' = <[6 := fresh_cell (K := Z) 1 2 []]> (delete 4 (contents full2)) /\
    size_ tb' = size_ full2 /\ entries_ tb' = size_ full2 + 1.
Proof.
  destruct (state_put_full 0 full2 6 1 2 [] full2_wf full2_no6 eq_refl)
    as (tb' & x & E & Hx & _ & _ & _ & _ & Hc & Hs & He).
  assert (bk x = 4) as Hk by (vm_compute in Hx; injection Hx as <-; reflexivity).
  rewrite Hk in Hc. exists tb', x. split_and!; assumption.
Defined.
Lemma snapshot_reports_witness :
  exists tb' l, serializeToSnapshot roomy3 = Ok (tb', 0, progress l (S754_zero false)) /\
    l ≡ₚ map_to_list (contents roomy3) /\ wf tb' /\ contents tb' = contents roomy3.
Proof. exact (snapshot_reports roomy3 roomy3_wf). Defined.
Lemma schedule_pass_overruns_witness :
  total_pass_sched 5 (EntirePass roomy3) (S754_zero false) = Undefined.
Proof. exact (schedule_pass_overruns roomy3 empty_bucket roomy3_wf eq_refl eq_refl). Defined.
Lemma closing_pass_total_witness :
  exists it l, total_pass 5 (EntirePass roomy3) (S754_zero false) = Ok (it, total l (S754_zero false)) /\
    l ≡ₚ map_to_list (contents roomy3).
Proof. exact (closing_pass_total roomy3 roomy3_wf). Defined.
Lemma schedule_small_witness :
  exists ps, ScheduledIterator 1 roomy3 (S754_zero false) (fun _ => 0) true = Ok (ps, false) /\ NoDup ps.
Proof.
  destruct (schedule_small 1 roomy3 (S754_zero false) (fun _ => 0) true roomy3_wf) as (ps & nc & E & Hnd & _ & Hnc).
  - vm_compute. discriminate.
  - exists ps. subst nc. split; [exact E|exact Hnd].
Defined.
Lemma z_comparable (tb : table) : comparable tb.
Proof. split; intros *; unfold v_ltb, MinKernel; lia. Qed.
Lemma z_not_below (a b : Z) P :
  v_ltb (K := Z) (D := list Z) a b = true \/ v_eqb (K := Z) (D := list Z) b a = true /\ P -> a <= b.
Proof. unfold v_ltb, v_eqb, MinKernel. lia. Qed.
(** A table of 1001 rows: the row of key [k] has priority [k]. *)
Definition many_rows : table :=
  match (tb ← create 2 1024; for_each (fun tb k => put 2 tb k (3000 - k) 3000 []) (seqZ 0 1001) tb) with
  | Ok tb => tb | _ => no_rows end.
Definition half : spec_float := S754_finite false 4503599627370496 (-53).
Definition round_robin (n : nat) : Z := Z.of_nat n mod 1024.
Lemma many_rows_ok : wf many_rows /\ size_ many_rows = 1024.
Proof.
  unfold many_rows. destruct (state_create_spec (K := Z) (V := Z) (D := list Z) 1 1024) as (tb & -> & Hwf & Hc & Hs); [lia|].
  run. destruct (puts_room 1 tb (fun k => k) (fun k => 3000 - k) (fun _ => 3000) (fun _ => []) (seqZ 0 1001) Hwf)
    as (tb' & -> & Hwf' & Hs'); [|by rewrite Hs', Hs].
  rewrite (state_wf_entries_size _ Hwf), Hc, map_size_empty, length_seqZ, Hs. done.
Qed.
Lemma many_rows_0 : row_at many_rows 0 = true.
Proof. vm_compute. reflexivity. Qed.
Lemma many_rows_big : sample_size < entries_ many_rows.
Proof. vm_compute. reflexivity. Qed.
Lemma half_cut : trunc (f64_mul (f64_of_Z sample_size) half) = 500.
Proof. vm_compute. reflexivity. Qed.
Lemma round_robin_hits n : exists m, (n <= m < n + 1024)%nat /\ row_at many_rows (round_robin m) = true.
Proof.
  exists (1024 * ((n + 1023) / 1024))%nat. split.
  - pose proof (Nat.div_mod (n + 1023) 1024). pose proof (Nat.mod_upper_bound (n + 1023) 1024). lia.
  - assert (forall q, round_robin (1024 * q) = 0) as ->; [|exact many_rows_0].
    intros q. unfold round_robin. rewrite Nat2Z.inj_mul, Z.mul_comm. by rewrite Z.mod_mul.
Qed.
Lemma sampling_empty_diverges_witness : draw 100 blank3 (fun n => Z.of_nat n mod 3) 0 = OutOfFuel.
Proof.
  apply (sampling_empty_diverges 100 blank3 (fun n => Z.of_nat n mod 3) 0 blank3_wf); [reflexivity|].
  intros m. change (size_ blank3) with 3. apply Z.mod_pos_bound. lia.
Defined.
End Sample.
End StateTable.
