(* ===== verification/GlobalTable.v ===== *)
(** * The partitioned table: kernel/global-table.h and kernel/global-table.cc

    A [TypedGlobalTable] holds one local table per shard: a [StateTable] for
    the shards this worker owns and a [DeltaTable] for the others.  Updates of
    a remote key are accumulated in the delta table of its shard and sent to
    the owner, which accumulates them into its state table.

    Locks are not modelled: each operation is one atomic step.  The periodic
    polls ([PERIODIC(0.1, HandlePutRequests)]) at the end of [put] and
    [updateF1] are steps of their own in a run of the system. *)
From S2P Require Import Prelude Float StringPiece Probe Table DeltaTable StateTable.

Module GlobalTable.
Section GlobalTable.
Context {K V D : Type} `{Countable K} `{!Hashable K}.
Context `{!ValueInit K} `{!ValueInit V} `{!ValueInit D}.
Context `{!IterateKernel K V D} `{!Sharder K} `{!Marshal K} `{!Marshal V}.

(** [FLAGS_bufmsg], and the encoded size of a message, which [Send] returns. *)
Variable bufmsg : Z.
Variable wire_size : KVPairData -> Z.

(** The local tables behind [LocalTable*]. *)
Inductive LocalTable :=
  | Delta (d : DeltaTable.t K V)
  | State (s : StateTable.t K V D).

(** [TableHelper*] of the descriptor: the worker's id and epoch. *)
Record TableHelper := { helper_id : Z; helper_epoch : Z }.

(** [PartitionInfo] with the fields of its [ShardInfo] that are used. *)
Record PartitionInfo := { dirty : bool; tainted : bool; sinfo_owner : Z; sinfo_entries : Z }.
Definition PartitionInfo_new : PartitionInfo :=
  {| dirty := false; tainted := false; sinfo_owner := -1; sinfo_entries := 0 |}.

Record t := mk {
  table_id : Z;
  num_shards : Z;
  helper : option TableHelper;
  partitions_ : list LocalTable;
  partinfo_ : list PartitionInfo;
  pending_writes_ : Z;
  snapshot_index : Z;
  sent_bytes_ : Z;
  update_queue : list (K * V);
  binit : bool
}.
Implicit Types tb : t.

(** The messages a table hands to the network thread, with their receiver. *)
Inductive message :=
  | PutRequest (dst : Z) (d : KVPairData)
  | TermcheckDelta (index updates : Z) (delta : spec_float)
  | SwapTable (table_a table_b : Z)
  | ClearTable (tbl : Z).

Definition set_partitions tb (ps : list LocalTable) : t :=
  mk (table_id tb) (num_shards tb) (helper tb) ps (partinfo_ tb) (pending_writes_ tb)
     (snapshot_index tb) (sent_bytes_ tb) (update_queue tb) (binit tb).
Definition set_pending tb (n : Z) : t :=
  mk (table_id tb) (num_shards tb) (helper tb) (partitions_ tb) (partinfo_ tb) n
     (snapshot_index tb) (sent_bytes_ tb) (update_queue tb) (binit tb).
Definition set_sent tb (n : Z) : t :=
  mk (table_id tb) (num_shards tb) (helper tb) (partitions_ tb) (partinfo_ tb) (pending_writes_ tb)
     (snapshot_index tb) n (update_queue tb) (binit tb).
Definition set_snapshot tb (n : Z) : t :=
  mk (table_id tb) (num_shards tb) (helper tb) (partitions_ tb) (partinfo_ tb) (pending_writes_ tb)
     n (sent_bytes_ tb) (update_queue tb) (binit tb).
Definition set_partinfo tb (ps : list PartitionInfo) : t :=
  mk (table_id tb) (num_shards tb) (helper tb) (partitions_ tb) ps (pending_writes_ tb)
     (snapshot_index tb) (sent_bytes_ tb) (update_queue tb) (binit tb).
Definition set_queue tb (q : list (K * V)) : t :=
  mk (table_id tb) (num_shards tb) (helper tb) (partitions_ tb) (partinfo_ tb) (pending_writes_ tb)
     (snapshot_index tb) (sent_bytes_ tb) q (binit tb).
Definition set_binit tb (b : bool) : t :=
  mk (table_id tb) (num_shards tb) (helper tb) (partitions_ tb) (partinfo_ tb) (pending_writes_ tb)
     (snapshot_index tb) (sent_bytes_ tb) (update_queue tb) b.
Definition set_partition tb (i : Z) (p : LocalTable) : outcome t :=
  ps ← vec_set (partitions_ tb) i p; Ok (set_partitions tb ps).

(** ** Shards and their owners *)
Definition get_partition_info tb (i : Z) : outcome PartitionInfo := vec_at (partinfo_ tb) i.
Definition owner tb (i : Z) : outcome Z := p ← get_partition_info tb i; Ok (sinfo_owner p).
Definition is_local_shard tb (i : Z) : outcome bool :=
  match helper tb with
  | None => Ok false
  | Some h => o ← owner tb i; Ok (o =? helper_id h)
  end.
(** [get_shard]; its range checks are [DCHECK]s, which only a debug build has. *)
Definition get_shard tb (k : K) : Z := shard_of k (num_shards tb).
Definition is_local_key tb (s : cstr) : outcome bool :=
  k ← unmarshal s; is_local_shard tb (get_shard tb k).
Definition UpdatePartitions tb (shard owner entries : Z) : outcome t :=
  p ← vec_at (partinfo_ tb) shard;
  ps ← vec_set (partinfo_ tb) shard
         {| dirty := dirty p; tainted := tainted p; sinfo_owner := owner; sinfo_entries := entries |};
  Ok (set_partinfo tb ps).

(** [partition(idx)] and [deltaT(idx)]: a [dynamic_cast] whose null result is
    dereferenced by every caller. *)
Definition partition tb (i : Z) : outcome (StateTable.t K V D) :=
  p ← vec_at (partitions_ tb) i;
  match p with State s => Ok s | Delta _ => Undefined end.
Definition deltaT tb (i : Z) : outcome (DeltaTable.t K V) :=
  p ← vec_at (partitions_ tb) i;
  match p with Delta d => Ok d | State _ => Undefined end.

(** ** Construction *)

(** [put] and [resize] nest at most twice (see [put_spec] of both tables). *)
Definition depth : nat := 2.

(** [create_deltaT] and [create_localT]: tables with one bucket. *)
Definition create_deltaT : outcome LocalTable := d ← DeltaTable.create depth 1; Ok (Delta d).
Definition create_localT : outcome LocalTable := s ← StateTable.create depth 1; Ok (State s).

Definition Init (id shards : Z) (h : option TableHelper) : outcome t :=
  _ ← CHECK (0 <=? shards);
  ps ← for_each (fun ps _ => p ← create_deltaT; Ok (ps ++ [p])) (seqZ 0 shards) [];
  Ok (mk id shards h ps (replicate (Z.to_nat shards) PartitionInfo_new) 0 0 0 [] false).

Definition InitStateTable tb : outcome t :=
  tb ← for_each (fun tb i =>
      loc ← is_local_shard tb i;
      if loc : bool then p ← create_localT; set_partition tb i p else Ok tb)
    (seqZ 0 (Z.of_nat (length (partitions_ tb)))) tb;
  Ok (set_binit tb true).

(** ** Sending updates *)

(** The virtual calls that [SendUpdates] makes on a local table.  A
    [StateTable] gets its iterator with a null helper. *)
Definition serializeToNet (p : LocalTable) (c : ProtoKVPairCoder) : outcome ProtoKVPairCoder :=
  match p with Delta d => DeltaTable.serializeToNet d c | State _ => Undefined end.
Definition reset (p : LocalTable) : outcome LocalTable :=
  match p with
  | Delta d => d ← DeltaTable.reset depth d; Ok (Delta d)
  | State s => Ok (State (StateTable.reset s))
  end.
Definition clear (p : LocalTable) : outcome LocalTable :=
  match p with
  | Delta d => d ← DeltaTable.clear d; Ok (Delta d)
  | State s => s ← StateTable.clear s; Ok (State s)
  end.
Definition size (p : LocalTable) : Z :=
  match p with Delta d => DeltaTable.size d | State s => StateTable.size s end.
Definition empty (p : LocalTable) : bool := size p =? 0.

(** [do { ... } while (!t->empty())] for shard [i]. *)
Fixpoint send_loop (fuel : nat) tb (i : Z) : outcome (t * list message) :=
  match fuel with
  | O => OutOfFuel
  | S fuel =>
    p ← vec_at (partitions_ tb) i;
    h ← deref (helper tb);
    c ← serializeToNet p {| kc_t := []; kc_read_pos := 0 |};
    p ← reset p;
    o ← owner tb i;
    let put := {| source := to_uint32 (helper_id h); table := to_uint32 (table_id tb);
                  shard := to_uint32 i; done_ := true; kv_data := kc_t c;
                  epoch := helper_epoch h; marker := -1 |} in
    tb ← set_partition (set_sent tb (sent_bytes_ tb + wire_size put)) i p;
    if negb (empty p) then
      '(tb, ms) ← send_loop fuel tb i; Ok (tb, PutRequest (o + 1) put :: ms)
    else Ok (tb, [PutRequest (o + 1) put])
  end.

(** The body of the loop over the partitions. *)
Definition send_shard (s : t * list message) (i : Z) : outcome (t * list message) :=
  let '(tb, ms) := s in
  loc ← is_local_shard tb i;
  info ← get_partition_info tb i;
  p ← vec_at (partitions_ tb) i;
  if negb loc && (dirty info || negb (empty p)) then
    '(tb, ms') ← send_loop 1 tb i;
    p ← vec_at (partitions_ tb) i;
    p ← clear p;
    tb ← set_partition tb i p;
    Ok (tb, ms ++ ms')
  else Ok (tb, ms).

Definition SendUpdates tb : outcome (t * list message) :=
  '(tb, ms) ← for_each send_shard (seqZ 0 (Z.of_nat (length (partitions_ tb)))) (tb, []);
  Ok (set_pending tb 0, ms).
Definition BufSend tb : outcome (t * list message) :=
  if bufmsg <? pending_writes_ tb then SendUpdates tb else Ok (tb, []).

(** ** Writes *)
Definition put tb (k : K) (v1 v2 : V) (v3 : D) : outcome t :=
  let shard := get_shard tb k in
  loc ← is_local_shard tb shard;
  if loc : bool then
    s ← partition tb shard;
    s ← StateTable.put depth s k v1 v2 v3;
    set_partition tb shard (State s)
  else Ok (set_pending tb (pending_writes_ tb + 1)).

(** A write through [partition(shard)] when the shard is local; otherwise the
    source only logs. *)
Definition write_local (f : StateTable.t K V D -> outcome (StateTable.t K V D)) tb (k : K) : outcome t :=
  let shard := get_shard tb k in
  loc ← is_local_shard tb shard;
  if loc : bool then
    s ← partition tb shard;
    s ← f s;
    set_partition tb shard (State s)
  else Ok tb.
Definition updateF2 tb (k : K) (v : V) : outcome t := write_local (fun s => StateTable.updateF2 s k v) tb k.
Definition updateF3 tb (k : K) (v : D) : outcome t := write_local (fun s => StateTable.updateF3 s k v) tb k.
Definition accumulateF2 tb (k : K) (v : V) : outcome t := write_local (fun s => StateTable.accumulateF2 s k v) tb k.
Definition accumulateF3 tb (k : K) (v : D) : outcome t := write_local (fun s => StateTable.accumulateF3 s k v) tb k.

Definition updateF1 tb (k : K) (v : V) : outcome t :=
  let shard := get_shard tb k in
  loc ← is_local_shard tb shard;
  if loc : bool then
    s ← partition tb shard;
    s ← StateTable.updateF1 s k v;
    set_partition tb shard (State s)
  else
    d ← deltaT tb shard;
    d ← DeltaTable.update d k v;
    set_partition tb shard (Delta d).

Definition accumulateF1 tb (k : K) (v : V) : outcome (t * list message) :=
  let shard := get_shard tb k in
  loc ← is_local_shard tb shard;
  if loc : bool then
    s ← partition tb shard;
    s ← StateTable.accumulateF1 s k v;
    tb ← set_partition tb shard (State s);
    Ok (tb, [])
  else
    d ← deltaT tb shard;
    d ← DeltaTable.accumulate (D := D) depth d k v;
    tb ← set_partition tb shard (Delta d);
    let tb := set_pending tb (pending_writes_ tb + 1) in
    if bufmsg <? pending_writes_ tb then SendUpdates tb else Ok (tb, []).

Definition enqueue_updateF1 tb (k : K) (v : V) : t := set_queue tb (update_queue tb ++ [(k, v)]).

(** ** Reads *)
Definition read_local {A} (f : StateTable.t K V D -> outcome A) tb (k : K) : outcome A :=
  let shard := get_shard tb k in
  loc ← is_local_shard tb shard;
  _ ← CHECK loc;
  s ← partition tb shard;
  f s.
Definition getF1 tb (k : K) : outcome V := read_local (fun s => StateTable.getF1 s k) tb k.
Definition getF2 tb (k : K) : outcome V := read_local (fun s => StateTable.getF2 s k) tb k.
Definition getF3 tb (k : K) : outcome D := read_local (fun s => StateTable.getF3 s k) tb k.
Definition get tb (k : K) : outcome (ClutterRecord K V D) := read_local (fun s => StateTable.get s k) tb k.
(** [get_localF1], [get_localF2], [get_localF3] are the same reads. *)
Definition contains tb (k : K) : outcome bool :=
  let shard := get_shard tb k in
  loc ← is_local_shard tb shard;
  if loc : bool then s ← partition tb shard; StateTable.contains s k else Ok false.
Definition remove tb (k : K) : outcome bool :=
  let shard := get_shard tb k in
  loc ← is_local_shard tb shard;
  if loc : bool then s ← partition tb shard; StateTable.remove s k else Ok false.

Definition shard_size tb (i : Z) : outcome Z :=
  loc ← is_local_shard tb i;
  if loc : bool then p ← vec_at (partitions_ tb) i; Ok (size p)
  else p ← vec_at (partinfo_ tb) i; Ok (sinfo_entries p).

Definition pending_write_bytes tb : outcome Z :=
  s ← for_each (fun s i =>
      p ← vec_at (partitions_ tb) i;
      loc ← is_local_shard tb i;
      Ok (if negb loc then s + size p else s))
    (seqZ 0 (Z.of_nat (length (partitions_ tb)))) 0;
  Ok (to_int32 s).

(** ** Termination checks *)

(** [serializeToSnapshot] of a [DeltaTable] returns without setting the
    results that [termcheck] then reads. *)
Definition snapshot (p : LocalTable) : outcome (LocalTable * Z * spec_float) :=
  match p with
  | State s => '(s, updates, f2) ← StateTable.serializeToSnapshot s; Ok (State s, updates, f2)
  | Delta _ => Undefined
  end.
Definition termcheck_shard (s : t * spec_float * Z) (i : Z) : outcome (t * spec_float * Z) :=
  let '(tb, current, updates) := s in
  loc ← is_local_shard tb i;
  if loc : bool then
    p ← vec_at (partitions_ tb) i;
    '(p, partUpdates, partF2) ← snapshot p;
    tb ← set_partition tb i p;
    Ok (tb, f64_add current partF2, updates + partUpdates)
  else Ok s.
Definition termcheck tb : outcome (t * list message) :=
  '(tb, current, updates) ← for_each termcheck_shard
      (seqZ 0 (Z.of_nat (length (partitions_ tb)))) (tb, S754_zero false, 0);
  let ms := match helper tb with
            | Some _ => [TermcheckDelta (snapshot_index tb) updates current]
            | None => []
            end in
  Ok (set_snapshot tb (snapshot_index tb + 1), ms).

(** [TermCheck]: [PERIODIC] with the snapshot interval; [due] says whether the
    interval has passed. *)
Definition TermCheck (due : bool) tb : outcome (t * list message) :=
  if due then termcheck tb else Ok (tb, []).

(** ** Receiving updates *)
Definition apply_one (s : t * list message) (r : K * V) : outcome (t * list message) :=
  let '(tb, ms) := s in
  '(tb, ms') ← accumulateF1 tb r.1 r.2; Ok (tb, ms ++ ms').
Definition ApplyUpdates (due : bool) tb (req : KVPairData) : outcome (t * list message) :=
  _ ← is_local_shard tb (shard req);
  p ← vec_at (partitions_ tb) (shard req);
  it ← match p with
       | Delta _ => DeltaTable.deserializeFromNet {| kc_t := kv_data req; kc_read_pos := 0 |} Decode.create
       | State _ => StateTable.deserializeFromNet {| kc_t := kv_data req; kc_read_pos := 0 |} Decode.create
       end;
  '(tb, ms) ← for_each apply_one (drop (intit it) (decodedeque it)) (tb, []);
  '(tb, ms') ← TermCheck due tb;
  Ok (tb, ms ++ ms').

(** ** Iterators

    [get_iterator] of a shard, in a process of which [get] and [put] read and
    write this table.  A pointer to a [DeltaTable] does not make the iterator
    that the caller takes it for. *)
Definition get_iterator {S : Type} (get : S -> outcome t) (put : S -> t -> outcome S) (fuel : nat)
    (exchange : nat -> S -> outcome S) (rand : nat -> nat -> Z) (schedule_portion : spec_float)
    (st : S) (shard : Z) (bfilter : bool) :
    outcome (S * StateTable.TableIterator (K := K) (V := V) (D := D) * list StateTable.termcheck_msg) :=
  tb ← get st;
  loc ← is_local_shard tb shard;
  _ ← CHECK loc;
  let self st := tb ← get st; partition tb shard in
  let set_self st s := tb ← get st; tb ← set_partition tb shard (State s); put st tb in
  if SFltb schedule_portion (f64_of_Z 1)
  then StateTable.schedule_iterator self set_self fuel exchange rand schedule_portion st bfilter
  else StateTable.get_iterator self set_self fuel exchange rand st bfilter.

(** [terminate()] of a shard that is local; a delta table keeps no such flag
    that is read. *)
Definition terminate_shard tb (i : Z) : outcome t :=
  loc ← is_local_shard tb i;
  if loc : bool then
    p ← vec_at (partitions_ tb) i;
    match p with State s => set_partition tb i (State (StateTable.terminate s)) | Delta _ => Ok tb end
  else Ok tb.

(** ** Whole-table operations *)
Definition resize_local (p : LocalTable) (n : Z) : outcome LocalTable :=
  match p with
  | Delta d => d ← DeltaTable.resize depth d n; Ok (Delta d)
  | State s => s ← StateTable.resize depth s n; Ok (State s)
  end.
Definition resize tb (new_size : Z) : outcome t :=
  let n := Z.of_nat (length (partitions_ tb)) in
  for_each (fun tb i =>
      loc ← is_local_shard tb i;
      if loc : bool then
        p ← vec_at (partitions_ tb) i;
        p ← resize_local p (to_int64 (to_uint64 new_size / n + 1));
        set_partition tb i p
      else Ok tb)
    (seqZ 0 n) tb.

(** [swap] and [clear] broadcast a request that every worker applies with
    [local_swap] and with [clear] on its local shards. *)
Definition swap tb (b : t) : list message := [SwapTable (table_id tb) (table_id b)].
Definition clear_request tb : list message := [ClearTable (table_id tb)].
Definition local_swap (a b : t) : outcome (t * t) :=
  _ ← CHECK (negb (table_id a =? table_id b));
  Ok (set_pending (set_partitions (set_partinfo a (partinfo_ b)) (partitions_ b)) (pending_writes_ b),
      set_pending (set_partitions (set_partinfo b (partinfo_ a)) (partitions_ a)) (pending_writes_ a)).
Definition clear_local tb : outcome t :=
  for_each (fun tb i =>
      loc ← is_local_shard tb i;
      if loc : bool then
        p ← vec_at (partitions_ tb) i; p ← clear p; set_partition tb i p
      else Ok tb)
    (seqZ 0 (num_shards tb)) tb.
(** ** The values under way

    The updates of one key that have been made and not yet consumed, combined
    with the kernel's accumulation; [None] is "no update". *)
Definition oadd (a b : option V) : option V :=
  match a, b with
  | Some a, Some b => Some (accumulate (K := K) (D := D) a b)
  | Some a, None => Some a
  | None, _ => b
  end.
Definition osum (l : list (option V)) : option V := foldr oadd None l.

(** What a list of pairs carries for [k]. *)
Definition carried (l : list (K * V)) (k : K) : option V :=
  osum ((fun r => if decide (r.1 = k) then Some r.2 else None) <$> l).

(** The pairs that the receiver of a message decodes. *)
Definition args_of (d : KVPairData) : list (K * V) :=
  omap (fun a => match unmarshal (arg_key a), unmarshal (arg_value a) with
                 | Ok k, Ok v => Some (k, v)
                 | _, _ => None
                 end) (kv_data d).
Definition message_pairs (m : message) : list (K * V) :=
  match m with PutRequest _ d => args_of d | _ => [] end.
Definition inflight (ms : list message) (k : K) : option V :=
  osum ((fun m => carried (message_pairs m) k) <$> ms).

(** What a worker's table holds for [k]: the pending delta of its row when the
    worker owns it, the buffered update otherwise. *)
Definition held tb (k : K) : option V :=
  match partitions_ tb !! Z.to_nat (get_shard tb k) with
  | Some (Delta d) => DeltaTable.contents d !! k
  | Some (State s) => StateTable.v1 <$> StateTable.contents s !! k
  | None => None
  end.

(** The row of [k] when the worker owns it. *)
Definition row tb (k : K) : option (StateTable.cell V D) :=
  match partitions_ tb !! Z.to_nat (get_shard tb k) with
  | Some (State s) => StateTable.contents s !! k
  | _ => None
  end.

Section Conservation.
Context `{!AccumulateLaws K V D} `{!MarshalLaws K} `{!MarshalLaws V}.

Lemma oadd_comm a b : oadd a b = oadd b a.
Proof. destruct a, b; cbn; try done. f_equal. apply accumulate_comm. Qed.
Lemma oadd_assoc a b c : oadd a (oadd b c) = oadd (oadd a b) c.
Proof. destruct a, b, c; cbn; try done. f_equal. apply accumulate_assoc. Qed.
Lemma oadd_None_r a : oadd a None = a.
Proof. by destruct a. Qed.
Lemma oadd_swap a b c : oadd a (oadd b c) = oadd b (oadd a c).
Proof. by rewrite oadd_assoc, (oadd_comm a b), <- oadd_assoc. Qed.

Lemma osum_app l1 l2 : osum (l1 ++ l2) = oadd (osum l1) (osum l2).
Proof. induction l1; simpl; [done|]. by rewrite IHl1, oadd_assoc. Qed.
Lemma inflight_app l1 l2 k : inflight (l1 ++ l2) k = oadd (inflight l1 k) (inflight l2 k).
Proof. unfold inflight. by rewrite fmap_app, osum_app. Qed.
Lemma carried_cons r l k :
  carried (r :: l) k = oadd (if decide (r.1 = k) then Some r.2 else None) (carried l k).
Proof. done. Qed.

(** Replacing one summand. *)
Lemma osum_insert l i x y :
  l !! i = Some x -> exists rest, osum l = oadd x rest /\ osum (<[i := y]> l) = oadd y rest.
Proof.
  intros Hx. exists (oadd (osum (take i l)) (osum (drop (S i) l))).
  pose proof (lookup_lt_Some _ _ _ Hx) as Hlt.
  rewrite (insert_take_drop l i y) by done. rewrite <- (take_drop_middle l i x Hx) at 1.
  rewrite !osum_app. cbn [osum foldr]. fold (osum (drop (S i) l)).
  split; apply oadd_swap.
Qed.

Lemma carried_absent l k : k ∉ l.*1 -> carried l k = None.
Proof.
  induction l as [|[k' v] l IH]; intros Hk; [done|]. rewrite carried_cons. cbn in *.
  rewrite decide_False by (intros ->; apply Hk; left). apply IH. intros Hin. apply Hk. by right.
Qed.

(** A list with distinct keys carries the values of the map it represents. *)
Lemma carried_map l k : NoDup l.*1 -> carried l k = (list_to_map l : gmap K V) !! k.
Proof.
  induction l as [|[k' v] l IH]; intros Hnd; [done|]. rewrite carried_cons. cbn in *.
  apply NoDup_cons in Hnd as [Hni Hnd]. case_decide as Hk.
  - subst. rewrite carried_absent by done. cbn. by rewrite lookup_insert_eq.
  - cbn. rewrite lookup_insert_ne by done. by apply IH.
Qed.

Lemma args_of_rows d l :
  kv_data d = marshal_row <$> l -> Forall row_representable l -> args_of d = l.
Proof.
  intros E Hl. unfold args_of. rewrite E. clear E. induction Hl as [|[k v] l [Hk Hv] Hl IH]; [done|].
  cbn [fmap list_fmap omap list_omap marshal_row arg_key arg_value fst snd].
  cbn in Hk, Hv. rewrite !unmarshal_marshal by done. f_equal. apply IH.
Qed.
(** ** Well-formed tables of worker [w]

    [owners] gives the owner of each shard.  A local shard is a state table, a
    remote one a delta table whose rows can be marshalled; the keys of both
    belong to the shard. *)
Definition compact (d : DeltaTable.t K V) : Prop :=
  2 * DeltaTable.size_ d <= 2 + 5 * DeltaTable.entries_ d.
Definition delta_ok (n i pending : Z) (d : DeltaTable.t K V) : Prop :=
  DeltaTable.wf d /\ compact d /\ DeltaTable.entries_ d <= pending /\
  (forall k v, DeltaTable.contents d !! k = Some v ->
     shard_of k n = i /\ representable k /\ representable v).
(** The rows of a state table belong to its shard. *)
Definition homed (n i : nat) (s : StateTable.t K V D) : Prop :=
  forall k, is_Some (StateTable.contents s !! k) -> shard_of k (Z.of_nat n) = Z.of_nat i.
Lemma homed_insert n i s s' k c :
  homed n i s -> shard_of k (Z.of_nat n) = Z.of_nat i ->
  StateTable.contents s' = <[k := c]> (StateTable.contents s) -> homed n i s'.
Proof.
  intros Hh Hk E k' Hs. rewrite E in Hs. apply lookup_insert_is_Some' in Hs as [<-|Hs]; auto.
Qed.
Definition part_ok (owners : list Z) (w pending : Z) (i : nat) (p : LocalTable) : Prop :=
  match p with
  | State s => owners !! i = Some w /\ StateTable.wf s /\ homed (length owners) i s
  | Delta d => owners !! i <> Some w /\ delta_ok (Z.of_nat (length owners)) (Z.of_nat i) pending d
  end.
Record wf (owners : list Z) (w : Z) tb : Prop := {
  wf_helper : exists e, helper tb = Some {| helper_id := w; helper_epoch := e |};
  wf_shards : num_shards tb = Z.of_nat (length owners);
  wf_bound : Z.of_nat (length owners) < 2 ^ 31;
  wf_owners : sinfo_owner <$> partinfo_ tb = owners;
  wf_length : length (partitions_ tb) = length owners;
  wf_part : forall i p, partitions_ tb !! i = Some p -> part_ok owners w (pending_writes_ tb) i p
}.

(** A message is well formed when its rows belong to the shard it names and it
    goes to the owner of that shard ([dst] is an MPI rank: worker + 1). *)
Definition message_ok (owners : list Z) (m : message) : Prop :=
  match m with
  | PutRequest dst d =>
      exists i l, shard d = Z.of_nat i /\ owners !! i = Some (dst - 1) /\
        kv_data d = marshal_row <$> l /\ Forall row_representable l /\
        Forall (fun r => shard_of r.1 (Z.of_nat (length owners)) = Z.of_nat i) l
  | _ => True
  end.

Section Wf.
Context {owners : list Z} {w : Z}.

Lemma wf_partinfo tb i o :
  wf owners w tb -> owners !! i = Some o ->
  exists info, vec_at (partinfo_ tb) (Z.of_nat i) = Ok info /\ sinfo_owner info = o.
Proof.
  intros Hwf Ho. rewrite <- (wf_owners _ _ _ Hwf), list_lookup_fmap in Ho.
  apply fmap_Some in Ho as (info & Hi & ->). exists info. split; [by apply vec_at_Some|done].
Qed.

Lemma wf_owner tb i o :
  wf owners w tb -> owners !! i = Some o -> owner tb (Z.of_nat i) = Ok o.
Proof.
  intros Hwf Ho. unfold owner, get_partition_info.
  destruct (wf_partinfo tb i o Hwf Ho) as (info & E & <-). by rewrite E.
Qed.

Lemma wf_local tb i o :
  wf owners w tb -> owners !! i = Some o -> is_local_shard tb (Z.of_nat i) = Ok (o =? w).
Proof.
  intros Hwf Ho. unfold is_local_shard. destruct (wf_helper _ _ _ Hwf) as [e ->].
  by rewrite (wf_owner tb i o).
Qed.

Lemma wf_lookup tb i o :
  wf owners w tb -> owners !! i = Some o ->
  exists p, partitions_ tb !! i = Some p /\ vec_at (partitions_ tb) (Z.of_nat i) = Ok p /\
    part_ok owners w (pending_writes_ tb) i p.
Proof.
  intros Hwf Ho. apply lookup_lt_Some in Ho. rewrite <- (wf_length _ _ _ Hwf) in Ho.
  apply lookup_lt_is_Some_2 in Ho as [p Hp]. exists p. split; [done|].
  split; [by apply vec_at_Some|]. by apply (wf_part _ _ _ Hwf).
Qed.

(** Storing a partition that is fit for its place. *)
Lemma set_partition_spec tb i p :
  wf owners w tb -> (i < length owners)%nat -> part_ok owners w (pending_writes_ tb) i p ->
  set_partition tb (Z.of_nat i) p = Ok (set_partitions tb (<[i := p]> (partitions_ tb))) /\
  wf owners w (set_partitions tb (<[i := p]> (partitions_ tb))).
Proof.
  intros Hwf Hi Hp. unfold set_partition. rewrite <- (wf_length _ _ _ Hwf) in Hi.
  rewrite vec_set_lt by done. split; [done|]. destruct Hwf as [? ? ? ? Hl Hpart].
  split; try done; cbn; [by rewrite length_insert|].
  intros j q Hq. apply list_lookup_insert_Some in Hq as [(<- & <- & _)|[Hne Hq]]; [done|by apply Hpart].
Qed.

Lemma held_set_partition tb i p k :
  (i < length (partitions_ tb))%nat ->
  held (set_partitions tb (<[i := p]> (partitions_ tb))) k =
  if decide (Z.to_nat (get_shard tb k) = i) then
    match p with
    | Delta d => DeltaTable.contents d !! k
    | State s => StateTable.v1 <$> StateTable.contents s !! k
    end
  else held tb k.
Proof.
  intros Hi. unfold held. change (get_shard (set_partitions _ _) k) with (get_shard tb k).
  cbn [partitions_ set_partitions]. case_decide as Hd.
  - subst i. by rewrite list_lookup_insert_eq.
  - by rewrite list_lookup_insert_ne.
Qed.

Lemma row_set_partition tb i p k :
  (i < length (partitions_ tb))%nat ->
  row (set_partitions tb (<[i := p]> (partitions_ tb))) k =
  if decide (Z.to_nat (get_shard tb k) = i) then
    match p with Delta _ => None | State s => StateTable.contents s !! k end
  else row tb k.
Proof.
  intros Hi. unfold row. change (get_shard (set_partitions _ _) k) with (get_shard tb k).
  cbn [partitions_ set_partitions]. case_decide as Hd.
  - subst i. rewrite list_lookup_insert_eq by done. by destruct p.
  - by rewrite list_lookup_insert_ne.
Qed.

(** The termination signal changes no row and nothing that is buffered. *)
Lemma terminate_shard_spec tb i tb' :
  wf owners w tb -> terminate_shard tb i = Ok tb' ->
  wf owners w tb' /\ pending_writes_ tb' = pending_writes_ tb /\
  forall k, held tb' k = held tb k /\ row tb' k = row tb k.
Proof.
  intros Hwf E. unfold terminate_shard in E. apply bind_Ok in E as (loc & _ & E).
  destruct loc; [|by injection E as <-]. apply bind_Ok in E as (p & Hp & E).
  destruct p as [d|s]; [by injection E as <-|].
  assert (exists j : nat, i = Z.of_nat j /\ partitions_ tb !! j = Some (State s)) as (j & -> & Hj).
  { unfold vec_at in Hp. case_match eqn:Hi; [done|]. apply deref_Ok in Hp. exists (Z.to_nat i). split; [lia|done]. }
  pose proof (lookup_lt_Some _ _ _ Hj) as Hlt. pose proof (wf_part _ _ _ Hwf _ _ Hj) as (Ho & Hs & Hh).
  destruct (set_partition_spec tb j (State (StateTable.terminate s)) Hwf) as [E' Hwf'].
  { by rewrite <- (wf_length _ _ _ Hwf). }
  { split_and!; [done| |done]. by destruct Hs. }
  rewrite E' in E. injection E as <-. split_and!; [done|done|]. intros k.
  rewrite held_set_partition, row_set_partition by done. unfold held, row.
  case_decide as Hd; [|done]. by rewrite Hd, Hj.
Qed.

(** Changing a delta table changes no row. *)
Lemma row_set_delta tb i d d' k :
  partitions_ tb !! i = Some (Delta d) ->
  row (set_partitions tb (<[i := Delta d']> (partitions_ tb))) k = row tb k.
Proof.
  intros Hp. rewrite row_set_partition by (by eapply lookup_lt_Some).
  case_decide as Hk; [|done]. unfold row. by rewrite Hk, Hp.
Qed.

(** Storing a state table in which the row of [k] was rewritten. *)
Lemma store_row tb i k s s' c' :
  wf owners w tb -> get_shard tb k = Z.of_nat i -> partitions_ tb !! i = Some (State s) ->
  StateTable.wf s' -> StateTable.contents s' = <[k := c']> (StateTable.contents s) ->
  let tb' := set_partitions tb (<[i := State s']> (partitions_ tb)) in
  set_partition tb (Z.of_nat i) (State s') = Ok tb' /\ wf owners w tb' /\
  partitions_ tb' !! i = Some (State s') /\
  (forall k', row tb' k' = if decide (k = k') then Some c' else row tb k') /\
  (forall k', held tb' k' = if decide (k = k') then Some (StateTable.v1 c') else held tb k').
Proof.
  intros Hwf Hk Hp Hs' Hc'. cbv zeta. pose proof (wf_part _ _ _ Hwf _ _ Hp) as (Ho & _ & Hh).
  pose proof (lookup_lt_Some _ _ _ Hp) as Hi.
  destruct (set_partition_spec tb i (State s') Hwf) as [E Hwf']; [by eapply lookup_lt_Some| |].
  { split_and!; [done..|]. unfold get_shard in Hk. rewrite (wf_shards _ _ _ Hwf) in Hk.
    by eapply homed_insert. }
  split_and!; [done|done|by apply list_lookup_insert_eq|..]; intros k';
    [rewrite row_set_partition by done|rewrite held_set_partition by done]; rewrite Hc';
    (destruct (decide (k = k')) as [<-|Hne];
     [rewrite decide_True by lia; by rewrite lookup_insert_eq|rewrite lookup_insert_ne by done]);
    (destruct (decide (Z.to_nat (get_shard tb k') = i)) as [Hi'|]; [|done]);
    unfold row, held; by rewrite Hi', Hp.
Qed.

(** The shard of a key, when it is in range. *)
Lemma shard_index tb k :
  wf owners w tb -> 0 <= shard_of k (Z.of_nat (length owners)) < Z.of_nat (length owners) ->
  exists i o, get_shard tb k = Z.of_nat i /\ owners !! i = Some o /\
    shard_of k (Z.of_nat (length owners)) = Z.of_nat i.
Proof.
  intros Hwf Hr. unfold get_shard. rewrite (wf_shards _ _ _ Hwf).
  destruct (lookup_lt_is_Some_2 owners (Z.to_nat (shard_of k (Z.of_nat (length owners))))) as [o Ho]; [lia|].
  eexists _, o. split_and!; [|done|]; lia.
Qed.

Lemma set_pending_wf tb n :
  wf owners w tb ->
  (forall i d, partitions_ tb !! i = Some (Delta d) -> DeltaTable.entries_ d <= n) ->
  wf owners w (set_pending tb n).
Proof.
  intros [? ? ? ? ? Hp] Hd. split; try done. cbn. intros i p Hi. specialize (Hp i p Hi).
  destruct p as [d|s]; [|done]. destruct Hp as [Ho (Hw & Hc & He & Hk)]. split; [done|].
  split_and!; try done. by apply (Hd i).
Qed.

(** ** [SendUpdates] *)

Lemma empty_delta_ok n i pending (d : DeltaTable.t K V) :
  0 <= pending -> DeltaTable.wf d -> DeltaTable.contents d = ∅ -> DeltaTable.size_ d = 1 ->
  delta_ok n i pending d /\ DeltaTable.entries_ d = 0.
Proof.
  intros Hp Hw Hc Hs. pose proof (DeltaTable.wf_entries_size _ Hw) as He.
  rewrite Hc, map_size_empty in He. split; [|done]. split_and!; [done| |lia|].
  - unfold compact. lia.
  - intros k v. by rewrite Hc.
Qed.

Lemma delta_rows_ok n i pending (d : DeltaTable.t K V) :
  delta_ok n i pending d ->
  Forall row_representable (rows (DeltaTable.buckets_ d)) /\
  Forall (fun r => shard_of r.1 n = i) (rows (DeltaTable.buckets_ d)).
Proof.
  intros (Hw & _ & _ & Hk). split; apply Forall_forall; intros [k v] Hin;
    (destruct (Hk k v) as (? & ? & ?);
     [apply elem_of_list_to_map; [apply rows_keys_NoDup, (DeltaTable.wf_inv _ Hw)|done]|done]).
Qed.

Lemma carried_rows (d : DeltaTable.t K V) k :
  DeltaTable.wf d -> carried (rows (DeltaTable.buckets_ d)) k = DeltaTable.contents d !! k.
Proof. intros Hw. apply carried_map, rows_keys_NoDup, (DeltaTable.wf_inv _ Hw). Qed.

Lemma empty_zero (d : DeltaTable.t K V) : DeltaTable.entries_ d = 0 -> empty (Delta d) = true.
Proof. intros E. unfold empty. cbn. unfold DeltaTable.size. lia. Qed.

(** The loop of one delta table: its rows are sent to the owner and it is left
    empty, so there is one iteration. *)
Lemma send_loop_spec tb i o d :
  wf owners w tb -> 0 <= pending_writes_ tb -> owners !! i = Some o ->
  partitions_ tb !! i = Some (Delta d) ->
  exists d1 n m, send_loop 1 tb (Z.of_nat i) =
      Ok (set_partitions (set_sent tb n) (<[i := Delta d1]> (partitions_ tb)), [PutRequest (o + 1) m]) /\
    part_ok owners w (pending_writes_ tb) i (Delta d1) /\
    DeltaTable.contents d1 = ∅ /\ DeltaTable.entries_ d1 = 0 /\ DeltaTable.size_ d1 = 1 /\
    message_ok owners (PutRequest (o + 1) m) /\ args_of m = rows (DeltaTable.buckets_ d).
Proof.
  intros Hwf Hpend Ho Hp. pose proof (wf_part _ _ _ Hwf _ _ Hp) as [Hne Hd].
  pose proof (lookup_lt_Some _ _ _ Ho) as Hi. pose proof (wf_bound _ _ _ Hwf) as Hn.
  destruct (delta_rows_ok _ _ _ _ Hd) as [Hrep Hsh]. pose proof Hd as (Hw & _).
  cbn [send_loop]. rewrite (vec_at_Some _ _ _ Hp). run.
  destruct (wf_helper _ _ _ Hwf) as [e He]. rewrite He. run. cbn [serializeToNet].
  rewrite DeltaTable.serializeToNet_spec by done. run.
  destruct (DeltaTable.reset_spec depth d) as (d1 & E1 & Hw1 & Hc1 & Hs1). cbn [reset]. rewrite E1. run.
  destruct (empty_delta_ok (Z.of_nat (length owners)) (Z.of_nat i) (pending_writes_ tb) d1)
    as [Hok1 He1]; [done..|].
  rewrite (wf_owner tb i o Hwf Ho), (empty_zero d1 He1). run.
  unfold set_partition. rewrite vec_set_lt by (cbn; by rewrite (wf_length _ _ _ Hwf)). run.
  eexists d1, _, _. split; [done|]. split; [by split|]. split_and!; try done.
  - exists i, (rows (DeltaTable.buckets_ d)). cbn [shard kv_data kc_t app].
    rewrite to_uint32_small by lia. replace (o + 1 - 1) with o by lia. done.
  - by apply args_of_rows.
Qed.

(** What a flushed delta table held is what its rows carried. *)
Lemma held_emptied tb i d d1 d2 n k :
  wf owners w tb -> partitions_ tb !! i = Some (Delta d) ->
  delta_ok (Z.of_nat (length owners)) (Z.of_nat i) (pending_writes_ tb) d -> DeltaTable.contents d2 = ∅ ->
  let tb1 := set_partitions (set_sent tb n) (<[i := Delta d1]> (partitions_ tb)) in
  oadd (held (set_partitions tb1 (<[i := Delta d2]> (partitions_ tb1))) k) (DeltaTable.contents d !! k) = held tb k.
Proof.
  intros Hwf Hp Hd Hc2 tb1. pose proof (lookup_lt_Some _ _ _ Hp) as Hi.
  rewrite held_set_partition by (cbn; by rewrite length_insert). rewrite Hc2, lookup_empty.
  unfold tb1. rewrite (held_set_partition (set_sent tb n)) by done.
  change (get_shard (set_partitions (set_sent tb n) (<[i := Delta d1]> (partitions_ tb))) k) with (get_shard tb k).
  change (get_shard (set_sent tb n) k) with (get_shard tb k). change (held (set_sent tb n) k) with (held tb k).
  destruct (decide (Z.to_nat (get_shard tb k) = i)) as [Hk|Hk].
  - unfold held. by rewrite Hk, Hp.
  - destruct (DeltaTable.contents d !! k) eqn:Ek; [|apply oadd_None_r].
    exfalso. apply Hk. destruct Hd as (_ & _ & _ & Hkeys).
    destruct (Hkeys _ _ Ek) as [Hsh _]. unfold get_shard. rewrite (wf_shards _ _ _ Hwf). lia.
Qed.

(** One shard: nothing is sent for a local or empty one; otherwise its rows go
    to the owner and the delta table is left empty. *)
Lemma send_shard_spec tb ms i :
  wf owners w tb -> 0 <= pending_writes_ tb -> (i < length owners)%nat ->
  exists tb' ms', send_shard (tb, ms) (Z.of_nat i) = Ok (tb', ms ++ ms') /\
    wf owners w tb' /\ pending_writes_ tb' = pending_writes_ tb /\
    Forall (message_ok owners) ms' /\
    (forall k, oadd (held tb' k) (inflight ms' k) = held tb k) /\
    (forall j, j <> i -> partitions_ tb' !! j = partitions_ tb !! j) /\
    (forall d, partitions_ tb' !! i = Some (Delta d) -> DeltaTable.entries_ d = 0) /\
    (forall k, row tb' k = row tb k).
Proof.
  intros Hwf Hpend Hi. destruct (lookup_lt_is_Some_2 owners i Hi) as [o Ho].
  destruct (wf_partinfo tb i o Hwf Ho) as (info & Einfo & Hio).
  destruct (wf_lookup tb i o Hwf Ho) as (p & Hp & Ep & Hok).
  unfold send_shard. rewrite (wf_local tb i o Hwf Ho), Ep. run.
  unfold get_partition_info. rewrite Einfo. run.
  destruct p as [d|s]; destruct Hok as [Hne Hd].
  - destruct (Z.eqb_spec o w) as [->|_]; [done|]. cbn [negb andb].
    destruct (dirty info || negb (empty (Delta d))) eqn:Hsend.
    + destruct (send_loop_spec tb i o d Hwf Hpend Ho Hp)
        as (d1 & n & m & -> & Hok1 & Hc1 & He1 & Hs1 & Hm & Ha). run.
      assert (wf owners w (set_sent tb n)) as Hwf1 by (by destruct Hwf; split).
      cbn [partitions_ set_partitions]. erewrite vec_at_Some; [|apply list_lookup_insert_eq;
        by rewrite (wf_length _ _ _ Hwf)]. run. cbn [clear].
      destruct (DeltaTable.clear_wf d1) as (d2 & E2 & Hw2 & Hc2 & Hs2); [apply Hok1|]. rewrite E2. run.
      destruct (empty_delta_ok (Z.of_nat (length owners)) (Z.of_nat i) (pending_writes_ tb) d2)
        as [Hok2 He2]; [done..|by rewrite Hs2|].
      destruct (set_partition_spec (set_sent tb n) i (Delta d1) Hwf1 Hi Hok1) as [_ Hwf2].
      destruct (set_partition_spec _ i (Delta d2) Hwf2 Hi) as [E3 Hwf3]; [by split|].
      cbn [partitions_ set_sent] in E3, Hwf3. rewrite E3. run.
      eexists _, _. split; [done|]. split; [done|]. split; [done|].
      split; [by constructor|]. cbn [partitions_ set_partitions].
      split_and!.
      * intros k. unfold inflight. cbn [fmap list_fmap osum foldr message_pairs].
        rewrite oadd_None_r, Ha, (carried_rows d k) by apply Hd. by apply (held_emptied tb i d d1 d2).
      * intros j Hj. by rewrite !list_lookup_insert_ne.
      * intros d'. rewrite list_lookup_insert_eq by (rewrite length_insert; by rewrite (wf_length _ _ _ Hwf)).
        by intros [= <-].
      * intros k. etransitivity; [|exact (row_set_delta (set_sent tb n) i d d1 k Hp)].
        apply (row_set_delta (set_partitions (set_sent tb n) (<[i:=Delta d1]> (partitions_ tb))) i d1 d2 k).
        apply list_lookup_insert_eq. by rewrite (wf_length _ _ _ Hwf).
    + eexists tb, []. rewrite app_nil_r. split_and!; try done; [intros k; apply oadd_None_r|].
      intros d' Hd'. rewrite Hp in Hd'. injection Hd' as <-.
      apply orb_false_elim in Hsend as [_ He]. unfold empty, size, DeltaTable.size in He. lia.
  - rewrite Ho in Hne. injection Hne as ->. rewrite Z.eqb_refl. cbn [negb andb].
    eexists tb, []. rewrite app_nil_r. split_and!; try done; [intros k; apply oadd_None_r|].
    intros d'. by rewrite Hp.
Qed.
(** [SendUpdates] moves every buffered update into a message. *)
Lemma SendUpdates_spec tb :
  wf owners w tb -> 0 <= pending_writes_ tb ->
  exists tb' ms, SendUpdates tb = Ok (tb', ms) /\ wf owners w tb' /\ pending_writes_ tb' = 0 /\
    Forall (message_ok owners) ms /\
    (forall k, oadd (held tb' k) (inflight ms k) = held tb k) /\
    (forall i d, partitions_ tb' !! i = Some (Delta d) -> DeltaTable.entries_ d = 0) /\
    (forall k, row tb' k = row tb k).
Proof.
  intros Hwf Hpend. unfold SendUpdates. rewrite (wf_length _ _ _ Hwf).
  destruct (for_each_inv send_shard (fun pre '(tb', ms) =>
      wf owners w tb' /\ pending_writes_ tb' = pending_writes_ tb /\ Forall (message_ok owners) ms /\
      (forall k, oadd (held tb' k) (inflight ms k) = held tb k) /\
      (forall j d, Z.of_nat j ∈ pre -> partitions_ tb' !! j = Some (Delta d) -> DeltaTable.entries_ d = 0) /\
      (forall k, row tb' k = row tb k))
    (seqZ 0 (Z.of_nat (length owners))) (tb, [])) as ([tb' ms] & E & Hwf' & Hp' & Hms & Hh & He & Hrow).
  - split_and!; try done; [intros k; apply oadd_None_r|]. intros j d Hj. by apply not_elem_of_nil in Hj.
  - intros pre z todo [tb1 ms1] Hs (Hwf1 & Hp1 & Hms1 & Hh1 & He1 & Hr1).
    assert (z ∈ seqZ 0 (Z.of_nat (length owners))) as Hz by (rewrite Hs; apply elem_of_app; right; left).
    apply elem_of_seqZ in Hz. destruct (Z_of_nat_complete z) as [i ->]; [lia|].
    destruct (send_shard_spec tb1 ms1 i Hwf1) as (tb2 & ms2 & E2 & Hwf2 & Hp2 & Hms2 & Hh2 & Hne2 & He2 & Hr2); [lia|lia|].
    eexists (tb2, _). split; [done|]. split_and!; [done|congruence|by apply Forall_app| | |].
    + intros k. rewrite inflight_app, <- Hh1, <- Hh2. by rewrite (oadd_comm (inflight ms1 k)), oadd_assoc.
    + intros j d Hj Hd. destruct (decide (j = i)) as [->|Hji]; [by apply He2|].
      rewrite Hne2 in Hd by done. apply (He1 j); [|done].
      apply elem_of_app in Hj as [Hj|Hj]; [done|]. apply list_elem_of_singleton in Hj. lia.
    + intros k. by rewrite Hr2, Hr1.
  - rewrite E. run. assert (forall i d, partitions_ tb' !! i = Some (Delta d) -> DeltaTable.entries_ d = 0) as He0.
    { intros i d Hd. apply (He i); [|done]. apply elem_of_seqZ.
      apply lookup_lt_Some in Hd. rewrite (wf_length _ _ _ Hwf') in Hd. lia. }
    eexists _, ms. split; [done|]. split_and!; try done.
    apply set_pending_wf; [done|]. intros i d Hd. by rewrite (He0 i d Hd).
Qed.

(** ** [accumulateF1] *)

(** What one update adds for the key [k']. *)
Definition single (k : K) (v : V) (k' : K) : option V := if decide (k = k') then Some v else None.

Lemma oadd_single_merge (m : gmap K V) k v k' :
  DeltaTable.merge (D := D) m k v !! k' = oadd (m !! k') (single k v k').
Proof.
  unfold DeltaTable.merge, single. case_decide as Hk.
  - subst. rewrite lookup_insert_eq. by destruct (m !! k').
  - rewrite lookup_insert_ne by done. by rewrite oadd_None_r.
Qed.

(** Representable values are closed under the kernel's accumulation. *)
Hypothesis representable_accumulate : forall a b : V,
  representable a -> representable b -> representable (accumulate (K := K) (D := D) a b).

Lemma delta_accumulate_ok n i pending (d : DeltaTable.t K V) k v :
  delta_ok n i pending d -> pending < 2 ^ 28 -> shard_of k n = i -> representable k -> representable v ->
  exists d', DeltaTable.accumulate (D := D) depth d k v = Ok d' /\
    delta_ok n i (pending + 1) d' /\ DeltaTable.contents d' = DeltaTable.merge (D := D) (DeltaTable.contents d) k v.
Proof.
  intros (Hw & Hcp & Hle & Hk) Hp Hs Hrk Hrv. unfold compact in Hcp.
  pose proof (DeltaTable.wf_entries_le _ Hw).
  destruct (DeltaTable.accumulate_spec 0 d k v Hw) as (d' & E & Hw' & Hc' & Hg); [lia|].
  assert (DeltaTable.entries_ d <= DeltaTable.entries_ d' <= DeltaTable.entries_ d + 1) as Hent.
  { rewrite (DeltaTable.wf_entries_size _ Hw), (DeltaTable.wf_entries_size _ Hw'), Hc'.
    unfold DeltaTable.merge. rewrite map_size_insert. destruct (DeltaTable.contents d !! k); cbn; lia. }
  exists d'. split; [done|]. split; [|done]. split_and!; [done| |lia|].
  - unfold compact. destruct Hg as [->|[Hl ->]]; [lia|]. unfold DeltaTable.over_loaded in Hl.
    assert (DeltaTable.entries_ d' = DeltaTable.entries_ d + 1 \/ DeltaTable.entries_ d' = DeltaTable.entries_ d) by lia.
    lia.
  - intros k' v'. rewrite Hc', oadd_single_merge. unfold single. case_decide as Hkk.
    + subst k'. destruct (DeltaTable.contents d !! k) as [a|] eqn:Ea; cbn; intros [= <-].
      * destruct (Hk _ _ Ea) as (? & ? & ?). by split_and!; auto.
      * by split_and!.
    + rewrite oadd_None_r. apply Hk.
Qed.

(** An update of a row this worker owns goes to its state table. *)
Lemma accumulate_local tb i k v c s :
  wf owners w tb -> get_shard tb k = Z.of_nat i -> partitions_ tb !! i = Some (State s) ->
  StateTable.contents s !! k = Some c ->
  exists s', accumulateF1 tb k v = Ok (set_partitions tb (<[i := State s']> (partitions_ tb)), []) /\
    wf owners w (set_partitions tb (<[i := State s']> (partitions_ tb))) /\
    StateTable.contents s' = <[k := StateTable.receive v c]> (StateTable.contents s).
Proof.
  intros Hwf Hk Hp Hc. pose proof (wf_part _ _ _ Hwf _ _ Hp) as (Ho & Hs & _).
  unfold accumulateF1. rewrite Hk, (wf_local tb i w Hwf Ho), Z.eqb_refl. run.
  unfold partition. rewrite (vec_at_Some _ _ _ Hp). run.
  pose proof (StateTable.accumulateF1_spec v s k Hs) as E. rewrite Hc in E.
  destruct E as (s' & E & Hs' & Hc' & _). rewrite E. run.
  destruct (store_row tb i k s s' _ Hwf Hk Hp Hs' Hc') as (E2 & Hwf2 & _).
  rewrite E2. run. exists s'. by split_and!.
Qed.
(** The assumption under which delta tables stay far below the size at which
    [put] overflows.  The counter may exceed the flag: [put] of a remote key
    increments it too. *)
Definition buffered_ok tb : Prop := 0 <= pending_writes_ tb < 2 ^ 28 /\ bufmsg < 2 ^ 28.

(** What [accumulateF1] returns, on each branch: a local row takes the update
    at once; a remote one is buffered, and flushed with all the other buffers
    when more than [bufmsg] writes are pending.  Either way exactly the update
    [v] is added to what is held or under way for [k]. *)
Definition accumulated tb (k : K) (v : V) (r : t * list message) : Prop :=
  let '(tb', ms) := r in
  wf owners w tb' /\ buffered_ok tb' /\ Forall (message_ok owners) ms /\
  (forall k', oadd (held tb' k') (inflight ms k') = oadd (held tb k') (single k v k')) /\
  (forall k', row tb' k' = if decide (k = k') then StateTable.receive v <$> row tb k' else row tb k').

Lemma accumulate_local_held tb i k v c s :
  wf owners w tb -> buffered_ok tb -> get_shard tb k = Z.of_nat i ->
  partitions_ tb !! i = Some (State s) -> StateTable.contents s !! k = Some c ->
  exists r, accumulateF1 tb k v = Ok r /\ accumulated tb k v r.
Proof.
  intros Hwf Hb Hk Hp Hc. destruct (accumulate_local tb i k v c s Hwf Hk Hp Hc) as (s' & E & Hwf' & Hc').
  eexists. split; [done|]. split_and!; try done; intros k';
    [rewrite held_set_partition by (by eapply lookup_lt_Some); rewrite oadd_None_r; unfold single
    |rewrite row_set_partition by (by eapply lookup_lt_Some)].
  2:{ destruct (decide (Z.to_nat (get_shard tb k') = i)) as [Hi|Hi].
      - unfold row. rewrite Hi, Hp, Hc'. case_decide as Hkk; [|by rewrite lookup_insert_ne].
        subst. by rewrite lookup_insert_eq, Hc.
      - rewrite decide_False by (intros <-; lia). done. }
  destruct (decide (k = k')) as [<-|Hne].
  - rewrite decide_True by lia. rewrite Hc', lookup_insert_eq. unfold held.
    rewrite Hk, Nat2Z.id, Hp, Hc. done.
  - rewrite oadd_None_r. destruct (decide (Z.to_nat (get_shard tb k') = i)) as [Hi|Hi]; [|done].
    unfold held. rewrite Hi, Hp. by rewrite Hc', lookup_insert_ne.
Qed.

Lemma accumulate_remote tb i k v d :
  wf owners w tb -> buffered_ok tb -> get_shard tb k = Z.of_nat i ->
  partitions_ tb !! i = Some (Delta d) -> representable k -> representable v ->
  exists r, accumulateF1 tb k v = Ok r /\ accumulated tb k v r.
Proof.
  intros Hwf [Hb Hmax] Hk Hp Hrk Hrv. pose proof (wf_part _ _ _ Hwf _ _ Hp) as [Hne Hd].
  pose proof (lookup_lt_Some _ _ _ Hp) as Hi. rewrite (wf_length _ _ _ Hwf) in Hi.
  destruct (lookup_lt_is_Some_2 owners i Hi) as [o Ho].
  unfold accumulateF1. rewrite Hk, (wf_local tb i o Hwf Ho).
  destruct (Z.eqb_spec o w) as [->|_]; [done|]. run.
  unfold deltaT. rewrite (vec_at_Some _ _ _ Hp). run.
  destruct (delta_accumulate_ok _ _ _ d k v Hd) as (d' & E & Hd' & Hc'); [lia| |done..|].
  { unfold get_shard in Hk. by rewrite (wf_shards _ _ _ Hwf) in Hk. }
  rewrite E. run.
  unfold set_partition. rewrite vec_set_lt by (by eapply lookup_lt_Some). run.
  cbn [pending_writes_ set_pending set_partitions].
  set (tb1 := set_pending (set_partitions tb (<[i:=Delta d']> (partitions_ tb))) (pending_writes_ tb + 1)).
  assert (wf owners w tb1) as Hwf1.
  { destruct Hwf as [? ? ? ? Hl Hpart]. split; try done; cbn; [by rewrite length_insert|].
    intros j q Hq. apply list_lookup_insert_Some in Hq as [(<- & <- & _)|[Hji Hq]]; [by split|].
    specialize (Hpart j q Hq). destruct q as [dq|sq]; [|done].
    destruct Hpart as [? (? & ? & ? & ?)]. split; [done|]. split_and!; try done. lia. }
  assert (forall k', held tb1 k' = oadd (held tb k') (single k v k')) as Hh1.
  { intros k'. change (held tb1 k') with (held (set_partitions tb (<[i:=Delta d']> (partitions_ tb))) k').
    rewrite held_set_partition by (by eapply lookup_lt_Some).
    destruct (decide (Z.to_nat (get_shard tb k') = i)) as [Hi'|Hi'].
    - unfold held. rewrite Hi', Hp, Hc'. apply oadd_single_merge.
    - unfold single. rewrite decide_False by (intros <-; lia). by rewrite oadd_None_r. }
  assert (forall k', row tb1 k' = if decide (k = k') then StateTable.receive v <$> row tb k' else row tb k') as Hr1.
  { intros k'. change (row tb1 k') with (row (set_partitions tb (<[i:=Delta d']> (partitions_ tb))) k').
    rewrite (row_set_delta tb i d) by done. case_decide as Hkk; [|done]. subst k'. unfold row.
    by rewrite Hk, Nat2Z.id, Hp. }
  destruct (Z.ltb_spec bufmsg (pending_writes_ tb + 1)).
  - destruct (SendUpdates_spec tb1 Hwf1) as (tb2 & ms & E2 & Hwf2 & Hp2 & Hms & Hh2 & _ & Hr2); [cbn; lia|].
    rewrite E2. eexists. split; [done|]. split_and!; try done; [split; lia| |].
    + intros k'. by rewrite Hh2, Hh1.
    + intros k'. by rewrite Hr2.
  - eexists. split; [done|]. split_and!; try done; [split; cbn; lia|].
    intros k'. rewrite oadd_None_r. apply Hh1.
Qed.

(** The result of [accumulateF1] whenever it returns, and when it does. *)
Lemma accumulate_sound tb k v r :
  wf owners w tb -> buffered_ok tb -> representable k -> representable v ->
  accumulateF1 tb k v = Ok r -> accumulated tb k v r.
Proof.
  intros Hwf Hb Hrk Hrv E.
  assert (0 <= shard_of k (Z.of_nat (length owners)) < Z.of_nat (length owners)) as Hr.
  { pose proof E as E'. unfold accumulateF1, is_local_shard, get_shard in E'.
    destruct (wf_helper _ _ _ Hwf) as [e He]. rewrite He in E'. unfold owner, get_partition_info in E'.
    rewrite (wf_shards _ _ _ Hwf) in E'.
    repeat apply bind_Ok in E' as (? & E' & _). unfold vec_at in E'.
    destruct (Z.ltb_spec (shard_of k (Z.of_nat (length owners))) 0) as [|Hpos]; [done|].
    apply deref_Ok, lookup_lt_Some in E'.
    assert (length (partinfo_ tb) = length owners) as El
      by (rewrite <- (wf_owners _ _ _ Hwf); by rewrite length_fmap). lia. }
  destruct (shard_index tb k Hwf Hr) as (i & o & Hk & Ho & _).
  destruct (wf_lookup tb i o Hwf Ho) as (p & Hp & Ep & Hok). destruct p as [d|s].
  - destruct (accumulate_remote tb i k v d) as (r' & E' & Hr'); try done. congruence.
  - destruct (StateTable.contents s !! k) as [c|] eqn:Hc.
    + destruct (accumulate_local_held tb i k v c s) as (r' & E' & Hr'); try done. congruence.
    + exfalso. destruct Hok as (Ho' & Hs & _). unfold accumulateF1 in E.
      rewrite Hk, (wf_local tb i w Hwf Ho'), Z.eqb_refl in E. unfold partition in E.
      cbn [mbind outcome_bind] in E. rewrite Ep in E. cbn [mbind outcome_bind] in E.
      pose proof (StateTable.accumulateF1_spec v s k Hs) as E'. rewrite Hc in E'. by rewrite E' in E.
Qed.

(** The updates that never stop the process: the key has a shard and, when this
    worker owns it, a row. *)
Definition addressable tb (k : K) : Prop :=
  0 <= shard_of k (Z.of_nat (length owners)) < Z.of_nat (length owners) /\
  (owners !! Z.to_nat (shard_of k (Z.of_nat (length owners))) = Some w -> is_Some (row tb k)).

Lemma accumulate_total tb k v :
  wf owners w tb -> buffered_ok tb -> representable k -> representable v -> addressable tb k ->
  exists r, accumulateF1 tb k v = Ok r /\ accumulated tb k v r.
Proof.
  intros Hwf Hb Hrk Hrv [Hr Hrow].
  destruct (shard_index tb k Hwf Hr) as (i & o & Hk & Ho & Hi).
  destruct (wf_lookup tb i o Hwf Ho) as (p & Hp & Ep & Hok). destruct p as [d|s].
  - by apply (accumulate_remote tb i k v d).
  - rewrite Hi, Nat2Z.id in Hrow. destruct Hrow as [c Hc]; [by destruct Hok|].
    unfold row in Hc. rewrite Hk, Nat2Z.id, Hp in Hc.
    by apply (accumulate_local_held tb i k v c s).
Qed.

Lemma accumulated_addressable tb k v tb' ms k' :
  accumulated tb k v (tb', ms) -> addressable tb k' -> addressable tb' k'.
Proof.
  intros (_ & _ & _ & _ & Hr) [Hs Ha]. split; [done|]. intros Ho. rewrite Hr.
  case_decide; [apply fmap_is_Some|]; by apply Ha.
Qed.

(** A list of updates: all of them are applied, and the values of the rows stay. *)
Lemma apply_pairs_total l tb ms :
  wf owners w tb -> buffered_ok tb -> Forall row_representable l ->
  Forall (fun r => addressable tb r.1) l ->
  exists tb' ms', for_each apply_one l (tb, ms) = Ok (tb', ms') /\
    wf owners w tb' /\
    (forall k, addressable tb k -> addressable tb' k) /\
    (forall k, StateTable.v2 <$> row tb' k = StateTable.v2 <$> row tb k) /\
    (forall k, StateTable.v3 <$> row tb' k = StateTable.v3 <$> row tb k).
Proof.
  intros Hwf Hb Hl. revert tb ms Hwf Hb. induction Hl as [|[k v] l [Hrk Hrv] Hl IH]; intros tb ms Hwf Hb Ha.
  { by exists tb, ms. }
  apply Forall_cons in Ha as [Hk Ha]. cbn [for_each]. unfold apply_one at 2. cbn [fst snd] in *.
  destruct (accumulate_total tb k v Hwf Hb Hrk Hrv Hk) as ([tb1 ms1] & E & Hacc). rewrite E. run.
  pose proof Hacc as (Hwf1 & Hb1 & _ & _ & Hr1).
  destruct (IH tb1 (ms ++ ms1) Hwf1 Hb1) as (tb' & ms' & E' & Hwf' & Ha' & H2 & H3).
  { eapply Forall_impl; [done|]. intros r. by apply (accumulated_addressable tb k v _ ms1). }
  exists tb', ms'. split_and!; try done.
  - intros k' Hk'. by apply Ha', (accumulated_addressable tb k v _ ms1).
  - intros k'. rewrite H2, Hr1. case_decide; [|done]. by destruct (row tb k').
  - intros k'. rewrite H3, Hr1. case_decide; [|done]. by destruct (row tb k').
Qed.

(** ** [ApplyUpdates] *)
Lemma apply_pairs_sound l tb ms r :
  wf owners w tb -> buffered_ok tb -> Forall row_representable l ->
  for_each apply_one l (tb, ms) = Ok r ->
  let '(tb', ms') := r in
  wf owners w tb' /\ buffered_ok tb' /\
  (Forall (message_ok owners) ms -> Forall (message_ok owners) ms') /\
  forall k, oadd (held tb' k) (inflight ms' k) = oadd (oadd (held tb k) (inflight ms k)) (carried l k).
Proof.
  intros Hwf Hb Hl. revert tb ms Hwf Hb. induction Hl as [|[k v] l [Hrk Hrv] Hl IH]; intros tb ms Hwf Hb E.
  { cbn in E. injection E as <-. split_and!; try done. intros k. by rewrite oadd_None_r. }
  cbn [for_each] in E. apply bind_Ok in E as ([tb1 ms1] & E1 & E).
  unfold apply_one in E1. apply bind_Ok in E1 as ([tb2 ms2] & E2 & E1). injection E1 as <- <-.
  destruct (accumulate_sound tb k v _ Hwf Hb Hrk Hrv E2) as (Hwf2 & Hb2 & Hms2 & Hh2 & _).
  specialize (IH _ _ Hwf2 Hb2 E). destruct r as [tb' ms']. destruct IH as (? & ? & Hm' & Hh').
  split_and!; try done. { intros Hms. apply Hm'. by apply Forall_app. }
  intros k'. rewrite Hh', inflight_app, carried_cons. cbn [fst snd]. fold (single k v k').
  rewrite (oadd_comm (inflight ms k')), oadd_assoc, Hh2.
  rewrite <- !oadd_assoc. f_equal. by rewrite oadd_swap.
Qed.

(** Updates of deltas, termination checks and flushes leave the values of the
    rows alone, and keep the rows within the machine types. *)
Definition rows_ok tb : Prop := forall k c, row tb k = Some c ->
  representable (StateTable.v1 c) /\ representable (StateTable.v2 c).
Definition keeps_values tb tb' : Prop :=
  (forall k, StateTable.v2 <$> row tb' k = StateTable.v2 <$> row tb k) /\ (rows_ok tb -> rows_ok tb').

Lemma keeps_values_same tb tb' : (forall k, row tb' k = row tb k) -> keeps_values tb tb'.
Proof.
  intros Hr. split; [intros k; by rewrite Hr|]. intros Ht k c Hk. rewrite Hr in Hk. by apply (Ht k).
Qed.
Lemma keeps_values_trans tb1 tb2 tb3 : keeps_values tb1 tb2 -> keeps_values tb2 tb3 -> keeps_values tb1 tb3.
Proof. intros [H1 T1] [H2 T2]. split; [intros k; by rewrite H2, H1|auto]. Qed.

Lemma accumulated_values tb k v r : representable v -> accumulated tb k v r -> keeps_values tb r.1.
Proof.
  destruct r as [tb' ms]. intros Hv (_ & _ & _ & _ & Hr). cbn [fst]. split.
  - intros k'. rewrite Hr. case_decide; [|done]. by destruct (row tb k').
  - intros Ht k' c Hc. rewrite Hr in Hc. case_decide; [|by apply (Ht k')].
    apply fmap_Some in Hc as (c0 & Hc0 & ->). destruct (Ht k' c0 Hc0). cbn. auto.
Qed.
Lemma apply_pairs_values l tb ms r :
  wf owners w tb -> buffered_ok tb -> Forall row_representable l ->
  for_each apply_one l (tb, ms) = Ok r -> keeps_values tb r.1.
Proof.
  intros Hwf Hb Hl. revert tb ms Hwf Hb. induction Hl as [|[k v] l [Hrk Hrv] Hl IH]; intros tb ms Hwf Hb E.
  { cbn in E. injection E as <-. by apply keeps_values_same. }
  cbn [for_each] in E. apply bind_Ok in E as ([tb1 ms1] & E1 & E).
  unfold apply_one in E1. apply bind_Ok in E1 as ([tb2 ms2] & E2 & E1). injection E1 as <- <-.
  pose proof (accumulate_sound tb k v _ Hwf Hb Hrk Hrv E2) as Ha. pose proof Ha as (Hwf2 & Hb2 & _).
  eapply keeps_values_trans; [by apply (accumulated_values _ _ _ _ Hrv Ha)|by apply (IH _ _ Hwf2 Hb2 E)].
Qed.

(** A termination check changes no row. *)
Lemma snapshot_ok pending i p r :
  part_ok owners w pending i p -> snapshot p = Ok r ->
  part_ok owners w pending i r.1.1 /\
  match p, r.1.1 with
  | State s, State s' => StateTable.contents s' = StateTable.contents s
  | _, _ => False
  end.
Proof.
  intros Hp E. destruct p as [d|s]; [done|]. cbn [snapshot] in E. destruct Hp as (Ho & Hs & Hh).
  destruct (StateTable.snapshot_spec s Hs) as (s' & E' & Hs' & Hc'). rewrite E' in E.
  injection E as <-. split; [|done]. split_and!; [done..|]. intros k Hk. apply Hh. by rewrite <- Hc'.
Qed.
Lemma termcheck_loop l tb cur upd tb' cur' upd' :
  Forall (fun z => 0 <= z < Z.of_nat (length owners)) l -> wf owners w tb ->
  for_each termcheck_shard l (tb, cur, upd) = Ok (tb', cur', upd') ->
  wf owners w tb' /\ pending_writes_ tb' = pending_writes_ tb /\ (forall k, held tb' k = held tb k) /\
  keeps_values tb tb'.
Proof.
  intros Hl. revert tb cur upd. induction Hl as [|z l Hz Hl IH]; intros tb cur upd Hwf E; cbn [for_each] in E.
  { injection E as -> -> ->. done. }
  apply bind_Ok in E as ([[tb1 c1] u1] & E1 & E). destruct (Z_of_nat_complete z) as [i ->]; [lia|].
  destruct (lookup_lt_is_Some_2 owners i) as [o Ho]; [lia|].
  destruct (wf_lookup tb i o Hwf Ho) as (p & Hp & Ep & Hok).
  unfold termcheck_shard in E1. rewrite (wf_local tb i o Hwf Ho) in E1.
  cbn [mbind outcome_bind] in E1. destruct (o =? w); [|injection E1 as <- _ _; by apply (IH tb c1 u1)].
  rewrite Ep in E1. cbn [mbind outcome_bind] in E1. apply bind_Ok in E1 as ([[p' pu] pf] & Es & E1).
  destruct (snapshot_ok _ _ _ _ Hok Es) as [Hok' Hsame]. cbn [fst] in Hok', Hsame.
  destruct (set_partition_spec tb i p' Hwf) as [E3 Hwf3]; [lia|done|].
  rewrite E3 in E1. cbn [mbind outcome_bind] in E1. injection E1 as <- _ _.
  destruct (IH _ _ _ Hwf3 E) as (? & Hpp & Hh & Hv).
  split_and!; try done.
  - intros k. rewrite Hh, held_set_partition by (by eapply lookup_lt_Some).
    case_decide as Hk; [|done]. unfold held. rewrite Hk, Hp. destruct p, p'; try done. by rewrite Hsame.
  - eapply keeps_values_trans; [|exact Hv]. apply keeps_values_same. intros k.
    rewrite row_set_partition by (by eapply lookup_lt_Some). case_decide as Hk; [|done]. unfold row. rewrite Hk, Hp. destruct p, p'; try done. by rewrite Hsame.
Qed.

Lemma termcheck_sound tb r :
  wf owners w tb -> termcheck tb = Ok r ->
  wf owners w r.1 /\ pending_writes_ r.1 = pending_writes_ tb /\
  Forall (message_ok owners) r.2 /\
  (forall k, held r.1 k = held tb k /\ inflight r.2 k = None) /\ keeps_values tb r.1.
Proof.
  intros Hwf E. unfold termcheck in E. apply bind_Ok in E as ([[tb' cur] upd] & E & Er).
  rewrite (wf_length _ _ _ Hwf) in E.
  apply termcheck_loop in E as (Hwf' & Hp' & Hh' & Hv'); [|apply Forall_forall; intros z Hz; apply elem_of_seqZ in Hz; lia|done].
  injection Er as <-. cbn [fst snd]. split_and!.
  - by destruct Hwf'; split.
  - done.
  - destruct (helper tb'); repeat constructor.
  - intros k. split; [apply Hh'|]. by destruct (helper tb').
  - exact Hv'.
Qed.

(** The snapshots of a termination check always return. *)
Lemma termcheck_loop_returns l tb cur upd :
  Forall (fun z => 0 <= z < Z.of_nat (length owners)) l -> wf owners w tb ->
  exists r, for_each termcheck_shard l (tb, cur, upd) = Ok r.
Proof.
  intros Hl. revert tb cur upd. induction Hl as [|z l Hz Hl IH]; intros tb cur upd Hwf; [by eexists|].
  assert (exists tb1 c1 u1, termcheck_shard (tb, cur, upd) z = Ok (tb1, c1, u1)) as (tb1 & c1 & u1 & E).
  { destruct (Z_of_nat_complete z) as [i ->]; [lia|]. destruct (lookup_lt_is_Some_2 owners i) as [o Ho]; [lia|].
    destruct (wf_lookup tb i o Hwf Ho) as (p & Hp & Ep & Hok). unfold termcheck_shard. rewrite (wf_local tb i o Hwf Ho).
    run. destruct (Z.eqb_spec o w) as [->|]; [|by eexists _, _, _]. rewrite Ep. run.
    destruct p as [d|s]; [by destruct Hok|]. pose proof Hok as (_ & Hs & _).
    destruct (StateTable.snapshot_spec s Hs) as (s' & Es & Hs' & Hc'). cbn [snapshot]. rewrite Es. run.
    unfold set_partition. rewrite vec_set_lt by (by eapply lookup_lt_Some). run. by eexists _, _, _. }
  assert (wf owners w tb1) as Hwf1.
  { apply (termcheck_loop [z] tb cur upd tb1 c1 u1); [by constructor|done|]. cbn [for_each]. by rewrite E. }
  cbn [for_each]. rewrite E. by apply IH.
Qed.
Lemma TermCheck_returns due tb : wf owners w tb -> exists r, TermCheck due tb = Ok r.
Proof.
  intros Hwf. destruct due; [|by eexists]. cbn. unfold termcheck. rewrite (wf_length _ _ _ Hwf).
  destruct (termcheck_loop_returns (seqZ 0 (Z.of_nat (length owners))) tb (S754_zero false) 0) as ([[tb' c] u] & E); [|done|].
  - apply Forall_forall. intros z Hz. apply elem_of_seqZ in Hz. lia.
  - rewrite E. by eexists.
Qed.

(** Whenever [ApplyUpdates] returns, what the message carried has been added
    to what the receiver holds or has forwarded; a key that the owner does not
    have stops the process. *)
Lemma ApplyUpdates_sound due tb m l r :
  wf owners w tb -> buffered_ok tb ->
  kv_data m = marshal_row <$> l -> Forall row_representable l ->
  ApplyUpdates due tb m = Ok r ->
  wf owners w r.1 /\ buffered_ok r.1 /\ Forall (message_ok owners) r.2 /\
  (forall k, oadd (held r.1 k) (inflight r.2 k) = oadd (held tb k) (carried l k)) /\ keeps_values tb r.1.
Proof.
  intros Hwf Hb Hkv Hl E. unfold ApplyUpdates in E.
  apply bind_Ok in E as (loc & _ & E). apply bind_Ok in E as (p & _ & E).
  apply bind_Ok in E as (it & Eit & E).
  assert (it = {| decodedeque := l; intit := 0 |}) as ->.
  { destruct p; unfold DeltaTable.deserializeFromNet, StateTable.deserializeFromNet in Eit;
      rewrite (deserialize_loop_spec l) in Eit; try done; try (by injection Eit as <-);
      cbn [kc_t]; rewrite Hkv, length_fmap; lia. }
  cbn [decodedeque intit drop] in E. apply bind_Ok in E as ([tb1 ms1] & E1 & E).
  destruct (apply_pairs_sound l tb [] _ Hwf Hb Hl E1) as (Hwf1 & Hb1 & Hm1 & Hh1).
  apply bind_Ok in E as ([tb2 ms2] & E2 & E). injection E as <-. cbn [fst snd].
  assert (wf owners w tb2 /\ pending_writes_ tb2 = pending_writes_ tb1 /\
    Forall (message_ok owners) ms2 /\ (forall k, held tb2 k = held tb1 k /\ inflight ms2 k = None) /\
    keeps_values tb1 tb2) as (Hwf2 & Hp2 & Hm2 & Hh2 & Hv2).
  { unfold TermCheck in E2. destruct due; [|injection E2 as <- <-; split_and!; try done; by apply keeps_values_same].
    by apply (termcheck_sound tb1 (tb2, ms2)). }
  split_and!; [done| |apply Forall_app; auto| |].
  - destruct Hb1 as [? ?]. split; [lia|done].
  - intros k. rewrite inflight_app. destruct (Hh2 k) as [-> ->]. rewrite oadd_None_r, Hh1.
    f_equal. apply oadd_None_r.
  - eapply keeps_values_trans; [by apply (apply_pairs_values l tb [] _ Hwf Hb Hl E1)|done].
Qed.

(** ** Delivery at the owner *)
Definition owned_row tb (k : K) : Prop :=
  0 <= shard_of k (Z.of_nat (length owners)) /\
  owners !! Z.to_nat (shard_of k (Z.of_nat (length owners))) = Some w /\ is_Some (row tb k).

(** Updates of rows the worker has are all applied; they send nothing and
    leave the delta tables alone. *)
Lemma apply_pairs_local l : forall tb ms,
  wf owners w tb -> Forall (fun r => owned_row tb r.1) l ->
  exists tb', for_each apply_one l (tb, ms) = Ok (tb', ms) /\
    (forall i d, partitions_ tb' !! i = Some (Delta d) -> partitions_ tb !! i = Some (Delta d)) /\
    (forall k, is_Some (row tb k) -> is_Some (row tb' k)).
Proof.
  induction l as [|[k v] l IH]; intros tb ms Hwf Hl; [by exists tb|].
  apply Forall_cons in Hl as [(Hpos & Ho & c & Hc) Hl]. cbn [fst] in *.
  set (i := Z.to_nat (shard_of k (Z.of_nat (length owners)))) in *.
  assert (get_shard tb k = Z.of_nat i) as Hk by (unfold get_shard; rewrite (wf_shards _ _ _ Hwf); lia).
  unfold row in Hc. rewrite Hk, Nat2Z.id in Hc.
  destruct (partitions_ tb !! i) as [[|s]|] eqn:Hp; try done.
  destruct (accumulate_local tb i k v c s Hwf Hk Hp Hc) as (s' & E & Hwf' & Hc').
  assert (forall k', is_Some (row tb k') ->
    is_Some (row (set_partitions tb (<[i := State s']> (partitions_ tb))) k')) as Hrow.
  { intros k' Hk'. rewrite row_set_partition by (by eapply lookup_lt_Some). case_decide as Hi; [|done].
    unfold row in Hk'. rewrite Hi, Hp in Hk'. rewrite Hc'.
    destruct (decide (k = k')) as [<-|]; [by rewrite lookup_insert_eq|by rewrite lookup_insert_ne]. }
  destruct (IH _ ms Hwf') as (tb' & E' & Hd & Hr).
  { eapply Forall_impl; [done|]. intros [k' v'] (? & ? & ?). split_and!; try done. by apply Hrow. }
  exists tb'. cbn [for_each]. unfold apply_one at 2. cbn [fst snd]. rewrite E. run. rewrite app_nil_r, E'.
  split_and!; [done| |naive_solver]. intros j d Hj. apply Hd in Hj. cbn [partitions_ set_partitions] in Hj.
  by apply list_lookup_insert_Some in Hj as [(_ & [=] & _)|[_ Hj]].
Qed.

Lemma ApplyUpdates_local tb m l i :
  wf owners w tb -> shard m = Z.of_nat i -> owners !! i = Some w ->
  kv_data m = marshal_row <$> l -> Forall row_representable l -> Forall (fun r => owned_row tb r.1) l ->
  exists tb', ApplyUpdates false tb m = Ok (tb', []) /\
    (forall i d, partitions_ tb' !! i = Some (Delta d) -> partitions_ tb !! i = Some (Delta d)) /\
    (forall k, is_Some (row tb k) -> is_Some (row tb' k)).
Proof.
  intros Hwf Hm Ho Hkv Hrep Hl. destruct (wf_lookup tb i w Hwf Ho) as (p & Hp & Ep & Hok).
  unfold ApplyUpdates. rewrite Hm, (wf_local tb i w Hwf Ho), Ep. run.
  destruct p as [d|s]; [by destruct Hok|]. unfold StateTable.deserializeFromNet.
  rewrite (deserialize_loop_spec l); [|done..|cbn [kc_t]; rewrite Hkv, length_fmap; lia].
  run. cbn [decodedeque intit Decode.clear Decode.create app drop].
  destruct (apply_pairs_local l tb [] Hwf Hl) as (tb' & E & Hd & Hr). rewrite drop_0, E. run.
  by exists tb'.
Qed.

(** A flush moves every buffered update into a message to the owner of its
    shard: the delta tables are left empty, what was held is what is still held
    combined with what the messages carry, no row changes, and the counter of
    pending writes is reset. *)
Theorem flush_moves_updates tb :
  wf owners w tb -> 0 <= pending_writes_ tb ->
  exists tb' ms, SendUpdates tb = Ok (tb', ms) /\ wf owners w tb' /\ pending_writes_ tb' = 0 /\
    Forall (message_ok owners) ms /\
    (forall k, oadd (held tb' k) (inflight ms k) = held tb k) /\
    (forall i d, partitions_ tb' !! i = Some (Delta d) -> DeltaTable.contents d = ∅) /\
    (forall k, row tb' k = row tb k).
Proof.
  intros Hwf Hp. destruct (SendUpdates_spec tb Hwf Hp) as (tb' & ms & E & Hwf' & Hp' & Hms & Hh & He & Hr).
  exists tb', ms. split_and!; try done. intros i d Hd.
  pose proof (wf_part _ _ _ Hwf' _ _ Hd) as [_ (Hdw & _)].
  apply map_size_empty_inv. pose proof (DeltaTable.wf_entries_size _ Hdw). rewrite (He i d Hd) in *. lia.
Qed.

(** [accumulateF1] of any key that has a shard (and a row, when the worker
    owns it) succeeds and adds exactly its update: to the row, to the buffer of
    the remote shard, or to the messages when the buffers are flushed because
    more than [bufmsg] writes are pending.  Every other key keeps what it has. *)
Theorem accumulate_adds tb k v :
  wf owners w tb -> buffered_ok tb -> representable k -> representable v -> addressable tb k ->
  exists tb' ms, accumulateF1 tb k v = Ok (tb', ms) /\
    wf owners w tb' /\ buffered_ok tb' /\ Forall (message_ok owners) ms /\
    (forall k', oadd (held tb' k') (inflight ms k') = oadd (held tb k') (single k v k')) /\
    (forall k', row tb' k' = if decide (k = k') then StateTable.receive v <$> row tb k' else row tb k').
Proof.
  intros Hwf Hb Hk Hv Ha. destruct (accumulate_total tb k v Hwf Hb Hk Hv Ha) as ([tb' ms] & E & Hacc).
  by exists tb', ms.
Qed.

(** The owner of a shard applies every update of a message for it: nothing
    is sent on, no delta table changes, and each row's delta is accumulated with
    what the message carried for it. *)
Theorem owner_applies tb m l i :
  wf owners w tb -> buffered_ok tb -> shard m = Z.of_nat i -> owners !! i = Some w ->
  kv_data m = marshal_row <$> l -> Forall row_representable l -> Forall (fun r => owned_row tb r.1) l ->
  exists tb', ApplyUpdates false tb m = Ok (tb', []) /\ wf owners w tb' /\
    (forall k, held tb' k = oadd (held tb k) (carried l k)) /\
    (forall i d, partitions_ tb' !! i = Some (Delta d) -> partitions_ tb !! i = Some (Delta d)).
Proof.
  intros Hwf Hb Hi Ho Hkv Hrep Hl.
  destruct (ApplyUpdates_local tb m l i Hwf Hi Ho Hkv Hrep Hl) as (tb' & E & Hd & _).
  destruct (ApplyUpdates_sound false tb m l _ Hwf Hb Hkv Hrep E) as (Hwf' & _ & _ & Hh & _). cbn [fst snd] in *.
  exists tb'. split_and!; try done. intros k. rewrite <- Hh. symmetry. apply oadd_None_r.
Qed.

(** When a shard that the worker holds as a state table is given to another
    worker, the next update of one of its keys is undefined: the local table is
    still a state table, and its cast to a delta table is null. *)
Theorem reassigned_shard_undefined tb i s o n k v :
  wf owners w tb -> partitions_ tb !! i = Some (State s) -> get_shard tb k = Z.of_nat i -> o <> w ->
  (tb ← UpdatePartitions tb (Z.of_nat i) o n; accumulateF1 tb k v) = Undefined.
Proof.
  intros Hwf Hp Hk Ho. pose proof (wf_part _ _ _ Hwf _ _ Hp) as [Hw _].
  destruct (wf_partinfo tb i w Hwf Hw) as (info & Ei & _). unfold UpdatePartitions. rewrite Ei. run.
  assert (i < length (partinfo_ tb))%nat as Hi.
  { apply lookup_lt_Some in Hw. rewrite <- (wf_owners _ _ _ Hwf), length_fmap in Hw. done. }
  rewrite vec_set_lt by done. run. unfold accumulateF1. change (get_shard (set_partinfo tb _) k) with (get_shard tb k).
  rewrite Hk. unfold is_local_shard, owner, get_partition_info. cbn [helper set_partinfo partinfo_].
  destruct (wf_helper _ _ _ Hwf) as [e ->]. erewrite vec_at_Some by (by apply list_lookup_insert_eq). run.
  cbn [sinfo_owner helper_id]. rewrite (proj2 (Z.eqb_neq _ _) Ho). unfold deltaT. cbn [partitions_ set_partinfo].
  by rewrite (vec_at_Some _ _ _ Hp).
Qed.
End Wf.
End Conservation.
End GlobalTable.
End GlobalTable.
