(* ===== verification/Cluster.v ===== *)
(** * The cluster: global tables that exchange updates

    Every worker (worker/worker.cc) has its copy of the global table.  A run of
    the cluster interleaves updates ([accumulateF1], called by the kernels),
    flushes ([FlushUpdates], [HandleFlush]), the delivery of put requests
    ([HandlePutRequest] calling [ApplyUpdates]) of the termination signal
    ([HandleTermNotification]), and the snapshots of termination checks.  The network keeps the
    messages under way; it may deliver them in any order. *)
From S2P Require Import Prelude Float StringPiece Probe Table SampleKernel DeltaTable StateTable GlobalTable.

Module Cluster.
Import GlobalTable.
Section Cluster.
Context {K V D : Type} `{Countable K} `{!Hashable K}.
Context `{!ValueInit K} `{!ValueInit V} `{!ValueInit D}.
Context `{!IterateKernel K V D} `{!Sharder K} `{!Marshal K} `{!Marshal V}.
Variable bufmsg : Z.
Variable wire_size : KVPairData -> Z.

Record t := mk { workers : list (GlobalTable.t (K := K) (V := V) (D := D)); net : list message }.
Implicit Types c : t.

(** The update that a step makes, if any. *)
Definition event : Type := option (K * V).

Inductive step : t -> event -> t -> Prop :=
  | step_accumulate ws ms w tb k v tb' ms' :
      ws !! w = Some tb -> accumulateF1 bufmsg wire_size tb k v = Ok (tb', ms') ->
      step (mk ws ms) (Some (k, v)) (mk (<[w := tb']> ws) (ms ++ ms'))
  | step_flush ws ms w tb tb' ms' :
      ws !! w = Some tb -> SendUpdates wire_size tb = Ok (tb', ms') ->
      step (mk ws ms) None (mk (<[w := tb']> ws) (ms ++ ms'))
  | step_deliver ws pre post dst d due tb tb' ms' :
      ws !! Z.to_nat (dst - 1) = Some tb -> ApplyUpdates bufmsg wire_size due tb d = Ok (tb', ms') ->
      step (mk ws (pre ++ PutRequest dst d :: post)) None
           (mk (<[Z.to_nat (dst - 1) := tb']> ws) (pre ++ post ++ ms'))
  | step_master ws pre post m :
      (forall dst d, m <> PutRequest dst d) ->
      step (mk ws (pre ++ m :: post)) None (mk ws (pre ++ post))
  | step_terminate ws ms w tb i tb' :
      ws !! w = Some tb -> terminate_shard tb i = Ok tb' ->
      step (mk ws ms) None (mk (<[w := tb']> ws) ms)
  | step_termcheck ws ms w tb tb' ms' :
      ws !! w = Some tb -> termcheck tb = Ok (tb', ms') ->
      step (mk ws ms) None (mk (<[w := tb']> ws) (ms ++ ms')).

(** A run with the updates it makes, oldest first. *)
Inductive steps : t -> list (K * V) -> t -> Prop :=
  | steps_refl c : steps c [] c
  | steps_next c1 e c2 us c3 : step c1 e c2 -> steps c2 us c3 -> steps c1 (option_list e ++ us) c3.

(** Everything that is pending for [k] anywhere in the cluster. *)
Definition total c (k : K) : option V :=
  oadd (D := D) (osum (D := D) ((fun tb => held tb k) <$> workers c)) (inflight (D := D) (net c) k).

(** No update is buffered or under way. *)
Definition quiescent c : Prop :=
  (forall w tb i d, workers c !! w = Some tb -> partitions_ tb !! i = Some (Delta d) ->
     DeltaTable.entries_ d = 0) /\
  (forall m, m ∈ net c -> forall dst d, m <> PutRequest dst d).

Section Runs.
Context `{!AccumulateLaws K V D} `{!MarshalLaws K} `{!MarshalLaws V}.
Context (owners : list Z).
Hypothesis representable_accumulate : forall a b : V,
  representable a -> representable b -> representable (accumulate (K := K) (D := D) a b).

Record wf c : Prop := {
  wf_workers : forall w tb, workers c !! w = Some tb ->
    GlobalTable.wf owners (Z.of_nat w) tb /\ buffered_ok bufmsg tb;
  wf_net : Forall (message_ok owners) (net c)
}.

Lemma wf_update ws ms w tb tb' ms' :
  wf (mk ws ms) -> ws !! w = Some tb ->
  GlobalTable.wf owners (Z.of_nat w) tb' -> buffered_ok bufmsg tb' -> Forall (message_ok owners) ms' ->
  wf (mk (<[w := tb']> ws) ms').
Proof.
  intros [Hw _] Hx Hwf Hb Hms. split; [|done]. cbn. intros w' tb'' Hl.
  apply list_lookup_insert_Some in Hl as [(<- & <- & _)|[_ Hl]]; [done|by apply Hw].
Qed.

(** The total after one worker's table and the network changed. *)
Lemma total_update ws ms w tb tb' ms' k x :
  ws !! w = Some tb ->
  oadd (D := D) (held tb' k) (inflight (D := D) ms' k) = oadd (D := D) (oadd (D := D) (held tb k) (inflight (D := D) ms k)) x ->
  total (mk (<[w := tb']> ws) ms') k = oadd (D := D) (total (mk ws ms) k) x.
Proof.
  intros Hx E. unfold total. cbn [workers net]. rewrite list_fmap_insert.
  destruct (osum_insert ((fun tb => held tb k) <$> ws) w (held tb k) (held tb' k)) as (rest & -> & ->).
  { by rewrite list_lookup_fmap, Hx. }
  rewrite (oadd_comm (held tb' k)), <- oadd_assoc, E.
  rewrite (oadd_comm (held tb k) rest), <- !oadd_assoc. done.
Qed.

Lemma net_middle (pre post : list message) m k :
  inflight (D := D) (pre ++ m :: post) k =
  oadd (D := D) (inflight (D := D) (pre ++ post) k) (carried (D := D) (message_pairs m) k).
Proof.
  rewrite !inflight_app. change (m :: post) with ([m] ++ post). rewrite inflight_app.
  unfold inflight at 2. cbn [fmap list_fmap osum foldr]. rewrite oadd_None_r.
  rewrite <- oadd_assoc. f_equal. apply oadd_comm.
Qed.

(** The network before the change is common to both sides. *)
Lemma oadd_frame (h h' i i' x : option V) :
  oadd (D := D) (K := K) h' i' = oadd (D := D) (K := K) h x ->
  oadd (D := D) (K := K) h' (oadd (D := D) (K := K) i i') =
  oadd (D := D) (K := K) (oadd (D := D) (K := K) h i) x.
Proof. intros E. by rewrite oadd_swap, E, oadd_swap, oadd_assoc. Qed.

(** What an event adds for [k]. *)
Definition added (e : event) (k : K) : option V :=
  match e with Some (k', v) => single k' v k | None => None end.

Lemma step_total c e c' :
  wf c -> (forall k v, e = Some (k, v) -> representable k /\ representable v) -> step c e c' ->
  wf c' /\ forall k, total c' k = oadd (D := D) (total c k) (added e k).
Proof.
  intros Hwf Hrep Hs. destruct Hs as [ws ms w tb k v tb' ms' Hx E|ws ms w tb tb' ms' Hx E
    |ws pre post dst d due tb tb' ms' Hx E|ws pre post m Hm|ws ms w tb i tb' Hx E|ws ms w tb tb' ms' Hx E].
  - destruct (wf_workers _ Hwf w tb Hx) as [Hw Hb]. destruct (Hrep k v eq_refl) as [Hrk Hrv].
    destruct (accumulate_sound bufmsg wire_size representable_accumulate tb k v _ Hw Hb Hrk Hrv E) as (Hw' & Hb' & Hms' & Hh' & _).
    split; [eapply wf_update; try done; apply Forall_app; split; [apply Hwf|done]|].
    intros k'. apply (total_update _ _ _ tb); [done|].
    rewrite inflight_app. by apply oadd_frame.
  - destruct (wf_workers _ Hwf w tb Hx) as [Hw Hb].
    destruct (SendUpdates_spec wire_size tb Hw) as (tb1 & ms1 & E1 & Hw' & Hp & Hms' & Hh' & _); [apply Hb|].
    rewrite E1 in E. injection E as <- <-.
    split; [eapply wf_update; try done; [split; [rewrite Hp; destruct Hb; lia|apply Hb]|
      apply Forall_app; split; [apply Hwf|done]]|].
    intros k. apply (total_update _ _ _ tb); [done|].
    rewrite inflight_app. apply oadd_frame. cbn. by rewrite oadd_None_r.
  - assert (message_ok owners (PutRequest dst d)) as (i & l & Hi & Ho & Hkv & Hl & Hsh).
    { pose proof (wf_net _ Hwf) as Hn. cbn in Hn. by apply Forall_app in Hn as [_ [Hn _]%Forall_cons]. }
    destruct (wf_workers _ Hwf _ tb Hx) as [Hw Hb].
    destruct (ApplyUpdates_sound bufmsg wire_size representable_accumulate due tb d l _ Hw Hb Hkv Hl E)
      as (Hw' & Hb' & Hms' & Hh' & _). cbn [fst snd] in *.
    pose proof (wf_net _ Hwf) as Hn. cbn in Hn. apply Forall_app in Hn as [Hn1 [_ Hn2]%Forall_cons].
    split; [eapply wf_update; try done; by repeat (apply Forall_app; split)|].
    intros k. apply (total_update _ _ _ tb); [done|]. rewrite net_middle. cbn [message_pairs added].
    rewrite (args_of_rows d l Hkv Hl), app_assoc, inflight_app, oadd_None_r, (oadd_assoc (held tb k)).
    by apply oadd_frame.
  - pose proof (wf_net _ Hwf) as Hn. cbn in Hn. apply Forall_app in Hn as [Hn1 [_ Hn2]%Forall_cons].
    split. { split; [apply Hwf|]. by apply Forall_app. }
    intros k. unfold total. cbn [workers net added]. rewrite net_middle, oadd_None_r.
    destruct m; cbn; [by destruct (Hm dst d)|by rewrite oadd_None_r..].
  - destruct (wf_workers _ Hwf w tb Hx) as [Hw Hb].
    destruct (terminate_shard_spec tb i tb' Hw E) as (Hw' & Hp & Hh).
    split; [eapply wf_update; try done; [by unfold buffered_ok; rewrite Hp|apply Hwf]|].
    intros k. apply (total_update _ _ _ tb); [done|]. cbn [added]. by rewrite (proj1 (Hh k)), oadd_None_r.
  - destruct (wf_workers _ Hwf w tb Hx) as [Hw Hb].
    destruct (termcheck_sound tb _ Hw E) as (Hw' & Hp & Hms & Hh & _). cbn [fst snd] in *.
    split; [eapply wf_update; try done; [by unfold buffered_ok; rewrite Hp|apply Forall_app; split; [apply Hwf|done]]|].
    intros k. apply (total_update _ _ _ tb); [done|]. destruct (Hh k) as [Hk Hn]. rewrite inflight_app. apply oadd_frame.
    by rewrite Hk, Hn.
Qed.

Lemma silent_total c c' : wf c -> step c None c' -> wf c' /\ forall k, total c' k = total c k.
Proof.
  intros Hwf Hs. destruct (step_total c None c' Hwf) as [? Ht]; [done|done|].
  split; [done|]. intros k. rewrite Ht. apply oadd_None_r.
Qed.

(** Along a run. *)
Lemma steps_total c us c' :
  wf c -> Forall row_representable us -> steps c us c' ->
  wf c' /\ forall k, total c' k = oadd (D := D) (total c k) (carried (D := D) us k).
Proof.
  intros Hwf Hrep Hs. revert Hwf Hrep. induction Hs as [c|c1 e c2 us c3 Hst Hs IH]; intros Hwf Hrep.
  { split; [done|]. intros k. symmetry. apply oadd_None_r. }
  apply Forall_app in Hrep as [He Hus].
  destruct (step_total c1 e c2 Hwf) as [Hwf2 H2]; [|done|].
  { intros k v ->. by apply Forall_cons in He as [He _]. }
  destruct (IH Hwf2 Hus) as [Hwf3 H3]. split; [done|]. intros k. rewrite H3, H2, <- oadd_assoc. f_equal.
  by destruct e as [[k' v]|].
Qed.

Lemma inflight_none ms k :
  (forall m, m ∈ ms -> forall dst d, m <> PutRequest dst d) -> inflight (D := D) ms k = None.
Proof.
  intros Hn. induction ms as [|m ms IH]; [done|].
  change (oadd (D := D) (carried (D := D) (message_pairs m) k) (inflight (D := D) ms k) = None).
  rewrite IH by (intros m' Hm'; apply Hn; by right).
  specialize (Hn m ltac:(left)). by destruct m; [destruct (Hn dst d)|..].
Qed.

(** In a quiescent cluster all that is pending for a key is the delta of its
    row at the owner. *)
Lemma quiescent_total c k o tb :
  wf c -> quiescent c -> owners !! Z.to_nat (shard_of k (Z.of_nat (length owners))) = Some (Z.of_nat o) ->
  workers c !! o = Some tb -> total c k = held tb k.
Proof.
  intros Hwf [Hq Hn] Ho Htb. unfold total.
  rewrite (inflight_none (net c) k Hn).
  rewrite oadd_None_r.
  destruct (osum_insert ((fun tb => held tb k) <$> workers c) o (held tb k) None) as (rest & -> & E).
  { by rewrite list_lookup_fmap, Htb. }
  assert (rest = None) as ->; [|apply oadd_None_r]. cbn in E. rewrite <- E. clear E rest.
  assert (Forall (fun x => x = None) (<[o := None]> ((fun tb => held tb k) <$> workers c))) as Hall.
  { apply Forall_lookup. intros w x Hx. apply list_lookup_insert_Some in Hx as [(_ & <- & _)|[Hne Hx]]; [done|].
    rewrite list_lookup_fmap in Hx. apply fmap_Some in Hx as (tw & Htw & ->).
    destruct (wf_workers _ Hwf w tw Htw) as [Hw _]. unfold held.
    destruct (partitions_ tw !! _) as [[d|s]|] eqn:Hp; [|exfalso|done].
    - pose proof (GlobalTable.wf_part _ _ _ Hw _ _ Hp) as [_ (Hd & _)].
      pose proof (DeltaTable.wf_entries_size _ Hd) as He. rewrite (Hq w tw _ d Htw Hp) in He.
      assert (DeltaTable.contents d = ∅) as ->; [apply map_size_empty_inv; lia|done].
    - pose proof (GlobalTable.wf_part _ _ _ Hw _ _ Hp) as [Hs _].
      unfold get_shard in Hs. rewrite (GlobalTable.wf_shards _ _ _ Hw) in Hs. rewrite Ho in Hs.
      injection Hs as Hs. lia. }
  induction Hall as [|x l -> Hl IH]; [done|]. cbn. apply IH.
Qed.
Lemma carried_perm us1 us2 k : us1 ≡ₚ us2 -> carried (D := D) us1 k = carried (D := D) us2 k.
Proof.
  induction 1 as [|[k' v] l1 l2 _ IH|r1 r2 l|l1 l2 l3 _ IH1 _ IH2]; [done| | |congruence].
  - by rewrite !carried_cons, IH.
  - rewrite !carried_cons. apply oadd_swap.
Qed.

(** The delta that the owner reads for a key of its shard. *)
Lemma owner_getF1 (tb : GlobalTable.t (K := K) (V := V) (D := D)) w k :
  GlobalTable.wf owners w tb ->
  owners !! Z.to_nat (shard_of k (Z.of_nat (length owners))) = Some w ->
  0 <= shard_of k (Z.of_nat (length owners)) ->
  getF1 tb k = match held tb k with Some v => Ok v | None => Fatal end.
Proof.
  intros Hwf Ho Hpos. set (i := Z.to_nat (shard_of k (Z.of_nat (length owners)))) in *.
  assert (get_shard tb k = Z.of_nat i) as Hk.
  { unfold get_shard. rewrite (GlobalTable.wf_shards _ _ _ Hwf). lia. }
  destruct (wf_lookup tb i w Hwf Ho) as (p & Hp & Ep & Hok).
  unfold getF1, read_local, held. rewrite Hk, (wf_local tb i w Hwf Ho), Z.eqb_refl. run.
  unfold partition. rewrite Ep, Nat2Z.id, Hp. run. destruct p as [d|st]; [by destruct Hok|].
  destruct Hok as (_ & Hs & _). pose proof (StateTable.gets_spec st k Hs) as Hg.
  destruct (StateTable.contents st !! k) as [c|]; destruct Hg as (Hg1 & _); run; by rewrite Hg1.
Qed.

(** ** Draining the cluster

    Every shard has a worker and every key that is pending has a row there. *)
Definition known c : Prop :=
  Forall (fun o => 0 <= o < Z.of_nat (length (workers c))) owners /\
  forall k, is_Some (total c k) ->
    0 <= shard_of k (Z.of_nat (length owners)) /\
    exists o tb, owners !! Z.to_nat (shard_of k (Z.of_nat (length owners))) = Some (Z.of_nat o) /\
      workers c !! o = Some tb /\ is_Some (row tb k).

Definition flushed_below (n : nat) c : Prop :=
  forall w tb i d, (w < n)%nat -> workers c !! w = Some tb -> partitions_ tb !! i = Some (Delta d) ->
    DeltaTable.entries_ d = 0.

(** A step without an update that keeps the rows. *)
Lemma known_update ws ms w tb tb' ms' :
  wf (mk ws ms) -> known (mk ws ms) -> ws !! w = Some tb ->
  step (mk ws ms) None (mk (<[w := tb']> ws) ms') ->
  (forall k, is_Some (row tb k) -> is_Some (row tb' k)) ->
  wf (mk (<[w := tb']> ws) ms') /\ known (mk (<[w := tb']> ws) ms').
Proof.
  intros Hwf [Hst Hk] Hw Hs Hrow. destruct (silent_total _ _ Hwf Hs) as [Hwf' Ht].
  split; [done|]. split; [cbn [workers] in *; by rewrite length_insert|]. intros k Hp. rewrite Ht in Hp.
  destruct (Hk k Hp) as (Hpos & o & tbo & Ho & Htb & Hr). split; [done|]. cbn [workers] in *.
  destruct (decide (w = o)) as [<-|Hne].
  - exists w, tb'. rewrite list_lookup_insert_eq by (by eapply lookup_lt_Some).
    split_and!; try done. rewrite Hw in Htb. injection Htb as <-. auto.
  - exists o, tbo. by rewrite list_lookup_insert_ne.
Qed.

Lemma steps_trans c1 us1 c2 us2 c3 : steps c1 us1 c2 -> steps c2 us2 c3 -> steps c1 (us1 ++ us2) c3.
Proof.
  intros Hs1 Hs2. induction Hs1 as [|c1 e c us c2 Hst Hs1 IH]; [done|].
  rewrite <- app_assoc. eapply steps_next; [done|]. by apply IH.
Qed.
Lemma steps_silent c1 c2 c3 : step c1 None c2 -> steps c2 [] c3 -> steps c1 [] c3.
Proof. intros Hst Hs. exact (steps_next _ None _ _ _ Hst Hs). Qed.

Lemma oadd_is_Some (a b : option V) : is_Some b -> is_Some (oadd (K := K) (D := D) a b).
Proof. intros [x ->]. destruct a; by eexists. Qed.
Lemma carried_is_Some (l : list (K * V)) k : k ∈ l.*1 -> is_Some (carried (D := D) l k).
Proof.
  induction l as [|r l IH]; intros Hin; [by apply not_elem_of_nil in Hin|]. rewrite carried_cons.
  cbn [fmap list_fmap] in Hin. apply elem_of_cons in Hin as [->|Hin].
  - rewrite decide_True by done. rewrite oadd_comm. by apply oadd_is_Some.
  - by apply oadd_is_Some, IH.
Qed.

Lemma flush_all n c :
  wf c -> known c -> (n <= length (workers c))%nat ->
  exists c', steps c [] c' /\ wf c' /\ known c' /\ flushed_below n c' /\
    length (workers c') = length (workers c).
Proof.
  intros Hwf Hk. induction n as [|n IH]; intros Hn.
  { exists c. split_and!; try done; [apply steps_refl|]. intros w tb i d Hlt. lia. }
  destruct IH as (c1 & Hs1 & Hwf1 & Hk1 & Hf1 & Hl1); [lia|]. destruct c1 as [ws ms]. cbn [workers] in *.
  destruct (lookup_lt_is_Some_2 ws n) as [tb Htb]; [lia|].
  destruct (wf_workers _ Hwf1 n tb Htb) as [Hw Hb].
  destruct (SendUpdates_spec wire_size tb Hw) as (tb' & ms' & E & _ & _ & _ & _ & He & Hr); [apply Hb|].
  pose proof (step_flush ws ms n tb tb' ms' Htb E) as Hst.
  destruct (known_update _ _ _ _ _ _ Hwf1 Hk1 Htb Hst) as [Hwf2 Hk2]; [intros k; by rewrite Hr|].
  eexists. split; [apply (steps_trans _ [] _ [] _ Hs1), (steps_silent _ _ _ Hst), steps_refl|].
  split_and!; [done..| |cbn; by rewrite length_insert].
  intros w' tb'' i d Hlt Hl Hd. cbn [workers] in Hl.
  apply list_lookup_insert_Some in Hl as [(<- & <- & _)|[Hne Hl]]; [by eapply He|].
  apply (Hf1 w' tb'' i d); [lia|done..].
Qed.

(** Dropping a message for the master changes no table. *)
Lemma known_same ws ms ms' :
  wf (mk ws ms) -> known (mk ws ms) -> step (mk ws ms) None (mk ws ms') -> wf (mk ws ms') /\ known (mk ws ms').
Proof.
  intros Hwf [Hst Hk] Hs. destruct (silent_total _ _ Hwf Hs) as [Hwf' Ht].
  split; [done|]. split; [done|]. intros k Hp. rewrite Ht in Hp. by apply Hk.
Qed.

(** A put request that is under way can be applied by the worker it is for,
    which sends nothing then and leaves the delta tables alone. *)
Lemma put_applies ws pre post dst d :
  wf (mk ws (pre ++ PutRequest dst d :: post)) -> known (mk ws (pre ++ PutRequest dst d :: post)) ->
  exists tb tb', ws !! Z.to_nat (dst - 1) = Some tb /\ ApplyUpdates bufmsg wire_size false tb d = Ok (tb', []) /\
    (forall i d, partitions_ tb' !! i = Some (Delta d) -> partitions_ tb !! i = Some (Delta d)) /\
    (forall k, is_Some (row tb k) -> is_Some (row tb' k)).
Proof.
  intros Hwf [Hst Hk].
  pose proof (wf_net _ Hwf) as Hn. cbn [net] in Hn. apply Forall_app in Hn as [_ [Hm _]%Forall_cons].
  destruct Hm as (i & l & Hi & Ho & Hkv & Hrep & Hsh).
  rewrite Forall_lookup in Hst. specialize (Hst i _ Ho). cbn [workers] in Hst.
  destruct (lookup_lt_is_Some_2 ws (Z.to_nat (dst - 1))) as [tb Htb]; [lia|].
  destruct (wf_workers _ Hwf _ tb Htb) as [Hw Hb]. rewrite Z2Nat.id in Hw by lia.
  destruct (ApplyUpdates_local bufmsg wire_size tb d l i Hw Hi Ho Hkv Hrep) as (tb' & E & Hd & Hr); [|by exists tb, tb'].
  apply Forall_forall. intros r Hin. rewrite Forall_forall in Hsh. specialize (Hsh r Hin).
  destruct (Hk r.1) as (Hpos & o & tbo & Ho' & Htbo & Hrow).
  - unfold total. cbn [net workers].
    rewrite net_middle, oadd_assoc. cbn [message_pairs]. rewrite (args_of_rows d l Hkv Hrep).
    apply oadd_is_Some, carried_is_Some. by apply list_elem_of_fmap_2.
  - rewrite Hsh, Nat2Z.id, Ho in Ho'. injection Ho' as Ho'.
    assert (o = Z.to_nat (dst - 1)) as -> by lia. cbn [workers] in Htbo. rewrite Htb in Htbo. injection Htbo as <-.
    split_and!; [done| |done]. by rewrite Hsh, Nat2Z.id.
Qed.

(** Delivering the first message of the network: only one worker changes, and
    nothing is sent. *)
Lemma deliver_put ws dst d ms :
  wf (mk ws (PutRequest dst d :: ms)) -> known (mk ws (PutRequest dst d :: ms)) ->
  exists o tb tb', ws !! o = Some tb /\
    step (mk ws (PutRequest dst d :: ms)) None (mk (<[o := tb']> ws) ms) /\
    (forall i d, partitions_ tb' !! i = Some (Delta d) -> partitions_ tb !! i = Some (Delta d)) /\
    (forall k, is_Some (row tb k) -> is_Some (row tb' k)).
Proof.
  intros Hwf Hk. destruct (put_applies ws [] ms dst d Hwf Hk) as (tb & tb' & Htb & E & Hd & Hr).
  exists (Z.to_nat (dst - 1)), tb, tb'. split_and!; try done.
  pose proof (step_deliver ws [] ms dst d false tb tb' [] Htb E) as Hs. cbn in Hs. by rewrite app_nil_r in Hs.
Qed.

Lemma deliver_other ws m ms :
  wf (mk ws (m :: ms)) -> known (mk ws (m :: ms)) -> (forall dst d, m <> PutRequest dst d) ->
  (wf (mk ws ms) -> known (mk ws ms) -> exists c', steps (mk ws ms) [] c' /\ quiescent c') ->
  exists c', steps (mk ws (m :: ms)) [] c' /\ quiescent c'.
Proof.
  intros Hwf Hk Hm Hrest. pose proof (step_master ws [] ms m Hm) as Hs. cbn in Hs.
  destruct (known_same _ _ _ Hwf Hk Hs) as [Hwf' Hk'].
  destruct (Hrest Hwf' Hk') as (c' & Hs' & Hq). exists c'. split; [|done]. by apply (steps_silent _ _ _ Hs).
Qed.

Lemma deliver_all ms : forall ws,
  wf (mk ws ms) -> known (mk ws ms) -> flushed_below (length ws) (mk ws ms) ->
  exists c', steps (mk ws ms) [] c' /\ quiescent c'.
Proof.
  induction ms as [|m ms IH]; intros ws Hwf Hk Hf.
  { eexists. split; [apply steps_refl|]. split; [|by intros m ?%not_elem_of_nil].
    intros w tb i d Hw. apply (Hf w tb i d); [|done]. by eapply lookup_lt_Some. }
  destruct m as [dst d|i u x|a b|a].
  { destruct (deliver_put ws dst d ms Hwf Hk) as (o & tb & tb' & Htb & Hs & Hd & Hr).
    destruct (known_update _ _ _ _ _ _ Hwf Hk Htb Hs Hr) as [Hwf' Hk'].
    destruct (IH _ Hwf' Hk') as (c' & Hs' & Hq).
    { intros w tw i dd Hlt Hw Hdd. rewrite length_insert in Hlt. cbn [workers] in Hw.
      apply list_lookup_insert_Some in Hw as [(<- & <- & _)|[_ Hw]]; [|by apply (Hf w tw i dd)].
      by apply (Hf o tb i dd), Hd. }
    exists c'. split; [|done]. by apply (steps_silent _ _ _ Hs). }
  all: (eapply (deliver_other _ _ _ Hwf Hk); [done|]; intros Hwf' Hk'; by apply IH).
Qed.

(** C1. No update is lost, duplicated or sent to the wrong place: along every
    run of the cluster, what is pending for a key (in rows, in delta tables and
    in messages under way) is what was pending before combined with exactly
    the updates that the run made, and well-formedness is kept. *)
Theorem updates_conserved c us c' :
  wf c -> Forall row_representable us -> steps c us c' ->
  wf c' /\ forall k, total c' k = oadd (D := D) (total c k) (carried (D := D) us k).
Proof. apply steps_total. Qed.

(** C2. Once nothing is buffered or under way, the owner of a key reads as its
    delta the accumulation of what was pending at the start and all the updates
    that any worker made. *)
Theorem quiescent_delivery c us c' k o tb :
  wf c -> Forall row_representable us -> steps c us c' -> quiescent c' ->
  owners !! Z.to_nat (shard_of k (Z.of_nat (length owners))) = Some (Z.of_nat o) ->
  0 <= shard_of k (Z.of_nat (length owners)) ->
  workers c' !! o = Some tb ->
  getF1 tb k =
  match oadd (D := D) (total c k) (carried (D := D) us k) with Some v => Ok v | None => Fatal end.
Proof.
  intros Hwf Hrep Hs Hq Ho Hpos Htb. destruct (steps_total c us c' Hwf Hrep Hs) as [Hwf' <-].
  rewrite (quiescent_total c' k o tb Hwf' Hq Ho Htb).
  by apply (owner_getF1 tb (Z.of_nat o)); [apply (wf_workers _ Hwf')|..].
Qed.

(** C3. The result does not depend on the interleaving: two runs that make the
    same updates in any order, on any workers, with any flushes and any order
    of delivery, and that both end quiescent (no update buffered or under way),
    leave the owner with the same delta. *)
Theorem interleaving_irrelevant c us1 us2 c1 c2 k o tb1 tb2 :
  wf c -> Forall row_representable us1 -> us1 ≡ₚ us2 ->
  steps c us1 c1 -> steps c us2 c2 -> quiescent c1 -> quiescent c2 ->
  owners !! Z.to_nat (shard_of k (Z.of_nat (length owners))) = Some (Z.of_nat o) ->
  0 <= shard_of k (Z.of_nat (length owners)) ->
  workers c1 !! o = Some tb1 -> workers c2 !! o = Some tb2 ->
  getF1 tb1 k = getF1 tb2 k.
Proof.
  intros Hwf Hrep Hp Hs1 Hs2 Hq1 Hq2 Ho Hpos H1 H2.
  destruct (steps_total c us1 c1 Hwf Hrep Hs1) as [Hwf1 T1].
  destruct (steps_total c us2 c2 Hwf ltac:(by rewrite <- Hp) Hs2) as [Hwf2 T2].
  rewrite (owner_getF1 tb1 (Z.of_nat o)), (owner_getF1 tb2 (Z.of_nat o)); try done;
    [|by apply (wf_workers _ Hwf2)|by apply (wf_workers _ Hwf1)].
  rewrite <- (quiescent_total c1 k o tb1), <- (quiescent_total c2 k o tb2) by done.
  by rewrite T1, T2, (carried_perm us1 us2 k Hp).
Qed.
(** Delivery can always be completed: whatever is buffered and under way,
    when every pending key has a row at its owner, a run of flushes and
    deliveries leads to a state in which nothing is buffered or under way. *)
Theorem drains c :
  wf c -> known c -> exists c', steps c [] c' /\ quiescent c'.
Proof.
  intros Hwf Hk. destruct (flush_all (length (workers c)) c Hwf Hk) as (c1 & Hs1 & Hwf1 & Hk1 & Hf1 & Hl1); [done|].
  destruct c1 as [ws ms]. cbn [workers] in *. rewrite <- Hl1 in Hf1.
  destruct (deliver_all ms ws Hwf1 Hk1 Hf1) as (c2 & Hs2 & Hq). exists c2. split; [|done].
  by apply (steps_trans _ [] _ [] _ Hs1).
Qed.
End Runs.
End Cluster.

(** ** Two workers on the sample kernel

    Worker 0 owns the even keys and worker 1 the odd ones.  Worker 0 lowers
    the distance of vertex 1, flushes, and the message is delivered. *)
Section Sample.
#[local] Abbreviation table := (GlobalTable.t (K := Z) (V := Z) (D := list Z)).

Definition sample_owners : list Z := [0; 1].
Definition boot (w : Z) : outcome table :=
  tb ← Init 0 2 (Some {| helper_id := w; helper_epoch := 0 |});
  tb ← UpdatePartitions tb 0 0 0;
  tb ← UpdatePartitions tb 1 1 0;
  tb ← InitStateTable tb;
  put tb w far far [].
Definition get_ok {A} (m : outcome A) (d : A) : A := match m with Ok a => a | _ => d end.
Definition no_table : table := GlobalTable.mk 0 0 None [] [] 0 0 0 [] false.
Definition worker0 : table := Eval vm_compute in get_ok (boot 0) no_table.
Definition worker1 : table := Eval vm_compute in get_ok (boot 1) no_table.
Definition sample_size (d : KVPairData) : Z := Z.of_nat (length (kv_data d)).
Definition buffered := Eval vm_compute in get_ok (accumulateF1 10 sample_size worker0 1 5) (no_table, []).
Definition flushed := Eval vm_compute in get_ok (SendUpdates sample_size buffered.1) (no_table, []).
Definition sent_data : KVPairData := Eval vm_compute in
  match flushed.2 with [PutRequest _ d] => d | _ => KVPairData_Clear end.
Definition applied := Eval vm_compute in get_ok (ApplyUpdates 10 sample_size false worker1 sent_data) (no_table, []).

Definition c0 : t := mk [worker0; worker1] [].
Definition c1 : t := mk [buffered.1; worker1] [].
Definition c2 : t := mk [flushed.1; worker1] [PutRequest 2 sent_data].
Definition c3 : t := mk [flushed.1; applied.1] [].

Lemma sample_run : steps 10 sample_size c0 [(1, 5)] c3.
Proof.
  apply (steps_next _ _ c0 (Some (1, 5)) c1 []).
  { exact (step_accumulate 10 sample_size [worker0; worker1] [] 0 worker0 1 5 buffered.1 [] eq_refl eq_refl). }
  apply (steps_next _ _ c1 None c2 []).
  { exact (step_flush 10 sample_size [buffered.1; worker1] [] 0 buffered.1 flushed.1 flushed.2 eq_refl eq_refl). }
  apply (steps_next _ _ c2 None c3 []); [|apply steps_refl].
  exact (step_deliver 10 sample_size [flushed.1; worker1] [] [] 2 sent_data false worker1 applied.1 [] eq_refl eq_refl).
Qed.

(** A table with one row. *)
Ltac sample_homed :=
  intros k Hk; apply elem_of_dom in Hk; unfold StateTable.contents, to_map in Hk;
  rewrite dom_list_to_map in Hk; apply elem_of_list_to_set, list_elem_of_singleton in Hk; by subst k.

Lemma sample_wf : wf 10 sample_owners c0.
Proof.
  split; [|constructor]. intros w tb Hw.
  destruct w as [|[|w]]; cbn in Hw; try done; injection Hw as <-.
  - split; [|split; [by vm_compute|done]]. split; try done; [by exists 0|].
    intros i p Hp. destruct i as [|[|i]]; cbn in Hp; try done; injection Hp as <-.
    + split; [done|]. split; [by apply StateTable.state_wfb_sound|]. sample_homed.
    + split; [done|]. split_and!; [by apply DeltaTable.wfb_sound|done|done|]. by intros k v Hk.
  - split; [|split; [by vm_compute|done]]. split; try done; [by exists 0|].
    intros i p Hp. destruct i as [|[|i]]; cbn in Hp; try done; injection Hp as <-.
    + split; [done|]. split_and!; [by apply DeltaTable.wfb_sound|done|done|]. by intros k v Hk.
    + split; [done|]. split; [by apply StateTable.state_wfb_sound|]. sample_homed.
Qed.

Ltac sample_quiet :=
  split; [|by intros m ?%not_elem_of_nil]; intros w tb i d Hw Hp;
  destruct w as [|[|w]]; cbn in Hw; try done; injection Hw as <-;
  destruct i as [|[|i]]; cbn in Hp; try done; by injection Hp as <-.
Lemma sample_quiescent : quiescent c3.
Proof. sample_quiet. Qed.

Lemma sample_updates_rep : Forall row_representable [(1, 5)].
Proof. by repeat constructor. Qed.

(** C4 from the state in which the update is still buffered. *)
Lemma sample_wf_c1 : wf 10 sample_owners c1.
Proof.
  destruct (steps_total 10 sample_size sample_owners min_representable c0 [(1, 5)] c1 sample_wf) as [? _]; [|..|done].
  { by repeat constructor. }
  apply (steps_next _ _ c0 (Some (1, 5)) c1 []); [|apply steps_refl].
  exact (step_accumulate 10 sample_size [worker0; worker1] [] 0 worker0 1 5 buffered.1 [] eq_refl eq_refl).
Qed.
Lemma sample_held w k : (w = 0 \/ w = 1) ->
  is_Some (held (if w =? 0 then worker0 else worker1) k) -> k = w.
Proof.
  intros Hw Hh. unfold held in Hh.
  assert (forall tb i, tb = (if w =? 0 then worker0 else worker1) ->
    is_Some match partitions_ tb !! i with
            | Some (Delta d) => DeltaTable.contents d !! k
            | Some (State s) => StateTable.v1 <$> StateTable.contents s !! k
            | None => None
            end -> k = w) as Hgen; [|by eapply Hgen].
  clear Hh. intros tb i -> Hh. destruct Hw as [-> | ->]; cbn [Z.eqb] in Hh;
    destruct i as [|[|i]]; cbn in Hh; try (by destruct Hh).
  all: (apply fmap_is_Some in Hh; destruct Hh as [c Hc]; unfold StateTable.contents, to_map in Hc;
    apply elem_of_list_to_map_2, list_elem_of_singleton in Hc; by injection Hc).
Qed.

Lemma sample_known : known sample_owners c1.
Proof.
  split; [by repeat constructor|]. intros k Hk.
  assert (k = 0 \/ k = 1) as Hk01.
  { destruct (decide (k = 1)) as [|Hne]; [by right|]. left.
    assert (total c1 k = total c0 k) as E.
    { destruct (step_total 10 sample_size sample_owners min_representable c0 (Some (1, 5)) c1 sample_wf) as [_ Ht].
      - intros k' v [= <- <-]. done.
      - exact (step_accumulate 10 sample_size [worker0; worker1] [] 0 worker0 1 5 buffered.1 [] eq_refl eq_refl).
      - rewrite Ht. cbn [added]. unfold single. rewrite decide_False by done. apply oadd_None_r. }
    rewrite E in Hk. unfold total in Hk. cbn [c0 workers net fmap list_fmap osum foldr] in Hk.
    destruct (held worker0 k) as [v|] eqn:H0; [apply (sample_held 0 k); [by left|by exists v]|].
    destruct (held worker1 k) as [v|] eqn:H1; [|by destruct Hk].
    destruct Hne. apply (sample_held 1 k); [by right|by exists v]. }
  destruct Hk01 as [-> | ->]; (split; [by vm_compute|]).
  - exists 0%nat, buffered.1. split_and!; [reflexivity..|]. by eexists.
  - exists 1%nat, worker1. split_and!; [reflexivity..|]. by eexists.
Qed.
Lemma drains_witness : exists c', steps 10 sample_size c1 [] c' /\ quiescent c'.
Proof.
  exact (drains 10 sample_size sample_owners min_representable c1 sample_wf_c1 sample_known).
Defined.

(** C1 on the sample run. *)
Lemma updates_conserved_witness :
  total c3 1 = oadd (K := Z) (D := list Z) (total c0 1) (Some 5) /\ total c3 1 = Some 5.
Proof.
  split; [|vm_compute; reflexivity].
  exact (proj2 (updates_conserved 10 sample_size sample_owners min_representable c0 [(1, 5)] c3
    sample_wf sample_updates_rep sample_run) 1).
Defined.

(** C2 on the sample run: vertex 1 was at distance [far] and is now at 5. *)
Lemma quiescent_delivery_witness : getF1 applied.1 1 = Ok 5.
Proof.
  exact (quiescent_delivery 10 sample_size sample_owners min_representable c0 [(1, 5)] c3 1 1 applied.1
    sample_wf sample_updates_rep sample_run sample_quiescent eq_refl ltac:(by vm_compute) eq_refl).
Defined.

(** C3 on two runs with two updates: worker 0 makes the first, flushes it and
    it is delivered before worker 1 makes the second; or worker 1 makes both, in
    the other order. *)
Definition after1 := Eval vm_compute in get_ok (accumulateF1 10 sample_size applied.1 1 3) (no_table, []).
Definition c_remote : t := mk [flushed.1; after1.1] [].
Definition direct1 := Eval vm_compute in get_ok (accumulateF1 10 sample_size worker1 1 3) (no_table, []).
Definition direct2 := Eval vm_compute in get_ok (accumulateF1 10 sample_size direct1.1 1 5) (no_table, []).
Definition c_direct : t := mk [worker0; direct2.1] [].
Lemma remote_run : steps 10 sample_size c0 [(1, 5); (1, 3)] c_remote.
Proof.
  apply (steps_trans _ _ c0 [(1, 5)] c3 [(1, 3)] c_remote sample_run).
  apply (steps_next _ _ c3 (Some (1, 3)) c_remote []); [|apply steps_refl].
  exact (step_accumulate 10 sample_size [flushed.1; applied.1] [] 1 applied.1 1 3 after1.1 [] eq_refl eq_refl).
Qed.
Lemma direct_run : steps 10 sample_size c0 [(1, 3); (1, 5)] c_direct.
Proof.
  apply (steps_next _ _ c0 (Some (1, 3)) (mk [worker0; direct1.1] []) [(1, 5)]).
  { exact (step_accumulate 10 sample_size [worker0; worker1] [] 1 worker1 1 3 direct1.1 [] eq_refl eq_refl). }
  apply (steps_next _ _ _ (Some (1, 5)) c_direct []); [|apply steps_refl].
  exact (step_accumulate 10 sample_size [worker0; direct1.1] [] 1 direct1.1 1 5 direct2.1 [] eq_refl eq_refl).
Qed.
Lemma remote_quiescent : quiescent c_remote.
Proof. sample_quiet. Qed.
Lemma direct_quiescent : quiescent c_direct.
Proof. sample_quiet. Qed.
Lemma interleaving_irrelevant_witness :
  getF1 after1.1 1 = getF1 direct2.1 1 /\ getF1 after1.1 1 = Ok 3.
Proof.
  split; [|vm_compute; reflexivity].
  exact (interleaving_irrelevant 10 sample_size sample_owners min_representable c0 [(1, 5); (1, 3)] [(1, 3); (1, 5)]
    c_remote c_direct 1 1 after1.1 direct2.1 sample_wf ltac:(by repeat constructor) (Permutation_swap _ _ _)
    remote_run direct_run remote_quiescent direct_quiescent eq_refl ltac:(by vm_compute) eq_refl eq_refl).
Defined.

(** ** The operations of one worker's table *)
Lemma worker0_wf : GlobalTable.wf sample_owners 0 worker0 /\ buffered_ok 10 worker0.
Proof. exact (wf_workers _ _ _ sample_wf 0%nat worker0 eq_refl). Qed.
Lemma worker1_wf : GlobalTable.wf sample_owners 1 worker1 /\ buffered_ok 10 worker1.
Proof. exact (wf_workers _ _ _ sample_wf 1%nat worker1 eq_refl). Qed.
Lemma buffered_wf : GlobalTable.wf sample_owners 0 buffered.1.
Proof. exact (proj1 (wf_workers _ _ _ sample_wf_c1 0%nat buffered.1 eq_refl)). Qed.

Lemma flush_moves_updates_witness :
  exists tb' ms, SendUpdates sample_size buffered.1 = Ok (tb', ms) /\
    oadd (K := Z) (D := list Z) (held tb' 1) (inflight (D := list Z) ms 1) = Some 5.
Proof.
  destruct (flush_moves_updates sample_size buffered.1 buffered_wf) as (tb' & ms & E & _ & _ & _ & Hh & _).
  - vm_compute. discriminate.
  - exists tb', ms. split; [exact E|exact (Hh 1)].
Defined.
Lemma accumulate_adds_witness :
  exists tb' ms, accumulateF1 10 sample_size worker0 1 5 = Ok (tb', ms) /\
    oadd (K := Z) (D := list Z) (held tb' 1) (inflight (D := list Z) ms 1) = Some 5.
Proof.
  destruct (accumulate_adds 10 sample_size min_representable worker0 1 5 (proj1 worker0_wf) (proj2 worker0_wf))
    as (tb' & ms & E & _ & _ & _ & Hh & _).
  - done.
  - done.
  - split; [by vm_compute|]. vm_compute. discriminate.
  - exists tb', ms. split; [exact E|exact (Hh 1)].
Defined.
Lemma owner_applies_witness :
  exists tb', ApplyUpdates 10 sample_size false worker1 sent_data = Ok (tb', []) /\ held tb' 1 = Some 5.
Proof.
  destruct (owner_applies 10 sample_size min_representable worker1 sent_data [(1, 5)] 1
    (proj1 worker1_wf) (proj2 worker1_wf)) as (tb' & E & _ & Hh & _).
  - reflexivity.
  - reflexivity.
  - vm_compute. reflexivity.
  - exact sample_updates_rep.
  - apply Forall_singleton. split_and!; [by vm_compute|reflexivity|]. by eexists.
  - exists tb'. split; [exact E|exact (Hh 1)].
Defined.
Lemma reassigned_shard_undefined_witness :
  (tb ← UpdatePartitions worker1 1 0 0; accumulateF1 10 sample_size tb 3 7) = Undefined.
Proof.
  destruct (partitions_ worker1 !! 1%nat) as [[d|s]|] eqn:E; [discriminate E| |discriminate E].
  exact (reassigned_shard_undefined 10 sample_size worker1 1 s 0 0 3 7 (proj1 worker1_wf) E eq_refl ltac:(done)).
Defined.
End Sample.
End Cluster.
