(* ===== verification/Master.v ===== *)
(** * The master: master/master.h and master/master.cc

    The master assigns the shards of the tables to workers, turns a kernel run
    into one task per shard, gives each idle worker its next task, moves
    pending tasks to idle workers (work stealing), collects the finished ones,
    and decides on termination and checkpoints.

    A [TaskState] is reached through the [work] map of one worker at a time, so
    it is kept there by value.  The [std::map] of tasks is a [gmap]; where its
    order is visible (the list of pending tasks) the model sorts by [Taskid].
    Clocks and the network are outside: what the master reads from them is an
    argument of the step that reads it, and what it sends is returned. *)
From stdpp Require Import sorting.
From S2P Require Import Prelude Float Table.

Module Master.

(** ** Tasks *)
Abbreviation Taskid := (Z * Z)%type.
Definition taskid_lt (a b : Taskid) : bool := (a.1 <? b.1) || ((a.1 =? b.1) && (a.2 <? b.2)).
Inductive Status := PENDING | ACTIVE | FINISHED.
#[export] Instance Status_eq_dec : EqDecision Status.
Proof. solve_decision. Defined.

Record TaskState := { id : Taskid; status : Status; size : Z; stolen : bool }.
(** The constructor takes an [int64_t] and stores an [int]. *)
Definition TaskState_new (i : Taskid) (n : Z) : TaskState :=
  {| id := i; status := PENDING; size := to_int32 n; stolen := false |}.
Definition with_status (t : TaskState) (s : Status) : TaskState :=
  {| id := id t; status := s; size := size t; stolen := stolen t |}.
Definition with_stolen (t : TaskState) : TaskState :=
  {| id := id t; status := status t; size := size t; stolen := true |}.
Definition WeightCompare (a b : TaskState) : bool :=
  if stolen a && negb (stolen b) then true else size a <? size b.

(** [std::max_element]: the first element that no later one exceeds. *)
Definition max_element {A} (cmp : A -> A -> bool) (l : list A) : option A :=
  match l with
  | [] => None
  | x :: l => Some (foldl (fun best y => if cmp best y then y else best) x l)
  end.

(** ** Workers *)
Record WorkerState := {
  w_id : Z;
  work : gmap Taskid TaskState;
  shards : gset Taskid;
  checkpointing : bool;
  termchecking : bool;
  current : spec_float;
  updates : Z
}.
Definition WorkerState_new (i : Z) : WorkerState :=
  {| w_id := i; work := ∅; shards := ∅; checkpointing := false; termchecking := false;
     current := S754_zero false; updates := 0 |}.
Definition set_work (w : WorkerState) (ts : gmap Taskid TaskState) : WorkerState :=
  {| w_id := w_id w; work := ts; shards := shards w; checkpointing := checkpointing w;
     termchecking := termchecking w; current := current w; updates := updates w |}.
Definition set_shards (w : WorkerState) (s : gset Taskid) : WorkerState :=
  {| w_id := w_id w; work := work w; shards := s; checkpointing := checkpointing w;
     termchecking := termchecking w; current := current w; updates := updates w |}.
Definition set_checkpointing (w : WorkerState) (b : bool) : WorkerState :=
  {| w_id := w_id w; work := work w; shards := shards w; checkpointing := b;
     termchecking := termchecking w; current := current w; updates := updates w |}.
Definition set_report (w : WorkerState) (b : bool) (c : spec_float) (u : Z) : WorkerState :=
  {| w_id := w_id w; work := work w; shards := shards w; checkpointing := checkpointing w;
     termchecking := b; current := c; updates := u |}.

(** [pending()], [active()] and [finished()], in the order of the map. *)
Definition by_id (a b : TaskState) : Prop := taskid_lt (id b) (id a) = false.
#[export] Instance by_id_dec a b : Decision (by_id a b).
Proof. unfold by_id. apply _. Defined.
Definition with_state (w : WorkerState) (s : Status) : list TaskState :=
  merge_sort by_id (filter (fun t => status t = s) (map_to_list (work w)).*2).
Definition num (w : WorkerState) (s : Status) : Z := Z.of_nat (length (with_state w s)).
Definition num_assigned (w : WorkerState) : Z := Z.of_nat (base.size (work w)).
Definition serves (w : WorkerState) (i : Taskid) : bool := bool_decide (i ∈ shards w).
Definition assign_task (w : WorkerState) (t : TaskState) : WorkerState := set_work w (<[id t := t]> (work w)).
(** [work.erase(work.find(s->id))]: erasing [end()] is undefined. *)
Definition remove_task (w : WorkerState) (t : TaskState) : outcome WorkerState :=
  _ ← deref (work w !! id t); Ok (set_work w (delete (id t) (work w))).
Definition clear_tasks (w : WorkerState) : WorkerState := set_work w ∅.
Definition set_finished (w : WorkerState) (i : Taskid) : outcome WorkerState :=
  t ← match work w !! i with Some t => Ok t | None => Fatal end;
  _ ← CHECK (bool_decide (status t = ACTIVE));
  Ok (set_work w (<[i := with_status t FINISHED]> (work w))).
(** [idle_time() > 0] is possible only when every task is finished. *)
Definition may_be_idle (w : WorkerState) : bool := num w FINISHED =? num_assigned w.

(** [get_next]: the chosen task becomes active; the request carries the table
    of the run and the task's shard. *)
Definition get_next (table : Z) (w : WorkerState) : option (WorkerState * Taskid) :=
  best ← max_element WeightCompare (with_state w PENDING);
  Some (set_work w (<[id best := with_status best ACTIVE]> (work w)), (table, (id best).2)).

Section Master.
(** The tables of the registry: identifiers, in order, with their number of
    shards; and the workers that are dead. *)
Variable tables : list (Z * Z).
Variable dead_workers : gset Z.
(** [FLAGS_work_stealing]. *)
Variable work_stealing : bool.

Definition alive (w : WorkerState) : bool := bool_decide (w_id w ∉ dead_workers).
Definition assign_shard (w : WorkerState) (shard : Z) (should_service : bool) : outcome WorkerState :=
  for_each (fun w '(t, n) =>
      if shard <? n then
        if should_service then Ok (set_shards w (shards w ∪ {[(t, shard)]}))
        else if serves w (t, shard) then Ok (set_shards w (shards w ∖ {[(t, shard)]})) else Undefined
      else Ok w) tables w.

(** ** Assignment *)

(** [worker_for_shard]: the first worker that serves it. *)
Definition worker_for_shard (ws : list WorkerState) (i : Taskid) : option nat :=
  fst <$> list_find (fun w => serves w i = true) ws.
(** The alive worker with the fewest shards, the first one of them. *)
Definition fewer (ws : list WorkerState) (best : option nat) (i : nat) : option nat :=
  match ws !! i with
  | Some w =>
    if alive w &&
       match best with
       | None => true
       | Some b => match ws !! b with
                   | Some wb => bool_decide (base.size (shards w) < base.size (shards wb))%nat
                   | None => false
                   end
       end
    then Some i else best
  | None => best
  end.
Definition fewest (ws : list WorkerState) : option nat := foldl (fewer ws) None (seq 0 (length ws)).

(** [entries] gives [tables_[table]->shard_size(shard)], the last size that a
    worker reported for the shard. *)
Definition assign_worker (entries : Taskid -> Z) (ws : list WorkerState) (i : Taskid) : outcome (list WorkerState) :=
  match worker_for_shard ws i with
  | Some n => w ← deref (ws !! n); Ok (<[n := assign_task w (TaskState_new i (entries i))]> ws)
  | None =>
    n ← match fewest ws with Some n => Ok n | None => Fatal end;
    w ← deref (ws !! n);
    _ ← CHECK (alive w);
    w ← assign_shard w i.2 true;
    Ok (<[n := assign_task w (TaskState_new i (entries i))]> ws)
  end.
Definition assign_tables (entries : Taskid -> Z) (ws : list WorkerState) : outcome (list WorkerState) :=
  for_each (fun ws '(t, n) =>
      for_each (fun ws j => assign_worker entries ws (t, j)) (seqZ 0 n) ws) tables ws.
Definition assign_tasks (entries : Taskid -> Z) (table : Z) (shards : list Z) (ws : list WorkerState) :
    outcome (list WorkerState) :=
  for_each (fun ws s => assign_worker entries ws (table, s)) shards (clear_tasks <$> ws).

(** [send_table_assignments]: the shards with their workers (within a worker, in
    the order of the set). *)
Definition send_table_assignments (ws : list WorkerState) : list (Taskid * Z) :=
  mjoin (imap (fun n w => (fun i => (i, Z.of_nat n)) <$> elements (shards w)) ws).

(** ** Dispatching and stealing *)

(** The kernel requests sent: worker and task. *)
Definition dispatch_work (table : Z) (ws : list WorkerState) : list WorkerState * list (Z * Taskid) :=
  foldr (fun w '(ws, reqs) =>
      if (0 <? num w PENDING) && (num w ACTIVE =? 0) then
        match get_next table w with
        | Some (w', i) => (w' :: ws, (w_id w, i) :: reqs)
        | None => (w :: ws, reqs)
        end
      else (w :: ws, reqs)) ([], []) ws.

Definition PendingCompare (ws : list WorkerState) (a b : nat) : bool :=
  match ws !! a, ws !! b with
  | Some wa, Some wb => num wa PENDING <? num wb PENDING
  | _, _ => false
  end.
Definition f64_max2 (x y : spec_float) : spec_float := if SFltb x y then y else x.
(** The times that [steal_work] compares: moving the task, and working off the
    queue of its worker. *)
Definition average_size (entries : Taskid -> Z) (table n : Z) : spec_float :=
  f64_div (foldl (fun acc i => f64_add acc (f64_of_Z (entries (table, i)))) (S754_zero false) (seqZ 0 n)) (f64_of_Z n).
Definition move_cost (avg_time avg_size : spec_float) (task : TaskState) : spec_float :=
  f64_max2 (f64_of_Z 1) (f64_div (f64_mul (f64_of_Z (to_int32 (2 * size task))) avg_time) avg_size).
Definition eta (avg_time avg_size : spec_float) (pending : list TaskState) : spec_float :=
  foldl (fun acc p => f64_add acc (f64_max2 (f64_of_Z 1) (f64_div (f64_mul (f64_of_Z (size p)) avg_time) avg_size)))
    (S754_zero false) pending.

Definition steal_work (entries : Taskid -> Z) (table num_shards : Z) (ws : list WorkerState) (idle_worker : nat)
    (avg_completion_time : spec_float) : outcome (list WorkerState * bool) :=
  if negb work_stealing then Ok (ws, false)
  else
    dst ← deref (ws !! idle_worker);
    if negb (alive dst) then Ok (ws, false)
    else
      n ← deref (max_element (PendingCompare ws) (seq 0 (length ws)));
      src ← deref (ws !! n);
      if num src PENDING =? 0 then Ok (ws, false)
      else
        let pending := with_state src PENDING in
        task ← deref (max_element WeightCompare pending);
        if stolen task then Ok (ws, false)
        else
          let avg_size := average_size entries table num_shards in
          if SFleb (eta avg_completion_time avg_size pending) (move_cost avg_completion_time avg_size task)
          then Ok (ws, false)
          else
            let task := with_stolen task in
            (* [dst] and [src] are references into [workers_]. *)
            dst ← assign_shard dst (id task).2 true;
            let ws := <[idle_worker := dst]> ws in
            src ← deref (ws !! n);
            src ← assign_shard src (id task).2 false;
            src ← remove_task src task;
            let ws := <[n := src]> ws in
            dst ← deref (ws !! idle_worker);
            Ok (<[idle_worker := assign_task dst task]> ws, true).

(** ** A kernel run *)

(** The parts of [Master] and of its [current_run_] that a run uses. *)
Record t := mk {
  workers_ : list WorkerState;
  run_table : Z;
  run_shards : list Z;
  dispatched_ : Z;
  finished_ : Z;
  shards_assigned_ : bool;
  kernel_epoch_ : Z;
  entries : gmap Taskid Z
}.
Implicit Types m : t.
Definition shard_size (e : gmap Taskid Z) (i : Taskid) : Z := default 0 (e !! i).
Definition num_shards (table : Z) : Z := match list_find (fun x => x.1 = table) tables with Some (_, x) => x.2 | None => 0 end.

(** What the master sends. *)
Inductive message :=
  | ShardAssignment (l : list (Taskid * Z))
  | RunKernel (worker : Z) (i : Taskid).

(** [run], up to the barrier: [table_id] is [r.table->id()]. *)
Definition run m (table_id : Z) (shards : list Z) : outcome (t * list message) :=
  _ ← CHECK (Z.of_nat (length (run_shards m)) =? finished_ m);
  '(ws, ms) ← (if shards_assigned_ m then Ok (workers_ m, [])
               else ws ← assign_tables (shard_size (entries m)) (workers_ m);
                    Ok (ws, [ShardAssignment (send_table_assignments ws)]));
  ws ← assign_tasks (shard_size (entries m)) table_id shards ws;
  let '(ws, reqs) := dispatch_work table_id ws in
  Ok (mk ws table_id shards (Z.of_nat (length reqs)) 0 true (kernel_epoch_ m + 1) (entries m),
      ms ++ ((fun r => RunKernel r.1 r.2) <$> reqs)).

(** [reap_one_task] for a [KernelDone] of worker [w] that reports [sizes]. *)
Definition reap_one_task m (w : nat) (i : Taskid) (sizes : list (Taskid * Z)) : outcome t :=
  ws ← deref (workers_ m !! w);
  ws ← set_finished ws i;
  Ok (mk (<[w := ws]> (workers_ m)) (run_table m) (run_shards m) (dispatched_ m) (finished_ m)
       (shards_assigned_ m) (kernel_epoch_ m) (foldl (fun (e : gmap Taskid Z) (x : Taskid * Z) => <[x.1 := x.2]> e) (entries m) sizes)).

(** One attempt to steal in the loop of [barrier]: a worker, by its position
    (which the constructor of [Master] makes its [id]), and the average
    completion time; whether the thresholds on the times are passed is decided
    by the caller. *)
Definition steal_attempt (s : t * bool) (a : nat * spec_float) : outcome (t * bool) :=
  let '(m, need_update) := s in
  w ← deref (workers_ m !! a.1);
  if may_be_idle w then
    '(ws, b) ← steal_work (shard_size (entries m)) (run_table m) (num_shards (run_table m)) (workers_ m) a.1 a.2;
    Ok (mk ws (run_table m) (run_shards m) (dispatched_ m) (finished_ m) (shards_assigned_ m)
          (kernel_epoch_ m) (entries m), need_update || b)
  else Ok (m, need_update).

(** An iteration of [barrier]'s loop that reaps a task; [attempts] are the
    workers that the periodic block considers for stealing.  The checkpoints and
    termination checks of the loop, which leave tasks and shards alone, are
    separate steps below. *)
Definition barrier_step m (w : nat) (i : Taskid) (sizes : list (Taskid * Z)) (attempts : list (nat * spec_float)) :
    outcome (t * list message) :=
  m ← reap_one_task m w i sizes;
  let m := mk (workers_ m) (run_table m) (run_shards m) (dispatched_ m) (finished_ m + 1)
             (shards_assigned_ m) (kernel_epoch_ m) (entries m) in
  '(m, need_update) ← for_each steal_attempt attempts (m, false);
  let ms := if need_update : bool then [ShardAssignment (send_table_assignments (workers_ m))] else [] in
  if dispatched_ m <? Z.of_nat (length (run_shards m)) then
    let '(ws, reqs) := dispatch_work (run_table m) (workers_ m) in
    Ok (mk ws (run_table m) (run_shards m) (dispatched_ m + Z.of_nat (length reqs)) (finished_ m)
          (shards_assigned_ m) (kernel_epoch_ m) (entries m),
        ms ++ ((fun r => RunKernel r.1 r.2) <$> reqs))
  else Ok (m, ms).

(** ** Termination checks and checkpoints *)

(** [termcheck]: [reports] are the buffered [TermcheckDelta]s of each worker. *)
Definition read_reports (w : WorkerState) (reports : list (Z * spec_float)) : WorkerState :=
  foldl (fun w r => set_report w true r.2 r.1) w reports.
Definition termcheck (threshold : spec_float) (c : Diff) (ws : list WorkerState) (reports : list (list (Z * spec_float))) :
    list WorkerState * Diff * bool :=
  let ws := zip_with read_reports ws reports in
  if bool_decide (length (filter (fun w => termchecking w = true) ws) < length ws)%nat then (ws, c, false)
  else
    let '(bterm, c) := Diff_terminate threshold c (current <$> ws) in
    if bterm then (ws, c, true)
    else ((fun w => set_report w false (current w) (updates w)) <$> ws, c, false).

(** The checkpoint state; [start_checkpoint] and [start_worker_checkpoint] call
    each other, the inner call returning at once. *)
Inductive CheckpointType := CP_NONE | CP_ROLLING | CP_MASTER_CONTROLLED.
Record cp_state := { cp_epoch : Z; cp_on : bool; cp_type : CheckpointType; cp_workers : list WorkerState }.
Inductive cp_message := StartCheckpoint (worker epoch : Z) (ty : CheckpointType) | FinishCheckpoint (worker : Z).

Definition start_one (epoch : Z) (ty : CheckpointType) (s : list WorkerState * list cp_message) (n : nat) :
    outcome (list WorkerState * list cp_message) :=
  let '(ws, ms) := s in
  w ← deref (ws !! n);
  if checkpointing w then Ok (ws, ms)
  else Ok (<[n := set_checkpointing w true]> ws, ms ++ [StartCheckpoint (Z.of_nat n) epoch ty]).
Definition start_checkpoint (c : cp_state) : outcome (cp_state * list cp_message) :=
  if cp_on c then Ok (c, [])
  else
    let ty := match cp_type c with CP_NONE => CP_MASTER_CONTROLLED | ty => ty end in
    '(ws, ms) ← for_each (start_one (cp_epoch c + 1) ty) (seq 0 (length (cp_workers c))) (cp_workers c, []);
    Ok ({| cp_epoch := cp_epoch c + 1; cp_on := true; cp_type := ty; cp_workers := ws |}, ms).
Definition start_worker_checkpoint (c : cp_state) (n : nat) : outcome (cp_state * list cp_message) :=
  '(c, ms) ← start_checkpoint c;
  '(ws, ms) ← start_one (cp_epoch c) (cp_type c) (cp_workers c, ms) n;
  Ok ({| cp_epoch := cp_epoch c; cp_on := cp_on c; cp_type := cp_type c; cp_workers := ws |}, ms).

(** [finish_worker_checkpoint]; the worker's answer is read with a blocking
    receive. *)
Definition finish_one (ty : CheckpointType) (s : list WorkerState * list cp_message) (n : nat) :
    outcome (list WorkerState * list cp_message) :=
  let '(ws, ms) := s in
  w ← deref (ws !! n);
  _ ← CHECK (checkpointing w);
  Ok (<[n := set_checkpointing w false]> ws,
      ms ++ match ty with CP_MASTER_CONTROLLED => [FinishCheckpoint (Z.of_nat n)] | _ => [] end).
Definition finish_checkpoint (c : cp_state) : outcome (cp_state * list cp_message) :=
  '(ws, ms) ← for_each (finish_one (cp_type c)) (seq 0 (length (cp_workers c))) (cp_workers c, []);
  Ok ({| cp_epoch := cp_epoch c; cp_on := false; cp_type := cp_type c; cp_workers := ws |}, ms).
Definition checkpoint (c : cp_state) : outcome (cp_state * list cp_message) :=
  '(c, ms) ← start_checkpoint c;
  '(c, ms') ← finish_checkpoint c;
  Ok (c, ms ++ ms').

(** [run_all], [run_one], [run_range]. *)
Definition run_all m (table_id : Z) : outcome (t * list message) := run m table_id (seqZ 0 (num_shards table_id)).
Definition run_one m (table_id : Z) : outcome (t * list message) := run m table_id (seqZ 0 1).

(** ** Counting tasks *)
Definition count (ts : gmap Taskid TaskState) (s : Status) : nat :=
  length (filter (fun t => status t = s) (map_to_list ts).*2).
Definition hit (t : TaskState) (s : Status) : nat := if decide (status t = s) then 1 else 0.

Lemma num_count w s : num w s = Z.of_nat (count (work w) s).
Proof. unfold num, with_state, count. by rewrite merge_sort_Permutation. Qed.
Lemma elem_of_with_state w s t :
  t ∈ with_state w s <-> (exists i, work w !! i = Some t) /\ status t = s.
Proof.
  unfold with_state. rewrite merge_sort_Permutation, list_elem_of_filter, list_elem_of_fmap.
  split; [intros [Hs ([i x] & -> & Hx)]; split; [|done]; exists i; by apply elem_of_map_to_list|].
  intros [[i Hi] Hs]. split; [done|]. exists (i, t). split; [done|]. by apply elem_of_map_to_list.
Qed.
Lemma count_insert_new ts i t s : ts !! i = None -> count (<[i := t]> ts) s = (hit t s + count ts s)%nat.
Proof.
  intros Hi. unfold count, hit. rewrite (map_to_list_insert ts i t Hi), fmap_cons, filter_cons. cbn [snd].
  by case_decide.
Qed.
Lemma count_delete ts i t s : ts !! i = Some t -> count ts s = (hit t s + count (delete i ts) s)%nat.
Proof. intros Hi. rewrite <- (insert_delete_id ts i t Hi) at 1. apply count_insert_new, lookup_delete_eq. Qed.
Lemma count_update ts i t t' s :
  ts !! i = Some t -> (count (<[i := t']> ts) s + hit t s = count ts s + hit t' s)%nat.
Proof.
  intros Hi. rewrite (count_delete ts i t s Hi), <- insert_delete_eq, count_insert_new by apply lookup_delete_eq. lia.
Qed.
Lemma count_total ts : base.size ts = (count ts PENDING + count ts ACTIVE + count ts FINISHED)%nat.
Proof.
  induction ts as [|i t ts Hi IH] using map_ind; [done|].
  rewrite map_size_insert_None, !count_insert_new, IH by done. unfold hit.
  destruct (status t); repeat ((rewrite decide_True by done) || (rewrite decide_False by done)); lia.
Qed.
Lemma count_pos ts s : (0 < count ts s)%nat <-> exists i t, ts !! i = Some t /\ status t = s.
Proof.
  unfold count. split.
  - destruct (filter (fun t => status t = s) (map_to_list ts).*2) as [|t l] eqn:E; [cbn; lia|]. intros _.
    assert (t ∈ filter (fun t => status t = s) (map_to_list ts).*2) as Hin by (rewrite E; left).
    apply list_elem_of_filter in Hin as [Hs Hin]. apply list_elem_of_fmap in Hin as ([i x] & -> & Hx).
    exists i, x. by apply elem_of_map_to_list in Hx.
  - intros (i & t & Hi & Hs). rewrite <- (map_to_list_delete ts i t Hi), fmap_cons, filter_cons_True by done. cbn. lia.
Qed.

(** The sum over the workers, when one of them changes. *)
Lemma sum_update (f : WorkerState -> nat) ws n w w' :
  ws !! n = Some w -> (sum_list_with f (<[n := w']> ws) + f w = sum_list_with f ws + f w')%nat.
Proof.
  intros Hn. rewrite (insert_take_drop ws n w') by (by eapply lookup_lt_Some).
  assert (sum_list_with f ws = sum_list_with f (take n ws) + (f w + sum_list_with f (drop (S n) ws)))%nat as ->.
  { rewrite <- (take_drop_middle ws n w Hn) at 1. by rewrite sum_list_with_app. }
  rewrite sum_list_with_app. cbn. lia.
Qed.
Lemma sum_le (f g : WorkerState -> nat) ws :
  (forall w, w ∈ ws -> f w <= g w)%nat -> (sum_list_with f ws <= sum_list_with g ws)%nat.
Proof.
  induction ws as [|w ws IH]; intros Hle; [done|]. cbn.
  pose proof (Hle w ltac:(left)). specialize (IH (fun w' Hw' => Hle w' (list_elem_of_further _ _ _ Hw'))). lia.
Qed.
Lemma sum_eq (f g : WorkerState -> nat) ws :
  (forall w, w ∈ ws -> f w <= g w)%nat -> sum_list_with f ws = sum_list_with g ws ->
  forall w, w ∈ ws -> f w = g w.
Proof.
  induction ws as [|w ws IH]; intros Hle Hs w' Hw'; [by apply not_elem_of_nil in Hw'|]. cbn in Hs.
  pose proof (Hle w ltac:(left)). assert (forall w, w ∈ ws -> (f w <= g w)%nat) as Hle' by (intros; apply Hle; by right).
  pose proof (sum_le f g ws Hle'). apply elem_of_cons in Hw' as [->|Hw']; [lia|]. apply IH; [done|lia|done].
Qed.

Lemma sum_zero (f : WorkerState -> nat) ws : (forall w, w ∈ ws -> f w = 0%nat) -> sum_list_with f ws = 0%nat.
Proof.
  induction ws as [|w ws IH]; intros Hz; [done|]. cbn. rewrite (Hz w) by left.
  apply IH. intros w' Hw'. apply Hz. by right.
Qed.

Lemma max_element_elem {A} (cmp : A -> A -> bool) l x : max_element cmp l = Some x -> x ∈ l.
Proof.
  destruct l as [|y l]; [done|]. intros [= <-]. revert y. induction l as [|z l IH]; intros y; [left|].
  cbn. destruct (cmp y z).
  - right. apply IH.
  - specialize (IH y). apply elem_of_cons in IH as [->|IH]; [left|right; by right].
Qed.
Lemma max_element_Some {A} (cmp : A -> A -> bool) l : l <> [] -> exists x, max_element cmp l = Some x.
Proof. destruct l as [|y l]; [done|]. intros _. by eexists. Qed.

(** ** Placement of shards and tasks *)
Section Placement.
(** [tables] is a [std::map]: the identifiers are distinct. *)
Hypothesis tables_NoDup : NoDup tables.*1.

Definition valid (i : Taskid) : Prop := exists n, (i.1, n) ∈ tables /\ 0 <= i.2 < n.
(** The shards of all the tables with number [s]. *)
Definition column (l : list (Z * Z)) (s : Z) : gset Taskid :=
  list_to_set ((fun x => (x.1, s)) <$> filter (fun x => s < x.2) l).

Lemma elem_of_column l s i : i ∈ column l s <-> i.2 = s /\ exists n, (i.1, n) ∈ l /\ s < n.
Proof.
  unfold column. rewrite elem_of_list_to_set, list_elem_of_fmap. split.
  - intros ([t n] & -> & Hx). apply list_elem_of_filter in Hx as [Hs Hx]. cbn in *. split; [done|]. by exists n.
  - intros [Hs (n & Hx & Hn)]. exists (i.1, n). split; [destruct i; cbn in *; by subst|].
    apply list_elem_of_filter. done.
Qed.

Lemma set_shards_id w : set_shards w (shards w) = w.
Proof. by destruct w. Qed.

Lemma column_cons t n l s : s < n -> column ((t, n) :: l) s = {[(t, s)]} ∪ column l s.
Proof. intros Hs. unfold column. by rewrite filter_cons_True. Qed.
Lemma column_skip t n l s : n <= s -> column ((t, n) :: l) s = column l s.
Proof. intros Hs. unfold column. rewrite filter_cons_False; [done|]. cbn. lia. Qed.

Lemma assign_shard_true w s : assign_shard w s true = Ok (set_shards w (shards w ∪ column tables s)).
Proof.
  unfold assign_shard. generalize tables as l. clear tables_NoDup. intros l. revert w.
  induction l as [|[t n] l IH]; intros w; cbn [for_each].
  { assert (shards w ∪ column [] s = shards w) as -> by (unfold column; cbn; set_solver). by rewrite set_shards_id. }
  destruct (Z.ltb_spec s n); run; rewrite IH; cbn [shards set_shards]; unfold set_shards; cbn [w_id work checkpointing termchecking current updates].
  - rewrite column_cons by done. do 2 f_equal. set_solver.
  - by rewrite column_skip.
Qed.

Lemma assign_shard_false w s :
  column tables s ⊆ shards w -> assign_shard w s false = Ok (set_shards w (shards w ∖ column tables s)).
Proof.
  unfold assign_shard. revert tables_NoDup. generalize tables as l. intros l. revert w.
  induction l as [|[t n] l IH]; intros w Hnd Hsub; cbn [for_each].
  { assert (shards w ∖ column [] s = shards w) as -> by (unfold column; cbn; set_solver). by rewrite set_shards_id. }
  apply NoDup_cons in Hnd as [Hni Hnd]. cbn [fst] in Hni.
  destruct (Z.ltb_spec s n) as [Hs|Hs].
  - rewrite column_cons in * by done. unfold serves. rewrite bool_decide_eq_true_2 by set_solver. run.
    rewrite IH; [cbn [shards set_shards]; unfold set_shards; do 2 f_equal; set_solver|done|].
    cbn [shards set_shards]. intros i Hi. apply elem_of_difference. split; [set_solver|].
    intros ->%elem_of_singleton. apply elem_of_column in Hi as [_ (n' & Hin & _)]. apply Hni.
    apply list_elem_of_fmap. by exists (t, n').
  - rewrite column_skip in * by done. run. by apply IH.
Qed.

(** Every task sits under its identifier, at the worker that serves its shard;
    a shard is served by one worker, which is alive, in all tables at once. *)
Record placed (ws : list WorkerState) : Prop := {
  pl_keyed : forall n w i x, ws !! n = Some w -> work w !! i = Some x -> id x = i;
  pl_serve : forall n w i x, ws !! n = Some w -> work w !! i = Some x -> i ∈ shards w;
  pl_excl : forall a b wa wb i, ws !! a = Some wa -> ws !! b = Some wb -> i ∈ shards wa -> i ∈ shards wb -> a = b;
  pl_closed : forall n w i, ws !! n = Some w -> i ∈ shards w -> valid i /\ column tables i.2 ⊆ shards w;
  pl_alive : forall n w i, ws !! n = Some w -> i ∈ shards w -> alive w = true
}.

(** Giving a task to the worker that serves its shard. *)
Lemma placed_task ws n w x :
  placed ws -> ws !! n = Some w -> id x ∈ shards w -> placed (<[n := assign_task w x]> ws).
Proof.
  intros [Hk Hs He Hc Ha] Hn Hx.
  assert (forall a wa, <[n := assign_task w x]> ws !! a = Some wa ->
    (a = n /\ wa = assign_task w x) \/ (a <> n /\ ws !! a = Some wa)) as Hl.
  { intros a wa Hl. apply list_lookup_insert_Some in Hl as [(<- & <- & _)|[? ?]]; auto. }
  assert (forall a wa, <[n := assign_task w x]> ws !! a = Some wa ->
    exists w0, ws !! a = Some w0 /\ shards wa = shards w0 /\ alive wa = alive w0) as Hsh.
  { intros a wa Hla. destruct (Hl a wa Hla) as [[-> ->]|[_ Hla']]; [by exists w|by exists wa]. }
  split.
  - intros a wa i y Hwa Hy. destruct (Hl a wa Hwa) as [[-> ->]|[_ Hwa']]; [|by eapply Hk].
    cbn in Hy. apply lookup_insert_Some in Hy as [[<- <-]|[_ Hy]]; [done|by eapply Hk].
  - intros a wa i y Hwa Hy. destruct (Hl a wa Hwa) as [[-> ->]|[_ Hwa']]; [|by eapply Hs].
    cbn in Hy |- *. apply lookup_insert_Some in Hy as [[<- <-]|[_ Hy]]; [done|by eapply Hs].
  - intros a b wa wb i Hwa Hwb. destruct (Hsh a wa Hwa) as (? & ? & -> & _), (Hsh b wb Hwb) as (? & ? & -> & _). by eapply He.
  - intros a wa i Hwa. destruct (Hsh a wa Hwa) as (w0 & ? & -> & _). by eapply Hc.
  - intros a wa i Hwa. destruct (Hsh a wa Hwa) as (w0 & ? & -> & ->). by eapply Ha.
Qed.

(** Giving a free column to an alive worker. *)
Lemma placed_column ws n w s :
  placed ws -> ws !! n = Some w -> alive w = true -> 0 <= s ->
  (forall a wa i, ws !! a = Some wa -> i ∈ shards wa -> i.2 <> s) ->
  placed (<[n := set_shards w (shards w ∪ column tables s)]> ws).
Proof.
  intros [Hk Hs He Hc Ha] Hn Hal H0 Hfree. set (w' := set_shards w (shards w ∪ column tables s)).
  assert (forall a wa, <[n := w']> ws !! a = Some wa ->
    (a = n /\ wa = w') \/ (a <> n /\ ws !! a = Some wa)) as Hl.
  { intros a wa Hl. apply list_lookup_insert_Some in Hl as [(<- & <- & _)|[? ?]]; auto. }
  split.
  - intros a wa i y Hwa Hy. destruct (Hl a wa Hwa) as [[-> ->]|[_ Hwa']]; by eapply Hk.
  - intros a wa i y Hwa Hy. destruct (Hl a wa Hwa) as [[-> ->]|[_ Hwa']]; [|by eapply Hs].
    cbn in Hy |- *. apply elem_of_union. left. by eapply Hs.
  - intros a b wa wb i Hwa Hwb Hia Hib.
    destruct (Hl a wa Hwa) as [[-> ->]|[Hna Hwa']], (Hl b wb Hwb) as [[-> ->]|[Hnb Hwb']]; [done| | |by eapply He].
    + cbn in Hia. apply elem_of_union in Hia as [Hia|Hia]; [by apply (He n b w wb i)|].
      apply elem_of_column in Hia as [Hi _]. by destruct (Hfree b wb i Hwb' Hib).
    + cbn in Hib. apply elem_of_union in Hib as [Hib|Hib]; [by apply (He a n wa w i)|].
      apply elem_of_column in Hib as [Hi _]. by destruct (Hfree a wa i Hwa' Hia).
  - intros a wa i Hwa Hi. destruct (Hl a wa Hwa) as [[-> ->]|[_ Hwa']]; [|by eapply Hc].
    cbn in Hi |- *. apply elem_of_union in Hi as [Hi|Hi].
    + destruct (Hc n w i Hn Hi). split; [done|set_solver].
    + pose proof Hi as [Hi2 (m & Hm & Hlt)]%elem_of_column. split; [exists m; split; [done|lia]|]. rewrite Hi2. set_solver.
  - intros a wa i Hwa Hi. destruct (Hl a wa Hwa) as [[-> ->]|[_ Hwa']]; [done|by eapply Ha].
Qed.

Definition some_alive (ws : list WorkerState) : Prop := exists n w, ws !! n = Some w /\ alive w = true.

Lemma fewest_step (ws : list WorkerState) (l : list nat) best :
  (forall b, best = Some b -> exists w, ws !! b = Some w /\ alive w = true) ->
  (forall b, foldl (fewer ws) best l = Some b -> exists w, ws !! b = Some w /\ alive w = true) /\
  (is_Some best \/ (exists i w, i ∈ l /\ ws !! i = Some w /\ alive w = true) -> is_Some (foldl (fewer ws) best l)).
Proof.
  revert best. induction l as [|i l IH]; intros best Hb; cbn [foldl].
  { split; [done|]. intros [?|(i & w & Hi & _)]; [done|]. by apply not_elem_of_nil in Hi. }
  assert (forall b, fewer ws best i = Some b -> exists w, ws !! b = Some w /\ alive w = true) as Hb'.
  { intros b E. unfold fewer in E. destruct (ws !! i) as [w|] eqn:Hi; [|by apply Hb].
    destruct (alive w) eqn:Ha; cbn [andb] in E; [|by apply Hb].
    destruct (match best with None => _ | Some _ => _ end); [|by apply Hb]. injection E as <-. by exists w. }
  destruct (IH _ Hb') as [H1 H2]. split; [done|]. intros Hor. apply H2. unfold fewer.
  destruct Hor as [Hs|(j & w & Hj & Hw & Ha)].
  - left. destruct (ws !! i) as [w|]; [|done]. by destruct (_ && _).
  - apply elem_of_cons in Hj as [->|Hj]; [|right; by exists j, w]. left. rewrite Hw, Ha. cbn [andb].
    destruct best as [b|]; [|done]. destruct (Hb b eq_refl) as (wb & -> & _). by case_bool_decide.
Qed.
Lemma fewest_spec ws : some_alive ws -> exists n w, fewest ws = Some n /\ ws !! n = Some w /\ alive w = true.
Proof.
  intros (n & w & Hn & Ha). destruct (fewest_step ws (seq 0 (length ws)) None) as [H1 H2]; [done|].
  fold (fewest ws) in H1, H2. destruct H2 as [b Hb].
  { right. exists n, w. split_and!; try done. apply elem_of_seq. apply lookup_lt_Some in Hn. lia. }
  destruct (H1 b Hb) as (wb & ? & ?). by exists b, wb.
Qed.

Lemma worker_for_shard_spec ws i :
  match worker_for_shard ws i with
  | Some n => exists w, ws !! n = Some w /\ i ∈ shards w
  | None => forall n w, ws !! n = Some w -> i ∉ shards w
  end.
Proof.
  unfold worker_for_shard. destruct (list_find _ ws) as [[n w]|] eqn:E; cbn.
  - apply list_find_Some in E as (Hn & Hs & _). exists w. split; [done|]. by apply bool_decide_eq_true in Hs.
  - apply list_find_None in E. intros n w Hn Hi. rewrite Forall_lookup in E. apply (E n w Hn).
    by apply bool_decide_eq_true_2.
Qed.

(** The task goes to the worker that serves the shard, or to an alive worker
    that serves it from now on. *)
Lemma assign_worker_spec e ws i :
  placed ws -> valid i -> some_alive ws ->
  exists n w S, ws !! n = Some w /\ shards w ⊆ S /\ i ∈ S /\
    assign_worker e ws i = Ok (<[n := assign_task (set_shards w S) (TaskState_new i (e i))]> ws) /\
    placed (<[n := assign_task (set_shards w S) (TaskState_new i (e i))]> ws).
Proof.
  intros Hp Hv Hal. unfold assign_worker. pose proof (worker_for_shard_spec ws i) as Hf.
  destruct (worker_for_shard ws i) as [n|].
  - destruct Hf as (w & Hn & Hi). rewrite Hn. run. exists n, w, (shards w). rewrite set_shards_id.
    split_and!; try done. by apply placed_task.
  - destruct (fewest_spec ws Hal) as (n & w & -> & Hn & Ha). run. rewrite Hn. run. rewrite Ha, assign_shard_true. run.
    exists n, w, (shards w ∪ column tables i.2).
    assert (i ∈ column tables i.2) as Hi by (apply elem_of_column; split; [done|]; destruct Hv as (m & ? & ?); exists m; split; [done|lia]).
    split_and!; try done; [set_solver..|].
    assert (placed (<[n := set_shards w (shards w ∪ column tables i.2)]> ws)) as Hp'.
    { apply placed_column; try done; [by destruct Hv as (? & _ & ? & _)|]. intros a wa j Hwa Hj E. apply (Hf a wa Hwa).
      destruct (pl_closed _ Hp a wa j Hwa Hj) as [_ Hc]. rewrite E in Hc. by apply Hc. }
    pose proof (placed_task _ n (set_shards w (shards w ∪ column tables i.2)) (TaskState_new i (e i)) Hp') as Hpt.
    rewrite list_insert_insert_eq in Hpt. apply Hpt; [|cbn; set_solver].
    apply list_lookup_insert_eq. by eapply lookup_lt_Some.
Qed.

Definition tasked (ws : list WorkerState) (i : Taskid) : Prop :=
  exists n w, ws !! n = Some w /\ is_Some (work w !! i).
Definition served (ws : list WorkerState) (i : Taskid) : Prop :=
  exists n w, ws !! n = Some w /\ i ∈ shards w /\ alive w = true.

Lemma tasked_insert ws n w w' k x i :
  ws !! n = Some w -> work w' = <[k := x]> (work w) -> tasked (<[n := w']> ws) i <-> tasked ws i \/ i = k.
Proof.
  intros Hn Hw. pose proof (lookup_lt_Some _ _ _ Hn) as Hlt. split.
  - intros (a & wa & Hwa & Hx). apply list_lookup_insert_Some in Hwa as [(<- & <- & _)|[Hne Hwa]]; [|left; by exists a, wa].
    rewrite Hw, lookup_insert_is_Some' in Hx. destruct Hx as [->|Hx]; [by right|left; by exists n, w].
  - intros [(a & wa & Hwa & Hx)| ->].
    + destruct (decide (a = n)) as [->|Hne]; [|exists a, wa; by rewrite list_lookup_insert_ne].
      exists n, w'. rewrite list_lookup_insert_eq by done. split; [done|]. rewrite Hn in Hwa. injection Hwa as <-.
      rewrite Hw. apply lookup_insert_is_Some'. by right.
    + exists n, w'. rewrite list_lookup_insert_eq by done. split; [done|]. rewrite Hw. apply lookup_insert_is_Some'. by left.
Qed.
Lemma some_alive_insert ws n w w' :
  ws !! n = Some w -> w_id w' = w_id w -> some_alive ws -> some_alive (<[n := w']> ws).
Proof.
  intros Hn Hid (a & wa & Ha & Hal). destruct (decide (a = n)) as [->|Hne].
  - exists n, w'. split; [apply list_lookup_insert_eq; by eapply lookup_lt_Some|].
    rewrite Hn in Ha. injection Ha as <-. unfold alive in *. by rewrite Hid.
  - exists a, wa. by rewrite list_lookup_insert_ne.
Qed.
Lemma served_insert ws n w w' i :
  ws !! n = Some w -> w_id w' = w_id w -> shards w ⊆ shards w' -> served ws i -> served (<[n := w']> ws) i.
Proof.
  intros Hn Hid Hsub (a & wa & Ha & Hi & Hal). destruct (decide (a = n)) as [->|Hne].
  - exists n, w'. split; [apply list_lookup_insert_eq; by eapply lookup_lt_Some|].
    rewrite Hn in Ha. injection Ha as <-. unfold alive in *. rewrite Hid. split; [set_solver|done].
  - exists a, wa. by rewrite list_lookup_insert_ne.
Qed.

(** Assigning a list of shards in turn. *)
Lemma assign_loop e l ws :
  placed ws -> some_alive ws -> Forall valid l ->
  exists ws', for_each (assign_worker e) l ws = Ok ws' /\ placed ws' /\ some_alive ws' /\
    length ws' = length ws /\ (forall i, served ws i \/ i ∈ l -> served ws' i).
Proof.
  intros Hp Hal Hv. destruct (for_each_inv (assign_worker e) (fun pre ws' =>
      placed ws' /\ some_alive ws' /\ length ws' = length ws /\ (forall i, served ws i \/ i ∈ pre -> served ws' i)) l ws)
    as (ws' & E & ? & ? & ? & ?); [|..|by exists ws'].
  - split_and!; try done. intros i [?|Hi]; [done|by apply not_elem_of_nil in Hi].
  - intros pre i todo ws1 -> (Hp1 & Hal1 & Hl1 & Hs1).
    assert (valid i) as Hvi by (apply Forall_app in Hv as [_ [Hv _]%Forall_cons]; done).
    destruct (assign_worker_spec e ws1 i Hp1 Hvi Hal1) as (n & w & S & Hn & Hsub & Hi & E & Hp2).
    eexists. split; [done|]. split_and!; [done|by eapply some_alive_insert|by rewrite length_insert|].
    intros j Hj. assert (served ws1 j \/ j = i) as [Hj'| ->].
    { rewrite elem_of_app, list_elem_of_singleton in Hj. naive_solver. }
    + by eapply served_insert.
    + eexists n, _. split; [apply list_lookup_insert_eq; by eapply lookup_lt_Some|]. split; [done|].
      eapply (pl_alive _ Hp2 n); [apply list_lookup_insert_eq; by eapply lookup_lt_Some|done].
Qed.

(** [assign_tables] leaves every shard with exactly one worker, an alive one. *)
Lemma assign_tables_spec e ws :
  placed ws -> some_alive ws ->
  exists ws', assign_tables e ws = Ok ws' /\ placed ws' /\ some_alive ws' /\ length ws' = length ws /\
    forall i, valid i -> served ws' i.
Proof.
  intros Hp Hal. unfold assign_tables.
  destruct (for_each_inv (fun ws '(t, n) => for_each (fun ws j => assign_worker e ws (t, j)) (seqZ 0 n) ws)
    (fun pre ws' => placed ws' /\ some_alive ws' /\ length ws' = length ws /\
       forall i n, (i.1, n) ∈ pre -> 0 <= i.2 < n -> served ws' i) tables ws)
    as (ws' & E & Hp' & Hal' & Hl' & Hs').
  - split_and!; try done. intros i n Hi. by apply not_elem_of_nil in Hi.
  - intros pre [t n] todo ws1 Htab (Hp1 & Hal1 & Hl1 & Hs1).
    destruct (assign_loop e ((fun j => (t, j)) <$> seqZ 0 n) ws1 Hp1 Hal1) as (ws2 & E2 & Hp2 & Hal2 & Hl2 & Hs2).
    { apply Forall_forall. intros i Hi. apply list_elem_of_fmap in Hi as (j & -> & Hj). apply elem_of_seqZ in Hj.
      exists n. split; [rewrite Htab; apply elem_of_app; right; left|cbn; lia]. }
    rewrite for_each_fmap in E2. exists ws2. split; [done|]. split_and!; [done..|congruence|].
    intros i m Hi Hr. apply Hs2. apply elem_of_app in Hi as [Hi|Hi]; [left; by apply (Hs1 i m)|]. right.
    apply list_elem_of_singleton in Hi. injection Hi as Hi1 <-. apply list_elem_of_fmap. exists i.2.
    split; [destruct i; cbn in *; by subst|]. apply elem_of_seqZ. lia.
  - exists ws'. split_and!; try done. intros i (n & Hn & Hlt). by apply (Hs' i n).
Qed.

(** [assign_tasks] gives each shard of the run one pending task. *)
Lemma placed_clear ws : placed ws -> placed (clear_tasks <$> ws).
Proof.
  intros [Hk Hs He Hc Ha].
  assert (forall n w, (clear_tasks <$> ws) !! n = Some w ->
    exists w0, ws !! n = Some w0 /\ shards w = shards w0 /\ alive w = alive w0 /\ work w = ∅) as Hl.
  { intros n w Hn. rewrite list_lookup_fmap in Hn. apply fmap_Some in Hn as (w0 & Hn & ->). by exists w0. }
  split.
  - intros n w i x Hn. destruct (Hl n w Hn) as (w0 & _ & _ & _ & ->). by rewrite lookup_empty.
  - intros n w i x Hn. destruct (Hl n w Hn) as (w0 & _ & _ & _ & ->). by rewrite lookup_empty.
  - intros a b wa wb i Hwa Hwb. destruct (Hl a wa Hwa) as (? & ? & -> & _), (Hl b wb Hwb) as (? & ? & -> & _). by eapply He.
  - intros n w i Hn. destruct (Hl n w Hn) as (w0 & ? & -> & _). by eapply Hc.
  - intros n w i Hn. destruct (Hl n w Hn) as (w0 & ? & -> & -> & _). by eapply Ha.
Qed.

Definition tasks_total (ws : list WorkerState) : nat := sum_list_with (fun w => base.size (work w)) ws.
Definition counted (ws : list WorkerState) (s : Status) : nat := sum_list_with (fun w => count (work w) s) ws.

Lemma assign_tasks_spec e table ss ws :
  placed ws -> some_alive ws -> NoDup ss -> Forall (fun s => valid (table, s)) ss ->
  exists ws', assign_tasks e table ss ws = Ok ws' /\ placed ws' /\ some_alive ws' /\
    (forall i, tasked ws' i <-> i.1 = table /\ i.2 ∈ ss) /\ tasks_total ws' = length ss /\
    counted ws' PENDING = length ss /\
    (forall n w, ws' !! n = Some w -> count (work w) ACTIVE = 0%nat /\ count (work w) FINISHED = 0%nat) /\
    (forall i, served ws i -> served ws' i).
Proof.
  intros Hp Hal Hnd Hv. unfold assign_tasks.
  destruct (for_each_inv (fun ws s => assign_worker e ws (table, s)) (fun pre ws' =>
      placed ws' /\ some_alive ws' /\ (forall i, tasked ws' i <-> i.1 = table /\ i.2 ∈ pre) /\
      tasks_total ws' = length pre /\ counted ws' PENDING = length pre /\
      (forall n w, ws' !! n = Some w -> count (work w) ACTIVE = 0%nat /\ count (work w) FINISHED = 0%nat) /\
      (forall i, served ws i -> served ws' i))
    ss (clear_tasks <$> ws)) as (ws' & E & ? & ? & ? & ? & ? & ? & ?); [|..|by exists ws'].
  - assert (forall n w, (clear_tasks <$> ws) !! n = Some w -> work w = ∅) as Hw.
    { intros n w Hn. rewrite list_lookup_fmap in Hn. by apply fmap_Some in Hn as (w0 & _ & ->). }
    split_and!.
    + by apply placed_clear.
    + destruct Hal as (n & w & Hn & Ha). exists n, (clear_tasks w). by rewrite list_lookup_fmap, Hn.
    + intros i. split; [|intros [_ Hi]; by apply not_elem_of_nil in Hi].
      intros (n & w & Hn & [x Hx]). by rewrite (Hw n w Hn), lookup_empty in Hx.
    + apply sum_zero. intros w (n & Hn)%list_elem_of_lookup. by rewrite (Hw n w Hn).
    + apply sum_zero. intros w (n & Hn)%list_elem_of_lookup. by rewrite (Hw n w Hn).
    + intros n w Hn. by rewrite (Hw n w Hn).
    + intros i (n & w & Hn & Hi & Ha). exists n, (clear_tasks w). by rewrite list_lookup_fmap, Hn.
  - intros pre s todo ws1 Hss (Hp1 & Hal1 & Ht1 & Hsz1 & Hc1 & Hz1 & Hs1).
    assert (s ∉ pre) as Hns.
    { intros Hin. rewrite Hss in Hnd. apply NoDup_app in Hnd as (_ & Hnd & _). apply (Hnd s Hin). left. }
    assert (valid (table, s)) as Hvs by (rewrite Hss in Hv; by apply Forall_app in Hv as [_ [Hv _]%Forall_cons]).
    destruct (assign_worker_spec e ws1 (table, s) Hp1 Hvs Hal1) as (n & w & Sh & Hn & Hsub & Hi & E & Hp2).
    assert (work w !! (table, s) = None) as Hnone.
    { apply eq_None_not_Some. intros Hx. destruct (Ht1 (table, s)) as [Ht _]. apply Hns, Ht. by exists n, w. }
    set (w' := assign_task (set_shards w Sh) (TaskState_new (table, s) (e (table, s)))) in *.
    assert (forall st, (count (work w') st = hit (TaskState_new (table, s) (e (table, s))) st + count (work w) st)%nat) as Hcount.
    { intros st. cbn. by apply count_insert_new. }
    eexists. split; [done|]. split_and!; [done|by eapply some_alive_insert| | | | |].
    + intros i. rewrite (tasked_insert ws1 n w w' (table, s) (TaskState_new (table, s) (e (table, s)))) by done.
      rewrite Ht1, elem_of_app, list_elem_of_singleton. destruct i; naive_solver.
    + pose proof (sum_update (fun w => base.size (work w)) ws1 n w w' Hn) as Hs. cbv beta in Hs.
      assert (base.size (work w') = S (base.size (work w))) as Hsz by (cbn; by apply map_size_insert_None).
      unfold tasks_total in *. rewrite length_app. cbn. lia.
    + pose proof (sum_update (fun w => count (work w) PENDING) ws1 n w w' Hn) as Hs. cbv beta in Hs.
      rewrite Hcount in Hs. change (hit _ PENDING) with 1%nat in Hs. unfold counted in *. rewrite length_app. cbn [length]. lia.
    + intros a wa Hwa. apply list_lookup_insert_Some in Hwa as [(<- & <- & _)|[_ Hwa]]; [|by eapply Hz1].
      rewrite !Hcount. destruct (Hz1 n w Hn) as [-> ->]. done.
    + intros i Hsi. eapply served_insert; [done|done|done|by apply Hs1].
Qed.

(** ** Dispatching *)

(** A change of the states of a worker's tasks. *)
Record restated (w w' : WorkerState) : Prop := {
  rs_id : w_id w' = w_id w;
  rs_shards : shards w' = shards w;
  rs_work : forall i x', work w' !! i = Some x' -> exists x, work w !! i = Some x /\ id x' = id x;
  rs_dom : forall i, is_Some (work w !! i) -> is_Some (work w' !! i);
  rs_size : base.size (work w') = base.size (work w)
}.
Lemma restated_refl w : restated w w.
Proof. split; try done. intros i x Hx. by exists x. Qed.
Lemma restated_status w i x st :
  work w !! i = Some x -> restated w (set_work w (<[i := with_status x st]> (work w))).
Proof.
  intros Hi. split; try done; cbn.
  - intros j y. rewrite lookup_insert_Some. intros [[<- <-]|[_ Hy]]; [by exists x|by exists y].
  - intros j Hj. apply lookup_insert_is_Some'. by right.
  - by rewrite map_size_insert_Some.
Qed.
Lemma restated_lookup ws ws' n w' :
  Forall2 restated ws ws' -> ws' !! n = Some w' -> exists w, ws !! n = Some w /\ restated w w'.
Proof. intros HF Hn. by apply (Forall2_lookup_r _ _ _ _ _ HF). Qed.

Lemma placed_restated ws ws' : Forall2 restated ws ws' -> placed ws -> placed ws'.
Proof.
  intros HF [Hk Hs He Hc Ha]. split.
  - intros n w' i x' Hn Hx. destruct (restated_lookup _ _ _ _ HF Hn) as (w & Hw & Hr).
    destruct (rs_work _ _ Hr i x' Hx) as (x & Hx0 & ->). by eapply Hk.
  - intros n w' i x' Hn Hx. destruct (restated_lookup _ _ _ _ HF Hn) as (w & Hw & Hr).
    destruct (rs_work _ _ Hr i x' Hx) as (x & Hx0 & _). rewrite (rs_shards _ _ Hr). by eapply Hs.
  - intros a b wa wb i Hwa Hwb. destruct (restated_lookup _ _ _ _ HF Hwa) as (? & ? & Ra), (restated_lookup _ _ _ _ HF Hwb) as (? & ? & Rb).
    rewrite (rs_shards _ _ Ra), (rs_shards _ _ Rb). by eapply He.
  - intros n w' i Hn. destruct (restated_lookup _ _ _ _ HF Hn) as (w & Hw & Hr). rewrite (rs_shards _ _ Hr). by eapply Hc.
  - intros n w' i Hn. destruct (restated_lookup _ _ _ _ HF Hn) as (w & Hw & Hr).
    unfold alive. rewrite (rs_shards _ _ Hr), (rs_id _ _ Hr). by eapply Ha.
Qed.
Lemma tasked_restated ws ws' i : Forall2 restated ws ws' -> tasked ws' i <-> tasked ws i.
Proof.
  intros HF. split.
  - intros (n & w' & Hn & [x' Hx]). destruct (restated_lookup _ _ _ _ HF Hn) as (w & Hw & Hr).
    destruct (rs_work _ _ Hr i x' Hx) as (x & Hx0 & _). by exists n, w.
  - intros (n & w & Hn & Hx). destruct (Forall2_lookup_l _ _ _ _ _ HF Hn) as (w' & Hw' & Hr).
    exists n, w'. split; [done|]. by apply (rs_dom _ _ Hr).
Qed.
Lemma total_restated ws ws' : Forall2 restated ws ws' -> tasks_total ws' = tasks_total ws.
Proof.
  unfold tasks_total. induction 1 as [|w w' ws ws' Hr _ IH]; [done|]. cbn. by rewrite IH, (rs_size _ _ Hr).
Qed.

Lemma served_restated ws ws' i : Forall2 restated ws ws' -> served ws i -> served ws' i.
Proof.
  intros HF (n & w & Hn & Hi & Ha). destruct (Forall2_lookup_l _ _ _ _ _ HF Hn) as (w' & Hw' & Hr).
  exists n, w'. unfold alive in *. rewrite (rs_shards _ _ Hr), (rs_id _ _ Hr). done.
Qed.
Lemma some_alive_restated ws ws' : Forall2 restated ws ws' -> some_alive ws -> some_alive ws'.
Proof.
  intros HF (n & w & Hn & Ha). destruct (Forall2_lookup_l _ _ _ _ _ HF Hn) as (w' & Hw' & Hr).
  exists n, w'. unfold alive in *. by rewrite (rs_id _ _ Hr).
Qed.

Definition keyed (w : WorkerState) : Prop := forall i x, work w !! i = Some x -> id x = i.
(** At most one active task; one, when tasks are pending. *)
Definition busy (w : WorkerState) : Prop :=
  (count (work w) ACTIVE <= 1)%nat /\ (0 < count (work w) PENDING -> 0 < count (work w) ACTIVE)%nat.

Lemma get_next_spec table w :
  keyed w -> (0 < count (work w) PENDING)%nat ->
  exists x, work w !! id x = Some x /\ status x = PENDING /\
    get_next table w = Some (set_work w (<[id x := with_status x ACTIVE]> (work w)), (table, (id x).2)).
Proof.
  intros Hk Hp. unfold get_next.
  destruct (max_element_Some WeightCompare (with_state w PENDING)) as [x Hx].
  { apply count_pos in Hp as (i & x & Hi & Hs). intros E.
    assert (x ∈ with_state w PENDING) as Hin by (apply elem_of_with_state; eauto).
    rewrite E in Hin. by apply not_elem_of_nil in Hin. }
  exists x. pose proof (max_element_elem _ _ _ Hx) as [[i Hi] Hs]%elem_of_with_state.
  rewrite (Hk i x Hi). rewrite Hx. cbn. by rewrite (Hk i x Hi).
Qed.

Lemma hit_status x st st' : hit (with_status x st) st' = if decide (st = st') then 1%nat else 0%nat.
Proof. done. Qed.

Lemma dispatch_work_spec table ws :
  Forall keyed ws -> Forall (fun w => count (work w) ACTIVE <= 1)%nat ws ->
  exists ws' reqs, dispatch_work table ws = (ws', reqs) /\ Forall2 restated ws ws' /\ Forall busy ws' /\
    counted ws' FINISHED = counted ws FINISHED /\
    counted ws PENDING = (length reqs + counted ws' PENDING)%nat /\
    (forall k i, (k, i) ∈ reqs -> exists n w x, ws' !! n = Some w /\ w_id w = k /\ work w !! id x = Some x /\ status x = ACTIVE /\ i = (table, (id x).2)).
Proof.
  intros Hk Ha. induction ws as [|w ws IH].
  { exists [], []. split_and!; try done. intros k i Hi. by apply not_elem_of_nil in Hi. }
  apply Forall_cons in Hk as [Hk Hks], Ha as [Ha Has]. destruct (IH Hks Has) as (ws' & reqs & E & HF & HB & Hf & Hp & Hr).
  unfold dispatch_work in *. cbn [foldr]. rewrite E.
  assert (forall w', restated w w' -> busy w' -> count (work w') FINISHED = count (work w) FINISHED ->
    count (work w') PENDING = count (work w) PENDING ->
    exists ws'' reqs', (w' :: ws', reqs) = (ws'', reqs') /\ Forall2 restated (w :: ws) ws'' /\ Forall busy ws'' /\
      counted ws'' FINISHED = counted (w :: ws) FINISHED /\
      counted (w :: ws) PENDING = (length reqs' + counted ws'' PENDING)%nat /\
      (forall k i, (k, i) ∈ reqs' -> exists n w x, ws'' !! n = Some w /\ w_id w = k /\ work w !! id x = Some x /\ status x = ACTIVE /\ i = (table, (id x).2))) as Hsame.
  { intros w' Hrs Hb Hf' Hp'. exists (w' :: ws'), reqs. split; [done|]. split_and!; [by constructor..| | |].
    - unfold counted in *. cbn. lia.
    - unfold counted in *. cbn. lia.
    - intros k i Hi. destruct (Hr k i Hi) as (n & wn & x & ?). by exists (S n), wn, x. }
  rewrite !num_count. destruct (Z.ltb_spec 0 (Z.of_nat (count (work w) PENDING))) as [Hpos|Hpos]; cbn [andb];
    [destruct (Z.eqb_spec (Z.of_nat (count (work w) ACTIVE)) 0) as [Hz|Hz]|].
  - destruct (get_next_spec table w Hk) as (x & Hx & Hsx & ->); [lia|].
    pose proof (count_update (work w) (id x) x (with_status x ACTIVE)) as Hc.
    assert (forall s, hit x s = if decide (PENDING = s) then 1 else 0)%nat as Hhx by (intros s; unfold hit; by rewrite Hsx).
    pose proof (Hc PENDING Hx) as Hc1. pose proof (Hc ACTIVE Hx) as Hc2. pose proof (Hc FINISHED Hx) as Hc3.
    rewrite Hhx, hit_status in Hc1, Hc2, Hc3.
    repeat match goal with H : context [decide (?a = ?b)] |- _ => destruct (decide (a = b)) as [?|?]; try congruence end.
    eexists _, _. split; [done|]. split_and!.
    + constructor; [|done]. by apply restated_status.
    + constructor; [|done]. split; cbn [work set_work]; lia.
    + unfold counted in *. cbn [sum_list_with work set_work]. lia.
    + unfold counted in *. cbn [sum_list_with work set_work length]. lia.
    + intros k i Hi. apply elem_of_cons in Hi as [[= -> ->]|Hi].
      * exists 0%nat. eexists _, (with_status x ACTIVE). split; [done|]. split_and!; try done. cbn. apply lookup_insert_eq.
      * destruct (Hr k i Hi) as (m & wm & y & ?). by exists (S m), wm, y.
  - apply Hsame; [apply restated_refl|split; [done|lia]|done|done].
  - apply Hsame; [apply restated_refl|split; [done|lia]|done|done].
Qed.

(** ** Stealing *)

(** The workers after task [x] went from [src], at [n], to [dst], at [d]. *)
Definition moved_dst (dst : WorkerState) (x : TaskState) : WorkerState :=
  assign_task (set_shards dst (shards dst ∪ column tables (id x).2)) (with_stolen x).
Definition moved_src (src : WorkerState) (x : TaskState) : WorkerState :=
  set_work (set_shards src (shards src ∖ column tables (id x).2)) (delete (id x) (work src)).
Definition moved (ws : list WorkerState) (n d : nat) (src dst : WorkerState) (x : TaskState) : list WorkerState :=
  <[d := moved_dst dst x]> (<[n := moved_src src x]> ws).

Section Move.
Context (ws : list WorkerState) (n d : nat) (src dst : WorkerState) (x : TaskState) (table : Z).
Hypothesis Hp : placed ws.
Hypothesis Hn : ws !! n = Some src.
Hypothesis Hd : ws !! d = Some dst.
Hypothesis Hnd : n <> d.
Hypothesis Hal : alive dst = true.
Hypothesis Hx : work src !! id x = Some x.
Hypothesis Htab : forall i, tasked ws i -> i.1 = table.

Lemma moved_lookup a wa :
  moved ws n d src dst x !! a = Some wa ->
  (a = d /\ wa = moved_dst dst x) \/ (a = n /\ wa = moved_src src x) \/ (a <> d /\ a <> n /\ ws !! a = Some wa).
Proof.
  intros Ha. unfold moved in Ha. apply list_lookup_insert_Some in Ha as [(<- & <- & _)|[? Ha]]; [by left|].
  apply list_lookup_insert_Some in Ha as [(<- & <- & _)|[? Ha]]; [by right; left|by right; right].
Qed.
Lemma moved_at_d : moved ws n d src dst x !! d = Some (moved_dst dst x).
Proof. unfold moved. apply list_lookup_insert_eq. rewrite length_insert. by eapply lookup_lt_Some. Qed.
Lemma moved_at_n : moved ws n d src dst x !! n = Some (moved_src src x).
Proof. unfold moved. rewrite list_lookup_insert_ne by done. apply list_lookup_insert_eq. by eapply lookup_lt_Some. Qed.
Lemma moved_other a : a <> d -> a <> n -> moved ws n d src dst x !! a = ws !! a.
Proof. intros. unfold moved. by rewrite !list_lookup_insert_ne. Qed.

Lemma move_column : column tables (id x).2 ⊆ shards src /\ id x ∈ column tables (id x).2.
Proof.
  pose proof (pl_serve _ Hp n src (id x) x Hn Hx) as Hi.
  destruct (pl_closed _ Hp n src (id x) Hn Hi) as [(k & Hk & Hlt) Hc]. split; [done|].
  apply elem_of_column. split; [done|]. exists k. split; [done|apply Hlt].
Qed.
Lemma move_valid : valid (id x).
Proof. pose proof (pl_serve _ Hp n src (id x) x Hn Hx) as Hi. by destruct (pl_closed _ Hp n src (id x) Hn Hi). Qed.
Lemma moved_shards a wa i :
  moved ws n d src dst x !! a = Some wa -> i ∈ shards wa ->
  (a = d /\ i ∈ column tables (id x).2) \/
  (i ∉ column tables (id x).2 /\ exists w0, ws !! a = Some w0 /\ i ∈ shards w0).
Proof.
  destruct move_column as [Hc _]. intros Ha Hi.
  destruct (decide (i ∈ column tables (id x).2)) as [Hin|Hin];
    destruct (moved_lookup a wa Ha) as [[-> ->]|[[-> ->]|(Hda & Hna & Hwa)]]; cbn in Hi.
  - by left.
  - exfalso. set_solver.
  - exfalso. apply Hna. apply (pl_excl _ Hp a n wa src i); [done..|set_solver].
  - right. split; [done|]. exists dst. split; [done|]. set_solver.
  - right. split; [done|]. exists src. split; [done|]. set_solver.
  - right. split; [done|]. by exists wa.
Qed.

Lemma moved_placed : placed (moved ws n d src dst x).
Proof.
  destruct move_column as [Hc Hxc]. split.
  - intros a wa i y Ha Hy. destruct (moved_lookup a wa Ha) as [[-> ->]|[[-> ->]|(_ & _ & Hwa)]]; cbn in Hy.
    + apply lookup_insert_Some in Hy as [[<- <-]|[_ Hy]]; [done|]. by apply (pl_keyed _ Hp d dst).
    + apply lookup_delete_Some in Hy as [_ Hy]. by apply (pl_keyed _ Hp n src).
    + by apply (pl_keyed _ Hp a wa).
  - intros a wa i y Ha Hy. destruct (moved_lookup a wa Ha) as [[-> ->]|[[-> ->]|(_ & _ & Hwa)]]; cbn in Hy |- *.
    + apply lookup_insert_Some in Hy as [[<- _]|[_ Hy]]; [cbn; set_solver|].
      apply elem_of_union. left. by apply (pl_serve _ Hp d dst i y).
    + apply lookup_delete_Some in Hy as [Hne Hy]. apply elem_of_difference. split; [by apply (pl_serve _ Hp n src i y)|].
      intros [E _]%elem_of_column. apply Hne. assert (i.1 = table) as Hi1 by (apply Htab; by exists n, src).
      assert ((id x).1 = table) as Hx1 by (apply Htab; by exists n, src). destruct i, (id x); cbn in *; by subst.
    + by apply (pl_serve _ Hp a wa i y).
  - intros a b wa wb i Ha Hb Hia Hib.
    destruct (moved_shards a wa i Ha Hia) as [[-> Hca]|[Hca (w0 & Hw0 & Hi0)]],
             (moved_shards b wb i Hb Hib) as [[-> Hcb]|[Hcb (w1 & Hw1 & Hi1)]]; try done.
    by apply (pl_excl _ Hp a b w0 w1 i).
  - intros a wa i Ha Hi. destruct (moved_shards a wa i Ha Hi) as [[-> Hca]|[Hca (w0 & Hw0 & Hi0)]].
    + rewrite moved_at_d in Ha. injection Ha as <-.
      pose proof Hca as [Hi2 (m & Hm & Hlt)]%elem_of_column. split; [exists m; split; [done|]; destruct move_valid as (? & _ & ?); lia|]. rewrite Hi2. cbn. set_solver.
    + destruct (pl_closed _ Hp a w0 i Hw0 Hi0) as [Hv Hcol]. split; [done|].
      assert (i.2 <> (id x).2) as Hne.
      { intros E. apply Hca. apply elem_of_column. split; [done|]. destruct Hv as (m & ? & ?). exists m. split; [done|lia]. }
      intros j Hj. pose proof (Hcol j Hj) as Hj0. apply elem_of_column in Hj as [Hj2 _].
      assert (j ∉ column tables (id x).2) as Hnc by (intros [? _]%elem_of_column; congruence).
      destruct (moved_lookup a wa Ha) as [[-> ->]|[[-> ->]|(_ & _ & Hwa)]]; cbn.
      * rewrite Hd in Hw0. injection Hw0 as <-. set_solver.
      * rewrite Hn in Hw0. injection Hw0 as <-. set_solver.
      * rewrite Hwa in Hw0. by injection Hw0 as <-.
  - intros a wa i Ha Hi. destruct (moved_lookup a wa Ha) as [[-> ->]|[[-> ->]|(_ & _ & Hwa)]]; [done| |by apply (pl_alive _ Hp a wa i)].
    cbn in Hi. apply (pl_alive _ Hp n src i Hn). set_solver.
Qed.

Lemma dst_free : work dst !! id x = None.
Proof.
  apply eq_None_not_Some. intros [y Hy]. apply Hnd. destruct move_column as [Hc Hxc].
  apply (pl_excl _ Hp n d src dst (id x)); [done..|set_solver|]. by apply (pl_serve _ Hp d dst (id x) y).
Qed.
Lemma moved_sum (f : WorkerState -> nat) k :
  f src = (k + f (moved_src src x))%nat -> f (moved_dst dst x) = (k + f dst)%nat ->
  sum_list_with f (moved ws n d src dst x) = sum_list_with f ws.
Proof.
  intros H1 H2. unfold moved.
  pose proof (sum_update f ws n src (moved_src src x) Hn).
  pose proof (sum_update f (<[n := moved_src src x]> ws) d dst (moved_dst dst x)) as H3.
  rewrite list_lookup_insert_ne in H3 by done. specialize (H3 Hd). lia.
Qed.
Lemma moved_counts :
  tasks_total (moved ws n d src dst x) = tasks_total ws /\
  forall st, counted (moved ws n d src dst x) st = counted ws st.
Proof.
  split.
  - apply (moved_sum _ 1).
    + cbn. rewrite <- (insert_delete_id (work src) (id x) x Hx) at 1.
      by rewrite map_size_insert_None by apply lookup_delete_eq.
    + cbn. by rewrite map_size_insert_None by apply dst_free.
  - intros st. apply (moved_sum _ (hit x st)).
    + by apply count_delete.
    + cbn. by rewrite count_insert_new by apply dst_free.
Qed.
Lemma moved_tasked i : tasked (moved ws n d src dst x) i <-> tasked ws i.
Proof.
  split.
  - intros (a & wa & Ha & Hi). destruct (moved_lookup a wa Ha) as [[-> ->]|[[-> ->]|(_ & _ & Hwa)]]; cbn in Hi.
    + apply lookup_insert_is_Some' in Hi as [<-|Hi]; [by exists n, src|by exists d, dst].
    + exists n, src. split; [done|]. destruct Hi as [y Hy]. apply lookup_delete_Some in Hy as [_ Hy]. by exists y.
    + by exists a, wa.
  - intros (a & wa & Ha & Hi). destruct (decide (i = id x)) as [->|Hne].
    { exists d, (moved_dst dst x). split; [apply moved_at_d|]. cbn. apply lookup_insert_is_Some'. by left. }
    destruct (decide (a = d)) as [->|Had]; [|destruct (decide (a = n)) as [->|Han]].
    + exists d, (moved_dst dst x). split; [apply moved_at_d|]. rewrite Hd in Ha. injection Ha as <-.
      cbn. apply lookup_insert_is_Some'. by right.
    + exists n, (moved_src src x). split; [apply moved_at_n|]. rewrite Hn in Ha. injection Ha as <-.
      cbn. by rewrite lookup_delete_ne.
    + exists a, wa. by rewrite moved_other.
Qed.
Lemma moved_served i : served ws i -> served (moved ws n d src dst x) i.
Proof.
  intros (a & wa & Ha & Hi & Hala). destruct move_column as [Hc _].
  destruct (decide (i ∈ column tables (id x).2)) as [Hin|Hin].
  { exists d, (moved_dst dst x). split; [apply moved_at_d|]. split; [cbn; set_solver|done]. }
  destruct (decide (a = d)) as [->|Had]; [|destruct (decide (a = n)) as [->|Han]].
  - exists d, (moved_dst dst x). split; [apply moved_at_d|]. rewrite Hd in Ha. injection Ha as <-. split; [cbn; set_solver|done].
  - exists n, (moved_src src x). split; [apply moved_at_n|]. rewrite Hn in Ha. injection Ha as <-. split; [cbn; set_solver|done].
  - exists a, wa. by rewrite moved_other.
Qed.
Lemma moved_some_alive : some_alive (moved ws n d src dst x).
Proof. exists d, (moved_dst dst x). split; [apply moved_at_d|done]. Qed.
Lemma moved_active : status x = PENDING ->
  (forall a wa, ws !! a = Some wa -> count (work wa) ACTIVE <= 1)%nat ->
  (forall a wa, moved ws n d src dst x !! a = Some wa -> count (work wa) ACTIVE <= 1)%nat.
Proof.
  intros Hs Hact a wa Ha. destruct (moved_lookup a wa Ha) as [[-> ->]|[[-> ->]|(_ & _ & Hwa)]]; [..|by apply (Hact a)].
  - cbn. rewrite count_insert_new by apply dst_free. unfold hit. cbn. rewrite Hs. apply (Hact d dst Hd).
  - cbn. pose proof (count_delete (work src) (id x) x ACTIVE Hx). specialize (Hact n src Hn). lia.
Qed.
End Move.

Lemma steal_work_spec e table ns ws d dst avg :
  placed ws -> (forall i, tasked ws i -> i.1 = table) -> ws !! d = Some dst -> count (work dst) PENDING = 0%nat ->
  exists ws' b, steal_work e table ns ws d avg = Ok (ws', b) /\
    (ws' = ws \/ exists n src x, ws !! n = Some src /\ n <> d /\ alive dst = true /\
       work src !! id x = Some x /\ status x = PENDING /\ stolen x = false /\ ws' = moved ws n d src dst x).
Proof.
  intros Hp Htab Hd Hidle. unfold steal_work. destruct work_stealing; run; [|by eexists _, _; split; [|left]].
  rewrite Hd. run. destruct (alive dst) eqn:Hal; run; [|by eexists _, _; split; [|left]].
  destruct (max_element_Some (PendingCompare ws) (seq 0 (length ws))) as [n Hn].
  { apply lookup_lt_Some in Hd. destruct (length ws); [lia|done]. }
  rewrite Hn. run. apply max_element_elem, elem_of_seq in Hn. destruct (lookup_lt_is_Some_2 ws n) as [src Hsrc]; [lia|].
  rewrite Hsrc. run. rewrite num_count.
  destruct (Z.eqb_spec (Z.of_nat (count (work src) PENDING)) 0) as [|Hpend]; [by eexists _, _; split; [|left]|].
  assert (n <> d) as Hnd by (intros ->; congruence || (rewrite Hd in Hsrc; injection Hsrc as <-; lia)).
  destruct (max_element_Some WeightCompare (with_state src PENDING)) as [x Hmax].
  { intros E. assert (0 < count (work src) PENDING)%nat as (i & y & Hi & Hy)%count_pos by lia.
    assert (y ∈ with_state src PENDING) as Hin by (apply elem_of_with_state; eauto). rewrite E in Hin. by apply not_elem_of_nil in Hin. }
  rewrite Hmax. run. apply max_element_elem, elem_of_with_state in Hmax as [[i Hi] Hsx].
  pose proof (pl_keyed _ Hp n src i x Hsrc Hi) as <-.
  destruct (stolen x) eqn:Hst; [by eexists _, _; split; [|left]|].
  destruct (SFleb _ _); [by eexists _, _; split; [|left]|].
  rewrite assign_shard_true. run. cbn [id with_stolen]. rewrite list_lookup_insert_ne by done. rewrite Hsrc. run.
  rewrite assign_shard_false by (by eapply (move_column ws n src x)). run.
  unfold remove_task. cbn [work set_shards id with_stolen]. rewrite Hi. run.
  rewrite list_lookup_insert_ne by done. rewrite list_lookup_insert_eq by (by eapply lookup_lt_Some). run.
  eexists _, true. split; [done|]. right. exists n, src, x. split_and!; try done.
  unfold moved. rewrite (list_insert_insert_ne _ n d) by done. by rewrite list_insert_insert_eq.
Qed.

(** ** The invariant of a run *)
Record run_inv m : Prop := {
  ri_placed : placed (workers_ m);
  ri_alive : some_alive (workers_ m);
  ri_served : forall i, valid i -> served (workers_ m) i;
  ri_tasks : forall i, tasked (workers_ m) i <-> i.1 = run_table m /\ i.2 ∈ run_shards m;
  ri_total : tasks_total (workers_ m) = length (run_shards m);
  ri_active : forall n w, workers_ m !! n = Some w -> (count (work w) ACTIVE <= 1)%nat;
  ri_disp : dispatched_ m = Z.of_nat (length (run_shards m)) - Z.of_nat (counted (workers_ m) PENDING);
  ri_fin : finished_ m = Z.of_nat (counted (workers_ m) FINISHED)
}.

Lemma dispatch_length table ws : length (dispatch_work table ws).1 = length ws.
Proof.
  induction ws as [|w ws IH]; [done|]. unfold dispatch_work in *. cbn [foldr].
  destruct (foldr _ _ ws) as [ws' reqs]. cbn [fst] in IH.
  destruct (_ && _); [destruct (get_next table w) as [[w' i]|]|]; cbn; by rewrite IH.
Qed.

Lemma placed_keyed ws : placed ws -> Forall keyed ws.
Proof. intros Hp. apply Forall_lookup. intros n w Hn i x Hx. by apply (pl_keyed _ Hp n w). Qed.

(** When all tasks belong to the table of the run, a request names its task. *)
Lemma requests_active table ws ws' (reqs : list (Z * Taskid)) (ss : list Z) :
  Forall2 restated ws ws' -> (forall i, tasked ws i <-> i.1 = table /\ i.2 ∈ ss) ->
  (forall k i, (k, i) ∈ reqs -> exists n w x, ws' !! n = Some w /\ w_id w = k /\ work w !! id x = Some x /\
     status x = ACTIVE /\ i = (table, (id x).2)) ->
  forall k i, (k, i) ∈ reqs -> exists n w x, ws' !! n = Some w /\ w_id w = k /\ work w !! i = Some x /\ status x = ACTIVE.
Proof.
  intros HF Ht Hr k i Hi. destruct (Hr k i Hi) as (n & w & x & Hn & Hk & Hx & Hs & ->). exists n, w, x.
  split_and!; try done. assert (tasked ws (id x)) as [<- _]%Ht.
  { apply (tasked_restated ws ws' _ HF). by exists n, w. }
  by destruct (id x).
Qed.

(** Dispatching keeps the invariant and leaves every worker with pending tasks
    an active one. *)
Lemma dispatch_inv m :
  run_inv m ->
  exists ws reqs, dispatch_work (run_table m) (workers_ m) = (ws, reqs) /\
    run_inv (mk ws (run_table m) (run_shards m) (dispatched_ m + Z.of_nat (length reqs)) (finished_ m)
               (shards_assigned_ m) (kernel_epoch_ m) (entries m)) /\ Forall busy ws /\
    (forall k i, (k, i) ∈ reqs -> exists n w x, ws !! n = Some w /\ w_id w = k /\ work w !! i = Some x /\ status x = ACTIVE).
Proof.
  intros [Hp Hal Hs Ht Htot Hact Hd Hf].
  destruct (dispatch_work_spec (run_table m) (workers_ m)) as (ws & reqs & E & HF & HB & Hfin & Hpen & Hreq).
  { by apply placed_keyed. }
  { apply Forall_lookup. apply Hact. }
  exists ws, reqs. split; [done|]. split; [|split; [done|]]; [|by eapply requests_active].
  split; cbn [workers_ run_table run_shards dispatched_ finished_].
  - by eapply placed_restated.
  - by eapply some_alive_restated.
  - intros i Hv. eapply served_restated; [done|by apply Hs].
  - intros i. by rewrite (tasked_restated _ _ i HF).
  - by rewrite (total_restated _ _ HF).
  - intros n w Hn. rewrite Forall_lookup in HB. by destruct (HB n w Hn).
  - lia.
  - lia.
Qed.

(** A worker's report of a task that it was told to run. *)
Lemma reap_inv m n w i x sizes :
  run_inv m -> workers_ m !! n = Some w -> work w !! i = Some x -> status x = ACTIVE ->
  exists m', reap_one_task m n i sizes = Ok m' /\
    run_inv (mk (workers_ m') (run_table m') (run_shards m') (dispatched_ m') (finished_ m' + 1)
               (shards_assigned_ m') (kernel_epoch_ m') (entries m')) /\
    run_table m' = run_table m /\ run_shards m' = run_shards m /\ finished_ m' = finished_ m /\
    length (workers_ m') = length (workers_ m).
Proof.
  intros [Hp Hal Hs Ht Htot Hact Hd Hf] Hn Hx Hst. unfold reap_one_task. rewrite Hn. run.
  unfold set_finished. rewrite Hx. run. rewrite bool_decide_eq_true_2 by done. run.
  set (w' := set_work w (<[i := with_status x FINISHED]> (work w))).
  assert (Forall2 restated (workers_ m) (<[n := w']> (workers_ m))) as HF.
  { rewrite <- (list_insert_id (workers_ m) n w Hn) at 1. apply Forall2_insert; [|by apply restated_status].
    apply Forall_Forall2_diag, Forall_forall. intros y _. apply restated_refl. }
  pose proof (fun st => count_update (work w) i x (with_status x FINISHED) st Hx) as Hc.
  pose proof (fun st => sum_update (fun w => count (work w) st) (workers_ m) n w w' Hn) as Hsum. cbv beta in Hsum.
  assert (forall st, hit x st = if decide (ACTIVE = st) then 1 else 0)%nat as Hhx by (intros st; unfold hit; by rewrite Hst).
  pose proof (Hc PENDING) as C1. pose proof (Hc ACTIVE) as C2. pose proof (Hc FINISHED) as C3.
  rewrite Hhx, hit_status in C1, C2, C3.
  repeat match goal with H : context [decide (?a = ?b)] |- _ => destruct (decide (a = b)) as [?|?]; try congruence end.
  eexists. split; [done|]. split_and!; try done; [|cbn; by rewrite length_insert].
  split; cbn [workers_ run_table run_shards dispatched_ finished_].
  - by eapply placed_restated.
  - by eapply some_alive_restated.
  - intros j Hv. eapply served_restated; [done|by apply Hs].
  - intros j. by rewrite (tasked_restated _ _ j HF).
  - by rewrite (total_restated _ _ HF).
  - intros a wa Ha. apply list_lookup_insert_Some in Ha as [(<- & <- & _)|[_ Ha]]; [|by apply (Hact a)].
    specialize (Hact n w Hn). subst w'. cbn [work set_work]. lia.
  - pose proof (Hsum PENDING) as S1. subst w'. cbn [work set_work] in S1. unfold counted in *. lia.
  - pose proof (Hsum FINISHED) as S1. subst w'. cbn [work set_work] in S1. unfold counted in *. lia.
Qed.

(** An idle worker has no pending task. *)
Lemma idle_no_pending w : may_be_idle w = true -> count (work w) PENDING = 0%nat.
Proof. unfold may_be_idle, num_assigned. rewrite num_count. pose proof (count_total (work w)). lia. Qed.

Lemma steal_attempt_inv m b a :
  run_inv m -> (a.1 < length (workers_ m))%nat ->
  exists m' b', steal_attempt (m, b) a = Ok (m', b') /\ run_inv m' /\ run_table m' = run_table m /\
    run_shards m' = run_shards m /\ finished_ m' = finished_ m /\ dispatched_ m' = dispatched_ m /\
    length (workers_ m') = length (workers_ m).
Proof.
  intros Hinv Ha. destruct (lookup_lt_is_Some_2 _ _ Ha) as [w Hw]. unfold steal_attempt. rewrite Hw. run.
  destruct (may_be_idle w) eqn:Hidle; [|by eexists _, _]. pose proof Hinv as [Hp Hal Hs Ht Htot Hact Hd Hf].
  destruct (steal_work_spec (shard_size (entries m)) (run_table m) (num_shards (run_table m)) (workers_ m) a.1 w a.2 Hp)
    as (ws & r & E & Hws); [intros i Hi; by apply Ht|done|by apply idle_no_pending|].
  rewrite E. run. eexists _, _. split; [done|].
  destruct Hws as [->|(n & src & x & Hn & Hne & Hal' & Hx & Hst & _ & ->)]; [by destruct m|].
  assert (forall i, tasked (workers_ m) i -> i.1 = run_table m) as Htab by (intros i Hi; by apply Ht).
  destruct (moved_counts _ n a.1 src w x _ Hp Hn Hw Hne Hal' Hx Htab) as [Hmt Hmc].
  split_and!; try done; [|cbn; unfold moved; by rewrite !length_insert].
  split; cbn [workers_ run_table run_shards dispatched_ finished_].
  - exact (moved_placed _ n a.1 src w x _ Hp Hn Hw Hne Hal' Hx Htab).
  - by apply moved_some_alive.
  - intros i Hv. apply (moved_served _ n a.1 src w x _ Hp Hn Hw Hne Hal' Hx Htab). by apply Hs.
  - intros i. by rewrite moved_tasked.
  - by rewrite Hmt.
  - exact (moved_active _ n a.1 src w x _ Hp Hn Hw Hne Hal' Hx Htab Hst Hact).
  - by rewrite Hmc.
  - by rewrite Hmc.
Qed.

Lemma steal_attempts_inv attempts : forall m b,
  run_inv m -> Forall (fun a => a.1 < length (workers_ m))%nat attempts ->
  exists m' b', for_each steal_attempt attempts (m, b) = Ok (m', b') /\ run_inv m' /\ run_table m' = run_table m /\
    run_shards m' = run_shards m /\ finished_ m' = finished_ m /\ length (workers_ m') = length (workers_ m).
Proof.
  induction attempts as [|a attempts IH]; intros m b Hinv Hat; [by exists m, b|].
  apply Forall_cons in Hat as [Ha Hat]. destruct (steal_attempt_inv m b a Hinv Ha) as (m1 & b1 & E1 & Hi1 & Ht1 & Hs1 & Hf1 & _ & Hl1).
  destruct (IH m1 b1 Hi1) as (m2 & b2 & E2 & Hi2 & Ht2 & Hs2 & Hf2 & Hl2); [by rewrite Hl1|].
  exists m2, b2. cbn [for_each]. rewrite E1. run. split_and!; try done; congruence.
Qed.

(** ** The barrier *)

(** The state in which [run] may be called: shards placed, and the previous run
    complete. *)
Record ready m : Prop := {
  rd_placed : placed (workers_ m);
  rd_alive : some_alive (workers_ m);
  rd_served : shards_assigned_ m = true -> forall i, valid i -> served (workers_ m) i;
  rd_done : Z.of_nat (length (run_shards m)) = finished_ m
}.
(** Between two steps of the barrier every worker with pending tasks runs one. *)
Definition running m : Prop := run_inv m /\ Forall busy (workers_ m).

Lemma run_establishes m table ss :
  ready m -> NoDup ss -> Forall (fun s => valid (table, s)) ss ->
  exists m' ms, run m table ss = Ok (m', ms) /\ running m' /\ run_table m' = table /\ run_shards m' = ss /\
    finished_ m' = 0 /\ kernel_epoch_ m' = kernel_epoch_ m + 1.
Proof.
  intros [Hp Hal Hs Hd] Hnd Hv. unfold run. rewrite (proj2 (Z.eqb_eq _ _) Hd). run.
  assert (exists ws ms, (if shards_assigned_ m then Ok (workers_ m, [])
            else ws ← assign_tables (shard_size (entries m)) (workers_ m);
                 Ok (ws, [ShardAssignment (send_table_assignments ws)])) = Ok (ws, ms) /\
          placed ws /\ some_alive ws /\ forall i, valid i -> served ws i) as (ws & ms & -> & Hp1 & Hal1 & Hs1).
  { destruct (shards_assigned_ m); [eexists _, _; split_and!; [done..|by apply Hs]|].
    destruct (assign_tables_spec (shard_size (entries m)) (workers_ m) Hp Hal) as (ws & -> & ? & ? & _ & ?).
    run. by eexists _, _. }
  run. destruct (assign_tasks_spec (shard_size (entries m)) table ss ws Hp1 Hal1 Hnd Hv)
    as (ws2 & -> & Hp2 & Hal2 & Ht2 & Htot2 & Hpen2 & Hz2 & Hs2). run.
  set (m2 := mk ws2 table ss 0 0 true (kernel_epoch_ m + 1) (entries m)).
  assert (run_inv m2) as Hinv.
  { split; cbn [workers_ run_table run_shards dispatched_ finished_ m2]; try done.
    - intros i Hvi. by apply Hs2, Hs1.
    - intros n w Hn. destruct (Hz2 n w Hn). lia.
    - rewrite Hpen2. lia.
    - unfold counted. rewrite sum_zero; [done|]. intros w (n & Hn)%list_elem_of_lookup. by destruct (Hz2 n w Hn). }
  destruct (dispatch_inv m2 Hinv) as (ws3 & reqs & E3 & Hinv3 & HB3 & _). cbn [workers_ run_table m2] in E3. rewrite E3.
  eexists _, _. split; [done|]. by split_and!.
Qed.

Lemma active_somewhere m :
  running m -> finished_ m < Z.of_nat (length (run_shards m)) ->
  exists n w i x, workers_ m !! n = Some w /\ work w !! i = Some x /\ status x = ACTIVE.
Proof.
  intros [[Hp _ _ _ Htot _ _ Hf] HB] Hlt.
  assert (exists n w, workers_ m !! n = Some w /\ count (work w) FINISHED <> base.size (work w)) as (n & w & Hn & Hne).
  { destruct (decide (Exists (fun w => count (work w) FINISHED <> base.size (work w)) (workers_ m))) as [HE|HE].
    - by apply Exists_exists in HE as (w & (n & Hn)%list_elem_of_lookup & Hw); exists n, w.
    - exfalso. apply not_Exists_Forall in HE; [|apply _]. enough (counted (workers_ m) FINISHED = tasks_total (workers_ m)) by lia.
      unfold counted, tasks_total. clear -HE. induction HE as [|w ws Hw _ IH]; [done|]. cbn. apply dec_stable in Hw. lia. }
  rewrite Forall_lookup in HB. destruct (HB n w Hn) as [_ Hb]. pose proof (count_total (work w)) as Ht.
  assert (0 < count (work w) ACTIVE)%nat as (i & x & ? & ?)%count_pos by lia. by exists n, w, i, x.
Qed.

(** A step of the barrier: some worker reports its active task. *)
Lemma barrier_step_inv m n w i x sizes attempts :
  running m -> workers_ m !! n = Some w -> work w !! i = Some x -> status x = ACTIVE ->
  Forall (fun a => a.1 < length (workers_ m))%nat attempts ->
  exists m' ms, barrier_step m n i sizes attempts = Ok (m', ms) /\ running m' /\ run_table m' = run_table m /\
    run_shards m' = run_shards m /\ finished_ m' = finished_ m + 1 /\ length (workers_ m') = length (workers_ m).
Proof.
  intros [Hinv HB] Hn Hx Hst Hat. unfold barrier_step.
  destruct (reap_inv m n w i x sizes Hinv Hn Hx Hst) as (m1 & -> & Hinv1 & Ht1 & Hs1 & Hf1 & Hl1). run.
  match type of Hinv1 with run_inv ?mm =>
    destruct (steal_attempts_inv attempts mm false Hinv1) as (m2 & b & -> & Hinv2 & Ht2 & Hs2 & Hf2 & Hl2) end.
  { cbn [workers_]. by rewrite Hl1. }
  cbn [run_table run_shards finished_ workers_] in Ht2, Hs2, Hf2, Hl2. run.
  destruct (dispatch_inv m2 Hinv2) as (ws & reqs & E & Hinv3 & HB3 & _).
  destruct (Z.ltb_spec (dispatched_ m2) (Z.of_nat (length (run_shards m2)))) as [Hlt|Hge].
  - rewrite E. eexists _, _. split; [done|]. cbn [run_table run_shards finished_ workers_]. split_and!; [done..|congruence|congruence|lia|].
    pose proof (f_equal length (f_equal fst E)) as Hl. cbn [fst] in Hl. rewrite <- Hl, <- Hl1, <- Hl2. apply dispatch_length.
  - eexists _, _. split; [done|]. split_and!; [split; [done|]|congruence..|lia|congruence].
    apply Forall_forall. intros w' (n' & Hn')%list_elem_of_lookup. split; [by apply (ri_active _ Hinv2 n' w')|].
    pose proof (ri_disp _ Hinv2) as Hdisp.
    assert (counted (workers_ m2) PENDING = 0)%nat as Hz by lia.
    unfold counted in Hz. rewrite <- (take_drop_middle _ _ _ Hn'), sum_list_with_app in Hz. cbn in Hz. lia.
Qed.

(** The executions of [barrier]'s loop, with the number of reports received: a
    worker reports its active task, with any sizes, and any workers are
    considered for stealing. *)
Inductive barrier_run : nat -> t -> t -> Prop :=
  | barrier_start m : barrier_run 0 m m
  | barrier_next k m0 m n w i x sizes attempts m' ms :
      barrier_run k m0 m -> workers_ m !! n = Some w -> work w !! i = Some x -> status x = ACTIVE ->
      Forall (fun a => a.1 < length (workers_ m))%nat attempts ->
      barrier_step m n i sizes attempts = Ok (m', ms) -> barrier_run (S k) m0 m'.

Lemma barrier_run_inv k m0 m :
  barrier_run k m0 m -> running m0 ->
  running m /\ run_table m = run_table m0 /\ run_shards m = run_shards m0 /\ finished_ m = finished_ m0 + Z.of_nat k.
Proof.
  induction 1 as [m0|k m0 m n w i x sizes attempts m' ms _ IH Hn Hx Hst Hat E]; intros Hr; [split_and!; try done; lia|].
  destruct (IH Hr) as (Hrm & Ht & Hs & Hf).
  destruct (barrier_step_inv m n w i x sizes attempts Hrm Hn Hx Hst Hat) as (m1 & ms1 & E1 & Hr1 & Ht1 & Hs1 & Hf1 & _).
  rewrite E in E1. injection E1 as <- <-. split_and!; [done|congruence..|lia].
Qed.
Lemma finished_bound m : run_inv m -> finished_ m <= Z.of_nat (length (run_shards m)).
Proof.
  intros Hinv. rewrite (ri_fin _ Hinv), <- (ri_total _ Hinv). apply Nat2Z.inj_le, sum_le.
  intros w _. pose proof (count_total (work w)). lia.
Qed.
Lemma all_finished m :
  run_inv m -> finished_ m = Z.of_nat (length (run_shards m)) ->
  forall n w i x, workers_ m !! n = Some w -> work w !! i = Some x -> status x = FINISHED.
Proof.
  intros Hinv Hf n w i x Hn Hx. rewrite (ri_fin _ Hinv), <- (ri_total _ Hinv) in Hf. apply Nat2Z.inj in Hf.
  assert (count (work w) FINISHED = base.size (work w)) as Hc.
  { eapply (sum_eq (fun w => count (work w) FINISHED) (fun w => base.size (work w)) (workers_ m)); [|exact Hf|by eapply list_elem_of_lookup_2].
    intros w' _. pose proof (count_total (work w')). lia. }
  rewrite count_total in Hc. destruct (status x) eqn:E; [| |done]; exfalso;
    [assert (0 < count (work w) PENDING)%nat|assert (0 < count (work w) ACTIVE)%nat]; try lia; apply count_pos; by exists i, x.
Qed.

(** The barrier can always go on until the run is complete. *)
Lemma barrier_finishes k : forall m,
  running m -> Z.of_nat (length (run_shards m)) - finished_ m = Z.of_nat k ->
  exists m', barrier_run k m m' /\ finished_ m' = Z.of_nat (length (run_shards m')).
Proof.
  assert (forall j m0 m, barrier_run j m0 m -> running m ->
    Z.of_nat (length (run_shards m)) - finished_ m = Z.of_nat k ->
    exists m', barrier_run (k + j) m0 m' /\ finished_ m' = Z.of_nat (length (run_shards m'))) as H.
  { induction k as [|k IH]; intros j m0 m Hb Hr Hk; [exists m; split; [done|lia]|].
    destruct (active_somewhere m Hr) as (n & w & i & x & Hn & Hx & Hst); [lia|].
    destruct (barrier_step_inv m n w i x [] [] Hr Hn Hx Hst) as (m1 & ms & E & Hr1 & _ & Hs1 & Hf1 & _); [done|].
    destruct (IH (S j) m0 m1) as (m' & Hb' & Hf'); [|done|rewrite Hs1; lia|].
    { by eapply (barrier_next j m0 m n w i x [] []). }
    exists m'. by replace (S k + j)%nat with (k + S j)%nat by lia. }
  intros m Hr Hk. destruct (H 0%nat m m (barrier_start m) Hr Hk) as (m' & Hb & Hf). rewrite Nat.add_0_r in Hb. by exists m'.
Qed.

(** C18. From a state where the previous run is complete, [run] starts, and at
    every point of the barrier's loop that follows, whatever was stolen, each
    shard of each table is served by exactly one worker, an alive one, and that
    worker holds the shard's task. *)
Theorem shards_exclusive m table ss m1 ms k m2 :
  ready m -> NoDup ss -> Forall (fun s => valid (table, s)) ss -> run m table ss = Ok (m1, ms) ->
  barrier_run k m1 m2 ->
  (forall i, valid i -> exists n w, workers_ m2 !! n = Some w /\ i ∈ shards w /\ alive w = true /\
     forall n' w', workers_ m2 !! n' = Some w' -> i ∈ shards w' -> n' = n) /\
  (forall s, s ∈ ss -> exists n w, workers_ m2 !! n = Some w /\ (table, s) ∈ shards w /\ is_Some (work w !! (table, s)) /\
     forall n' w', workers_ m2 !! n' = Some w' -> is_Some (work w' !! (table, s)) -> n' = n).
Proof.
  intros Hr Hnd Hv E Hb. destruct (run_establishes m table ss Hr Hnd Hv) as (m1' & ms' & E' & Hrun & Ht & Hs & _).
  rewrite E in E'. injection E' as <- <-. destruct (barrier_run_inv k m1 m2 Hb Hrun) as ([Hinv _] & Ht2 & Hs2 & _).
  pose proof (ri_placed _ Hinv) as Hp. split.
  - intros i Hi. destruct (ri_served _ Hinv i Hi) as (n & w & Hn & Hw & Ha). exists n, w. split_and!; try done.
    intros n' w' Hn' Hw'. by apply (pl_excl _ Hp n' n w' w i).
  - intros s Hin. destruct (ri_tasks _ Hinv (table, s)) as [_ Htask]. destruct Htask as (n & w & Hn & [x Hx]).
    { cbn. rewrite Ht2, Hs2, Hs. split; congruence. }
    pose proof (pl_serve _ Hp n w _ x Hn Hx) as Hsv. exists n, w. split_and!; [done..|by exists x|].
    intros n' w' Hn' [x' Hx']. apply (pl_excl _ Hp n' n w' w (table, s)); try done. by apply (pl_serve _ Hp n' w' _ x').
Qed.

(** C19. The barrier is never stuck and ends with the work done.  [run] starts
    with no report received; after [k] reports [finished_] is [k], at most the
    number of shards.  While it is below, some worker has an active task, and
    the report of any active task is accepted.  When the loop ends, every task
    is finished and the next run may start; and the loop can always get there. *)
Theorem barrier_completes m table ss :
  ready m -> NoDup ss -> Forall (fun s => valid (table, s)) ss ->
  exists m1 ms, run m table ss = Ok (m1, ms) /\
  (forall k m2, barrier_run k m1 m2 ->
    finished_ m2 = Z.of_nat k /\ (k <= length ss)%nat /\
    ((k < length ss)%nat -> exists n w i x, workers_ m2 !! n = Some w /\ work w !! i = Some x /\ status x = ACTIVE) /\
    (forall n w i x sizes attempts, workers_ m2 !! n = Some w -> work w !! i = Some x -> status x = ACTIVE ->
       Forall (fun a => a.1 < length (workers_ m2))%nat attempts ->
       exists m3 ms3, barrier_step m2 n i sizes attempts = Ok (m3, ms3)) /\
    (k = length ss -> (forall n w i x, workers_ m2 !! n = Some w -> work w !! i = Some x -> status x = FINISHED) /\ ready m2)) /\
  exists m3, barrier_run (length ss) m1 m3.
Proof.
  intros Hr Hnd Hv. destruct (run_establishes m table ss Hr Hnd Hv) as (m1 & ms & E & Hrun & Ht & Hs & Hf & _).
  exists m1, ms. split; [done|]. split.
  - intros k m2 Hb. destruct (barrier_run_inv k m1 m2 Hb Hrun) as (Hr2 & Ht2 & Hs2 & Hf2).
    pose proof (finished_bound _ (proj1 Hr2)) as Hle. rewrite Hs2, Hs in Hle. rewrite Hf in Hf2. split_and!.
    + lia.
    + lia.
    + intros Hlt. apply active_somewhere; [done|]. rewrite Hs2, Hs. lia.
    + intros n w i x sizes attempts Hn Hx Hst Hat.
      destruct (barrier_step_inv m2 n w i x sizes attempts Hr2 Hn Hx Hst Hat) as (m3 & ms3 & ? & _). by exists m3, ms3.
    + intros ->. destruct Hr2 as [Hinv _]. split; [apply all_finished; [done|]; rewrite Hs2, Hs; lia|].
      split; [apply Hinv|apply Hinv|intros _; apply Hinv|]. rewrite Hs2, Hs. lia.
  - destruct (barrier_finishes (length ss) m1 Hrun) as (m3 & Hb & _); [rewrite Hs; lia|]. by exists m3.
Qed.

(** The assignments sent: each served shard once, with its worker. *)
Lemma elem_of_assignments ws i o :
  (i, o) ∈ send_table_assignments ws <-> exists n w, ws !! n = Some w /\ i ∈ shards w /\ o = Z.of_nat n.
Proof.
  unfold send_table_assignments. rewrite list_elem_of_join. split.
  - intros (l & Hl & (n & Hn)%list_elem_of_lookup). rewrite list_lookup_imap in Hn. apply fmap_Some in Hn as (w & Hn & ->).
    apply list_elem_of_fmap in Hl as (j & [= -> ->] & Hj). exists n, w. split_and!; try done. by apply elem_of_elements.
  - intros (n & w & Hn & Hi & ->). exists ((fun j => (j, Z.of_nat n)) <$> elements (shards w)).
    split; [apply list_elem_of_fmap; exists i; by rewrite elem_of_elements|].
    apply (list_elem_of_lookup_2 _ n). by rewrite list_lookup_imap, Hn.
Qed.
Lemma assignments_NoDup ws : placed ws -> NoDup (send_table_assignments ws).*1.
Proof.
  intros Hp. pose proof (pl_excl _ Hp) as Hex. clear Hp. unfold send_table_assignments. generalize Z.of_nat as f. revert Hex.
  induction ws as [|w ws IH]; intros Hex f; [constructor|]. cbn. rewrite fmap_app. apply NoDup_app. split_and!.
  - rewrite <- list_fmap_compose. cbn. rewrite list_fmap_id. apply NoDup_elements.
  - intros i Hi Hi'. rewrite <- list_fmap_compose in Hi. cbn in Hi. rewrite list_fmap_id, elem_of_elements in Hi.
    apply list_elem_of_fmap in Hi' as ([i' o] & -> & Hi'). apply list_elem_of_join in Hi' as (l & Hl & (n & Hn)%list_elem_of_lookup).
    rewrite list_lookup_imap in Hn. apply fmap_Some in Hn as (w' & Hn & ->).
    apply list_elem_of_fmap in Hl as (j & [= -> _] & Hj). rewrite elem_of_elements in Hj.
    by specialize (Hex 0%nat (S n) w w' j eq_refl Hn Hi Hj).
  - apply (IH (fun a b wa wb i Ha Hb Hia Hib => Nat.succ_inj _ _ (Hex (S a) (S b) wa wb i Ha Hb Hia Hib)) (fun n => f (S n))).
Qed.
End Placement.

(** ** Checkpoints *)

Lemma bind_singleton {A B} (f : A -> B) l : l ≫= (fun x => [f x]) = f <$> l.
Proof. induction l as [|x l IH]; [done|]. cbn. by rewrite <- IH. Qed.
Lemma bind_nothing {A B} (l : list A) : l ≫= (fun _ => [] : list B) = [].
Proof. induction l as [|x l IH]; [done|]. by cbn. Qed.

(** A loop over the positions of the workers that updates each one and sends
    messages. *)
Lemma worker_loop (f : list WorkerState * list cp_message -> nat -> outcome (list WorkerState * list cp_message))
    (P : WorkerState -> Prop) g h ws :
  (forall ws1 ms n w, ws1 !! n = Some w -> P w -> f (ws1, ms) n = Ok (<[n := g w]> ws1, ms ++ h n)) -> Forall P ws ->
  for_each f (seq 0 (length ws)) (ws, []) = Ok (g <$> ws, seq 0 (length ws) ≫= h).
Proof.
  intros Hf Hall. destruct (for_each_inv f (fun pre s =>
      s.1 = (g <$> take (length pre) ws) ++ drop (length pre) ws /\ s.2 = pre ≫= h) (seq 0 (length ws)) (ws, []))
    as ([ws' ms] & E & H1 & H2).
  - done.
  - intros pre n todo [ws1 ms1] Hs [H1 H2]. cbn [fst snd] in *. assert (n = length pre) as ->.
    { assert (seq 0 (length ws) !! length pre = Some n) as Hn by (by rewrite Hs, list_lookup_middle).
      apply lookup_seq in Hn. lia. }
    assert (length pre < length ws)%nat as Hlt by (rewrite <- (length_seq (length ws) 0), Hs, length_app; cbn; lia).
    destruct (lookup_lt_is_Some_2 ws (length pre) Hlt) as [w Hw].
    assert (ws1 !! length pre = Some w) as Hw1.
    { rewrite H1, lookup_app_r; rewrite length_fmap, length_take_le by lia; [|lia]. by rewrite Nat.sub_diag, lookup_drop, Nat.add_0_r. }
    rewrite Forall_lookup in Hall. rewrite (Hf ws1 ms1 _ w Hw1 (Hall _ _ Hw)).
    eexists. split; [done|]. cbn [fst snd]. split; [|rewrite H2, bind_app; cbn; by rewrite app_nil_r].
    rewrite H1, (drop_S ws w) by done. rewrite insert_app_r_alt; rewrite length_fmap, length_take_le by lia; [|lia].
    rewrite Nat.sub_diag, length_app, Nat.add_1_r, (take_S_r ws _ w) by done. cbn. by rewrite fmap_app, <- app_assoc.
  - rewrite E. cbn [fst snd] in *. rewrite H1, H2, length_seq, firstn_all, drop_all, app_nil_r. done.
Qed.

(** A checkpoint taken while none is in progress succeeds: it advances the
    epoch, tells every worker once to start, with the new epoch, then (for the
    master-controlled type) once to finish, and leaves the workers as they were
    with no checkpoint in progress, so that another may follow. *)
Theorem checkpoint_completes c :
  cp_on c = false -> Forall (fun w => checkpointing w = false) (cp_workers c) ->
  let ty := match cp_type c with CP_NONE => CP_MASTER_CONTROLLED | ty => ty end in
  let ns := seq 0 (length (cp_workers c)) in
  checkpoint c =
    Ok ({| cp_epoch := cp_epoch c + 1; cp_on := false; cp_type := ty; cp_workers := cp_workers c |},
        ((fun n => StartCheckpoint (Z.of_nat n) (cp_epoch c + 1) ty) <$> ns) ++
        match ty with CP_MASTER_CONTROLLED => (fun n => FinishCheckpoint (Z.of_nat n)) <$> ns | _ => [] end).
Proof.
  intros Hon Hall ty ns. unfold checkpoint, start_checkpoint. rewrite Hon.
  rewrite (worker_loop _ (fun w => checkpointing w = false) (fun w => set_checkpointing w true)
             (fun n => [StartCheckpoint (Z.of_nat n) (cp_epoch c + 1) ty])); [|intros ws1 ms n w Hn Hw; unfold start_one; rewrite Hn; run; by rewrite Hw|done].
  run. unfold finish_checkpoint. cbn [cp_workers cp_type cp_epoch]. fold ty.
  rewrite (worker_loop _ (fun w => checkpointing w = true) (fun w => set_checkpointing w false)
             (fun n => match ty with CP_MASTER_CONTROLLED => [FinishCheckpoint (Z.of_nat n)] | _ => [] end)).
  - run. rewrite length_fmap. fold ns. do 2 f_equal.
    + f_equal. rewrite <- list_fmap_compose. rewrite <- (list_fmap_id (cp_workers c)) at 2. apply list_fmap_ext.
      intros n w Hn. rewrite Forall_lookup in Hall. specialize (Hall n w Hn). destruct w. cbn in *. by subst.
    + rewrite bind_singleton. f_equal. destruct ty; [apply bind_nothing..|apply bind_singleton].
  - intros ws1 ms n w Hn Hw. unfold finish_one. rewrite Hn. run. by rewrite Hw.
  - apply Forall_fmap, Forall_true. done.
Qed.

(** ** Termination checks *)

(** The progress that a worker reported last. *)
Definition latest (w : WorkerState) (reports : list (Z * spec_float)) : spec_float :=
  match last reports with Some r => r.2 | None => current w end.
Definition heard (w : WorkerState) (reports : list (Z * spec_float)) : Prop := termchecking w = true \/ reports <> [].
#[export] Instance heard_dec w r : Decision (heard w r).
Proof. unfold heard. apply _. Defined.

Lemma read_reports_spec w r :
  current (read_reports w r) = latest w r /\ (termchecking (read_reports w r) = true <-> heard w r).
Proof.
  unfold read_reports, latest, heard. destruct r as [|x r _] using rev_ind; [cbn; naive_solver|].
  rewrite foldl_snoc, last_snoc. cbn. split; [done|]. split; [|done]. intros _. right. by destruct r.
Qed.
Lemma read_all ws reports :
  length reports = length ws ->
  current <$> zip_with read_reports ws reports = zip_with latest ws reports /\
  (Forall2 heard ws reports <-> Forall (fun w => termchecking w = true) (zip_with read_reports ws reports)).
Proof.
  revert reports. induction ws as [|w ws IH]; intros [|r reports] Hl; try done. injection Hl as Hl.
  destruct (IH reports Hl) as [IH1 IH2]. destruct (read_reports_spec w r) as [Hc Ht]. cbn [zip_with fmap list_fmap].
  split; [by rewrite Hc, <- IH1|]. by rewrite Forall2_cons, IH2, Forall_cons, <- Ht.
Qed.
Lemma reported_all ws :
  (length (filter (fun w => termchecking w = true) ws) < length ws)%nat <-> ~ Forall (fun w => termchecking w = true) ws.
Proof.
  split.
  - intros Hlt Hall. enough (filter (fun w => termchecking w = true) ws = ws) as E by (rewrite E in Hlt; lia).
    clear Hlt. induction Hall as [|w ws Hw _ IH]; [done|]. by rewrite filter_cons_True, IH.
  - intros Hn. apply not_Forall_Exists in Hn; [|apply _]. apply Exists_exists in Hn as (w & Hw & Ht). by eapply length_filter_lt.
Qed.

(** The verdict on termination: as long as some worker has not reported
    since the last reset, the checker is not consulted and the run goes on;
    once all have, the verdict and the checker's new state are those of
    [Diff_terminate] on the latest reports, and a negative verdict makes every worker
    report again. *)
Theorem termcheck_decides threshold c ws reports :
  length reports = length ws ->
  let '(ws', c', bterm) := termcheck threshold c ws reports in
  if decide (Forall2 heard ws reports) then
    (bterm, c') = Diff_terminate threshold c (zip_with latest ws reports) /\
    (bterm = false -> Forall (fun w => termchecking w = false) ws')
  else bterm = false /\ c' = c.
Proof.
  intros Hl. unfold termcheck. destruct (read_all ws reports Hl) as [Hc Hh]. rewrite Hc.
  set (rs := zip_with read_reports ws reports) in *.
  destruct (decide (Forall2 heard ws reports)) as [Hd|Hd].
  - rewrite bool_decide_eq_false_2 by (rewrite reported_all; tauto).
    destruct (Diff_terminate threshold c _) as [[] c']; [done|]. split; [done|]. intros _. by apply Forall_fmap, Forall_true.
  - rewrite bool_decide_eq_true_2 by (rewrite reported_all; tauto). done.
Qed.

(** ** The order of tasks *)

(** [WeightCompare] is not an ordering: of a task that was stolen and a
    smaller one that was not, each counts as less than the other.  The task that
    [get_next] runs and [steal_work] considers then depends on their place in
    the task map, not on the tasks. *)
Theorem weight_order_dependent s u :
  stolen s = true -> stolen u = false -> size u < size s ->
  WeightCompare s u = true /\ WeightCompare u s = true /\
  max_element WeightCompare [s; u] = Some u /\ max_element WeightCompare [u; s] = Some s.
Proof.
  intros Hs Hu Hlt.
  assert (WeightCompare s u = true) as H1 by (unfold WeightCompare; by rewrite Hs, Hu).
  assert (WeightCompare u s = true) as H2 by (unfold WeightCompare; rewrite Hs, Hu; cbn; lia).
  cbn. by rewrite H1, H2.
Qed.
End Master.

(** ** A master with two workers and a table of six shards *)
Section Sample.
#[local] Abbreviation tabs := [(0, 6)].
#[local] Abbreviation half := (S754_finite false 4503599627370496 (-53)).
Definition fresh_master : t := mk [WorkerState_new 0; WorkerState_new 1] 0 [] 0 0 false 0 ∅.
Definition get_state (o : outcome (t * list message)) : t := match o with Ok (m, _) => m | _ => fresh_master end.
Definition get_messages (o : outcome (t * list message)) : list message := match o with Ok (_, ms) => ms | _ => [] end.
(** The start of the run; then worker 1 does its three tasks and, idle, steals
    one from worker 0. *)
Definition run0 : outcome (t * list message) := Eval vm_compute in run tabs ∅ fresh_master 0 (seqZ 0 6).
Definition step_of (m : t) (n : nat) (attempts : list (nat * spec_float)) : outcome (t * list message) :=
  w ← deref (workers_ m !! n); x ← deref (head (with_state w ACTIVE)); barrier_step tabs ∅ true m n (id x) [] attempts.
Definition run1 : outcome (t * list message) := Eval vm_compute in step_of (get_state run0) 1 [].
Definition run2 : outcome (t * list message) := Eval vm_compute in step_of (get_state run1) 1 [].
Definition run3 : outcome (t * list message) := Eval vm_compute in step_of (get_state run2) 1 [(1%nat, half)].

Lemma fresh_ready : ready tabs ∅ fresh_master.
Proof.
  assert (forall n w, [WorkerState_new 0; WorkerState_new 1] !! n = Some w -> shards w = ∅ /\ work w = ∅) as Hw.
  { intros [|[|n]] w Hn; [injection Hn as <-; done..|done]. }
  split; cbn [workers_ fresh_master shards_assigned_ run_shards finished_]; [|by exists 0%nat, (WorkerState_new 0)|done..].
  split.
  - intros n w i x Hn. by rewrite (proj2 (Hw n w Hn)), lookup_empty.
  - intros n w i x Hn. by rewrite (proj2 (Hw n w Hn)), lookup_empty.
  - intros a b wa wb i Ha _. rewrite (proj1 (Hw a wa Ha)). set_solver.
  - intros n w i Hn. rewrite (proj1 (Hw n w Hn)). set_solver.
  - intros n w i Hn. rewrite (proj1 (Hw n w Hn)). set_solver.
Qed.
Lemma sample_valid : Forall (fun s => valid tabs (0, s)) (seqZ 0 6).
Proof. apply Forall_forall. intros s Hs. apply elem_of_seqZ in Hs. exists 6. split; [left|cbn; lia]. Qed.

(** The stealing took place: worker 1 now serves shard 2 and runs its task. *)
Example sample_steals : (fun w => (base.size (work w), bool_decide ((0, 2) ∈ shards w))) <$> workers_ (get_state run3) = [(2%nat, false); (4%nat, true)].
Proof. vm_compute. reflexivity. Qed.

Lemma stealing_run : barrier_run tabs ∅ true 3 (get_state run0) (get_state run3).
Proof.
  assert (forall k m0 m n w x attempts m' ms, barrier_run tabs ∅ true k m0 m -> workers_ m !! n = Some w ->
    head (with_state w ACTIVE) = Some x -> status x = ACTIVE -> work w !! id x = Some x -> Forall (fun a => a.1 < length (workers_ m))%nat attempts ->
    step_of m n attempts = Ok (m', ms) -> barrier_run tabs ∅ true (S k) m0 m') as Hstep.
  { intros k m0 m n w x attempts m' ms Hb Hn Hx Hst Hw Hat E. unfold step_of in E. rewrite Hn in E. revert E. run. rewrite Hx. run.
    intros E. by eapply (barrier_next tabs ∅ true k m0 m n w (id x) x [] attempts). }
  eapply (Hstep 2%nat _ (get_state run2) 1%nat _ _ [(1%nat, half)] _ (get_messages run3));
    [|vm_compute; reflexivity..|by repeat constructor|vm_compute; reflexivity].
  eapply (Hstep 1%nat _ (get_state run1) 1%nat _ _ [] _ (get_messages run2));
    [|vm_compute; reflexivity..|by repeat constructor|vm_compute; reflexivity].
  eapply (Hstep 0%nat _ (get_state run0) 1%nat _ _ [] _ (get_messages run1));
    [|vm_compute; reflexivity..|by repeat constructor|vm_compute; reflexivity].
  apply barrier_start.
Qed.

Lemma stealing_placed :
  placed tabs ∅ (workers_ (get_state run3)) /\ forall i, valid tabs i -> served ∅ (workers_ (get_state run3)) i.
Proof.
  assert (NoDup [0]) as Hnd by (by repeat constructor; set_solver).
  destruct (run_establishes tabs ∅ Hnd fresh_master 0 (seqZ 0 6) fresh_ready (NoDup_seqZ 0 6) sample_valid) as (m1 & ms & E & Hrun & _).
  assert (run tabs ∅ fresh_master 0 (seqZ 0 6) = Ok (get_state run0, get_messages run0)) as E0 by (vm_compute; reflexivity).
  rewrite E0 in E. injection E as <- <-.
  destruct (barrier_run_inv tabs ∅ true Hnd 3 _ _ stealing_run Hrun) as ([Hinv _] & _). split; apply Hinv.
Qed.

Lemma shards_exclusive_witness :
  exists n w, workers_ (get_state run3) !! n = Some w /\ (0, 2) ∈ shards w /\ alive ∅ w = true /\
    forall n' w', workers_ (get_state run3) !! n' = Some w' -> (0, 2) ∈ shards w' -> n' = n.
Proof.
  destruct (shards_exclusive tabs ∅ true ltac:(by repeat constructor; set_solver) fresh_master 0 (seqZ 0 6) (get_state run0) (get_messages run0) 3
    (get_state run3) fresh_ready (NoDup_seqZ 0 6) sample_valid) as [H _].
  - vm_compute. reflexivity.
  - exact stealing_run.
  - apply (H (0, 2)). exists 6. split; [left|cbn; lia].
Defined.
Lemma barrier_completes_witness :
  exists m1 ms m3, run tabs ∅ fresh_master 0 (seqZ 0 6) = Ok (m1, ms) /\ barrier_run tabs ∅ true 6 m1 m3.
Proof.
  destruct (barrier_completes tabs ∅ true ltac:(by repeat constructor; set_solver) fresh_master 0 (seqZ 0 6) fresh_ready (NoDup_seqZ 0 6) sample_valid)
    as (m1 & ms & E & _ & m3 & Hb).
  exists m1, ms, m3. split; [exact E|exact Hb].
Defined.
Lemma checkpoint_completes_witness :
  checkpoint {| cp_epoch := 4; cp_on := false; cp_type := CP_NONE; cp_workers := [WorkerState_new 0; WorkerState_new 1] |} =
    Ok ({| cp_epoch := 5; cp_on := false; cp_type := CP_MASTER_CONTROLLED; cp_workers := [WorkerState_new 0; WorkerState_new 1] |},
        [StartCheckpoint 0 5 CP_MASTER_CONTROLLED; StartCheckpoint 1 5 CP_MASTER_CONTROLLED; FinishCheckpoint 0; FinishCheckpoint 1]).
Proof.
  apply (checkpoint_completes {| cp_epoch := 4; cp_on := false; cp_type := CP_NONE; cp_workers := [WorkerState_new 0; WorkerState_new 1] |});
    [reflexivity|by repeat constructor].
Defined.
(** One of the two workers has not reported: no verdict. *)
Lemma termcheck_decides_witness :
  termcheck half Diff_new [WorkerState_new 0; WorkerState_new 1] [[(3, half)]; []] =
    ([read_reports (WorkerState_new 0) [(3, half)]; WorkerState_new 1], Diff_new, false).
Proof.
  pose proof (termcheck_decides half Diff_new [WorkerState_new 0; WorkerState_new 1] [[(3, half)]; []] eq_refl) as H.
  destruct (termcheck half Diff_new [WorkerState_new 0; WorkerState_new 1] [[(3, half)]; []]) as [[ws c] b] eqn:E.
  destruct (decide _) as [Hh|_]; [vm_compute in Hh; exfalso; apply Forall2_cons in Hh as [_ [[|] _]%Forall2_cons]; done|].
  destruct H as [-> ->]. vm_compute in E. injection E as <-. reflexivity.
Defined.
Lemma weight_order_dependent_witness :
  max_element WeightCompare [with_stolen (TaskState_new (0, 1) 9); TaskState_new (0, 2) 5] = Some (TaskState_new (0, 2) 5).
Proof.
  apply (weight_order_dependent (with_stolen (TaskState_new (0, 1) 9)) (TaskState_new (0, 2) 5)); [reflexivity|reflexivity|vm_compute; reflexivity].
Defined.
End Sample.
End Master.
