(* ===== verification/Worker.v ===== *)
(** * The worker: worker/worker.cc, and the checkpoint calls of kernel/global-table.cc

    A worker owns the tables of the registry, keeps its epoch and those of its
    peers, and serves requests: put requests and epoch markers from other
    workers, shard assignments, flushes and checkpoints from the master, and
    kernel runs.

    What a handler sends or writes to files is returned as a list of [output]s.
    A handler that polls the network takes the messages that it finds as an
    argument.  The worker is the [TableHelper] of its tables, so that a change
    of [epoch_] is seen by all of them. *)
From S2P Require Import Prelude Float StringPiece Probe Table SampleKernel DeltaTable StateTable GlobalTable Master Cluster.

Module Worker.
Import GlobalTable.
Section Worker.
Context {K V D : Type} `{Countable K} `{!Hashable K}.
Context `{!ValueInit K} `{!ValueInit V} `{!ValueInit D}.
Context `{!IterateKernel K V D} `{!Sharder K} `{!Marshal K} `{!Marshal V}.
Variable bufmsg : Z.
Variable wire_size : KVPairData -> Z.
#[local] Abbreviation table := (GlobalTable.t (K := K) (V := V) (D := D)).
#[local] Abbreviation CheckpointType := Master.CheckpointType.

(** [tables] is the map of [TableRegistry], in its order; [peers_] holds the
    epoch of each [Stub]; [delta_files] are the shards whose [delta_file_] is
    open. *)
Record t := mk {
  id : Z;
  epoch_ : Z;
  active_checkpoint_ : CheckpointType;
  checkpoint_tables_ : gset Z;
  peers_ : list Z;
  running_ : bool;
  dirty_tables_ : gset Z;
  tables : list (Z * table);
  delta_files : gset (Z * Z)
}.
Implicit Types w : t.

Inductive output :=
  | Sent (m : message)
  | SendMarker (dst source epoch : Z)
  | CheckpointDone
  | WriteShard (tbl shard epoch : Z)
  | WriteDelta (tbl shard : Z) (d : list Arg).

Definition set_tables w (ts : list (Z * table)) : t :=
  mk (id w) (epoch_ w) (active_checkpoint_ w) (checkpoint_tables_ w) (peers_ w) (running_ w) (dirty_tables_ w) ts (delta_files w).
Definition set_dirty w (s : gset Z) : t :=
  mk (id w) (epoch_ w) (active_checkpoint_ w) (checkpoint_tables_ w) (peers_ w) (running_ w) s (tables w) (delta_files w).
Definition set_peers w (ps : list Z) : t :=
  mk (id w) (epoch_ w) (active_checkpoint_ w) (checkpoint_tables_ w) ps (running_ w) (dirty_tables_ w) (tables w) (delta_files w).
Definition set_active w (ty : CheckpointType) : t :=
  mk (id w) (epoch_ w) ty (checkpoint_tables_ w) (peers_ w) (running_ w) (dirty_tables_ w) (tables w) (delta_files w).
Definition set_checkpoint_tables w (s : gset Z) : t :=
  mk (id w) (epoch_ w) (active_checkpoint_ w) s (peers_ w) (running_ w) (dirty_tables_ w) (tables w) (delta_files w).
Definition set_delta_files w (s : gset (Z * Z)) : t :=
  mk (id w) (epoch_ w) (active_checkpoint_ w) (checkpoint_tables_ w) (peers_ w) (running_ w) (dirty_tables_ w) (tables w) s.
Definition stop w : t :=
  mk (id w) (epoch_ w) (active_checkpoint_ w) (checkpoint_tables_ w) (peers_ w) false (dirty_tables_ w) (tables w) (delta_files w).
Definition with_epoch (e : Z) (tb : table) : table :=
  GlobalTable.mk (table_id tb) (num_shards tb)
    ((fun h => {| helper_id := helper_id h; helper_epoch := e |}) <$> helper tb)
    (partitions_ tb) (partinfo_ tb) (pending_writes_ tb) (snapshot_index tb) (sent_bytes_ tb) (update_queue tb) (binit tb).
Definition set_epoch w (e : Z) : t :=
  mk (id w) e (active_checkpoint_ w) (checkpoint_tables_ w) (peers_ w) (running_ w) (dirty_tables_ w)
     ((fun x => (x.1, with_epoch e x.2)) <$> tables w) (delta_files w).

(** [TableRegistry::table], [mutable_table]. *)
Definition position w (i : Z) : option nat := fst <$> list_find (fun x => x.1 = i) (tables w).
Definition table_at w (i : Z) : outcome table :=
  n ← match position w i with Some n => Ok n | None => Fatal end;
  x ← deref (tables w !! n); Ok x.2.
Definition set_table w (i : Z) (tb : table) : outcome t :=
  n ← match position w i with Some n => Ok n | None => Fatal end;
  Ok (set_tables w (<[n := (i, tb)]> (tables w))).
(** [tables()[table]] of an unknown table is a null pointer. *)
Definition peer_for_shard w (tbl shard : Z) : outcome Z :=
  n ← deref (position w tbl); x ← deref (tables w !! n); owner x.2 shard.

(** A loop over the tables of the registry. *)
Definition for_tables (f : t -> Z -> table -> outcome (t * list output)) w : outcome (t * list output) :=
  for_each (fun s n => let '(w, os) := s in
      x ← deref (tables w !! n);
      '(w, os') ← f w x.1 x.2;
      Ok (w, os ++ os')) (seq 0 (length (tables w))) (w, []).

(** ** Shard assignments *)
Definition change_info (f : PartitionInfo -> PartitionInfo) (tb : table) (i : Z) : outcome table :=
  p ← vec_at (partinfo_ tb) i;
  ps ← vec_set (partinfo_ tb) i (f p);
  Ok (set_partinfo tb ps).
Definition with_owner (o : Z) (p : PartitionInfo) : PartitionInfo :=
  {| dirty := dirty p; tainted := tainted p; sinfo_owner := o; sinfo_entries := sinfo_entries p |}.
Definition with_tainted (b : bool) (p : PartitionInfo) : PartitionInfo :=
  {| dirty := dirty p; tainted := b; sinfo_owner := sinfo_owner p; sinfo_entries := sinfo_entries p |}.
Definition with_dirty (b : bool) (p : PartitionInfo) : PartitionInfo :=
  {| dirty := b; tainted := tainted p; sinfo_owner := sinfo_owner p; sinfo_entries := sinfo_entries p |}.

Definition assign_one w (a : Master.Taskid * Z) : outcome t :=
  let '((tbl, shard), new_worker) := a in
  tb ← table_at w tbl;
  old_owner ← owner tb shard;
  tb ← change_info (with_owner new_worker) tb shard;
  if (new_worker =? id w) && negb (old_owner =? id w) then
    if negb (old_owner =? -1) then tb ← change_info (with_tainted true) tb shard; set_table w tbl tb
    else set_table w tbl tb
  else if (old_owner =? id w) && negb (new_worker =? id w) then
    tb ← change_info (with_dirty true) tb shard;
    w ← set_table w tbl tb;
    Ok (set_dirty w ({[tbl]} ∪ dirty_tables_ w))
  else set_table w tbl tb.
Definition HandleShardAssignment w (req : list (Master.Taskid * Z)) : outcome t := for_each assign_one req w.

(** ** Flushing *)
Definition flush_table w (i : Z) (tb : table) : outcome (t * list output) :=
  '(tb, ms) ← SendUpdates wire_size tb; w ← set_table w i tb; Ok (w, map Sent ms).
Definition HandleFlush w : outcome (t * list output) := for_tables flush_table w.
(** [due] says for each table whether the snapshot interval has passed. *)
Definition flush_and_check (due : Z -> bool) w (i : Z) (tb : table) : outcome (t * list output) :=
  '(tb, ms) ← SendUpdates wire_size tb;
  '(tb, ms') ← TermCheck (due i) tb;
  w ← set_table w i tb; Ok (w, map Sent (ms ++ ms')).
Definition FlushUpdates (due : Z -> bool) w : outcome (t * list output) := for_tables (flush_and_check due) w.

(** ** Checkpoints *)

(** [LocalTable::start_checkpoint]: [serializeToFile] of a [StateTable] asks
    for an iterator with a null helper, which [get_iterator] calls. *)
Definition start_checkpoint_shard (tbl : Z) (tb : table) (s : t * list output) (i : Z) : outcome (t * list output) :=
  let '(w, os) := s in
  p ← vec_at (partitions_ tb) i;
  loc ← is_local_shard tb i;
  if loc : bool then
    match p with
    | State _ => Undefined
    | Delta _ => Ok (set_delta_files w ({[(tbl, i)]} ∪ delta_files w), os ++ [WriteShard tbl i (epoch_ w)])
    end
  else Ok (w, os).
Definition start_checkpoint (tbl : Z) (tb : table) w : outcome (t * list output) :=
  for_each (start_checkpoint_shard tbl tb) (seqZ 0 (Z.of_nat (length (partitions_ tb)))) (w, []).
Definition finish_checkpoint_shard (tbl : Z) (tb : table) w (i : Z) : outcome t :=
  _ ← vec_at (partitions_ tb) i;
  loc ← is_local_shard tb i;
  Ok (if loc : bool then set_delta_files w (delta_files w ∖ {[(tbl, i)]}) else w).
Definition finish_checkpoint (tbl : Z) (tb : table) w : outcome t :=
  for_each (finish_checkpoint_shard tbl tb) (seqZ 0 (Z.of_nat (length (partitions_ tb)))) w.
(** [delta_file_->WriteEntryToFile] with no open file is undefined, when there
    is an entry to write. *)
Definition write_delta (tbl : Z) (tb : table) w (d : KVPairData) : outcome (list output) :=
  loc ← is_local_shard tb (shard d);
  if negb loc then Ok []
  else
    _ ← vec_at (partitions_ tb) (shard d);
    match kv_data d with
    | [] => Ok []
    | _ => if decide ((tbl, shard d) ∈ delta_files w) then Ok [WriteDelta tbl (shard d) (kv_data d)] else Undefined
    end.

Definition start_listed w (i : Z) (tb : table) : outcome (t * list output) :=
  if decide (i ∈ checkpoint_tables_ w) then start_checkpoint i tb w else Ok (w, []).
Definition StartCheckpoint w (epoch : Z) (type : CheckpointType) : outcome (t * list output) :=
  if epoch <=? epoch_ w then Ok (w, [])
  else
    let w := set_epoch w epoch in
    '(w, os) ← for_tables start_listed w;
    let w := set_active w type in
    match type with
    | Master.CP_ROLLING =>
        Ok (w, os ++ ((fun i => SendMarker (Z.of_nat i + 1) (id w) (epoch_ w)) <$> seq 0 (length (peers_ w))))
    | _ => Ok (w, os)
    end.
Definition finish_table w (i : Z) (tb : table) : outcome (t * list output) :=
  w ← finish_checkpoint i tb w; Ok (w, []).
Definition FinishCheckpoint w : outcome (t * list output) :=
  let w := set_active w Master.CP_NONE in
  let w := set_peers w (replicate (length (peers_ w)) (epoch_ w)) in
  '(w, os) ← for_tables finish_table w;
  Ok (w, os ++ [CheckpointDone]).
Definition UpdateEpoch w (peer peer_epoch : Z) : outcome (t * list output) :=
  '(w, os) ← (if epoch_ w <? peer_epoch then
                StartCheckpoint (set_checkpoint_tables w (list_to_set (tables w).*1)) peer_epoch Master.CP_ROLLING
              else Ok (w, []));
  ps ← vec_set (peers_ w) peer peer_epoch;
  let w := set_peers w ps in
  if forallb (fun e => e =? epoch_ w) (peers_ w) then '(w, os') ← FinishCheckpoint w; Ok (w, os ++ os')
  else Ok (w, os).

(** ** Put requests *)
Definition put_one (due : bool) (s : t * list output) (put : KVPairData) : outcome (t * list output) :=
  let '(w, os) := s in
  if negb (marker put =? -1) then
    '(w, os') ← UpdateEpoch w (to_int32 (source put)) (marker put); Ok (w, os ++ os')
  else
    let tbl := to_int32 (Table.table put) in
    tb ← table_at w tbl;
    '(tb, ms) ← ApplyUpdates bufmsg wire_size due tb put;
    w ← set_table w tbl tb;
    let record :=
      match active_checkpoint_ w with
      | Master.CP_MASTER_CONTROLLED => true
      | Master.CP_ROLLING => epoch put <? epoch_ w
      | Master.CP_NONE => false
      end in
    os' ← (if record && bool_decide (tbl ∈ checkpoint_tables_ w) then write_delta tbl tb w put else Ok []);
    info ← get_partition_info tb (shard put);
    w ← (if done_ put && tainted info then
           tb ← change_info (with_tainted false) tb (shard put); set_table w tbl tb
         else Ok w);
    Ok (w, os ++ map Sent ms ++ os').
(** [due] says for each message whether the snapshot interval has passed. *)
Definition HandlePutRequest w (puts : list (bool * KVPairData)) : outcome (t * list output) :=
  for_each (fun s p => put_one p.1 s p.2) puts (w, []).
Definition HandleApply w (puts : list (bool * KVPairData)) : outcome (t * list output) := HandlePutRequest w puts.

(** ** Other requests *)
Definition HandleSwapRequest w (a b : Z) : outcome t :=
  ta ← table_at w a; tb ← table_at w b;
  '(ta, tb) ← local_swap ta tb;
  w ← set_table w a ta; set_table w b tb.
Definition HandleClearRequest w (i : Z) : outcome t :=
  tb ← table_at w i; tb ← clear_local tb; set_table w i tb.
(** [terminate()] of the local shards of table 0. *)
Definition HandleTermNotification w : outcome t :=
  tb ← table_at w 0;
  tb ← for_each terminate_shard (seqZ 0 (num_shards tb)) tb;
  set_table w 0 tb.

(** ** The master's messages *)

(** A start request carries the epoch, the type and the tables.  Restoring from
    files is not modelled. *)
Definition start_request (s : t * list output) (r : Z * CheckpointType * list Z) : outcome (t * list output) :=
  let '(w, os) := s in
  '(w, os') ← StartCheckpoint (set_checkpoint_tables w (list_to_set r.2 ∪ checkpoint_tables_ w)) r.1.1 r.1.2;
  Ok (w, os ++ os').
Definition finish_request (s : t * list output) (_ : unit) : outcome (t * list output) :=
  let '(w, os) := s in '(w, os') ← FinishCheckpoint w; Ok (w, os ++ os').
Definition CheckForMasterUpdates w (shutdown : bool) (starts : list (Z * CheckpointType * list Z)) (finishes : list unit) :
    outcome (t * list output) :=
  if shutdown then Ok (stop w, [])
  else
    s ← for_each start_request starts (w, []);
    for_each finish_request finishes s.
Definition flush_dirty (s : t * list output) (i : Z) : outcome (t * list output) :=
  let '(w, os) := s in tb ← table_at w i; '(w, os') ← flush_table w i tb; Ok (w, os ++ os').
Definition CheckNetwork w (shutdown : bool) (starts : list (Z * CheckpointType * list Z)) (finishes : list unit)
    (puts : list (bool * KVPairData)) : outcome (t * list output) :=
  '(w, os1) ← CheckForMasterUpdates w shutdown starts finishes;
  '(w, os2) ← HandlePutRequest w puts;
  '(w, os3) ← for_each flush_dirty (elements (dirty_tables_ w)) (w, []);
  Ok (set_dirty w ∅, os1 ++ os2 ++ os3).

(** ** Kernel runs *)

(** The shards of a table that [KernelDone] reports. *)
Definition report_shard (i : Z) (tb : table) (l : list (Master.Taskid * Z)) (j : Z) : outcome (list (Master.Taskid * Z)) :=
  loc ← is_local_shard tb j;
  if loc : bool then n ← shard_size tb j; Ok (l ++ [((i, j), n)]) else Ok l.
(** One iteration of [KernelLoop] for a request of the kernel on a shard; [kernel] runs
    the user's method and [puts i] are the messages read before table [i] is
    reported. *)
Definition RunKernel (kernel : t -> outcome (t * list output)) (puts : nat -> list (bool * KVPairData))
    w (tbl shard : Z) : outcome (t * list output * list (Master.Taskid * Z)) :=
  o ← peer_for_shard w tbl shard;
  _ ← CHECK (o =? id w);
  '(w, os) ← kernel w;
  for_each (fun (s : t * list output * list (Master.Taskid * Z)) n =>
      let '(w, os, l) := s in
      '(w, os') ← HandlePutRequest w (puts n);
      x ← deref (tables w !! n);
      l ← for_each (report_shard x.1 x.2) (seqZ 0 (num_shards x.2)) l;
      Ok (w, os ++ os', l)) (seq 0 (length (tables w))) (w, os, []).

(** ** Assignments: what a worker knows of each shard *)
Definition info_at w (i : Master.Taskid) : option PartitionInfo :=
  n ← position w i.1; x ← tables w !! n;
  if 0 <=? i.2 then partinfo_ x.2 !! Z.to_nat i.2 else None.

(** The effect of an assignment on the information of the shard. *)
Definition gained (me o p : Z) : bool := (o =? me) && negb (p =? me) && negb (p =? -1).
Definition lost (me o p : Z) : bool := (p =? me) && negb (o =? me).
Definition assigned (me o : Z) (p : PartitionInfo) : PartitionInfo :=
  {| dirty := dirty p || lost me o (sinfo_owner p); tainted := tainted p || gained me o (sinfo_owner p);
     sinfo_owner := o; sinfo_entries := sinfo_entries p |}.

(** Only the information about the shards differs, and the set of dirty tables. *)
Record reassigned w w' : Prop := {
  ra_id : id w' = id w;
  ra_epoch : epoch_ w' = epoch_ w;
  ra_peers : peers_ w' = peers_ w;
  ra_tables : Forall2 (fun x y => y.1 = x.1 /\ exists ps, y.2 = set_partinfo x.2 ps /\ length ps = length (partinfo_ x.2))
                (tables w) (tables w')
}.
Lemma reassigned_refl w : reassigned w w.
Proof.
  split; try done. apply Forall_Forall2_diag, Forall_forall. intros [i tb] _. split; [done|].
  exists (partinfo_ tb). split; [by destruct tb|done].
Qed.
Lemma reassigned_trans w1 w2 w3 : reassigned w1 w2 -> reassigned w2 w3 -> reassigned w1 w3.
Proof.
  intros [H1 H2 H3 H4] [G1 G2 G3 G4]. split; [congruence..|].
  revert G4. generalize (tables w3) as l3. clear -H4. induction H4 as [|x y l l' [E1 (ps & E2 & L1)] _ IH]; intros l3 G4.
  { by inversion G4. }
  apply Forall2_cons_inv_l in G4 as (z & l4 & [F1 (qs & F2 & L2)] & G4 & ->). constructor; [|by apply IH].
  split; [congruence|]. exists qs. rewrite F2, L2, E2. done.
Qed.
Lemma reassigned_position w w' i : reassigned w w' -> position w' i = position w i.
Proof.
  intros [_ _ _ HF]. unfold position. induction HF as [|[i1 tb1] [i2 tb2] l l' [E _] _ IH]; [done|]. cbn in *. subst i2.
  case_decide; [done|]. by destruct (list_find _ l) as [[]|], (list_find _ l') as [[]|]; naive_solver.
Qed.

Lemma change_info_spec f (tb : table) k p :
  partinfo_ tb !! k = Some p -> change_info f tb (Z.of_nat k) = Ok (set_partinfo tb (<[k := f p]> (partinfo_ tb))).
Proof.
  intros Hk. unfold change_info. rewrite (vec_at_Some _ _ _ Hk). run.
  rewrite vec_set_lt by (by eapply lookup_lt_Some). done.
Qed.
Lemma info_at_Some w i p :
  info_at w i = Some p <-> exists n tb, position w i.1 = Some n /\ tables w !! n = Some (i.1, tb) /\ 0 <= i.2 /\
    partinfo_ tb !! Z.to_nat i.2 = Some p.
Proof.
  unfold info_at. split.
  - intros (n & Hn & (x & Hx & Hp)%bind_Some)%bind_Some. destruct (Z.leb_spec 0 i.2); [|done]. exists n, x.2.
    split_and!; try done. unfold position in Hn. apply fmap_Some in Hn as ([m y] & Hf & ->). apply list_find_Some in Hf as (Hy & E & _).
    cbn in Hx. rewrite Hy in Hx. injection Hx as <-. rewrite <- E. by destruct y.
  - intros (n & tb & -> & Hx & Hle & Hp). cbn. rewrite Hx. cbn. by rewrite (proj2 (Z.leb_le _ _) Hle).
Qed.

Lemma reassigned_insert w n i tb k p :
  tables w !! n = Some (i, tb) ->
  reassigned w (set_tables w (<[n := (i, set_partinfo tb (<[k := p]> (partinfo_ tb)))]> (tables w))).
Proof.
  intros Hx. split; try done. cbn. rewrite <- (list_insert_id (tables w) n (i, tb) Hx) at 1. apply Forall2_insert.
  - apply (ra_tables _ _ (reassigned_refl w)).
  - split; [done|]. eexists. split; [done|]. by rewrite length_insert.
Qed.
(** The information about the shards after a change of one. *)
Lemma info_at_update w n i tb k (p : PartitionInfo) j :
  position w i = Some n -> tables w !! n = Some (i, tb) -> (k < length (partinfo_ tb))%nat ->
  info_at (set_tables w (<[n := (i, set_partinfo tb (<[k := p]> (partinfo_ tb)))]> (tables w))) j =
  if decide (j = (i, Z.of_nat k)) then Some p else info_at w j.
Proof.
  intros Hn Hx Hk. pose proof (reassigned_insert w n i tb k p Hx) as Hr. set (w' := set_tables w _) in *.
  unfold info_at. rewrite (reassigned_position w w' _ Hr). destruct (position w j.1) as [m|] eqn:Hm; cbn.
  - destruct (decide (m = n)) as [->|Hmn].
    + assert (j.1 = i) as Hj1.
      { unfold position in Hn, Hm. apply fmap_Some in Hn as ([a x] & Ha & ->). apply fmap_Some in Hm as ([b y] & Hb & E).
        cbn in E. subst b. apply list_find_Some in Ha as (Ha & <- & _), Hb as (Hb & <- & _). congruence. }
      rewrite list_lookup_insert_eq by (by eapply lookup_lt_Some). rewrite Hx. cbn. destruct (Z.leb_spec 0 j.2) as [Hle|Hlt].
      * destruct (decide (Z.to_nat j.2 = k)) as [<-|Hne].
        -- rewrite list_lookup_insert_eq by done. rewrite decide_True; [done|]. destruct j; cbn in *; subst. f_equal. lia.
        -- rewrite list_lookup_insert_ne by done. rewrite decide_False; [done|]. intros ->. cbn in Hne. lia.
      * rewrite decide_False; [done|]. intros ->. cbn in Hlt. lia.
    + rewrite list_lookup_insert_ne by done. rewrite decide_False; [done|]. intros ->. cbn in Hm. congruence.
  - rewrite decide_False; [done|]. intros ->. cbn in Hm. congruence.
Qed.

Ltac compare_ids :=
  cbn; repeat match goal with |- context [Z.eqb ?a ?b] => destruct (Z.eqb_spec a b); try lia end;
  cbn; rewrite ?orb_false_r, ?orb_true_r; done.
Lemma assign_one_spec w i o p :
  info_at w i = Some p ->
  exists w', assign_one w (i, o) = Ok w' /\ reassigned w w' /\
    (forall j, info_at w' j = if decide (j = i) then Some (assigned (id w) o p) else info_at w j) /\
    dirty_tables_ w' = if lost (id w) o (sinfo_owner p) then {[i.1]} ∪ dirty_tables_ w else dirty_tables_ w.
Proof.
  intros (n & tb & Hn & Hx & H0 & Hp)%info_at_Some. destruct i as [tbl s]. cbn [fst snd] in *.
  rewrite <- (Z2Nat.id s H0) in *. rewrite Nat2Z.id in Hp. set (k := Z.to_nat s) in *. clearbody k. clear s H0.
  pose proof (lookup_lt_Some _ _ _ Hp) as Hk.
  set (w1 := set_tables w (<[n := (tbl, set_partinfo tb (<[k := assigned (id w) o p]> (partinfo_ tb)))]> (tables w))).
  assert (reassigned w w1) as Hr by (by apply reassigned_insert).
  assert (forall j, info_at w1 j = if decide (j = (tbl, Z.of_nat k)) then Some (assigned (id w) o p) else info_at w j) as Hi
    by (intros j; by apply info_at_update).
  unfold assign_one, table_at. rewrite Hn. run. rewrite Hx. run. unfold owner, get_partition_info. cbn [snd].
  rewrite (vec_at_Some _ _ _ Hp). run. rewrite (change_info_spec _ _ _ _ Hp). run.
  assert (forall f, change_info f (set_partinfo tb (<[k := with_owner o p]> (partinfo_ tb))) (Z.of_nat k) =
    Ok (set_partinfo tb (<[k := f (with_owner o p)]> (partinfo_ tb)))) as Hch.
  { intros f. rewrite (change_info_spec _ _ _ (with_owner o p)); [|cbn; by apply list_lookup_insert_eq].
    cbn. unfold set_partinfo. cbn. by rewrite list_insert_insert_eq. }
  assert (forall q, q = assigned (id w) o p -> set_table w tbl (set_partinfo tb (<[k := q]> (partinfo_ tb))) = Ok w1) as Hset.
  { intros q ->. unfold set_table. by rewrite Hn. }
  destruct (Z.eqb_spec o (id w)) as [Ho|Ho], (Z.eqb_spec (sinfo_owner p) (id w)) as [E|E]; cbn [andb negb];
    [|destruct (Z.eqb_spec (sinfo_owner p) (-1)) as [E'|E']; cbn [negb]|..]; rewrite ?Hch; run; rewrite Hset;
    try (run; eexists; split; [done|]; split; [destruct Hr; by split|]; split; [done|]);
    unfold assigned, with_owner, with_tainted, with_dirty, gained, lost; compare_ids.
Qed.

Lemma assignments_spec req : forall w,
  NoDup req.*1 -> (forall i, i ∈ req.*1 -> is_Some (info_at w i)) ->
  exists w', HandleShardAssignment w req = Ok w' /\ reassigned w w' /\
    (forall i o p, (i, o) ∈ req -> info_at w i = Some p -> info_at w' i = Some (assigned (id w) o p)) /\
    (forall i, i ∉ req.*1 -> info_at w' i = info_at w i) /\
    (forall tbl, tbl ∈ dirty_tables_ w' <-> tbl ∈ dirty_tables_ w \/
       exists i o p, (i, o) ∈ req /\ i.1 = tbl /\ info_at w i = Some p /\ lost (id w) o (sinfo_owner p) = true).
Proof.
  unfold HandleShardAssignment. induction req as [|[i o] req IH]; intros w Hnd Hin.
  { exists w. split_and!; try done; [apply reassigned_refl|intros ? ? ? Hi; by apply not_elem_of_nil in Hi|].
    intros tbl. split; [by left|]. intros [?|(? & ? & ? & Hi & _)]; [done|by apply not_elem_of_nil in Hi]. }
  cbn in Hnd. apply NoDup_cons in Hnd as [Hni Hnd]. destruct (Hin i) as [p Hp]; [left|].
  destruct (assign_one_spec w i o p Hp) as (w1 & E & Hr & Hinfo & Hdirty). cbn [for_each]. rewrite E. run.
  destruct (IH w1) as (w' & E' & Hr' & Hset & Hkeep & Hd'); [done|..].
  { intros j Hj. rewrite Hinfo. case_decide; [by eexists|]. apply Hin. by right. }
  exists w'. split; [done|]. split; [by eapply reassigned_trans|]. rewrite (ra_id _ _ Hr) in *.
  assert (forall j q, j ∈ req.*1 -> info_at w1 j = Some q <-> info_at w j = Some q) as Hsame.
  { intros j q Hj. rewrite Hinfo. rewrite decide_False; [done|]. by intros ->. }
  split_and!.
  - intros j o' q Hj Hq. apply elem_of_cons in Hj as [[= -> ->]|Hj].
    + rewrite Hkeep, Hinfo, decide_True by done. congruence.
    + apply Hset; [done|]. apply Hsame; [|done]. apply list_elem_of_fmap. by exists (j, o').
  - intros j Hj. cbn in Hj. apply not_elem_of_cons in Hj as [Hne Hj]. by rewrite Hkeep, Hinfo, decide_False.
  - intros tbl. rewrite Hd', Hdirty. split.
    + intros [Hd|(j & o' & q & Hj & <- & Hq & Hl)].
      * destruct (lost _ _ _) eqn:El; [apply elem_of_union in Hd as [->%elem_of_singleton|Hd]|]; [|by left..].
        right. exists i, o, p. split_and!; try done. left.
      * right. exists j, o', q. split_and!; try done; [by right|]. apply Hsame in Hq; [done|]. apply list_elem_of_fmap. by exists (j, o').
    + intros [Hd|(j & o' & q & Hj & <- & Hq & Hl)]; [left; destruct (lost _ _ _); set_solver|].
      apply elem_of_cons in Hj as [[= -> ->]|Hj]; [left; rewrite Hp in Hq; injection Hq as <-; rewrite Hl; set_solver|].
      right. exists j, o', q. split_and!; try done. apply Hsame; [|done]. apply list_elem_of_fmap. by exists (j, o').
Qed.

(** The tables of the worker are those that the master knows. *)
Record layout (tabs : list (Z * Z)) w : Prop := {
  lo_tables : (fun x => (x.1, num_shards x.2)) <$> tables w = tabs;
  lo_infos : Forall (fun x => Z.of_nat (length (partinfo_ x.2)) = num_shards x.2) (tables w)
}.
Lemma layout_info tabs w i : NoDup tabs.*1 -> layout tabs w -> Master.valid tabs i -> is_Some (info_at w i).
Proof.
  intros Hnd [Ht Hi] (n & Hn & Hlt). rewrite <- Ht in Hn. apply list_elem_of_fmap in Hn as ([j tb] & [= Ej ->] & (k & Hk)%list_elem_of_lookup).
  cbn in Ej. subst j. rewrite Forall_lookup in Hi. specialize (Hi k _ Hk). cbn in Hi, Hlt.
  destruct (lookup_lt_is_Some_2 (partinfo_ tb) (Z.to_nat i.2)) as [p Hp]; [lia|]. exists p. apply info_at_Some.
  exists k, tb. split_and!; try done; [|lia]. unfold position.
  assert (list_find (fun x => x.1 = i.1) (tables w) = Some (k, (i.1, tb))) as ->; [|done].
  apply list_find_Some. split_and!; [done..|]. intros k' y Hy Hlt' E.
  assert (k' = k); [|lia]. rewrite <- Ht, <- list_fmap_compose in Hnd. eapply (NoDup_lookup _ _ _ i.1 Hnd).
  - by rewrite list_lookup_fmap, Hy, <- E.
  - by rewrite list_lookup_fmap, Hk.
Qed.
Lemma layout_reassigned tabs w w' : layout tabs w -> reassigned w w' -> layout tabs w'.
Proof.
  intros [Ht Hi] [_ _ _ HF]. split.
  - rewrite <- Ht. clear -HF. induction HF as [|x y l l' [E1 (ps & E2 & _)] _ IH]; [done|]. cbn. by rewrite IH, E1, E2.
  - clear Ht. revert Hi. induction HF as [|x y l l' [E1 (ps & E2 & L)] _ IH]; intros Hi; [done|].
    apply Forall_cons in Hi as [Hx Hi]. constructor; [|by apply IH]. rewrite E2. cbn. by rewrite L.
Qed.

(** C21. Agreement on ownership: a worker that handles the master's assignment
    message, whatever it knew before, has for every shard of every table the one
    alive worker that serves it at the master as its owner; a shard taken over
    from another worker is marked tainted, a lost one dirty and its table put
    down for flushing; no row or buffered update changes. *)
Theorem assignments_agree tabs dead ws w :
  NoDup tabs.*1 -> Master.placed tabs dead ws -> (forall i, Master.valid tabs i -> Master.served dead ws i) -> layout tabs w ->
  exists w', HandleShardAssignment w (Master.send_table_assignments ws) = Ok w' /\ layout tabs w' /\
    partitions_ <$> (tables w').*2 = partitions_ <$> (tables w).*2 /\
    forall i, Master.valid tabs i -> exists n x p, ws !! n = Some x /\ i ∈ Master.shards x /\ Master.alive dead x = true /\
      info_at w i = Some p /\ info_at w' i = Some (assigned (id w) (Z.of_nat n) p) /\
      (lost (id w) (Z.of_nat n) (sinfo_owner p) = true -> i.1 ∈ dirty_tables_ w').
Proof.
  intros Hnd Hp Hs Hl.
  destruct (assignments_spec (Master.send_table_assignments ws) w) as (w' & E & Hr & Hset & _ & Hd).
  { by eapply Master.assignments_NoDup. }
  { intros i Hi. apply list_elem_of_fmap in Hi as ([j o] & -> & (n & x & Hn & Hi & ->)%Master.elem_of_assignments).
    apply (layout_info tabs); [done..|]. by destruct (Master.pl_closed _ _ _ Hp n x j Hn Hi). }
  exists w'. split; [done|]. split; [by eapply layout_reassigned|]. split.
  - pose proof (ra_tables _ _ Hr) as HF. clear -HF. induction HF as [|x y l l' [_ (ps & Ey & _)] _ IH]; [done|]. cbn. by rewrite IH, Ey.
  - intros i Hi. destruct (Hs i Hi) as (n & x & Hn & Hx & Hal). destruct (layout_info tabs w i Hnd Hl Hi) as [p Hpi].
    assert ((i, Z.of_nat n) ∈ Master.send_table_assignments ws) as Hin by (apply Master.elem_of_assignments; by exists n, x).
    exists n, x, p. split_and!; try done; [by apply Hset|]. intros Hlost. apply Hd. right. by exists i, (Z.of_nat n), p.
Qed.

(** ** Checkpoints *)

(** What starting and finishing a checkpoint leaves alone. *)
Definition same_but_files w w' : Prop := w' = set_delta_files w (delta_files w').
Lemma same_refl w : same_but_files w w.
Proof. by destruct w. Qed.
Lemma same_files w w' (s : gset (Z * Z)) : same_but_files w w' -> same_but_files w (set_delta_files w' s).
Proof. unfold same_but_files. intros ->. done. Qed.

(** A loop over the tables whose body keeps [same_but_files] and returns the
    outputs [g] of each table. *)
Lemma for_tables_keep f w (g : Z * table -> list output) :
  (forall w1 n i tb, same_but_files w w1 -> tables w !! n = Some (i, tb) ->
     exists w2, f w1 i tb = Ok (w2, g (i, tb)) /\ same_but_files w w2) ->
  exists w', for_tables f w = Ok (w', mjoin (g <$> tables w)) /\ same_but_files w w'.
Proof.
  intros Hf. unfold for_tables.
  destruct (for_each_inv (fun s n => let '(w, os) := s in
      x ← deref (tables w !! n); '(w, os') ← f w x.1 x.2; Ok (w, os ++ os'))
    (fun pre s => same_but_files w s.1 /\ s.2 = mjoin (g <$> take (length pre) (tables w)))
    (seq 0 (length (tables w))) (w, [])) as ([w' os] & E & Hs & Ho).
  - split; [apply same_refl|done].
  - intros pre n todo [w1 os1] Hseq [Hs Ho]. cbn [fst snd] in *.
    pose proof (f_equal (fun l => l !! length pre) Hseq) as Hn. cbv beta in Hn.
    rewrite list_lookup_middle in Hn by done. apply lookup_seq in Hn as [-> Hlt]. cbn [Nat.add].
    destruct (lookup_lt_is_Some_2 _ _ Hlt) as [[i tb] Hx]. assert (tables w1 = tables w) as -> by (by rewrite Hs).
    rewrite Hx. run. cbn [fst snd]. destruct (Hf w1 _ i tb Hs Hx) as (w2 & -> & Hs2). run.
    eexists. split; [done|]. split; [done|]. cbn [fst snd]. rewrite length_app, Nat.add_1_r.
    rewrite (take_S_r _ _ _ Hx), fmap_app, join_app, Ho. cbn. by rewrite app_nil_r.
  - exists w'. rewrite E. split; [|done]. cbn [snd] in Ho. by rewrite Ho, length_seq, firstn_all.
Qed.

(** Loops that end at a shard where the body is undefined. *)
Lemma for_each_or {A S} (f : S -> A -> outcome S) (I : S -> Prop) l : forall s,
  I s -> (forall s x, I s -> x ∈ l -> f s x = Undefined \/ exists s', f s x = Ok s' /\ I s') ->
  for_each f l s = Undefined \/ exists s', for_each f l s = Ok s' /\ I s'.
Proof.
  induction l as [|x l IH]; intros s Hs Hf; [right; by exists s|]. cbn.
  destruct (Hf s x Hs) as [->|(s' & -> & Hs')]; [left|by left|]. run.
  apply IH; [done|]. intros s1 x1 Hs1 Hx1. apply Hf; [done|by right].
Qed.
Lemma for_each_undefined {A S} (f : S -> A -> outcome S) (I : S -> Prop) l x0 s :
  x0 ∈ l -> I s -> (forall s x, I s -> x ∈ l -> f s x = Undefined \/ exists s', f s x = Ok s' /\ I s') ->
  (forall s, I s -> f s x0 = Undefined) -> for_each f l s = Undefined.
Proof.
  intros Hin Hs Hf H0. revert s Hs. induction l as [|x l IH]; intros s Hs; [by apply not_elem_of_nil in Hin|].
  cbn. apply elem_of_cons in Hin as [<-|Hin]; [by rewrite H0|].
  destruct (Hf s x Hs) as [->|(s' & -> & Hs')]; [left|done|]. run.
  apply IH; [done| |done]. intros s1 x1 Hs1 Hx1. apply Hf; [done|by right].
Qed.

(** The vectors of a table have the same length. *)
Definition sized (tb : table) : Prop := length (partinfo_ tb) = length (partitions_ tb).
Lemma sized_local (tb : table) i :
  sized tb -> (i < length (partitions_ tb))%nat ->
  exists p o, vec_at (partitions_ tb) (Z.of_nat i) = Ok p /\ partitions_ tb !! i = Some p /\ owner tb (Z.of_nat i) = Ok o /\
    is_local_shard tb (Z.of_nat i) = Ok (match helper tb with Some h => o =? helper_id h | None => false end).
Proof.
  intros Hs Hi. destruct (lookup_lt_is_Some_2 _ _ Hi) as [p Hp]. unfold sized in Hs. rewrite <- Hs in Hi.
  destruct (lookup_lt_is_Some_2 _ _ Hi) as [q Hq]. exists p, (sinfo_owner q).
  assert (owner tb (Z.of_nat i) = Ok (sinfo_owner q)) as Ho by (unfold owner, get_partition_info; by rewrite (vec_at_Some _ _ _ Hq)).
  split_and!; try done; [by apply vec_at_Some|]. unfold is_local_shard. destruct (helper tb); [by rewrite Ho|done].
Qed.

(** The local shards, and what a checkpoint writes of a table: each local shard
    once, in order. *)
Definition local_shard (tb : table) (i : Z) : bool := match is_local_shard tb i with Ok b => b | _ => false end.
Definition shard_writes (tbl : Z) (tb : table) (e : Z) : list output :=
  (fun i => WriteShard tbl i e) <$> filter (fun i => local_shard tb i = true) (seqZ 0 (Z.of_nat (length (partitions_ tb)))).

(** A table without local state shards can be checkpointed. *)
Definition stateless (tb : table) : Prop :=
  sized tb /\ forall i s, partitions_ tb !! i = Some (State s) -> local_shard tb (Z.of_nat i) = false.

Lemma start_checkpoint_ok w w1 tbl tb :
  same_but_files w w1 -> stateless tb ->
  exists w2, start_checkpoint tbl tb w1 = Ok (w2, shard_writes tbl tb (epoch_ w)) /\ same_but_files w w2.
Proof.
  intros Hw [Hs Hst]. unfold start_checkpoint, shard_writes. set (l := seqZ _ _).
  destruct (for_each_inv (start_checkpoint_shard tbl tb) (fun pre s => same_but_files w s.1 /\
      s.2 = (fun i => WriteShard tbl i (epoch_ w)) <$> filter (fun i => local_shard tb i = true) pre) l (w1, []))
    as ([w2 os] & E & ? & Ho); [done| |exists w2; cbn [snd] in Ho; by rewrite <- Ho].
  intros pre z todo [w' os'] Hseq [Hw' Ho']. cbn [fst snd] in *.
  assert (z ∈ l) as Hz%elem_of_seqZ by (rewrite Hseq; apply elem_of_app; right; left).
  assert (z = Z.of_nat (Z.to_nat z)) as Ez by (symmetry; apply Z2Nat.id; lia).
  destruct (sized_local tb (Z.to_nat z) Hs) as (p & o & Hv & Hp & _ & Hloc); [lia|]. rewrite <- Ez in Hv, Hloc.
  specialize (Hst (Z.to_nat z)). rewrite <- Ez in Hst. unfold local_shard in Hst |- *.
  rewrite filter_app, fmap_app, filter_cons, filter_nil, Hloc. unfold start_checkpoint_shard. rewrite Hv. run. rewrite Hloc in *. run.
  destruct (match helper tb with Some h => _ | None => _ end); cbn [decide bool_eq_dec].
  - rewrite decide_True by done.
    destruct p as [d|s]; [|by specialize (Hst s Hp)]. eexists. split; [done|]. split; [by apply same_files|].
    cbn. by rewrite Ho', Hw'.
  - rewrite decide_False by done. eexists. split; [done|]. split; [done|]. cbn. by rewrite Ho', app_nil_r.
Qed.
Lemma finish_checkpoint_ok w w1 tbl tb :
  same_but_files w w1 -> sized tb -> exists w2, finish_checkpoint tbl tb w1 = Ok w2 /\ same_but_files w w2.
Proof.
  intros Hw Hs. unfold finish_checkpoint.
  destruct (for_each_inv (finish_checkpoint_shard tbl tb) (fun _ w' => same_but_files w w')
    (seqZ 0 (Z.of_nat (length (partitions_ tb)))) w1) as (w2 & E & ?); [done| |by exists w2].
  intros pre z todo w' Hseq Hw'.
  assert (0 <= z < Z.of_nat (length (partitions_ tb))) as Hz.
  { assert (z ∈ seqZ 0 (Z.of_nat (length (partitions_ tb)))) as Hin by (rewrite Hseq; apply elem_of_app; right; left).
    apply elem_of_seqZ in Hin. lia. }
  rewrite <- (Z2Nat.id z) by lia. destruct (sized_local tb (Z.to_nat z) Hs) as (p & o & Hv & Hp & _ & Hloc); [lia|].
  unfold finish_checkpoint_shard. rewrite Hv. run. rewrite Hloc. run. eexists. split; [done|].
  destruct (match helper tb with Some h => _ | None => _ end); [by apply same_files|done].
Qed.

Definition checkpointable w : Prop := Forall (fun x => stateless x.2) (tables w).
Lemma checkpointable_lookup w n i tb : checkpointable w -> tables w !! n = Some (i, tb) -> stateless tb.
Proof. intros Hc Hn. unfold checkpointable in Hc. rewrite Forall_lookup in Hc. exact (Hc n _ Hn). Qed.

Definition markers (me e : Z) (n : nat) : list output := (fun i => SendMarker (Z.of_nat i + 1) me e) <$> seq 0 n.
(** All that a checkpoint writes, table after table. *)
Definition table_writes w (e : Z) : list output := mjoin ((fun x => shard_writes x.1 x.2 e) <$> tables w).
Lemma table_writes_epoch w e e' : table_writes (set_epoch w e') e = table_writes w e.
Proof.
  unfold table_writes. cbn [tables set_epoch]. f_equal. rewrite <- list_fmap_compose. apply list_fmap_ext.
  intros i [tbl tb] _. cbn. unfold shard_writes. cbn [partitions_ with_epoch]. f_equal. apply list_filter_iff.
  intros z. unfold local_shard, is_local_shard. cbn. by destruct (helper tb).
Qed.
Lemma stateless_epoch e tb : stateless tb -> stateless (with_epoch e tb).
Proof.
  intros [Hs Hst]. split; [done|]. intros i s Hi. rewrite <- (Hst i s Hi). unfold local_shard, is_local_shard. cbn.
  by destruct (helper tb).
Qed.
Lemma StartCheckpoint_ok w e :
  checkpointable w -> epoch_ w < e -> (forall x, x ∈ tables w -> x.1 ∈ checkpoint_tables_ w) ->
  exists w', StartCheckpoint w e Master.CP_ROLLING = Ok (w', table_writes w e ++ markers (id w) e (length (peers_ w))) /\
    checkpointable w' /\ id w' = id w /\ epoch_ w' = e /\ peers_ w' = peers_ w.
Proof.
  intros Hc He Hall. unfold StartCheckpoint. destruct (Z.leb_spec e (epoch_ w)); [lia|].
  assert (checkpointable (set_epoch w e)) as Hc1.
  { unfold checkpointable. cbn. apply Forall_fmap. eapply Forall_impl; [exact Hc|]. intros x. apply stateless_epoch. }
  destruct (for_tables_keep start_listed (set_epoch w e) (fun x => shard_writes x.1 x.2 e)) as (w' & -> & Hs).
  - intros w1 n i tb Hs Hn. unfold start_listed. rewrite decide_True.
    + apply (start_checkpoint_ok (set_epoch w e)); [done|]. by eapply checkpointable_lookup.
    + rewrite Hs. cbn in *. rewrite list_lookup_fmap in Hn. apply fmap_Some in Hn as ([i' tb'] & Hn & [= -> ->]).
      apply list_elem_of_lookup_2 in Hn. exact (Hall _ Hn).
  - run. exists (set_active w' Master.CP_ROLLING). fold (table_writes (set_epoch w e) e). rewrite table_writes_epoch, Hs. done.
Qed.
Lemma FinishCheckpoint_ok w :
  checkpointable w ->
  exists w', FinishCheckpoint w = Ok (w', [CheckpointDone]) /\ checkpointable w' /\ id w' = id w /\ epoch_ w' = epoch_ w /\
    peers_ w' = replicate (length (peers_ w)) (epoch_ w) /\ active_checkpoint_ w' = Master.CP_NONE.
Proof.
  intros Hc. unfold FinishCheckpoint. cbn [peers_ set_active epoch_].
  set (w0 := set_peers (set_active w Master.CP_NONE) (replicate (length (peers_ w)) (epoch_ w))).
  destruct (for_tables_keep finish_table w0 (fun _ => [])) as (w' & -> & Hs).
  - intros w1 n i tb Hs Hn. unfold finish_table.
    destruct (finish_checkpoint_ok w0 w1 i tb Hs) as (w2 & -> & Hw2); [by apply (checkpointable_lookup w n i tb)|]. run. by exists w2.
  - run. assert (mjoin ((fun _ => []) <$> tables w0) = @nil output) as -> by (induction (tables w0); done).
    exists w'. split; [done|]. rewrite Hs. done.
Qed.

(** One marker, when the worker is already in the epoch. *)
Lemma UpdateEpoch_next w i e :
  checkpointable w -> epoch_ w = e -> (i < length (peers_ w))%nat ->
  let ps := <[i := e]> (peers_ w) in
  exists w', UpdateEpoch w (Z.of_nat i) e =
      Ok (w', if forallb (fun x => x =? e) ps then [CheckpointDone] else []) /\
    checkpointable w' /\ id w' = id w /\ epoch_ w' = e /\ peers_ w' = ps /\
    (forallb (fun x => x =? e) ps = true -> active_checkpoint_ w' = Master.CP_NONE).
Proof.
  intros Hc He Hi ps. unfold UpdateEpoch. destruct (Z.ltb_spec (epoch_ w) e); [lia|]. run.
  rewrite vec_set_lt by done. run. cbn [peers_ set_peers epoch_]. rewrite He. fold ps.
  destruct (forallb (fun x => x =? e) ps) eqn:Hall; [|by exists (set_peers w ps)].
  destruct (FinishCheckpoint_ok (set_peers w ps)) as (w' & -> & Hc' & Hid & Hep & Hp & Hact); [done|]. run.
  exists w'. split_and!; try done; [by rewrite Hep|].
  rewrite Hp. cbn [peers_ set_peers epoch_]. rewrite He. apply replicate_as_elem_of. split; [done|].
  intros x Hx. rewrite forallb_forall in Hall. apply list_elem_of_In in Hx. specialize (Hall x Hx). cbn in Hall. lia.
Qed.
Lemma UpdateEpoch_first w i e w1 os1 :
  epoch_ w < e -> epoch_ w1 = e ->
  StartCheckpoint (set_checkpoint_tables w (list_to_set (tables w).*1)) e Master.CP_ROLLING = Ok (w1, os1) ->
  UpdateEpoch w i e = '(w2, os2) ← UpdateEpoch w1 i e; Ok (w2, os1 ++ os2).
Proof.
  intros Hlt He E. unfold UpdateEpoch at 1. rewrite (proj2 (Z.ltb_lt _ _) Hlt), E. run. unfold UpdateEpoch.
  rewrite He, Z.ltb_irrefl. run. destruct (vec_set (peers_ w1) i e) as [ps| | | |]; run; try done.
  destruct (forallb _ _); run; [|by rewrite app_nil_r]. destruct (FinishCheckpoint _) as [[w2 os2]| | | |]; done.
Qed.

(** The marker that peer [i] sends when it enters epoch [e]. *)
Definition marker_put (i : nat) (e : Z) : KVPairData :=
  {| source := to_uint32 (Z.of_nat i); Table.table := to_uint32 (-1); shard := to_uint32 (-1); done_ := true;
     kv_data := []; epoch := 0; marker := e |}.
Lemma put_marker w os i e w' os' :
  Z.of_nat i < 2 ^ 31 -> e <> -1 -> UpdateEpoch w (Z.of_nat i) e = Ok (w', os') ->
  put_one false (w, os) (marker_put i e) = Ok (w', os ++ os').
Proof.
  intros Hi He E. unfold put_one. cbn [marker marker_put source]. destruct (Z.eqb_spec e (-1)); [done|]. run.
  rewrite (to_uint32_small (Z.of_nat i)), to_int32_small, E by lia. done.
Qed.
Lemma marker_loop e rest : forall w os,
  e <> -1 -> Z.of_nat (length (peers_ w)) < 2 ^ 31 -> checkpointable w -> epoch_ w = e -> NoDup rest -> rest <> [] ->
  (forall j x, peers_ w !! j = Some x -> x <> e <-> j ∈ rest) -> (forall j, j ∈ rest -> j < length (peers_ w))%nat ->
  exists w', for_each (fun s p => put_one p.1 s p.2) ((fun i => (false, marker_put i e)) <$> rest) (w, os) =
      Ok (w', os ++ [CheckpointDone]) /\ epoch_ w' = e /\ peers_ w' = replicate (length (peers_ w)) e /\
    active_checkpoint_ w' = Master.CP_NONE.
Proof.
  induction rest as [|i rest IH]; intros w os Hm Hlen Hc He Hnd Hne Hps Hin; [done|].
  apply NoDup_cons in Hnd as [Hni Hnd]. pose proof (Hin i ltac:(left)) as Hi.
  destruct (UpdateEpoch_next w i e Hc He Hi) as (w1 & E & Hc1 & Hid1 & He1 & Hp1 & Hact1).
  cbn [fmap list_fmap for_each fst snd]. rewrite (put_marker w os i e w1 _ ltac:(lia) Hm E). run.
  assert (forall j x, peers_ w1 !! j = Some x -> x <> e <-> j ∈ rest) as Hps1.
  { intros j x Hj. rewrite Hp1 in Hj. apply list_lookup_insert_Some in Hj as [(<- & <- & _)|[Hji Hj]]; [tauto|].
    rewrite (Hps j x Hj), elem_of_cons. naive_solver. }
  destruct (decide (rest = [])) as [->|Hrest].
  - assert (forallb (fun x => x =? e) (<[i:=e]> (peers_ w)) = true) as Hall.
    { apply forallb_forall. intros x Hx. apply list_elem_of_In, list_elem_of_lookup in Hx as [j Hj]. rewrite <- Hp1 in Hj.
      pose proof (Hps1 j x Hj) as Hx. apply Z.eqb_eq. destruct (decide (x = e)); [done|]. exfalso. by apply (not_elem_of_nil j), Hx. }
    rewrite Hall. exists w1. split_and!; try done; [|by apply Hact1]. rewrite Hp1.
    symmetry. apply replicate_as_elem_of. split; [by rewrite length_insert|]. intros x Hx.
    rewrite forallb_forall in Hall. apply list_elem_of_In, Hall in Hx. cbn in Hx. lia.
  - destruct rest as [|i2 rest2]; [done|]. assert (forallb (fun x => x =? e) (<[i:=e]> (peers_ w)) = false) as Hall.
    { apply not_true_is_false. intros Hall. rewrite forallb_forall in Hall.
      destruct (lookup_lt_is_Some_2 (peers_ w1) i2) as [x Hx]; [rewrite Hp1, length_insert; apply Hin; right; left|].
      apply (Hps1 i2 x Hx); [left|]. rewrite Hp1 in Hx. apply list_elem_of_lookup_2, list_elem_of_In, Hall in Hx. cbn in Hx. lia. }
    rewrite Hall, app_nil_r. destruct (IH w1 os) as (w' & E' & ? & Hp' & ?); try done.
    + by rewrite Hp1, length_insert.
    + intros j Hj. rewrite Hp1, length_insert. apply Hin. by right.
    + exists w'. rewrite Hp1, length_insert in Hp'. done.
Qed.

(** A state table among the local shards stops the loops of a checkpoint. *)
Lemma start_shard_or tbl (tb : table) w s z :
  sized tb -> same_but_files w s.1 -> z ∈ seqZ 0 (Z.of_nat (length (partitions_ tb))) ->
  start_checkpoint_shard tbl tb s z = Undefined \/
  exists s', start_checkpoint_shard tbl tb s z = Ok s' /\ same_but_files w s'.1.
Proof.
  intros Hs Hw Hz. destruct s as [w1 os]. cbn [fst] in Hw. apply elem_of_seqZ in Hz. rewrite <- (Z2Nat.id z) by lia.
  destruct (sized_local tb (Z.to_nat z) Hs) as (p & o & Hv & _ & _ & Hl); [lia|]. unfold start_checkpoint_shard.
  rewrite Hv. run. rewrite Hl. run. destruct (match helper tb with Some h => _ | None => _ end); [|right; by eexists].
  destruct p; [right|by left]. eexists. split; [done|]. by apply same_files.
Qed.
Lemma shards_undefined w tbl (tb : table) k st :
  sized tb -> partitions_ tb !! k = Some (State st) -> is_local_shard tb (Z.of_nat k) = Ok true ->
  start_checkpoint tbl tb w = Undefined.
Proof.
  intros Hs Hk Hloc. unfold start_checkpoint.
  apply (for_each_undefined (start_checkpoint_shard tbl tb) (fun s => same_but_files w s.1) _ (Z.of_nat k)).
  - apply elem_of_seqZ. apply lookup_lt_Some in Hk. lia.
  - apply same_refl.
  - intros s z Hw Hz. by apply start_shard_or.
  - intros [w1 os] _. unfold start_checkpoint_shard. rewrite (vec_at_Some _ _ _ Hk). run. rewrite Hloc. done.
Qed.
Lemma tables_undefined w n tbl tb k st :
  Forall (fun x => sized x.2) (tables w) -> tables w !! n = Some (tbl, tb) -> tbl ∈ checkpoint_tables_ w ->
  partitions_ tb !! k = Some (State st) -> is_local_shard tb (Z.of_nat k) = Ok true ->
  for_tables start_listed w = Undefined.
Proof.
  intros Hsz Hn Htbl Hk Hloc. rewrite Forall_lookup in Hsz. unfold for_tables.
  apply (for_each_undefined _ (fun s => same_but_files w s.1) _ n).
  - apply elem_of_seq. apply lookup_lt_Some in Hn. lia.
  - apply same_refl.
  - intros [w1 os] m Hw Hm. cbn [fst] in Hw. apply elem_of_seq in Hm. destruct (lookup_lt_is_Some_2 (tables w) m) as [[i x] Hx]; [lia|].
    assert (tables w1 = tables w) as -> by (by rewrite Hw). rewrite Hx. run. cbn [fst snd]. unfold start_listed.
    case_decide; [|right; eexists; split; [done|done]].
    destruct (for_each_or (start_checkpoint_shard i x) (fun s => same_but_files w s.1)
      (seqZ 0 (Z.of_nat (length (partitions_ x)))) (w1, [])) as [E|([w2 os2] & E & Hw2)]; [done| | |].
    + intros s z Hs' Hz. apply start_shard_or; [by apply (Hsz m (i, x))|done..].
    + left. unfold start_checkpoint. by rewrite E.
    + right. unfold start_checkpoint. rewrite E. by eexists.
  - intros [w1 os] Hw. cbn [fst] in Hw. assert (tables w1 = tables w) as -> by (by rewrite Hw). rewrite Hn. run. cbn [fst snd].
    unfold start_listed. rewrite decide_True by (by rewrite Hw). rewrite (shards_undefined w1 tbl tb k st); try done.
    by apply (Hsz n (tbl, tb)).
Qed.

(** A local shard that is a state table. *)
Definition local_state w : Prop := exists n tbl tb k st,
  tables w !! n = Some (tbl, tb) /\ partitions_ tb !! k = Some (State st) /\ local_shard tb (Z.of_nat k) = true.
Lemma no_local_state w : Forall (fun x => sized x.2) (tables w) -> ~ local_state w -> checkpointable w.
Proof.
  intros Hsz Hno. apply Forall_lookup. intros n [tbl tb] Hn. rewrite Forall_lookup in Hsz.
  split; [by apply (Hsz n (tbl, tb))|]. intros k st Hk. apply not_true_is_false. intros Hl. apply Hno.
  by exists n, tbl, tb, k, st.
Qed.
Lemma StartCheckpoint_state w e ty :
  epoch_ w < e -> Forall (fun x => sized x.2) (tables w) -> (forall x, x ∈ tables w -> x.1 ∈ checkpoint_tables_ w) ->
  local_state w -> StartCheckpoint w e ty = Undefined.
Proof.
  intros He Hsz Hall (n & tbl & tb & k & st & Hn & Hk & Hloc). unfold StartCheckpoint.
  destruct (Z.leb_spec e (epoch_ w)); [lia|].
  assert (is_local_shard tb (Z.of_nat k) = Ok true) as Hl.
  { unfold local_shard in Hloc. by destruct (is_local_shard tb (Z.of_nat k)) as [[]| | | |]. }
  rewrite (tables_undefined (set_epoch w e) n tbl (with_epoch e tb) k st); try done.
  - cbn. by apply Forall_fmap.
  - cbn. by rewrite list_lookup_fmap, Hn.
  - apply list_elem_of_lookup_2 in Hn. exact (Hall _ Hn).
  - rewrite <- Hl. unfold is_local_shard. cbn. by destruct (helper tb).
Qed.

(** C22. A rolling checkpoint at a worker, when the markers of a new epoch
    arrive, one from each peer and in any order.  If no local shard is a state
    table, the worker writes each of its local shards once, table after table
    and under the new epoch, then sends its own marker once to every peer,
    before anything else; it reports the checkpoint done once, after the last
    marker, and ends with all peers in the new epoch and no checkpoint active.
    If some local shard is a state table, which is so at every worker that
    holds rows after [InitStateTable], the first marker makes the behaviour
    undefined: [serializeToFile] calls a method of a null helper. *)
Theorem rolling_checkpoint w e order :
  Forall (fun x => sized x.2) (tables w) ->
  0 <= epoch_ w < e -> Z.of_nat (length (peers_ w)) < 2 ^ 31 -> (0 < length (peers_ w))%nat ->
  Forall (fun x => x <> e) (peers_ w) -> order ≡ₚ seq 0 (length (peers_ w)) ->
  let handled := HandlePutRequest w ((fun i => (false, marker_put i e)) <$> order) in
  (~ local_state w -> exists w',
    handled = Ok (w', table_writes w e ++ markers (id w) e (length (peers_ w)) ++ [CheckpointDone]) /\
    epoch_ w' = e /\ peers_ w' = replicate (length (peers_ w)) e /\ active_checkpoint_ w' = Master.CP_NONE) /\
  (local_state w -> handled = Undefined).
Proof.
  intros Hsz He Hlen Hpos Hold Hord. cbv zeta. set (w0 := set_checkpoint_tables w (list_to_set (tables w).*1)).
  assert (forall x, x ∈ tables w0 -> x.1 ∈ checkpoint_tables_ w0) as Hlisted.
  { intros x Hx. apply elem_of_list_to_set, list_elem_of_fmap. by exists x. }
  assert (forall j, j ∈ order <-> (j < length (peers_ w))%nat) as Hin by (intros j; rewrite Hord, elem_of_seq; lia).
  destruct order as [|i order]; [apply Permutation_length in Hord; rewrite length_seq in Hord; cbn in Hord; lia|].
  pose proof (proj1 (Hin i) ltac:(left)) as Hi. split.
  2:{ intros Hloc. unfold HandlePutRequest, put_one, UpdateEpoch. cbn [fmap list_fmap for_each fst snd marker marker_put].
      destruct (Z.eqb_spec e (-1)); [lia|]. cbn [negb]. rewrite (proj2 (Z.ltb_lt _ _) (proj2 He)). fold w0.
      by rewrite (StartCheckpoint_state w0 e Master.CP_ROLLING (proj2 He) Hsz Hlisted Hloc). }
  intros Hno. destruct (StartCheckpoint_ok w0 e (no_local_state w Hsz Hno) (proj2 He) Hlisted) as (w1 & E1 & Hc1 & Hid1 & He1 & Hp1).
  change (peers_ w0) with (peers_ w) in *. change (id w0) with (id w) in *. change (table_writes w0 e) with (table_writes w e) in *.
  destruct (marker_loop e (i :: order) w1 (table_writes w e ++ markers (id w) e (length (peers_ w)))) as (w' & E & ? & Hp' & ?).
  - lia.
  - by rewrite Hp1.
  - done.
  - done.
  - rewrite Hord. apply NoDup_seq.
  - done.
  - intros j x Hj. rewrite Hp1 in Hj. rewrite Forall_lookup in Hold. split; [|intros _; by apply (Hold j)].
    intros _. apply Hin. by eapply lookup_lt_Some.
  - intros j Hj. rewrite Hp1. by apply Hin.
  - exists w'. rewrite Hp1 in Hp'. split; [|done]. unfold HandlePutRequest. rewrite app_assoc, <- E.
    cbn [fmap list_fmap for_each fst snd]. f_equal. destruct (UpdateEpoch_next w1 i e) as (w2 & E2 & _); [done..|by rewrite Hp1|].
    rewrite (put_marker w1 _ i e w2 _ ltac:(lia) ltac:(lia) E2). apply (put_marker w [] i e); [lia..|].
    rewrite (UpdateEpoch_first w (Z.of_nat i) e w1 _ ltac:(lia) He1 E1), E2. done.
Qed.

(** A checkpoint of rows is undefined: when a table to checkpoint has a
    local shard that is a state table, starting the checkpoint calls a method
    of a null helper. *)
Theorem state_checkpoint_undefined w e ty n tbl tb k st :
  epoch_ w < e -> Forall (fun x => sized x.2) (tables w) -> tables w !! n = Some (tbl, tb) -> tbl ∈ checkpoint_tables_ w ->
  partitions_ tb !! k = Some (State st) -> is_local_shard tb (Z.of_nat k) = Ok true ->
  StartCheckpoint w e ty = Undefined.
Proof.
  intros He Hsz Hn Htbl Hk Hloc. unfold StartCheckpoint. destruct (Z.leb_spec e (epoch_ w)); [lia|].
  rewrite (tables_undefined (set_epoch w e) n tbl (with_epoch e tb) k st); [done|..]; try done.
  - cbn. by apply Forall_fmap.
  - cbn. by rewrite list_lookup_fmap, Hn.
  - rewrite <- Hloc. unfold is_local_shard. cbn. by destruct (helper tb).
Qed.
End Worker.

(** ** A worker with two peers and a table of six shards *)
Section Sample.
#[local] Abbreviation table := (GlobalTable.t (K := Z) (V := Z) (D := list Z)).
Definition six : table := Eval vm_compute in
  Cluster.get_ok (Init 0 6 (Some {| helper_id := 1; helper_epoch := 0 |})) Cluster.no_table.
Definition starting : t := mk 1 0 Master.CP_NONE ∅ [0; 0] true ∅ [(0, six)] ∅.
Definition informed : t := Eval vm_compute in
  Cluster.get_ok (HandleShardAssignment starting (Master.send_table_assignments (Master.workers_ (Master.get_state Master.run0)))) starting.

Lemma informed_layout : layout [(0, 6)] informed.
Proof. split; [reflexivity|by repeat constructor]. Qed.
(** Worker 1 learns that it stole shard 2 from worker 0. *)
Lemma assignments_agree_witness :
  exists w', HandleShardAssignment informed (Master.send_table_assignments (Master.workers_ (Master.get_state Master.run3))) = Ok w' /\
    layout [(0, 6)] w'.
Proof.
  destruct (assignments_agree [(0, 6)] ∅ (Master.workers_ (Master.get_state Master.run3)) informed
    ltac:(by repeat constructor; set_solver) (proj1 Master.stealing_placed) (proj2 Master.stealing_placed) informed_layout)
    as (w' & E & Hl & _).
  exists w'. split; [exact E|exact Hl].
Defined.
Example stolen_tainted :
  (fun w => (fun p => (sinfo_owner p, tainted p)) <$> info_at w (0, 2)) <$>
    match HandleShardAssignment informed (Master.send_table_assignments (Master.workers_ (Master.get_state Master.run3))) with
    | Ok w => Some w | _ => None end = Some (Some (1, true)).
Proof. vm_compute. reflexivity. Qed.

Definition loaded_worker : t := mk 0 0 Master.CP_NONE {[0]} [0; 0] true ∅ [(0, Cluster.worker0)] ∅.
(** Before its state tables are made, worker 1 writes the three shards it was
    assigned; a worker that holds rows cannot. *)
Lemma rolling_checkpoint_witness :
  (exists w', HandlePutRequest 10 Cluster.sample_size informed ((fun i => (false, marker_put i 1)) <$> [1%nat; 0%nat]) =
      Ok (w', [WriteShard 0 1 1; WriteShard 0 3 1; WriteShard 0 5 1] ++ [SendMarker 1 1 1; SendMarker 2 1 1] ++ [CheckpointDone]) /\
    epoch_ w' = 1) /\
  HandlePutRequest 10 Cluster.sample_size loaded_worker ((fun i => (false, marker_put i 1)) <$> [1%nat; 0%nat]) = Undefined.
Proof.
  split.
  - destruct (rolling_checkpoint 10 Cluster.sample_size informed 1 [1%nat; 0%nat]) as [Hok _].
    + by repeat constructor.
    + cbn. lia.
    + cbn. lia.
    + cbn. lia.
    + by repeat constructor.
    + apply perm_swap.
    + destruct Hok as (w' & E & He & _).
      * intros (n & tbl & tb & k & st & Hn & Hk & _). destruct n as [|n]; [|discriminate Hn]. injection Hn as _ <-.
        do 6 (destruct k as [|k]; [discriminate Hk|]). discriminate Hk.
      * exists w'. split; [exact E|exact He].
  - apply (rolling_checkpoint 10 Cluster.sample_size loaded_worker 1 [1%nat; 0%nat]).
    + by repeat constructor.
    + cbn. lia.
    + cbn. lia.
    + cbn. lia.
    + by repeat constructor.
    + apply perm_swap.
    + eexists 0%nat, 0, Cluster.worker0, 0%nat, _. split_and!; reflexivity.
Defined.
Lemma state_checkpoint_undefined_witness : StartCheckpoint loaded_worker 1 Master.CP_MASTER_CONTROLLED = Undefined.
Proof.
  eapply (state_checkpoint_undefined loaded_worker 1 Master.CP_MASTER_CONTROLLED 0 0 Cluster.worker0 0);
    [cbn; lia|by repeat constructor|reflexivity|cbn; set_solver|reflexivity|reflexivity].
Defined.
End Sample.
End Worker.
