(* ===== verification/Job.v ===== *)
(** * A job of the master: the barrier, the three kernels, the end

    Master.v has the operations of the master one by one.  Here is the whole
    loop of [Master::barrier], in which checkpoints, termination checks, reports
    of finished tasks, work stealing and dispatching alternate, and
    [run_maiter], which runs the kernels of a job one after the other.

    What the loop reads from the clock and from the network in one turn is a
    [turn], and an environment gives the turn from the kernel that runs, the
    number of the turn and the state.  The calls that block until the workers
    answer (the two broadcasts at the end of a barrier, the read of a report
    for each worker in a checkpoint) return only when the environment says
    that the answers come; a master that waits for ever has the outcome
    [OutOfFuel], as a loop that goes on for ever has.  The statistics and the log
    files are left out. *)
From S2P Require Import Prelude StringPiece Float Table Master.

Module Job.
Import Master.

(** What the master sends, in order; [SyncFlush] and [SyncApply] are the two
    broadcasts at the end of the barrier. *)
Inductive sent :=
  | Work (m : message)
  | Cp (m : cp_message)
  | Terminate (worker : Z)
  | SyncFlush
  | SyncApply
  | EnableTrigger (worker trigger table : Z) (enable : bool)
  | Shutdown (rank : Z).

Definition cps (ms : list cp_message) : list sent := Cp <$> ms.
Definition works (ms : list message) : list sent := Work <$> ms.

(** The state of a [Master] that a job uses. *)
Record job := mk {
  master : Master.t;
  terminated_ : bool;
  checker : Diff;
  checkpoint_epoch_ : Z;
  checkpointing_ : bool;
  checkpoint_type : CheckpointType
}.
Definition set_master (j : job) (m : Master.t) : job :=
  mk m (terminated_ j) (checker j) (checkpoint_epoch_ j) (checkpointing_ j) (checkpoint_type j).
Definition set_workers (m : Master.t) (ws : list WorkerState) : Master.t :=
  Master.mk ws (run_table m) (run_shards m) (dispatched_ m) (finished_ m) (shards_assigned_ m) (kernel_epoch_ m) (entries m).
(** The state that the checkpoint operations of Master.v work on. *)
Definition cp_of (j : job) : cp_state :=
  {| cp_epoch := checkpoint_epoch_ j; cp_on := checkpointing_ j; cp_type := checkpoint_type j;
     cp_workers := workers_ (master j) |}.
Definition set_cp (j : job) (c : cp_state) : job :=
  mk (set_workers (master j) (cp_workers c)) (terminated_ j) (checker j) (cp_epoch c) (cp_on c) (cp_type c).

(** ** The constructor and the destructor *)

(** [strtod] and the conversion to [int] of one entry of the flag. *)
Definition dead_workers_of (to_int : cstr -> Z) (flag : cstr) : gset Z :=
  list_to_set (to_int <$> split flag (lit ",")).
(** Without the wait for the registrations, which is in Startup.v;
    [current_run_] has no shards yet. *)
Definition Master_new (size num_workers : Z) (c : Diff) : outcome job :=
  _ ← CHECK (1 <? size);
  Ok (mk (Master.mk (WorkerState_new <$> seqZ 0 num_workers) 0 [] 0 0 false 0 ∅) false c 0 false CP_NONE).
Definition Master_delete (size : Z) : list sent := Shutdown <$> seqZ 1 (size - 1).

(** What one turn of the loop finds: whether a checkpoint and a termination
    check are due, the buffered reports of each worker, a finished task, and
    for each worker what the periodic block, if it runs, finds: the average
    completion time, when the statistics and the idle time allow stealing, and
    whether its idle time is positive.  [cp_answered] says whether the workers
    report the end of a rolling checkpoint. *)
Record turn := {
  cp_due : bool;
  cp_answered : bool;
  tc_due : bool;
  reports : nat -> list (Z * spec_float);
  reported : option (nat * Taskid * list (Taskid * Z));
  periodic : option (nat -> option spec_float * bool)
}.

(** Whether the workers answer at the end of a barrier: the two broadcasts, and
    the end of a checkpoint. *)
Record answers := { flush_answered : bool; apply_answered : bool; done_answered : bool }.
(** The kernels of [run_maiter]: [MaiterKernel1], [MaiterKernel2] and
    [MaiterKernel3]. *)
Inductive kernel := Load | Iterate | Dump.
(** A call that blocks until it is answered. *)
Definition await {A} (answered : bool) (m : outcome A) : outcome A := if answered then m else OutOfFuel.

Section Job.
Variable tables : list (Z * Z).
Variable dead_workers : gset Z.
Variable work_stealing : bool.
Variable threshold : spec_float.

Definition terminate_iteration (j : job) : list sent :=
  (fun i => Terminate (1 + i)) <$> seqZ 0 (Z.of_nat (length (workers_ (master j)))).
Definition enable_trigger (j : job) (triggerid table : Z) (enable : bool) : list sent :=
  (fun w => EnableTrigger (w_id w + 1) triggerid table enable) <$> workers_ (master j).

(** The rolling checkpoint at the head of the loop. *)
Definition rolling (r : turn) (j : job) : outcome (job * list sent) :=
  match checkpoint_type j with
  | CP_ROLLING => if cp_due r then await (cp_answered r) ('(c, ms) ← checkpoint (cp_of j); Ok (set_cp j c, cps ms)) else Ok (j, [])
  | _ => Ok (j, [])
  end.
Definition check_termination (r : turn) (j : job) : job * list sent :=
  if negb (terminated_ j) && tc_due r then
    let '(ws, c, bterm) := termcheck threshold (checker j) (workers_ (master j))
                              (reports r <$> seq 0 (length (workers_ (master j)))) in
    let j := mk (set_workers (master j) ws) (terminated_ j) c (checkpoint_epoch_ j) (checkpointing_ j) (checkpoint_type j) in
    if bterm : bool then
      (mk (master j) true (checker j) (checkpoint_epoch_ j) (checkpointing_ j) (checkpoint_type j), terminate_iteration j)
    else (j, [])
  else (j, []).

(** [0.7 * current_run_.shards.size() < finished_]. *)
Definition c07 : spec_float := S754_finite false 6305039478318694 (-53).
Definition most_finished (m : Master.t) : bool :=
  SFltb (f64_mul c07 (f64_of_Z (Z.of_nat (length (run_shards m))))) (f64_of_Z (finished_ m)).
Definition is_controlled (ty : CheckpointType) : bool := match ty with CP_MASTER_CONTROLLED => true | _ => false end.

(** One worker in the periodic block. *)
Definition try_steal (avg : option spec_float) (n : nat) (j : job) (need : bool) : outcome (job * bool) :=
  match avg with
  | Some avg =>
    if checkpointing_ j then Ok (j, need)
    else '(m, need) ← steal_attempt tables dead_workers work_stealing (master j, need) (n, avg); Ok (set_master j m, need)
  | None => Ok (j, need)
  end.
Definition try_checkpoint (idle : bool) (n : nat) (j : job) : outcome (job * list sent) :=
  w ← deref (workers_ (master j) !! n);
  if is_controlled (checkpoint_type j) && most_finished (master j) && (may_be_idle w && idle) && negb (checkpointing w) then
    '(c, ms) ← start_worker_checkpoint (cp_of j) n; Ok (set_cp j c, cps ms)
  else Ok (j, []).
Definition periodic_worker (obs : nat -> option spec_float * bool) (s : job * bool * list sent) (n : nat) :
    outcome (job * bool * list sent) :=
  let '(j, need, out) := s in
  '(j, need) ← try_steal (obs n).1 n j need;
  '(j, ms) ← try_checkpoint (obs n).2 n j;
  Ok (j, need, out ++ ms).
Definition periodic_block (obs : nat -> option spec_float * bool) (j : job) : outcome (job * list sent) :=
  '(j, need, out) ← for_each (periodic_worker obs) (seq 0 (length (workers_ (master j)))) (j, false, []);
  Ok (j, out ++ if need : bool then [Work (ShardAssignment (send_table_assignments (workers_ (master j))))] else []).

(** A report: the task, [finished_], the periodic block, the next tasks. *)
Definition dispatch_more (j : job) : job * list sent :=
  let m := master j in
  if dispatched_ m <? Z.of_nat (length (run_shards m)) then
    let '(ws, reqs) := dispatch_work (run_table m) (workers_ m) in
    (set_master j (Master.mk ws (run_table m) (run_shards m) (dispatched_ m + Z.of_nat (length reqs)) (finished_ m)
                     (shards_assigned_ m) (kernel_epoch_ m) (entries m)),
     (fun r => Work (RunKernel r.1 r.2)) <$> reqs)
  else (j, []).
Definition reap (r : turn) (j : job) : outcome (job * list sent) :=
  match reported r with
  | None => Ok (j, [])
  | Some (n, i, sizes) =>
    m ← reap_one_task (master j) n i sizes;
    let j := set_master j (Master.mk (workers_ m) (run_table m) (run_shards m) (dispatched_ m) (finished_ m + 1)
                             (shards_assigned_ m) (kernel_epoch_ m) (entries m)) in
    '(j, out) ← match periodic r with Some obs => periodic_block obs j | None => Ok (j, []) end;
    let '(j, out') := dispatch_more j in
    Ok (j, out ++ out')
  end.

Definition barrier_turn (r : turn) (j : job) : outcome (job * list sent) :=
  '(j, o1) ← rolling r j;
  let '(j, o2) := check_termination r j in
  '(j, o3) ← reap r j;
  Ok (j, o1 ++ o2 ++ o3).

(** The clock and the network. *)
Variable env : kernel -> nat -> job -> turn.
Variable ends : nat -> job -> answers.

Fixpoint barrier_loop (kn : kernel) (fuel k : nat) (j : job) : outcome (job * list sent * nat) :=
  if finished_ (master j) <? Z.of_nat (length (run_shards (master j))) then
    match fuel with
    | O => OutOfFuel
    | S fuel =>
      '(j, out) ← barrier_turn (env kn k j) j;
      '(j, out', k) ← barrier_loop kn fuel (S k) j;
      Ok (j, out ++ out', k)
    end
  else Ok (j, [], k).
(** The end of the barrier: the broadcasts, and the checkpoint that the master
    controls. *)
Definition barrier_end (a : answers) (j : job) : outcome (job * list sent) :=
  await (flush_answered a) (await (apply_answered a) (
    if is_controlled (checkpoint_type j) then
      '(c, ms) ← (if checkpointing_ j then Ok (cp_of j, []) else start_checkpoint (cp_of j));
      '(c, ms') ← await (done_answered a) (finish_checkpoint c);
      Ok (set_cp j c, [SyncFlush; SyncApply] ++ cps (ms ++ ms'))
    else Ok (j, [SyncFlush; SyncApply]))).
Definition barrier (kn : kernel) (fuel k : nat) (j : job) : outcome (job * list sent * nat) :=
  '(j, out, k) ← barrier_loop kn fuel k j;
  '(j, out') ← barrier_end (ends k j) j;
  Ok (j, out ++ out', k).
Definition cp_barrier (kn : kernel) (fuel k : nat) (j : job) : outcome (job * list sent * nat) :=
  barrier kn fuel k (mk (master j) (terminated_ j) (checker j) (checkpoint_epoch_ j) (checkpointing_ j) CP_MASTER_CONTROLLED).

(** ** Runs

    [run], with the flag that allows checkpoints and the type that the
    descriptor asks for; the checks of the kernel's name are in Registry.v. *)
Definition run (kn : kernel) (allowed : bool) (fuel k : nat) (j : job) (table_id : Z) (shards : list Z) (ty : CheckpointType) :
    outcome (job * list sent * nat) :=
  '(m, ms) ← Master.run tables dead_workers (master j) table_id shards;
  let j := mk m (terminated_ j) (checker j) (checkpoint_epoch_ j) (checkpointing_ j) (if allowed then ty else CP_NONE) in
  '(j, out, k) ← barrier kn fuel k j;
  Ok (j, works ms ++ out, k).
(** [run_all] of a descriptor without tables to checkpoint. *)
Definition run_all (kn : kernel) (allowed : bool) (fuel k : nat) (j : job) (table_id : Z) : outcome (job * list sent * nat) :=
  run kn allowed fuel k j table_id (seqZ 0 (num_shards tables table_id)) CP_NONE.
(** [run_maiter]: loading, iterating when there is a kernel, dumping when
    there is a termination checker. *)
Definition run_maiter (allowed : bool) (fuel k : nat) (j : job) (table_id : Z) (iterkernel termchecker : bool) :
    outcome (job * list sent * nat) :=
  '(j, o1, k) ← run_all Load allowed fuel k j table_id;
  '(j, o2, k) ← (if iterkernel then run_all Iterate allowed fuel k j table_id else Ok (j, [], k));
  '(j, o3, k) ← (if termchecker then run_all Dump allowed fuel k j table_id else Ok (j, [], k));
  Ok (j, o1 ++ o2 ++ o3, k).

(** Table identifiers are distinct: the registry is a map. *)
Hypothesis tables_distinct : NoDup tables.*1.

(** ** Checkpoints leave the tasks alone *)
Record same (w w' : WorkerState) : Prop := {
  sm_id : w_id w' = w_id w; sm_shards : shards w' = shards w; sm_work : work w' = work w }.
Lemma same_worker_refl w : same w w.
Proof. done. Qed.
Lemma same_list_refl ws : Forall2 same ws ws.
Proof. apply Forall_Forall2_diag, Forall_true. exact same_worker_refl. Qed.
Lemma same_trans ws1 ws2 ws3 : Forall2 same ws1 ws2 -> Forall2 same ws2 ws3 -> Forall2 same ws1 ws3.
Proof.
  intros H. revert ws3. induction H as [|a b l l' [E1 E2 E3] _ IH]; intros ws3 H2; [by inversion H2|].
  apply Forall2_cons_inv_l in H2 as (c & l3 & [E4 E5 E6] & H3 & ->). constructor; [split; congruence|by apply IH].
Qed.
Lemma same_restated w w' : same w w' -> restated w w'.
Proof. intros [E1 E2 E3]. split; [done..| | |]; rewrite E3; try done. intros i x Hx. by exists x. Qed.
Lemma same_counted ws ws' st : Forall2 same ws ws' -> counted ws' st = counted ws st.
Proof. unfold counted. induction 1 as [|w w' ws ws' [_ _ E] _ IH]; [done|]. cbn. by rewrite IH, E. Qed.
Lemma same_lookup ws ws' n w' : Forall2 same ws ws' -> ws' !! n = Some w' -> exists w, ws !! n = Some w /\ same w w'.
Proof. intros HF Hn. by apply (Forall2_lookup_r _ _ _ _ _ HF). Qed.
Lemma same_lookup_l ws ws' n w : Forall2 same ws ws' -> ws !! n = Some w -> exists w', ws' !! n = Some w' /\ same w w'.
Proof. intros HF Hn. by apply (Forall2_lookup_l _ _ _ _ _ HF). Qed.
Lemma same_fmap (f : WorkerState -> WorkerState) ws : (forall w, same w (f w)) -> Forall2 same ws (f <$> ws).
Proof. intros H. induction ws as [|w ws IH]; cbn; by constructor. Qed.
Lemma same_insert ws n w w' : ws !! n = Some w -> same w w' -> Forall2 same ws (<[n := w']> ws).
Proof.
  intros Hn Hs. rewrite <- (list_insert_id ws n w Hn) at 1. apply Forall2_insert; [apply same_list_refl|done].
Qed.

Abbreviation run_inv := (Master.run_inv tables dead_workers).
Abbreviation running := (Master.running tables dead_workers).
Abbreviation ready := (Master.ready tables dead_workers).

Lemma run_inv_same m ws : Forall2 same (workers_ m) ws -> run_inv m -> run_inv (set_workers m ws).
Proof.
  intros HF [Hp Hal Hs Ht Htot Hact Hd Hf].
  assert (Forall2 restated (workers_ m) ws) as HR by (eapply Forall2_impl; [exact HF|apply same_restated]).
  split; cbn [workers_ set_workers run_table run_shards dispatched_ finished_].
  - by eapply placed_restated.
  - by eapply some_alive_restated.
  - intros i Hv. eapply served_restated; [done|by apply Hs].
  - intros i. by rewrite (tasked_restated _ _ i HR).
  - by rewrite (total_restated _ _ HR).
  - intros n w Hn. destruct (same_lookup _ _ _ _ HF Hn) as (w0 & Hw0 & [_ _ ->]). by eapply Hact.
  - by rewrite (same_counted _ _ _ HF).
  - by rewrite (same_counted _ _ _ HF).
Qed.
Lemma running_same m ws : Forall2 same (workers_ m) ws -> running m -> running (set_workers m ws).
Proof.
  intros HF [Hinv HB]. split; [by apply run_inv_same|]. cbn. apply Forall_forall.
  intros w (n & Hn)%list_elem_of_lookup. destruct (same_lookup _ _ _ _ HF Hn) as (w0 & Hw0 & [_ _ E]).
  unfold busy. rewrite E. rewrite Forall_lookup in HB. by apply (HB n).
Qed.

(** What the termination checks keep of a worker: whether it has reported, and
    its progress. *)
Definition voices (ws : list WorkerState) : list (bool * spec_float) := (fun w => (termchecking w, current w)) <$> ws.
Lemma voices_insert ws n w w' : ws !! n = Some w -> (termchecking w', current w') = (termchecking w, current w) ->
  voices (<[n := w']> ws) = voices ws.
Proof. intros Hn E. unfold voices. rewrite list_fmap_insert, E, list_insert_id; [done|]. by rewrite list_lookup_fmap, Hn. Qed.
Lemma for_each_same {A S B} (g : S -> B) (f : S -> A -> outcome S) l : forall s s',
  (forall s x s', f s x = Ok s' -> g s' = g s) -> for_each f l s = Ok s' -> g s' = g s.
Proof.
  induction l as [|x l IH]; intros s s' Hf E; [by injection E as <-|]. cbn [for_each] in E.
  apply bind_Ok in E as (s1 & E1 & E). rewrite (IH s1 s' Hf E). by eapply Hf.
Qed.
Lemma start_one_voices e ty s n s' : start_one e ty s n = Ok s' -> voices s'.1 = voices s.1.
Proof.
  destruct s as [ws ms]. intros (w & Hw%deref_Ok & E)%bind_Ok. destruct (checkpointing w); injection E as <-; [done|].
  by eapply voices_insert.
Qed.
Lemma start_voices c c' ms : start_checkpoint c = Ok (c', ms) -> voices (cp_workers c') = voices (cp_workers c).
Proof.
  unfold start_checkpoint. destruct (cp_on c); [by intros [= <- _]|]. intros ([ws ms'] & E & [= <- _])%bind_Ok.
  by apply (for_each_same (fun s => voices s.1) _ _ _ _ (start_one_voices _ _)) in E.
Qed.
Lemma start_worker_voices c n c' ms : start_worker_checkpoint c n = Ok (c', ms) -> voices (cp_workers c') = voices (cp_workers c).
Proof.
  intros ([c1 ms1] & E1%start_voices & E)%bind_Ok. apply bind_Ok in E as ([ws ms2] & E2%start_one_voices & [= <- _]).
  cbn [fst cp_workers] in *. congruence.
Qed.
Lemma finish_voices c c' ms : finish_checkpoint c = Ok (c', ms) -> voices (cp_workers c') = voices (cp_workers c).
Proof.
  intros ([ws ms'] & E & [= <- _])%bind_Ok. apply (for_each_same (fun s => voices s.1)) in E; [done|]. clear.
  intros [ws ms] n s' (w & Hw%deref_Ok & E)%bind_Ok. apply bind_Ok in E as ([] & _ & [= <-]). by eapply voices_insert.
Qed.
Lemma assign_shard_voices w i b w' : assign_shard tables w i b = Ok w' ->
  (termchecking w', current w') = (termchecking w, current w).
Proof.
  apply (for_each_same (fun w => (termchecking w, current w))). clear. intros w [t n] w' E. destruct (i <? n); [|by injection E as <-].
  destruct b; [by injection E as <-|]. destruct (serves _ _); [|done]. by injection E as <-.
Qed.
Lemma steal_work_voices e t n ws a avg ws' b : steal_work tables dead_workers work_stealing e t n ws a avg = Ok (ws', b) ->
  voices ws' = voices ws.
Proof.
  unfold steal_work. destruct (negb work_stealing); [by intros [= <- _]|].
  intros (dst & Hd%deref_Ok & E)%bind_Ok. destruct (negb _); [by injection E as <- _|].
  apply bind_Ok in E as (m & _ & E). apply bind_Ok in E as (src0 & _ & E). destruct (_ =? 0); [by injection E as <- _|].
  apply bind_Ok in E as (task & _ & E). destruct (stolen task); [by injection E as <- _|].
  cbv zeta in E. destruct (SFleb _ _); [by injection E as <- _|].
  apply bind_Ok in E as (d1 & E1%assign_shard_voices & E). apply bind_Ok in E as (s1 & Hs1%deref_Ok & E).
  apply bind_Ok in E as (s2 & E2%assign_shard_voices & E).
  apply bind_Ok in E as (s3 & E3 & E). apply bind_Ok in E3 as (t3 & _ & [= <-]). apply bind_Ok in E as (d2 & Hd2%deref_Ok & [= <- _]).
  erewrite (voices_insert _ a d2), (voices_insert _ m s1), (voices_insert ws a dst); try done.
Qed.
Lemma dispatch_voices table ws : voices (dispatch_work table ws).1 = voices ws.
Proof.
  unfold dispatch_work, voices. induction ws as [|w ws IH]; [done|]. cbn [foldr].
  destruct (foldr _ _ ws) as [ws' reqs]. cbn [fst] in IH. destruct (_ && _); [|cbn; by rewrite IH].
  unfold get_next. destruct (max_element _ _); cbn; by rewrite IH.
Qed.

Abbreviation all_cp := (fun b => Forall (fun w => checkpointing w = b)).
Lemma start_spec c : all_cp (cp_on c) (cp_workers c) ->
  exists c' ms, start_checkpoint c = Ok (c', ms) /\ cp_on c' = true /\ all_cp true (cp_workers c') /\
    Forall2 same (cp_workers c) (cp_workers c') /\ (cp_type c <> CP_NONE -> cp_type c' = cp_type c).
Proof.
  intros Hall. unfold start_checkpoint. destruct (cp_on c) eqn:Hon.
  { exists c, []. split_and!; try done. apply same_list_refl. }
  rewrite (worker_loop _ (fun w => checkpointing w = false) (fun w => set_checkpointing w true)
             (fun n => [StartCheckpoint (Z.of_nat n) (cp_epoch c + 1) (match cp_type c with CP_NONE => CP_MASTER_CONTROLLED | ty => ty end)]));
    [|intros ws1 ms n w Hn Hw; unfold start_one; rewrite Hn; run; by rewrite Hw|done].
  run. eexists _, _. split; [done|]. cbn [cp_on cp_workers cp_type]. split_and!; [done|by apply Forall_fmap, Forall_true| |].
  - by apply same_fmap.
  - by destruct (cp_type c).
Qed.
Lemma finish_spec c : all_cp true (cp_workers c) ->
  exists c' ms, finish_checkpoint c = Ok (c', ms) /\ cp_on c' = false /\ all_cp false (cp_workers c') /\
    Forall2 same (cp_workers c) (cp_workers c').
Proof.
  intros Hall. unfold finish_checkpoint.
  rewrite (worker_loop _ (fun w => checkpointing w = true) (fun w => set_checkpointing w false)
             (fun n => match cp_type c with CP_MASTER_CONTROLLED => [FinishCheckpoint (Z.of_nat n)] | _ => [] end)); [|
    intros ws1 ms n w Hn Hw; unfold finish_one; rewrite Hn; run; by rewrite Hw|done].
  run. eexists _, _. split; [done|]. cbn [cp_on cp_workers]. split_and!; [done|by apply Forall_fmap, Forall_true|].
  by apply same_fmap.
Qed.
Lemma start_worker_spec c n : all_cp (cp_on c) (cp_workers c) -> (n < length (cp_workers c))%nat ->
  exists c' ms, start_worker_checkpoint c n = Ok (c', ms) /\ cp_on c' = true /\ all_cp true (cp_workers c') /\
    Forall2 same (cp_workers c) (cp_workers c') /\ (cp_type c <> CP_NONE -> cp_type c' = cp_type c).
Proof.
  intros Hall Hn. unfold start_worker_checkpoint. destruct (start_spec c Hall) as (c1 & ms & -> & Hon & Ht & Hs & Hty). run.
  destruct (lookup_lt_is_Some_2 (cp_workers c1) n) as [w Hw]; [by rewrite <- (Forall2_length _ _ _ Hs)|].
  unfold start_one. rewrite Hw. run. pose proof Ht as Hcw. rewrite Forall_lookup in Hcw. rewrite (Hcw n w Hw). run.
  by eexists _, _.
Qed.
Lemma checkpoint_spec c : all_cp (cp_on c) (cp_workers c) ->
  exists c' ms, checkpoint c = Ok (c', ms) /\ cp_on c' = false /\ all_cp false (cp_workers c') /\
    Forall2 same (cp_workers c) (cp_workers c').
Proof.
  intros Hall. unfold checkpoint. destruct (start_spec c Hall) as (c1 & ms1 & -> & _ & H1 & S1 & _). run.
  destruct (finish_spec c1 H1) as (c2 & ms2 & -> & H2 & H3 & S2). run. eexists _, _. split_and!; try done.
  by eapply same_trans.
Qed.

(** ** The invariant of the loop *)

(** All workers are in a checkpoint or none is. *)
Definition cp_ok (j : job) : Prop := all_cp (checkpointing_ j) (workers_ (master j)).
(** A checkpoint that is being taken is one that the master controls. *)
Definition controlled (j : job) : Prop := checkpointing_ j = true -> checkpoint_type j = CP_MASTER_CONTROLLED.
Definition active_task (m : Master.t) (n : nat) (i : Taskid) : Prop :=
  exists w x, workers_ m !! n = Some w /\ work w !! i = Some x /\ status x = ACTIVE.
(** The workers that are told to stop. *)
Definition stops (out : list sent) : list Z := omap (fun s => match s with Terminate w => Some w | _ => None end) out.
(** A part of the loop: the run goes on, with [d] more tasks finished; the
    workers are told to stop when [terminated_] is set, all and once. *)
Record goes_on (d : Z) (j j' : job) (out : list sent) : Prop := {
  go_run : running (master j');
  go_cp : cp_ok j';
  go_ctl : controlled j -> controlled j';
  go_table : run_table (master j') = run_table (master j);
  go_shards : run_shards (master j') = run_shards (master j);
  go_finished : finished_ (master j') = finished_ (master j) + d;
  go_workers : length (workers_ (master j')) = length (workers_ (master j));
  go_term : terminated_ j = true -> terminated_ j' = true;
  go_stops : stops out = if terminated_ j' && negb (terminated_ j) then seqZ 1 (Z.of_nat (length (workers_ (master j)))) else []
}.
Lemma stops_app o1 o2 : stops (o1 ++ o2) = stops o1 ++ stops o2.
Proof. apply omap_app. Qed.
Lemma stops_cps ms : stops (cps ms) = [].
Proof. induction ms as [|m ms IH]; [done|]. exact IH. Qed.
Lemma stops_works ms : stops (works ms) = [].
Proof. induction ms as [|m ms IH]; [done|]. exact IH. Qed.
Lemma goes_on_trans d1 d2 j1 j2 j3 o1 o2 : goes_on d1 j1 j2 o1 -> goes_on d2 j2 j3 o2 -> goes_on (d1 + d2) j1 j3 (o1 ++ o2).
Proof.
  intros [R1 C1 L1 T1 S1 F1 W1 M1 O1] [R2 C2 L2 T2 S2 F2 W2 M2 O2].
  split; try done; try congruence; [by intros ?%L1%L2|lia|by intros ?%M1%M2|]. rewrite stops_app, O1, O2, W1.
  destruct (terminated_ j1), (terminated_ j2), (terminated_ j3); try done; cbn; rewrite ?app_nil_r; try done;
    [by specialize (M1 eq_refl)|by specialize (M2 eq_refl)].
Qed.
Lemma goes_on_refl j : running (master j) -> cp_ok j -> goes_on 0 j j [].
Proof. intros Hr Hc. split; try done; [lia|]. by destruct (terminated_ j). Qed.
Lemma active_same m ws n i : Forall2 same (workers_ m) ws -> active_task m n i -> active_task (set_workers m ws) n i.
Proof.
  intros HF (w & x & Hn & Hx & Hst). destruct (same_lookup_l _ _ _ _ HF Hn) as (w' & Hw' & [_ _ E]).
  exists w', x. by rewrite E.
Qed.

Lemma set_cp_goes j c ms : running (master j) -> all_cp (cp_on c) (cp_workers c) -> cp_on c = false ->
  Forall2 same (workers_ (master j)) (cp_workers c) -> goes_on 0 j (set_cp j c) (cps ms).
Proof.
  intros Hr Hc Hoff HF. split; cbn; try done; [by apply running_same|by intros _ E; cbn in E; rewrite Hoff in E|lia|by rewrite (Forall2_length _ _ _ HF)|].
  rewrite stops_cps. by destruct (terminated_ j).
Qed.
(** What the termination check works on is not changed by the rest of a turn. *)
Record keeps_check (j j' : job) : Prop := {
  kc_voices : voices (workers_ (master j')) = voices (workers_ (master j));
  kc_checker : checker j' = checker j;
  kc_term : terminated_ j' = terminated_ j
}.
(** The turn is stuck in a rolling checkpoint that the workers do not end. *)
Definition stuck (r : turn) (j : job) : bool :=
  match checkpoint_type j with CP_ROLLING => cp_due r && negb (cp_answered r) | _ => false end.
Lemma rolling_goes r j : running (master j) -> cp_ok j ->
  exists j' out, rolling r j = await (negb (stuck r j)) (Ok (j', out)) /\ goes_on 0 j j' out /\ keeps_check j j' /\
    forall n i, active_task (master j) n i -> active_task (master j') n i.
Proof.
  intros Hr Hc. unfold rolling, stuck. assert (exists j' out, Ok (j, []) = Ok (j', out) /\ goes_on 0 j j' out /\ keeps_check j j' /\
    forall n i, active_task (master j) n i -> active_task (master j') n i) as Hsame
    by (exists j, []; split_and!; [done|by apply goes_on_refl|done|done]).
  destruct (checkpoint_type j); [done| |done]. destruct (cp_due r); [|done].
  destruct (checkpoint_spec (cp_of j) Hc) as (c & ms & E & Hon & Hall & HF). exists (set_cp j c), (cps ms).
  split; [rewrite E; by destruct (cp_answered r)|]. split; [apply set_cp_goes; [done|by rewrite Hon|done|done]|].
  split; [|intros n i; by apply active_same]. split; try done. cbn [set_cp master set_workers workers_].
  unfold checkpoint in E. apply bind_Ok in E as ([c1 m1] & E1%start_voices & E).
  apply bind_Ok in E as ([c2 m2] & E2%finish_voices & [= <- _]). rewrite E2. exact E1.
Qed.

(** ** Termination checks *)
Lemma read_reports_same l : forall w, same w (read_reports w l).
Proof.
  unfold read_reports. induction l as [|r l IH]; intros w; [done|]. cbn [foldl].
  destruct (IH (set_report w true r.2 r.1)) as [E1 E2 E3]. split; [rewrite E1|rewrite E2|rewrite E3]; done.
Qed.
Lemma read_reports_cp l : forall w, checkpointing (read_reports w l) = checkpointing w.
Proof. unfold read_reports. induction l as [|r l IH]; intros w; [done|]. cbn [foldl]. by rewrite IH. Qed.
Lemma read_all_same (f : nat -> list (Z * spec_float)) ws : forall k,
  Forall2 (fun w w' => same w w' /\ checkpointing w' = checkpointing w) ws
    (zip_with read_reports ws (f <$> seq k (length ws))).
Proof.
  induction ws as [|w ws IH]; intros k; cbn; [constructor|]. constructor; [|apply IH].
  split; [apply read_reports_same|apply read_reports_cp].
Qed.
Lemma termcheck_same c ws f ws' c' b : termcheck threshold c ws (f <$> seq 0 (length ws)) = (ws', c', b) ->
  Forall2 (fun w w' => same w w' /\ checkpointing w' = checkpointing w) ws ws'.
Proof.
  unfold termcheck. intros E. pose proof (read_all_same f ws 0) as H. set (l := zip_with _ _ _) in *. clearbody l.
  destruct (bool_decide _); [by injection E as <- _ _|]. destruct (Diff_terminate _ _ _) as [bt c1].
  destruct bt; injection E as <- _ _; [done|]. rewrite <- (list_fmap_id ws). apply Forall2_fmap_2.
  eapply Forall2_impl; [exact H|]. intros w w' [[E1 E2 E3] E4]. done.
Qed.
Lemma all_cp_same b ws ws' : Forall2 (fun w w' => same w w' /\ checkpointing w' = checkpointing w) ws ws' ->
  all_cp b ws -> all_cp b ws'.
Proof. induction 1 as [|w w' ws ws' [_ E] _ IH]; [done|]. intros [H1 H2]%Forall_cons. constructor; [congruence|by apply IH]. Qed.
Lemma stops_terminate j : stops (terminate_iteration j) = seqZ 1 (Z.of_nat (length (workers_ (master j)))).
Proof.
  unfold terminate_iteration, stops. rewrite <- (fmap_add_seqZ 1 0). generalize (seqZ 0 (Z.of_nat (length (workers_ (master j))))).
  induction l as [|x l IH]; [done|]. cbn. f_equal. exact IH.
Qed.
Lemma check_termination_goes r j : running (master j) -> cp_ok j ->
  goes_on 0 j (check_termination r j).1 (check_termination r j).2 /\
  forall n i, active_task (master j) n i -> active_task (master (check_termination r j).1) n i.
Proof.
  intros Hr Hc. unfold check_termination. destruct (terminated_ j) eqn:Et; cbn [negb andb];
    [split; [by apply goes_on_refl|done]|]. destruct (tc_due r); [|split; [by apply goes_on_refl|done]].
  destruct (termcheck _ _ _ _) as [[ws c] b] eqn:E. apply termcheck_same in E.
  assert (Forall2 same (workers_ (master j)) ws) as HF by (eapply Forall2_impl; [exact E|by intros ? ? [? _]]).
  pose proof (Forall2_length _ _ _ HF) as Hl.
  destruct b; (split; [|intros n i; by apply active_same]); split; cbn [fst snd master terminated_ checkpointing_]; try done;
    try (by apply running_same); try (by eapply all_cp_same); try (cbn; lia).
  rewrite stops_terminate, Et. cbn [master set_workers workers_]. by rewrite Hl.
Qed.

(** ** Reports *)

(** Between a report and the next dispatch. *)
Record mid (j j' : job) (out : list sent) : Prop := {
  mi_run : run_inv (master j');
  mi_cp : cp_ok j';
  mi_ctl : controlled j -> controlled j';
  mi_table : run_table (master j') = run_table (master j);
  mi_shards : run_shards (master j') = run_shards (master j);
  mi_finished : finished_ (master j') = finished_ (master j);
  mi_workers : length (workers_ (master j')) = length (workers_ (master j));
  mi_check : keeps_check j j';
  mi_stops : stops out = []
}.
Lemma mid_refl j : run_inv (master j) -> cp_ok j -> mid j j [].
Proof. by split. Qed.
Lemma mid_trans j1 j2 j3 o1 o2 : mid j1 j2 o1 -> mid j2 j3 o2 -> mid j1 j3 (o1 ++ o2).
Proof.
  intros [R1 C1 L1 T1 S1 F1 W1 M1 O1] [R2 C2 L2 T2 S2 F2 W2 M2 O2]. split; try done; try congruence; [by intros ?%L1%L2| |].
  - destruct M1, M2. split; congruence.
  - by rewrite stops_app, O1, O2.
Qed.
Lemma all_cp_insert b ws n w : all_cp b ws -> checkpointing w = b -> all_cp b (<[n := w]> ws).
Proof. intros H Hw. by apply Forall_insert. Qed.
Lemma all_cp_at b ws n w : all_cp b ws -> ws !! n = Some w -> checkpointing w = b.
Proof. intros H Hn. rewrite Forall_lookup in H. by eapply H. Qed.

Lemma steal_cp m b a m' b' x : run_inv m -> steal_attempt tables dead_workers work_stealing (m, b) a = Ok (m', b') ->
  all_cp x (workers_ m) -> all_cp x (workers_ m').
Proof.
  intros [Hp Hal Hs Ht Htot Hact Hd Hf] E Hall. unfold steal_attempt in E. apply bind_Ok in E as (w & Hw%deref_Ok & E).
  destruct (may_be_idle w) eqn:Hidle; [|by injection E as <- _].
  apply bind_Ok in E as ([ws r] & E & [= <- _]). cbn [workers_].
  destruct (steal_work_spec tables dead_workers work_stealing tables_distinct (shard_size (entries m)) (run_table m)
    (num_shards tables (run_table m)) (workers_ m) a.1 w a.2 Hp) as (ws1 & r1 & E1 & Hws);
    [intros i Hi; by apply Ht|done|by apply idle_no_pending|].
  rewrite E in E1. injection E1 as <- _. destruct Hws as [->|(n & src & y & Hn & _ & _ & _ & _ & _ & ->)]; [done|].
  unfold moved. apply all_cp_insert; [apply all_cp_insert|]; [done|exact (all_cp_at _ _ _ _ Hall Hn)|exact (all_cp_at _ _ _ _ Hall Hw)].
Qed.
Lemma try_steal_mid avg n j need : run_inv (master j) -> cp_ok j -> (n < length (workers_ (master j)))%nat ->
  exists j' need', try_steal avg n j need = Ok (j', need') /\ mid j j' [].
Proof.
  intros Hr Hc Hn. unfold try_steal. destruct avg as [avg|]; [|by exists j, need; split; [|apply mid_refl]].
  destruct (checkpointing_ j) eqn:Hon; [by exists j, need; split; [|apply mid_refl]|].
  destruct (steal_attempt_inv tables dead_workers work_stealing tables_distinct (master j) need (n, avg) Hr Hn) as (m & b & E & Hi & Ht & Hs & Hf & _ & Hl).
  rewrite E. run. eexists _, _. split; [done|]. split; try done.
  - unfold cp_ok in Hc |- *. cbn [checkpointing_ set_master master]. rewrite Hon in Hc |- *. exact (steal_cp _ _ _ _ _ _ Hr E Hc).
  - split; try done. cbn [set_master master]. unfold steal_attempt in E. apply bind_Ok in E as (w & _ & E).
    destruct (may_be_idle w); [|by injection E as <- _]. apply bind_Ok in E as ([ws r] & E%steal_work_voices & [= <- _]). done.
Qed.
Lemma try_checkpoint_mid idle n j : run_inv (master j) -> cp_ok j -> (n < length (workers_ (master j)))%nat ->
  exists j' out, try_checkpoint idle n j = Ok (j', out) /\ mid j j' out.
Proof.
  intros Hr Hc Hn. unfold try_checkpoint. destruct (lookup_lt_is_Some_2 _ _ Hn) as [w Hw]. rewrite Hw. run.
  destruct (is_controlled (checkpoint_type j)) eqn:Ety; cbn [andb]; [|by exists j, []; split; [|apply mid_refl]].
  destruct (_ && _); [|by exists j, []; split; [|apply mid_refl]].
  destruct (start_worker_spec (cp_of j) n Hc Hn) as (c & ms & E & Hon & Hall & HF & Hty). rewrite E. run.
  apply start_worker_voices in E.
  eexists _, _. split; [done|]. split; try done; cbn.
  - by apply run_inv_same.
  - unfold cp_ok. cbn. by rewrite Hon.
  - intros _ _. cbn. cbn in Hty. destruct (checkpoint_type j); try done. by apply Hty.
  - symmetry. exact (Forall2_length _ _ _ HF).
  - apply stops_cps.
Qed.
Lemma periodic_mid obs j : run_inv (master j) -> cp_ok j ->
  exists j' out, periodic_block obs j = Ok (j', out) /\ mid j j' out.
Proof.
  intros Hr Hc. unfold periodic_block.
  destruct (for_each_inv (periodic_worker obs) (fun _ s => mid j s.1.1 s.2) (seq 0 (length (workers_ (master j)))) (j, false, []))
    as ([[j1 need] out] & -> & H1).
  - by apply mid_refl.
  - intros pre n todo [[j1 need] out] Hsplit H1. cbn [fst snd] in H1. unfold periodic_worker.
    assert (n < length (workers_ (master j)))%nat as Hn.
    { assert (n ∈ seq 0 (length (workers_ (master j)))) as Hin by (rewrite Hsplit; apply elem_of_app; right; by left).
      apply elem_of_seq in Hin. lia. }
    destruct (try_steal_mid (obs n).1 n j1 need (mi_run _ _ _ H1) (mi_cp _ _ _ H1)) as (j2 & need2 & -> & H2);
      [by rewrite (mi_workers _ _ _ H1)|]. run.
    destruct (try_checkpoint_mid (obs n).2 n j2 (mi_run _ _ _ H2) (mi_cp _ _ _ H2)) as (j3 & out3 & -> & H3);
      [by rewrite (mi_workers _ _ _ H2), (mi_workers _ _ _ H1)|]. run.
    eexists. split; [done|]. cbn [fst snd]. eapply mid_trans; [done|]. rewrite <- (app_nil_l out3). by eapply mid_trans.
  - run. eexists _, _. split; [done|]. cbn [fst snd] in H1. rewrite <- (app_nil_r out) in H1.
    eapply mid_trans; [by rewrite app_nil_r in H1|]. destruct H1. split; try done. by destruct need.
Qed.

Lemma dispatch_cp b table ws : all_cp b ws -> all_cp b (dispatch_work table ws).1.
Proof.
  unfold dispatch_work. induction 1 as [|w ws Hw _ IH]; [constructor|]. cbn [foldr].
  destruct (foldr _ _ ws) as [ws' reqs]. cbn [fst] in IH. destruct (_ && _); [|by constructor].
  unfold get_next. destruct (max_element _ _); cbn; by constructor.
Qed.
Lemma stops_requests (reqs : list (Z * Taskid)) : stops ((fun r => Work (RunKernel r.1 r.2)) <$> reqs) = [].
Proof. induction reqs as [|r l IH]; [done|]. exact IH. Qed.
Lemma dispatch_more_runs j : run_inv (master j) -> cp_ok j ->
  mid j (dispatch_more j).1 (dispatch_more j).2 /\ running (master (dispatch_more j).1).
Proof.
  intros Hr Hc. unfold dispatch_more. destruct (dispatch_inv _ _ _ Hr) as (ws & reqs & E & Hi & HB & _).
  destruct (Z.ltb_spec (dispatched_ (master j)) (Z.of_nat (length (run_shards (master j))))) as [Hlt|Hge].
  - pose proof (dispatch_cp _ (run_table (master j)) _ Hc) as Hcp.
    pose proof (dispatch_length (run_table (master j)) (workers_ (master j))) as Hl.
    pose proof (dispatch_voices (run_table (master j)) (workers_ (master j))) as Hv. rewrite E in Hcp, Hl, Hv |- *.
    split; [|by split]. split; try done. apply stops_requests.
  - cbn [fst snd]. split; [by apply mid_refl|]. split; [done|]. apply Forall_forall. intros w (n & Hn)%list_elem_of_lookup.
    split; [by apply (ri_active _ _ _ Hr n w)|]. pose proof (ri_disp _ _ _ Hr) as Hd.
    assert (counted (workers_ (master j)) PENDING = 0)%nat as Hz by lia.
    unfold counted in Hz. rewrite <- (take_drop_middle _ _ _ Hn), sum_list_with_app in Hz. cbn in Hz. lia.
Qed.
Definition one_if {A} (o : option A) : Z := match o with Some _ => 1 | None => 0 end.
Lemma reap_goes r j : running (master j) -> cp_ok j ->
  (forall n i sizes, reported r = Some (n, i, sizes) -> active_task (master j) n i) ->
  exists j' out, reap r j = Ok (j', out) /\ goes_on (one_if (reported r)) j j' out /\ keeps_check j j'.
Proof.
  intros Hr Hc Hact. unfold reap. destruct (reported r) as [[[n i] sizes]|];
    [|by exists j, []; split_and!; [|apply goes_on_refl|]].
  destruct (Hact n i sizes eq_refl) as (w & x & Hn & Hx & Hst). destruct Hr as [Hinv _].
  destruct (reap_inv _ _ (master j) n w i x sizes Hinv Hn Hx Hst) as (m & Em & Hi & Ht & Hs & Hf & Hl). rewrite Em. run.
  set (j1 := set_master j _).
  assert (cp_ok j1 /\ keeps_check j j1) as [Hc1 Hk1].
  { unfold reap_one_task in Em. rewrite Hn in Em. cbn [deref mbind outcome_bind] in Em.
    apply bind_Ok in Em as (w' & Ew & [= <-]). apply bind_Ok in Ew as (t0 & _ & Ew). apply bind_Ok in Ew as ([] & _ & [= <-]).
    subst j1. split; [unfold cp_ok in *; cbn; apply all_cp_insert; [done|]; exact (all_cp_at _ _ _ _ Hc Hn)|].
    split; try done. cbn [set_master master workers_]. by eapply voices_insert. }
  assert (exists j2 out, match periodic r with Some obs => periodic_block obs j1 | None => Ok (j1, []) end = Ok (j2, out) /\ mid j1 j2 out)
    as (j2 & out & -> & H2).
  { destruct (periodic r); [by apply periodic_mid|]. exists j1, []. split; [done|]. by apply mid_refl. }
  run. destruct (dispatch_more_runs j2 (mi_run _ _ _ H2) (mi_cp _ _ _ H2)) as [H3 Hr3].
  destruct (dispatch_more j2) as [j3 out3]. cbn [fst snd] in *. exists j3, (out ++ out3). split; [done|].
  pose proof (mid_trans _ _ _ _ _ H2 H3) as [_ C L T S F W M O].
  assert (keeps_check j j3) as Hk by (destruct Hk1, M; split; congruence). split; [|done].
  subst j1. cbn in T, S, F, W. split; try done; try congruence.
  - cbn. lia.
  - intros Htm. by rewrite (kc_term _ _ Hk).
  - rewrite O, (kc_term _ _ Hk). by destruct (terminated_ j).
Qed.

(** One turn: it goes on, or is stuck; the termination check sees the workers
    as they were left before it, and its result stays to the end of the turn. *)
Lemma turn_goes r j : running (master j) -> cp_ok j ->
  (forall n i sizes, reported r = Some (n, i, sizes) -> active_task (master j) n i) ->
  exists j' out, barrier_turn r j = await (negb (stuck r j)) (Ok (j', out)) /\ goes_on (one_if (reported r)) j j' out /\
    exists j1, keeps_check j j1 /\ keeps_check (check_termination r j1).1 j' /\
      length (workers_ (master j1)) = length (workers_ (master j)).
Proof.
  intros Hr Hc Hact. unfold barrier_turn. destruct (rolling_goes r j Hr Hc) as (j1 & o1 & -> & G1 & K1 & A1).
  destruct (check_termination_goes r j1 (go_run _ _ _ _ G1) (go_cp _ _ _ _ G1)) as [G2 A2].
  destruct (check_termination r j1) as [j2 o2] eqn:E2. cbn [fst snd] in *.
  destruct (reap_goes r j2 (go_run _ _ _ _ G2) (go_cp _ _ _ _ G2)) as (j3 & o3 & E3 & G3 & K3).
  { intros n i sizes E. by eapply A2, A1, Hact. }
  exists j3, (o1 ++ o2 ++ o3). split_and!.
  - destruct (stuck r j); [done|]. cbn [await negb]. run. rewrite E2, E3. done.
  - replace (one_if (reported r)) with (0 + (0 + one_if (reported r))) by lia.
    eapply goes_on_trans; [done|]. by eapply goes_on_trans.
  - exists j1. rewrite E2. split_and!; [done|done|exact (go_workers _ _ _ _ G1)].
Qed.

(** ** The loop

    A worker reports only a task that it was told to run. *)
Hypothesis reports_active : forall kn k j n i sizes,
  reported (env kn k j) = Some (n, i, sizes) -> active_task (master j) n i.

Definition remaining (j : job) : nat := Z.to_nat (Z.of_nat (length (run_shards (master j))) - finished_ (master j)).
Lemma remaining_turn kn k j j1 o1 : goes_on (one_if (reported (env kn k j))) j j1 o1 ->
  finished_ (master j) < Z.of_nat (length (run_shards (master j))) ->
  Z.of_nat (remaining j) = one_if (reported (env kn k j)) + Z.of_nat (remaining j1).
Proof.
  intros G Hlt. unfold remaining. rewrite (go_shards _ _ _ _ G), (go_finished _ _ _ _ G).
  destruct (reported (env kn k j)); cbn [one_if]; lia.
Qed.
(** The loop never fails: it ends with all tasks finished, or goes on. *)
Lemma loop_safe kn fuel : forall k j, running (master j) -> cp_ok j ->
  barrier_loop kn fuel k j = OutOfFuel \/
  exists j' out k', barrier_loop kn fuel k j = Ok (j', out, k') /\ goes_on (Z.of_nat (remaining j)) j j' out.
Proof.
  induction fuel as [|fuel IH]; intros k j Hr Hc; cbn [barrier_loop];
    pose proof (finished_bound _ _ _ (proj1 Hr)) as Hle;
    (destruct (Z.ltb_spec (finished_ (master j)) (Z.of_nat (length (run_shards (master j))))) as [Hlt|Hge];
     [|right; assert (remaining j = 0%nat) as -> by (unfold remaining; lia); exists j, [], k; split; [done|]; by apply goes_on_refl]);
    [by left|].
  destruct (turn_goes (env kn k j) j Hr Hc) as (j1 & o1 & -> & G1 & _); [apply reports_active|].
  destruct (stuck _ _); [by left|]. cbn [await negb]. run.
  destruct (IH (S k) j1 (go_run _ _ _ _ G1) (go_cp _ _ _ _ G1)) as [->|(j2 & o2 & k2 & -> & G2)]; [by left|]. right. run.
  eexists _, _, _. split; [done|]. rewrite (remaining_turn _ _ _ _ _ G1 Hlt). by eapply goes_on_trans.
Qed.

(** ** Starting a run *)
Abbreviation flags := (fmap (M := list) checkpointing).
Lemma flags_insert ws n w w' : ws !! n = Some w -> checkpointing w' = checkpointing w -> flags (<[n := w']> ws) = flags ws.
Proof. intros Hn E. rewrite list_fmap_insert, E, list_insert_id; [done|]. by rewrite list_lookup_fmap, Hn. Qed.
Lemma assign_shard_cp w s b w' : assign_shard tables w s b = Ok w' -> checkpointing w' = checkpointing w.
Proof.
  apply for_each_same. clear. intros w [t n] w' E. destruct (s <? n); [|by injection E as <-].
  destruct b; [by injection E as <-|]. destruct (serves _ _); [|done]. by injection E as <-.
Qed.
Lemma assign_worker_cp e ws i ws' : assign_worker tables dead_workers e ws i = Ok ws' -> flags ws' = flags ws.
Proof.
  unfold assign_worker. destruct (worker_for_shard ws i) as [n|].
  - intros (w & Hw%deref_Ok & [= <-])%bind_Ok. by eapply flags_insert.
  - intros (n & _ & E)%bind_Ok. apply bind_Ok in E as (w & Hw%deref_Ok & E). apply bind_Ok in E as ([] & _ & E).
    apply bind_Ok in E as (w' & Ew%assign_shard_cp & [= <-]). by eapply flags_insert.
Qed.
Lemma dispatch_flags table ws : flags (dispatch_work table ws).1 = flags ws.
Proof.
  unfold dispatch_work. induction ws as [|w ws IH]; [done|]. cbn [foldr].
  destruct (foldr _ _ ws) as [ws' reqs]. cbn [fst] in IH. destruct (_ && _); [|cbn; by rewrite IH].
  unfold get_next. destruct (max_element _ _); cbn; by rewrite IH.
Qed.
Lemma run_flags m table ss m' ms : Master.run tables dead_workers m table ss = Ok (m', ms) ->
  flags (workers_ m') = flags (workers_ m).
Proof.
  unfold Master.run. intros ([] & _ & E)%bind_Ok. apply bind_Ok in E as ([ws ms1] & E1 & E).
  apply bind_Ok in E as (ws2 & E2 & E). pose proof (dispatch_flags table ws2) as H3.
  destruct (dispatch_work table ws2) as [ws3 reqs]. injection E as <- _. cbn [workers_ fst] in *. rewrite H3.
  rewrite (for_each_same flags _ _ _ _ (fun ws s ws' => assign_worker_cp _ ws (table, s) ws') E2).
  rewrite <- list_fmap_compose. change (flags ws = flags (workers_ m)).
  destruct (shards_assigned_ m); [by injection E1 as <- _|]. apply bind_Ok in E1 as (ws4 & E4 & [= <- _]).
  revert E4. apply for_each_same. intros s [t n] s'. apply for_each_same. intros ws5 x ws6. apply assign_worker_cp.
Qed.
Lemma flags_all b ws ws' : flags ws' = flags ws -> all_cp b ws -> all_cp b ws'.
Proof.
  revert ws'. induction ws as [|w ws IH]; intros [|w' ws'] E H; try done. injection E as E1 E2.
  apply Forall_cons in H as [H1 H2]. constructor; [congruence|by apply IH].
Qed.

(** ** The end of the barrier *)

(** Between two runs: the previous one is complete and no checkpoint is being
    taken. *)
Record good (j : job) : Prop := {
  gd_ready : ready (master j);
  gd_off : checkpointing_ j = false;
  gd_cp : cp_ok j
}.
(** A run that is over. *)
Record completes (table : Z) (ss : list Z) (j j' : job) (out : list sent) : Prop := {
  co_good : good j';
  co_table : run_table (master j') = table;
  co_shards : run_shards (master j') = ss;
  co_finished : forall n w i x, workers_ (master j') !! n = Some w -> work w !! i = Some x -> status x = FINISHED;
  co_workers : length (workers_ (master j')) = length (workers_ (master j));
  co_term : terminated_ j = true -> terminated_ j' = true;
  co_stops : stops out = if terminated_ j' && negb (terminated_ j) then seqZ 1 (Z.of_nat (length (workers_ (master j)))) else []
}.
(** [waits_or m P]: the master waits, or [m] returns and [P] holds of it. *)
Definition waits_or {A} (m : outcome A) (P : A -> Prop) : Prop := m = OutOfFuel \/ exists a, m = Ok a /\ P a.
Definition answered (a : answers) : Prop := flush_answered a = true /\ apply_answered a = true /\ done_answered a = true.
Lemma barrier_end_spec a j : running (master j) -> cp_ok j -> controlled j ->
  waits_or (barrier_end a j) (fun x => goes_on 0 j x.1 x.2 /\ checkpointing_ x.1 = false) /\
  (answered a -> barrier_end a j <> OutOfFuel).
Proof.
  intros Hr Hc Hty. unfold barrier_end, answered, waits_or.
  destruct (flush_answered a); [|split; [by left|by intros [? _]]].
  destruct (apply_answered a); [|split; [by left|by intros (_ & ? & _)]]. cbn [await].
  assert (goes_on 0 j j [SyncFlush; SyncApply]) as Hsame by (destruct (goes_on_refl j Hr Hc); by split).
  destruct (is_controlled (checkpoint_type j)) eqn:Ety.
  - assert (exists c ms, (if checkpointing_ j then Ok (cp_of j, []) else start_checkpoint (cp_of j)) = Ok (c, ms) /\
      all_cp true (cp_workers c) /\ Forall2 same (workers_ (master j)) (cp_workers c)) as (c & ms & -> & H1 & HF1).
    { destruct (checkpointing_ j) eqn:Hon.
      - eexists _, _. split; [done|]. split; [|apply same_list_refl]. unfold cp_ok in Hc. by rewrite Hon in Hc.
      - destruct (start_spec (cp_of j) Hc) as (c & ms & E & _ & ? & ? & _). by exists c, ms. }
    run. destruct (done_answered a); [|split; [by left|by intros (_ & _ & ?)]]. cbn [await].
    destruct (finish_spec c H1) as (c2 & ms2 & -> & Hoff & H2 & HF2). run. split; [|done]. right. eexists. split; [done|]. cbn [fst snd]. split.
    + destruct (set_cp_goes j c2 (ms ++ ms2) Hr) as [R C L T S F W M O]; [by rewrite Hoff|done|by eapply same_trans|]. by split.
    + exact Hoff.
  - split; [|done]. right. eexists. split; [done|]. split; [done|]. destruct (checkpointing_ j) eqn:Hon; [|done].
    by rewrite (Hty Hon) in Ety.
Qed.

Lemma barrier_safe kn fuel k j : running (master j) -> cp_ok j -> controlled j -> finished_ (master j) = 0 ->
  waits_or (barrier kn fuel k j) (fun x => completes (run_table (master j)) (run_shards (master j)) j x.1.1 x.1.2) /\
  (barrier_loop kn fuel k j <> OutOfFuel -> (forall k j, answered (ends k j)) -> barrier kn fuel k j <> OutOfFuel).
Proof.
  intros Hr Hc Hctl H0. unfold barrier.
  destruct (loop_safe kn fuel k j Hr Hc) as [->|(j1 & o1 & k1 & -> & G1)]; [split; [by left|done]|].
  run. destruct (barrier_end_spec (ends k1 j1) j1 (go_run _ _ _ _ G1) (go_cp _ _ _ _ G1) (go_ctl _ _ _ _ G1 Hctl))
    as [[->|([j2 o2] & -> & G2 & Hoff)] Hlive]; [split; [by left|intros _ Ha; by destruct (Hlive (Ha _ _))]|].
  run. split; [|done]. right. eexists. split; [done|]. cbn [fst snd] in *.
  pose proof (goes_on_trans _ _ _ _ _ _ _ G1 G2) as [[Hinv Hb] C _ T S F W M O].
  assert (finished_ (master j2) = Z.of_nat (length (run_shards (master j2)))) as Hall.
  { rewrite F, S, H0. unfold remaining. rewrite H0. lia. }
  split; try done; [|by apply (all_finished _ _ _ Hinv Hall)].
  split; [|done|done]. split; [apply Hinv|apply Hinv|intros _; apply Hinv|done].
Qed.

(** A run begins with all its tasks dispatched or pending, and as many workers. *)
Lemma run_begins j table ss : good j -> NoDup ss -> Forall (fun s => valid tables (table, s)) ss ->
  exists m ms, Master.run tables dead_workers (master j) table ss = Ok (m, ms) /\ running m /\ run_table m = table /\ run_shards m = ss /\
    finished_ m = 0 /\ flags (workers_ m) = flags (workers_ (master j)) /\ length (workers_ m) = length (workers_ (master j)).
Proof.
  intros [Hrd Hoff Hcp] Hnd Hv.
  destruct (run_establishes tables dead_workers tables_distinct (master j) table ss Hrd Hnd Hv) as (m & ms & E & Hr & Ht & Hs & H0 & _).
  pose proof (run_flags _ _ _ _ _ E) as Hfl. exists m, ms. split_and!; try done.
  by rewrite <- (length_fmap checkpointing (workers_ m)), Hfl, length_fmap.
Qed.
Lemma run_safe kn allowed fuel k j table ss ty : good j -> NoDup ss -> Forall (fun s => valid tables (table, s)) ss ->
  waits_or (run kn allowed fuel k j table ss ty) (fun x => completes table ss j x.1.1 x.1.2) /\
  ((forall j1, running (master j1) -> cp_ok j1 -> length (workers_ (master j1)) = length (workers_ (master j)) ->
      remaining j1 = length ss -> terminated_ j1 = terminated_ j -> barrier_loop kn fuel k j1 <> OutOfFuel) ->
   (forall k j, answered (ends k j)) -> run kn allowed fuel k j table ss ty <> OutOfFuel).
Proof.
  intros Hg Hnd Hv. destruct (run_begins j table ss Hg Hnd Hv) as (m & ms & E & Hr & Ht & Hs & H0 & Hfl & Hl).
  destruct Hg as [Hrd Hoff Hcp]. unfold run. rewrite E. run. set (j1 := mk m _ _ _ _ _).
  assert (cp_ok j1) as Hc1 by (subst j1; unfold cp_ok in *; cbn; by eapply flags_all).
  destruct (barrier_safe kn fuel k j1) as [Hs1 Hl1]; [done|done| |done|].
  { intros E1. subst j1. cbn in E1. congruence. }
  split.
  - destruct Hs1 as [->|([[j2 out] k2] & -> & [G T S F W M O])]; [by left|]. run. right. eexists. split; [done|].
    cbn [fst snd] in *. subst j1. cbn in T, S, W, M, O. split; try done; try congruence.
    rewrite stops_app, stops_works, O, Hl. done.
  - intros Hloop Ha. specialize (Hl1 ltac:(apply Hloop; try done; unfold remaining; cbn; rewrite H0, Hs; lia) Ha).
    destruct (barrier kn fuel k j1) as [[[j2 o2] k2]| | | |]; run; done.
Qed.

(** All shards of a table may be run. *)
Lemma all_shards_valid table : NoDup (seqZ 0 (num_shards tables table)) /\
  Forall (fun s => valid tables (table, s)) (seqZ 0 (num_shards tables table)) /\
  length (seqZ 0 (num_shards tables table)) = Z.to_nat (num_shards tables table).
Proof.
  split_and!; [apply NoDup_seqZ| |apply length_seqZ]. apply Forall_forall. intros s Hs%elem_of_seqZ.
  unfold num_shards in Hs. destruct (list_find _ tables) as [[p x]|] eqn:E; [|lia].
  apply list_find_Some in E as (Hx & Ht & _). exists x.2. cbn [fst snd] in *. split; [|lia].
  apply list_elem_of_lookup_2 in Hx. subst table. by destruct x.
Qed.
Lemma completes_trans table ss ss' j1 j2 j3 o1 o2 :
  completes table ss j1 j2 o1 -> completes table ss' j2 j3 o2 -> completes table ss' j1 j3 (o1 ++ o2).
Proof.
  intros [G1 T1 S1 F1 W1 M1 O1] [G2 T2 S2 F2 W2 M2 O2]. split; try done; try congruence; [by intros ?%M1%M2|].
  rewrite stops_app, O1, O2, W1. destruct (terminated_ j1), (terminated_ j2), (terminated_ j3); try done; cbn;
    rewrite ?app_nil_r; try done; [by specialize (M1 eq_refl)|by specialize (M2 eq_refl)].
Qed.

Lemma run_all_safe kn allowed fuel k j table : good j ->
  waits_or (run_all kn allowed fuel k j table) (fun x => completes table (seqZ 0 (num_shards tables table)) j x.1.1 x.1.2) /\
  ((forall j1, running (master j1) -> cp_ok j1 -> length (workers_ (master j1)) = length (workers_ (master j)) ->
      remaining j1 = Z.to_nat (num_shards tables table) -> terminated_ j1 = terminated_ j -> barrier_loop kn fuel k j1 <> OutOfFuel) ->
   (forall k j, answered (ends k j)) -> run_all kn allowed fuel k j table <> OutOfFuel).
Proof.
  intros Hg. destruct (all_shards_valid table) as (Hnd & Hv & Hl). rewrite <- Hl. by apply run_safe.
Qed.

(** The runs of a job after the first: each is skipped, or is a run. *)
Lemma next_safe kn (b : bool) allowed fuel k j table ss j0 o0 : completes table ss j j0 o0 ->
  waits_or (if b then run_all kn allowed fuel k j0 table else Ok (j0, [], k)) (fun x =>
    completes table (if b then seqZ 0 (num_shards tables table) else ss) j x.1.1 (o0 ++ x.1.2)).
Proof.
  intros C. destruct b; [|right; eexists; split; [done|]; cbn; by rewrite app_nil_r].
  destruct (run_all_safe kn allowed fuel k j0 table (co_good _ _ _ _ _ C)) as [[E|(x & E & C')] _]; [by left|].
  right. exists x. split; [exact E|]. by eapply completes_trans.
Qed.
Lemma job_safe allowed fuel k j table iterkernel termchecker : good j ->
  waits_or (run_maiter allowed fuel k j table iterkernel termchecker) (fun x =>
    completes table (seqZ 0 (num_shards tables table)) j x.1.1 x.1.2).
Proof.
  intros Hg. unfold run_maiter.
  destruct (run_all_safe Load allowed fuel k j table Hg) as [[->|([[j1 o1] k1] & -> & C1)] _]; [by left|].
  run. cbn [fst snd] in C1.
  destruct (next_safe Iterate iterkernel allowed fuel k1 j table _ j1 o1 C1) as [->|([[j2 o2] k2] & -> & C2)]; [by left|].
  run. cbn [fst snd] in C2.
  destruct (next_safe Dump termchecker allowed fuel k2 j table _ j2 _ C2) as [->|([[j3 o3] k3] & -> & C3)]; [by left|].
  run. cbn [fst snd] in C3. right. eexists. split; [done|]. cbn [fst snd]. rewrite app_assoc.
  by destruct iterkernel, termchecker.
Qed.

(** ** When a job ends

    What the environment has to do for a job of [workers] workers to end: the
    calls that block are answered; while a task runs, a report comes at least
    in every [period]-th turn, when a loading or dumping kernel runs or when the
    workers have been told to stop; before that, at least in every
    [period]-th turn of the iteration a termination check is due and finds a
    report of every worker; from turn [quiet] on the worker [n] reports the
    progress [progress n] and no other (the values have converged); and the total
    of these differs from itself by no more than the threshold (it is a number,
    and the threshold is not negative). *)
Record fair (workers period quiet : nat) (progress : nat -> spec_float) : Prop := {
  fr_period : (0 < period)%nat;
  fr_cp : forall kn k j, cp_answered (env kn k j) = true;
  fr_ends : forall k j, answered (ends k j);
  fr_reports : forall kn k j, (S (k `mod` period) = period)%nat -> (kn = Iterate -> terminated_ j = true) ->
    (exists n i, active_task (master j) n i) -> reported (env kn k j) <> None;
  fr_checks : forall k j, (S (k `mod` period) = period)%nat -> terminated_ j = false ->
    tc_due (env Iterate k j) = true /\ forall n, (n < workers)%nat -> reports (env Iterate k j) n <> [];
  fr_settled : forall k j n x, (quiet <= k)%nat -> x ∈ reports (env Iterate k j) n -> x.2 = progress n;
  fr_total : let total := fold_left f64_add (progress <$> seq 0 workers) (S754_zero false) in
    SFleb (SFabs (f64_sub total total)) threshold = true
}.

Section Fair.
Variables (workers period quiet : nat) (progress : nat -> spec_float).
Hypothesis Hfair : fair workers period quiet progress.

Lemma next_turn k : (S (k `mod` period) <> period)%nat -> (S k `mod` period = S (k `mod` period))%nat.
Proof.
  pose proof (fr_period _ _ _ _ Hfair). intros Hne. pose proof (Nat.mod_upper_bound k period ltac:(lia)) as Hlt.
  rewrite <- (Nat.add_1_r k), <- Nat.Div0.add_mod_idemp_l, Nat.add_1_r. apply Nat.mod_small. lia.
Qed.
(** The turns up to and with the next [period]-th one. *)
Definition due_in (k : nat) : nat := period - k `mod` period.
Lemma due_in_range k : (0 < due_in k <= period)%nat.
Proof. pose proof (fr_period _ _ _ _ Hfair). pose proof (Nat.mod_upper_bound k period ltac:(lia)). unfold due_in. lia. Qed.
Lemma due_in_next k : (S (k `mod` period) <> period)%nat -> due_in (S k) = (due_in k - 1)%nat.
Proof. intros Hk. unfold due_in. rewrite next_turn by done. lia. Qed.
Lemma not_stuck kn k j : stuck (env kn k j) j = false.
Proof. unfold stuck. rewrite (fr_cp _ _ _ _ Hfair). by destruct (checkpoint_type j); rewrite ?andb_false_r. Qed.

(** The turns that may pass before [n] more reports. *)
Definition turns (k n : nat) : nat := match n with O => 0 | S n => period * n + due_in k end.
Lemma turns_bound k n : (turns k n <= period * n)%nat.
Proof. pose proof (due_in_range k). destruct n as [|n]; cbn [turns]; [lia|]. assert (period * S n = period * n + period)%nat as -> by lia. lia. Qed.
Lemma turns_step k n (b : bool) : (S (k `mod` period) = period -> b = true)%nat -> (0 < n)%nat ->
  (turns (S k) (n - if b then 1 else 0) < turns k n)%nat.
Proof.
  intros Hb Hn. destruct n as [|n]; [lia|]. pose proof (due_in_range k). destruct b.
  - replace (S n - 1)%nat with n by lia. cbn [turns]. pose proof (turns_bound (S k) n). lia.
  - rewrite Nat.sub_0_r. cbn [turns]. rewrite due_in_next; [lia|]. intros E. by specialize (Hb E).
Qed.
(** With the reports coming, the loop ends. *)
Lemma loop_reports kn fuel : forall k j, running (master j) -> cp_ok j -> (kn = Iterate -> terminated_ j = true) ->
  (turns k (remaining j) <= fuel)%nat -> barrier_loop kn fuel k j <> OutOfFuel.
Proof.
  induction fuel as [|fuel IH]; intros k j Hr Hc Htold Hf; cbn [barrier_loop];
    (destruct (Z.ltb_spec (finished_ (master j)) (Z.of_nat (length (run_shards (master j))))) as [Hlt|Hge]; [|done]);
    assert (0 < remaining j)%nat as Hpos by (unfold remaining; lia).
  - by destruct (Nat.nlt_0_r _ (Nat.lt_le_trans _ _ _ (turns_step k (remaining j) true ltac:(done) Hpos) Hf)).
  - destruct (turn_goes (env kn k j) j Hr Hc) as (j1 & o1 & -> & G1 & _); [apply reports_active|].
    rewrite not_stuck. cbn [await negb]. run.
    pose proof (remaining_turn _ _ _ _ _ G1 Hlt) as Er.
    set (b := match reported (env kn k j) with Some _ => true | None => false end).
    assert (barrier_loop kn fuel (S k) j1 <> OutOfFuel) as Hend.
    { apply IH; [exact (go_run _ _ _ _ G1)|exact (go_cp _ _ _ _ G1)|by intros ->; apply (go_term _ _ _ _ G1), Htold|].
      assert (remaining j1 = remaining j - if b then 1 else 0)%nat as ->
        by (subst b; destruct (reported (env kn k j)); cbn [one_if] in Er; lia).
      enough (turns (S k) (remaining j - if b then 1 else 0) < turns k (remaining j))%nat by lia.
      apply turns_step; [|done]. intros Ek. subst b. destruct (reported (env kn k j)) eqn:E; [done|].
      exfalso. apply (fr_reports _ _ _ _ Hfair kn k j Ek Htold); [|done].
      destruct (active_somewhere _ _ _ Hr Hlt) as (n & w & i & x & Hn & Hx & Hst). exists n, i, w, x. done. }
    destruct (barrier_loop kn fuel (S k) j1) as [[[j2 o2] k2]| | | |]; run; done.
Qed.

(** The checks have seen the converged values: every worker that has reported
    since the last verdict reported its own, and the checker remembers their
    total. *)
Abbreviation total := (fold_left f64_add (progress <$> seq 0 workers) (S754_zero false)).
Definition tuned (j : job) : Prop :=
  (forall n c, voices (workers_ (master j)) !! n = Some (true, c) -> c = progress n) /\ diff_last (checker j) = total.
Lemma tuned_keeps j j' : keeps_check j j' -> tuned j -> tuned j'.
Proof. intros [Hv Hc _] [H1 H2]. split; [by rewrite Hv|by rewrite Hc]. Qed.

(** Reading reports of the converged values. *)
Lemma read_settled w l p : (forall x : Z * spec_float, x ∈ l -> x.2 = p) -> l <> [] \/ (termchecking w = true -> current w = p) ->
  termchecking (read_reports w l) = true -> current (read_reports w l) = p.
Proof.
  intros Hl Hw Ht. destruct (read_reports_spec w l) as [-> Hh]. apply Hh in Ht. unfold latest.
  destruct (last l) as [x|] eqn:E; [apply Hl; by eapply last_Some_elem_of|]. apply last_None in E. subst l.
  destruct Ht as [Ht|Ht]; [|done]. destruct Hw as [Hw|Hw]; [done|by apply Hw].
Qed.
Lemma currents_total (rs : list WorkerState) : length rs = workers ->
  Forall (fun w => termchecking w = true) rs -> (forall n w, rs !! n = Some w -> termchecking w = true -> current w = progress n) ->
  current <$> rs = progress <$> seq 0 workers.
Proof.
  intros Hlen Hall Hcur. apply list_eq. intros n. rewrite !list_lookup_fmap.
  destruct (rs !! n) as [w|] eqn:Hn; cbn [fmap option_fmap option_map].
  - pose proof (lookup_lt_Some _ _ _ Hn). rewrite lookup_seq_lt by lia. cbn. f_equal. apply (Hcur n w Hn).
    rewrite Forall_lookup in Hall. by eapply Hall.
  - apply lookup_ge_None in Hn. rewrite lookup_seq_ge by lia. done.
Qed.
(** A check of converged values stops the job, or leaves it tuned; a check of
    all workers stops a tuned job. *)
Lemma check_settled r j : length (workers_ (master j)) = workers -> terminated_ j = false ->
  (forall n x, x ∈ reports r n -> x.2 = progress n) ->
  let all := tc_due r = true /\ forall n, (n < workers)%nat -> reports r n <> [] in
  tuned j \/ all ->
  let j' := (check_termination r j).1 in terminated_ j' = true \/ (tuned j' /\ (tuned j -> ~ all)).
Proof.
  intros Hlen Ht Hset all Hcase. unfold check_termination. rewrite Ht. cbn [negb andb].
  destruct (tc_due r) eqn:Hdue; [|right; split; [by destruct Hcase as [|[? _]]|by intros _ [? _]]].
  unfold termcheck. set (ws := workers_ (master j)) in *. set (rs := zip_with read_reports ws (reports r <$> seq 0 (length ws))).
  assert (forall n w, rs !! n = Some w -> termchecking w = true -> current w = progress n) as Hcur.
  { intros n w Hn. subst rs. apply lookup_zip_with_Some in Hn as (w0 & l & -> & Hw0 & Hl).
    apply list_lookup_fmap_Some in Hl as (n' & -> & Hn'). apply lookup_seq in Hn' as [-> Hlt]. cbn [Nat.add].
    apply read_settled; [apply Hset|]. destruct Hcase as [[Hv _]|[_ Hall]]; [right|left; apply Hall; lia].
    intros Htc. apply Hv. unfold voices. fold ws. by rewrite list_lookup_fmap, Hw0, <- Htc. }
  assert (length rs = workers) as Hrs by (subst rs; rewrite length_zip_with, length_fmap, length_seq; lia).
  case_bool_decide as Hsome.
  - apply reported_all in Hsome. right. cbn [fst]. assert (~ all) as Hnot.
    { intros [_ Hall]. apply Hsome, Forall_forall. intros w (n & Hn)%list_elem_of_lookup. subst rs.
      apply lookup_zip_with_Some in Hn as (w0 & l & -> & Hw0 & Hl). apply list_lookup_fmap_Some in Hl as (n' & -> & Hn').
      apply lookup_seq in Hn' as [-> Hlt]. apply read_reports_spec. right. apply Hall. cbn. lia. }
    destruct Hcase as [[_ Hd]|Hall]; [|done]. split; [|done]. split; [|exact Hd].
    intros n c Hn. cbn [master set_workers workers_] in Hn. unfold voices in Hn. apply list_lookup_fmap_Some in Hn as (w & [= Ht1 ->] & Hw).
    by apply (Hcur n w).
  - assert (Forall (fun w => termchecking w = true) rs) as Hall.
    { destruct (decide (Forall (fun w => termchecking w = true) rs)) as [|Hn]; [done|]. by apply reported_all in Hn. }
    rewrite (currents_total rs Hrs Hall Hcur). unfold Diff_terminate.
    destruct (SFleb (SFabs (f64_sub total (diff_last (checker j)))) threshold) eqn:Eth; [by left|]. right. cbn [fst]. split.
    + split; [|done]. intros n c Hn. cbn [master set_workers workers_] in Hn. unfold voices in Hn. rewrite <- list_fmap_compose in Hn.
      apply list_lookup_fmap_Some in Hn as (w & E & _). done.
    + intros [_ Hd]. pose proof (fr_total _ _ _ _ Hfair) as Htot. cbv zeta in Htot. rewrite Hd in Eth. congruence.
Qed.

(** A turn of the iteration, from turn [quiet] on. *)
Lemma turn_settled k j : running (master j) -> cp_ok j -> length (workers_ (master j)) = workers -> terminated_ j = false ->
  (quiet <= k)%nat -> tuned j \/ (S (k `mod` period) = period)%nat ->
  exists j' out, barrier_turn (env Iterate k j) j = Ok (j', out) /\ goes_on (one_if (reported (env Iterate k j))) j j' out /\
    (terminated_ j' = true \/ (tuned j' /\ (tuned j -> (S (k `mod` period) <> period)%nat))).
Proof.
  intros Hr Hc Hlen Ht Hq Hcase. destruct (turn_goes (env Iterate k j) j Hr Hc) as (j' & out & E & G & j1 & K1 & K2 & Hl1);
    [apply reports_active|]. rewrite not_stuck in E. exists j', out. split_and!; [done..|].
  destruct (check_settled (env Iterate k j) j1) as [Hstop|[Htu Hno]].
  - congruence.
  - by rewrite (kc_term _ _ K1).
  - intros n x. by apply (fr_settled _ _ _ _ Hfair).
  - destruct Hcase as [Htu|Hp]; [left; by eapply tuned_keeps|right]. by apply (fr_checks _ _ _ _ Hfair).
  - left. by rewrite (kc_term _ _ K2).
  - right. split; [by eapply tuned_keeps|]. intros Htj Hp. apply Hno; [by eapply tuned_keeps|]. by apply (fr_checks _ _ _ _ Hfair).
Qed.

(** The iteration: tuned, it is stopped by the next check of all workers ... *)
Lemma loop_tuned fuel : forall k j, running (master j) -> cp_ok j -> length (workers_ (master j)) = workers ->
  (quiet <= k)%nat -> terminated_ j = true \/ tuned j -> (due_in k + period * remaining j <= fuel)%nat ->
  barrier_loop Iterate fuel k j <> OutOfFuel.
Proof.
  induction fuel as [|fuel IH]; intros k j Hr Hc Hlen Hq Hcase Hf; [pose proof (due_in_range k); lia|].
  destruct (terminated_ j) eqn:Ht.
  { apply loop_reports; [done..|]. pose proof (turns_bound k (remaining j)). lia. }
  destruct Hcase as [|Htu]; [done|]. cbn [barrier_loop].
  destruct (Z.ltb_spec (finished_ (master j)) (Z.of_nat (length (run_shards (master j))))) as [Hlt|Hge]; [|done].
  destruct (turn_settled k j Hr Hc Hlen Ht Hq (or_introl Htu)) as (j1 & o1 & -> & G1 & Hnext). run.
  pose proof (remaining_turn _ _ _ _ _ G1 Hlt) as Er. pose proof (due_in_range k).
  assert (remaining j1 <= remaining j)%nat as Hrem by (destruct (reported (env Iterate k j)); cbn [one_if] in Er; lia).
  assert (period * remaining j1 <= period * remaining j)%nat as Hmul by (by apply Nat.mul_le_mono_l).
  assert (barrier_loop Iterate fuel (S k) j1 <> OutOfFuel) as Hend.
  { destruct Hnext as [Hstop|[Htu1 Hnot]].
    - apply loop_reports; [exact (go_run _ _ _ _ G1)|exact (go_cp _ _ _ _ G1)|done|].
      pose proof (turns_bound (S k) (remaining j1)). lia.
    - apply IH; [exact (go_run _ _ _ _ G1)|exact (go_cp _ _ _ _ G1)|by rewrite (go_workers _ _ _ _ G1)|lia|by right|].
      rewrite due_in_next by (by apply Hnot). lia. }
  destruct (barrier_loop Iterate fuel (S k) j1) as [[[j2 o2] k2]| | | |]; run; done.
Qed.
(** ... and the first check of all workers from turn [quiet] on tunes it;
    [lead] bounds the turns up to it. *)
Definition lead (k : nat) : nat := if decide (quiet <= k)%nat then due_in k else quiet - k + period.
Lemma lead_bound k : (0 < lead k <= quiet + period)%nat.
Proof. pose proof (due_in_range k). unfold lead. case_decide; lia. Qed.
Lemma lead_next k : ~ (quiet <= k /\ S (k `mod` period) = period)%nat -> (lead (S k) < lead k)%nat.
Proof.
  intros Hk. pose proof (due_in_range k). pose proof (due_in_range (S k)). unfold lead.
  destruct (decide (quiet <= k)%nat); [|by case_decide; lia]. rewrite decide_True by lia.
  rewrite due_in_next; [lia|]. intros E. by destruct Hk.
Qed.
Lemma loop_iterates fuel : forall k j, running (master j) -> cp_ok j -> length (workers_ (master j)) = workers ->
  (lead k + period + period * remaining j <= fuel)%nat ->
  barrier_loop Iterate fuel k j <> OutOfFuel.
Proof.
  induction fuel as [|fuel IH]; intros k j Hr Hc Hlen Hf; [pose proof (lead_bound k); lia|]. pose proof (lead_bound k) as Hlead.
  destruct (terminated_ j) eqn:Ht.
  { apply loop_reports; [done..|]. pose proof (turns_bound k (remaining j)). lia. }
  cbn [barrier_loop].
  destruct (Z.ltb_spec (finished_ (master j)) (Z.of_nat (length (run_shards (master j))))) as [Hlt|Hge]; [|done].
  assert (exists j1 o1, barrier_turn (env Iterate k j) j = Ok (j1, o1) /\ goes_on (one_if (reported (env Iterate k j))) j j1 o1 /\
    ((quiet <= k)%nat -> (S (k `mod` period) = period)%nat -> terminated_ j1 = true \/ tuned j1)) as (j1 & o1 & -> & G1 & Hnext).
  { destruct (decide (quiet <= k /\ S (k `mod` period) = period)%nat) as [[Hq Hp]|Hn].
    - destruct (turn_settled k j Hr Hc Hlen Ht Hq (or_intror Hp)) as (j1 & o1 & E & G & Hc1). exists j1, o1.
      split_and!; [done..|]. intros _ _. destruct Hc1 as [|[? _]]; auto.
    - destruct (turn_goes (env Iterate k j) j Hr Hc) as (j1 & o1 & E & G & _); [apply reports_active|].
      rewrite not_stuck in E. exists j1, o1. split_and!; [done..|]. intros ? ?. by destruct Hn. }
  run. pose proof (remaining_turn _ _ _ _ _ G1 Hlt) as Er.
  assert (remaining j1 <= remaining j)%nat as Hrem by (destruct (reported (env Iterate k j)); cbn [one_if] in Er; lia).
  assert (period * remaining j1 <= period * remaining j)%nat as Hmul by (by apply Nat.mul_le_mono_l).
  assert (length (workers_ (master j1)) = workers) as Hlen1 by (by rewrite (go_workers _ _ _ _ G1)).
  assert (barrier_loop Iterate fuel (S k) j1 <> OutOfFuel) as Hend.
  { destruct (decide (quiet <= k /\ S (k `mod` period) = period)%nat) as [[Hq Hp]|Hn].
    - apply loop_tuned; [exact (go_run _ _ _ _ G1)|exact (go_cp _ _ _ _ G1)|done|lia|by apply Hnext|].
      pose proof (due_in_range (S k)). lia.
    - pose proof (lead_next k Hn). apply IH; [exact (go_run _ _ _ _ G1)|exact (go_cp _ _ _ _ G1)|done|lia]. }
  destruct (barrier_loop Iterate fuel (S k) j1) as [[[j2 o2] k2]| | | |]; run; done.
Qed.
(** Every kernel's loop ends. *)
Lemma loop_live kn fuel k j : running (master j) -> cp_ok j -> length (workers_ (master j)) = workers ->
  (quiet + 2 * period + period * remaining j <= fuel)%nat -> barrier_loop kn fuel k j <> OutOfFuel.
Proof.
  intros Hr Hc Hl Hf. pose proof (lead_bound k). destruct kn; [|apply loop_iterates; [done..|lia]|];
    (apply loop_reports; [done..|pose proof (turns_bound k (remaining j)); lia]).
Qed.
(** So every run ends. *)
Lemma run_all_live kn allowed fuel k j table : good j -> length (workers_ (master j)) = workers ->
  (quiet + 2 * period + period * Z.to_nat (num_shards tables table) <= fuel)%nat ->
  exists x, run_all kn allowed fuel k j table = Ok x /\ completes table (seqZ 0 (num_shards tables table)) j x.1.1 x.1.2.
Proof.
  intros Hg Hl Hf. destruct (run_all_safe kn allowed fuel k j table Hg) as [[E|Hx] Hlive]; [|done]. exfalso.
  apply Hlive; [|apply (fr_ends _ _ _ _ Hfair)|done]. intros j1 Hr Hc Hl1 Hrem _. apply loop_live; [done..|congruence|by rewrite Hrem].
Qed.
Lemma job_live allowed fuel k j table iterkernel termchecker : good j -> length (workers_ (master j)) = workers ->
  (quiet + 2 * period + period * Z.to_nat (num_shards tables table) <= fuel)%nat ->
  run_maiter allowed fuel k j table iterkernel termchecker <> OutOfFuel.
Proof.
  intros Hg Hl Hf. unfold run_maiter.
  destruct (run_all_live Load allowed fuel k j table Hg Hl Hf) as ([[j1 o1] k1] & -> & C1). run. cbn [fst snd] in C1.
  assert (exists j2 o2 k2, (if iterkernel then run_all Iterate allowed fuel k1 j1 table else Ok (j1, [], k1)) = Ok (j2, o2, k2) /\
    good j2 /\ length (workers_ (master j2)) = workers) as (j2 & o2 & k2 & -> & Hg2 & Hl2).
  { pose proof (co_good _ _ _ _ _ C1) as Hg1. pose proof (co_workers _ _ _ _ _ C1) as Hl1. destruct iterkernel.
    - destruct (run_all_live Iterate allowed fuel k1 j1 table Hg1 ltac:(congruence) Hf) as ([[j2 o2] k2] & E & C2).
      exists j2, o2, k2. split_and!; [done|exact (co_good _ _ _ _ _ C2)|]. pose proof (co_workers _ _ _ _ _ C2). cbn in *. congruence.
    - exists j1, [], k1. split_and!; [done|done|congruence]. }
  run. destruct termchecker; [|done].
  by destruct (run_all_live Dump allowed fuel k2 j2 table Hg2 Hl2 Hf) as ([[j3 o3] k3] & -> & _).
Qed.
End Fair.

(** C20. A job goes well, and ends when its workers let it.  [run_maiter] is run
    from a state in which the previous run is complete, on workers that report
    only tasks they were told to run ([reports_active]).
    Whatever is stolen, checkpointed or reported, and however many turns the
    master is given, it never fails: it still waits or loops
    ([OutOfFuel]), or it has returned with every task of the last run finished, in a
    state ready for another job, and has told each worker to stop at most once,
    and not at all when [terminated_] was set by an earlier job.
    It does return, within the turns stated for each kernel, when [terminated_]
    was not set before and the environment is [fair]: the calls that block are
    answered; in every period a running task of a loading or dumping kernel, or
    of an iteration that was told to stop, is reported; in every period of an
    iteration that was not told to stop a check is due and all workers
    have reported their progress; and these values are constant from some turn
    on.  The reports of an iterating kernel that has not been told to stop are not
    assumed. *)
Theorem job_completes allowed fuel k j table iterkernel termchecker : good j ->
  waits_or (run_maiter allowed fuel k j table iterkernel termchecker) (fun x =>
    completes table (seqZ 0 (num_shards tables table)) j x.1.1 x.1.2) /\
  forall period quiet progress, fair (length (workers_ (master j))) period quiet progress -> terminated_ j = false ->
    (quiet + 2 * period + period * Z.to_nat (num_shards tables table) <= fuel)%nat ->
    exists x, run_maiter allowed fuel k j table iterkernel termchecker = Ok x /\
      completes table (seqZ 0 (num_shards tables table)) j x.1.1 x.1.2.
Proof.
  intros Hg. pose proof (job_safe allowed fuel k j table iterkernel termchecker Hg) as Hs. split; [exact Hs|].
  intros period quiet progress Hfair _ Hf. destruct Hs as [E|Hx]; [|exact Hx].
  by destruct (job_live _ _ _ _ Hfair allowed fuel k j table iterkernel termchecker Hg eq_refl Hf).
Qed.

(** The state after the constructor, when not all workers are dead. *)
Lemma new_good size n c j i : Master_new size n c = Ok j -> 0 <= i < n -> i ∉ dead_workers -> good j.
Proof.
  intros E Hi Ha. clear -E Hi Ha. unfold Master_new in E. apply bind_Ok in E as ([] & _ & [= <-]).
  assert (forall k w, (WorkerState_new <$> seqZ 0 n) !! k = Some w -> exists z, w = WorkerState_new z) as Hnew.
  { intros k w Hw. apply list_lookup_fmap_Some in Hw as (z & -> & _). by exists z. }
  split; [|done|].
  - split; [split| | |done]; cbn [master workers_ shards_assigned_].
    + intros k w t x Hk Hx. destruct (Hnew _ _ Hk) as (z & ->). cbn in Hx. by rewrite lookup_empty in Hx.
    + intros k w t x Hk Hx. destruct (Hnew _ _ Hk) as (z & ->). cbn in Hx. by rewrite lookup_empty in Hx.
    + intros a b wa wb t Hwa _ Ht. destruct (Hnew _ _ Hwa) as (z & ->). cbn in Ht. set_solver.
    + intros k w t Hk Ht. destruct (Hnew _ _ Hk) as (z & ->). cbn in Ht. set_solver.
    + intros k w t Hk Ht. destruct (Hnew _ _ Hk) as (z & ->). cbn in Ht. set_solver.
    + exists (Z.to_nat i), (WorkerState_new i). split.
      * rewrite list_lookup_fmap, lookup_seqZ_lt by lia. cbn. do 2 f_equal. lia.
      * unfold alive. by apply bool_decide_eq_true_2.
    + done.
  - apply Forall_forall. intros w (z & -> & _)%list_elem_of_fmap. done.
Qed.
End Job.

(** ** A job on two workers *)
Section Sample.
(** The first task that runs is reported in every turn, except by an iteration
    that is not told to stop; its checks find a report of every worker. *)
Definition running_tasks (w : WorkerState) : list (Taskid * TaskState) :=
  filter (fun p => status p.2 = ACTIVE) (map_to_list (work w)).
Fixpoint first_active (n : nat) (ws : list WorkerState) : option (nat * Taskid) :=
  match ws with
  | [] => None
  | w :: ws => match running_tasks w with p :: _ => Some (n, p.1) | [] => first_active (S n) ws end
  end.
Definition goes (kn : kernel) (j : job) : bool := match kn with Iterate => negb (terminated_ j) | _ => false end.
Definition prompt (kn : kernel) (k : nat) (j : job) : turn :=
  {| cp_due := false; cp_answered := true; tc_due := goes kn j; reports _ := [(1, S754_zero false)];
     reported := if goes kn j then None else (fun a => (a, [])) <$> first_active 0 (workers_ (master j)); periodic := None |}.
Definition at_once (k : nat) (j : job) : answers := {| flush_answered := true; apply_answered := true; done_answered := true |}.
Lemma elem_of_running_tasks w i x : (i, x) ∈ running_tasks w <-> work w !! i = Some x /\ status x = ACTIVE.
Proof. unfold running_tasks. rewrite list_elem_of_filter, elem_of_map_to_list. naive_solver. Qed.
Lemma first_active_spec ws : forall n k i, first_active n ws = Some (k, i) ->
  (n <= k)%nat /\ exists w x, ws !! (k - n)%nat = Some w /\ work w !! i = Some x /\ status x = ACTIVE.
Proof.
  induction ws as [|w ws IH]; intros n k i E; [done|]. cbn [first_active] in E.
  destruct (running_tasks w) as [|[j x] l] eqn:Ew.
  - destruct (IH (S n) k i E) as (Hle & w' & x & Hn & ?). split; [lia|]. exists w', x.
    by replace (k - n)%nat with (S (k - S n))%nat by lia.
  - injection E as <- <-. rewrite Nat.sub_diag. split; [done|]. exists w, x. split; [done|].
    apply elem_of_running_tasks. rewrite Ew. by left.
Qed.
Lemma first_active_some ws w i x : forall k n, ws !! k = Some w -> work w !! i = Some x -> status x = ACTIVE ->
  first_active n ws <> None.
Proof.
  induction ws as [|w0 ws IH]; intros k n Hk Hx Hst; [done|]. cbn [first_active].
  destruct (running_tasks w0) as [|y l] eqn:Ew; [|done]. destruct k as [|k]; [|by eapply IH].
  injection Hk as ->. assert ((i, x) ∈ running_tasks w) as Hin by (by apply elem_of_running_tasks).
  rewrite Ew in Hin. by apply not_elem_of_nil in Hin.
Qed.
Lemma prompt_active kn k j n i sizes : reported (prompt kn k j) = Some (n, i, sizes) -> active_task (master j) n i.
Proof.
  cbn [reported prompt]. destruct (goes kn j); [done|].
  destruct (first_active 0 (workers_ (master j))) as [[n0 i0]|] eqn:E; [|done].
  intros [= -> -> <-]. apply first_active_spec in E as [_ (w & x & Hn & Hx & Hst)]. rewrite Nat.sub_0_r in Hn. by exists w, x.
Qed.
Lemma prompt_fair : fair (S754_zero false) prompt at_once 2 1 0 (fun _ => S754_zero false).
Proof.
  split; [lia|done|done| | | |by vm_compute].
  - intros kn k j _ Htold (n & i & w & x & Hn & Hx & Hst). cbn [reported prompt].
    assert (goes kn j = false) as -> by (unfold goes; destruct kn; [done|by rewrite Htold|done]).
    destruct (first_active 0 _) eqn:E; [done|]. intros _. by apply (first_active_some _ w i x n 0 Hn Hx Hst).
  - intros k j _ Ht. cbn [tc_due reports prompt goes]. by rewrite Ht.
  - intros k j n x _ Hx. cbn [reports prompt] in Hx. apply list_elem_of_singleton in Hx. by subst x.
Qed.

#[local] Abbreviation tabs := [(0, 3)].
Definition two_workers : job :=
  mk (Master.mk (WorkerState_new <$> seqZ 0 2) 0 [] 0 0 false 0 ∅) false Diff_new 0 false CP_NONE.
Lemma two_workers_good : good tabs ∅ two_workers.
Proof. by apply (new_good tabs ∅ 3 2 Diff_new two_workers 0); [|lia|set_solver]. Qed.
(** With one turn for each barrier the master still loops; with five the three
    kernels run and the workers are told to stop once. *)
Lemma job_completes_witness :
  run_maiter tabs ∅ true (S754_zero false) prompt at_once false 1 0 two_workers 0 true true = OutOfFuel /\
  exists j' out k',
  run_maiter tabs ∅ true (S754_zero false) prompt at_once false 5 0 two_workers 0 true true = Ok (j', out, k') /\
  run_shards (master j') = [0; 1; 2] /\ stops out = (if terminated_ j' then [1; 2] else []).
Proof.
  split; [by vm_compute|].
  destruct (job_completes tabs ∅ true (S754_zero false) prompt at_once ltac:(by repeat constructor; set_solver) prompt_active
    false 5 0 two_workers 0 true true two_workers_good) as [_ Hends].
  destruct (Hends 1%nat 0%nat (fun _ => S754_zero false)) as ([[j' out] k'] & E & C); [exact prompt_fair|done|by vm_compute|].
  exists j', out, k'. split; [exact E|]. split; [exact (co_shards _ _ _ _ _ _ _ C)|].
  pose proof (co_stops _ _ _ _ _ _ _ C) as H. cbn [fst snd] in H. rewrite H. by destruct (terminated_ j').
Defined.
(** They are stopped by the second check of the iteration. *)
Example sample_stops : (fun r => (stops r.1.2, r.2)) <$>
  match run_maiter tabs ∅ true (S754_zero false) prompt at_once false 5 0 two_workers 0 true true with Ok r => Some r | _ => None end
  = Some ([1; 2], 11%nat).
Proof. vm_compute. reflexivity. Qed.
End Sample.
End Job.
