(* ===== verification/Cache.v ===== *)
(** * Caches of the storage layer: store/kvmap.h, store/cache.h, store/fifocache.h

    [KVMap] wraps a [std::map]; [Cache] is the priority cache that [SStore]
    uses, and [FIFOCache] an alternative to it.  [CACHE_SIZE] (store/const.h)
    is a parameter, so that the theorems hold for every size and small caches
    can be evaluated; the program's value is [CACHE_SIZE_default]. *)
From Stdlib Require Import Sorted.
From S2P Require Import Prelude Float StringPiece.

Definition CACHE_SIZE_default : nat := Z.to_nat 100000.

(** ** [KVMap] *)
Module KVMap.
Section KVMap.
Context {K V : Type} `{Countable K}.
Implicit Types (m : gmap K V) (key : K).

Definition containsKey m key : bool := bool_decide (is_Some (m !! key)).
Definition remove m key : gmap K V :=
  if containsKey m key then delete key m else m.
Definition add m key (val : V) : gmap K V :=
  let m := if containsKey m key then delete key m else m in
  (* std::map::insert does nothing when the key is there *)
  if containsKey m key then m else <[key := val]> m.
(** [operator[]]: [find] without a test; [end()->second] is undefined. *)
Definition subscript m key : outcome V := deref (m !! key).
Definition size m : nat := base.size m.
Definition clear m : gmap K V := ∅.

Lemma containsKey_true m key : containsKey m key = true <-> is_Some (m !! key).
Proof. apply bool_decide_eq_true. Qed.

Lemma kv_remove_spec m key : remove m key = delete key m.
Proof.
  unfold remove, containsKey. case_bool_decide as Hk; [done|].
  symmetry. apply delete_id. by apply eq_None_not_Some.
Qed.

Lemma add_spec m key val : add m key val = <[key := val]> m.
Proof.
  unfold add. fold (remove m key). rewrite kv_remove_spec. unfold containsKey.
  rewrite bool_decide_eq_false_2 by (rewrite lookup_delete_eq; by intros []).
  by rewrite insert_delete_eq.
Qed.
End KVMap.
End KVMap.

(** ** [std::multimap<float, K>]

    A list in the order of the keys; an element is inserted after those with
    an equivalent key. *)
Module FloatMultimap.
Section FloatMultimap.
Context {K : Type} `{EqDecision K}.
Implicit Types (l : list (spec_float * K)).

Fixpoint insert (p : spec_float) (k : K) l : list (spec_float * K) :=
  match l with
  | [] => [(p, k)]
  | (q, k') :: l' => if SFltb p q then (p, k) :: l else (q, k') :: insert p k l'
  end.

(** [equal_range(p)], and the loop that erases the first of its elements whose
    mapped value is [k]. *)
Definition in_range (p : spec_float) (k : K) (x : spec_float * K) : bool :=
  negb (SFltb x.1 p) && negb (SFltb p x.1) && bool_decide (x.2 = k).
Fixpoint erase_first (f : spec_float * K -> bool) l : list (spec_float * K) :=
  match l with
  | [] => []
  | x :: l => if f x then l else x :: erase_first f l
  end.

Definition sorted l : Prop := StronglySorted (fun a b => SFltb b.1 a.1 = false) l.

Lemma insert_perm p k l : insert p k l ≡ₚ (p, k) :: l.
Proof.
  induction l as [|[q k'] l IH]; [done|]. cbn. case_match; [done|]. rewrite IH. apply Permutation_swap.
Qed.

Lemma insert_sorted p k l :
  not_nan p -> Forall (fun x => not_nan x.1) l -> sorted l -> sorted (insert p k l).
Proof.
  intros Hp. unfold sorted. induction l as [|[q k'] l IH]; intros Hn Hs; cbn; [by repeat constructor|].
  apply Forall_cons in Hn as [Hq Hn]. apply StronglySorted_inv in Hs as [Hs Hall]. cbn in Hq.
  destruct (SFltb p q) eqn:Hpq.
  - constructor; [by constructor|]. constructor; cbn.
    + by apply SFltb_asym.
    + apply Forall_forall. intros x Hx. rewrite Forall_forall in Hall, Hn. specialize (Hall x Hx).
      apply (SFltb_weak x.1 q p); try done; [by apply Hn|by apply SFltb_asym].
  - constructor; [by apply IH|]. apply Forall_forall. intros x Hx. rewrite insert_perm in Hx.
    apply elem_of_cons in Hx as [->|Hx]; [done|]. rewrite Forall_forall in Hall. by apply Hall.
Qed.

Lemma erase_first_sublist f l : sublist (erase_first f l) l.
Proof. induction l as [|x l IH]; cbn; [done|]. case_match; [by apply sublist_cons|by apply sublist_skip]. Qed.

Lemma erase_first_sorted f l : sorted l -> sorted (erase_first f l).
Proof.
  unfold sorted. induction l as [|x l IH]; intros Hs; cbn; [done|].
  apply StronglySorted_inv in Hs as [Hs Hall]. case_match; [done|]. constructor; [by apply IH|].
  apply Forall_forall. intros y Hy. rewrite Forall_forall in Hall. apply Hall.
  eapply elem_of_submseteq; [done|]. apply sublist_submseteq, erase_first_sublist.
Qed.

(** The only element that passes the test is the one that goes. *)
Lemma erase_first_perm f x l l' :
  l ≡ₚ x :: l' -> f x = true -> (forall y, y ∈ l' -> f y = false) -> erase_first f l ≡ₚ l'.
Proof.
  revert l'. induction l as [|y l IH]; intros l' Hp Hx Hl; [by apply Permutation_nil_cons in Hp|].
  cbn. destruct (f y) eqn:Hy.
  - assert (y = x) as ->.
    { assert (y ∈ x :: l') as Hin by (rewrite <- Hp; left).
      apply elem_of_cons in Hin as [->|Hin]; [done|]. rewrite (Hl y Hin) in Hy. done. }
    by apply Permutation_cons_inv in Hp.
  - assert (y ∈ l') as Hin.
    { assert (y ∈ x :: l') as Hin by (rewrite <- Hp; left).
      apply elem_of_cons in Hin as [->|Hin]; [congruence|done]. }
    apply elem_of_Permutation in Hin as [l'' Hl'']. rewrite Hl''.
    constructor. apply IH; [|done|].
    + rewrite Hl'' in Hp. rewrite Permutation_swap in Hp. by apply Permutation_cons_inv in Hp.
    + intros z Hz. apply Hl. rewrite Hl''. by right.
Qed.
End FloatMultimap.
End FloatMultimap.

(** ** [Cache] *)
Module Cache.
Section Cache.
Context {K V : Type} `{Countable K}.
Variable CACHE_SIZE : nat.

(** [influMap] is a [KVMap<long, vector<long> >]: the code instantiates the
    cache with [K = long] and [V = vector<long>]. *)
Record t := mk {
  pk : list (spec_float * K);
  kp : gmap K spec_float;
  kv : gmap K V;
  influMap : gmap K V
}.
Implicit Types c : t.

(** The copy constructor does not copy [influMap]. *)
Definition copy c : t := mk (pk c) (kp c) (kv c) ∅.

Definition containsInfluKey c (key : K) : bool := KVMap.containsKey (influMap c) key.
Definition containsKey c (key : K) : bool :=
  KVMap.containsKey (kv c) key || KVMap.containsKey (influMap c) key.
Definition getValue c (key : K) : outcome V :=
  if containsInfluKey c key then KVMap.subscript (influMap c) key else KVMap.subscript (kv c) key.

Definition remove c (key : K) : t :=
  mk (pk c) (KVMap.remove (kp c) key) (KVMap.remove (kv c) key) (influMap c).
Definition add c (key : K) (val : V) (priority : spec_float) : t :=
  mk (FloatMultimap.insert priority key (pk c)) (KVMap.add (kp c) key priority)
     (KVMap.add (kv c) key val) (influMap c).

Definition updatePrority c (key : K) (priority : spec_float) : outcome t :=
  prior ← KVMap.subscript (kp c) key;
  let pk1 := FloatMultimap.erase_first (FloatMultimap.in_range prior key) (pk c) in
  Ok (mk (FloatMultimap.insert priority key pk1)
         (KVMap.add (KVMap.remove (kp c) key) key priority) (kv c) (influMap c)).

(** The [double] literal 0.02: the nearest number, 5764607523034235 / 2^58. *)
Definition min_gain : spec_float := S754_finite false 5764607523034235 (-58).

(** [val + 0.02 < priority]: the [float]s are converted to [double]. *)
Definition gains (val priority : spec_float) : bool :=
  SFltb (f64_add (f64_of_f32 val) min_gain) (f64_of_f32 priority).

Definition deleteMin c (priority : spec_float) : outcome (bool * t) :=
  match pk c with
  | [] => Undefined
  | (val, key) :: rest =>
    if gains val priority then
      Ok (true, mk rest (KVMap.remove (kp c) key) (KVMap.remove (kv c) key) (influMap c))
    else Ok (false, c)
  end.

Definition addCache c (key : K) (val : V) (priority : spec_float) : outcome t :=
  if KVMap.containsKey (kv c) key then updatePrority c key priority
  else if decide (KVMap.size (kv c) < CACHE_SIZE)%nat then Ok (add c key val priority)
  else
    '(deleted, c) ← deleteMin c priority;
    Ok (if deleted : bool then add c key val priority else c).

(** ** The invariant

    Every cached key has one entry in [pk], under its current priority, and
    [pk] is in order. *)
Record inv c : Prop := {
  inv_sorted : FloatMultimap.sorted (pk c);
  inv_nan : forall k p, kp c !! k = Some p -> not_nan p;
  inv_pk : pk c ≡ₚ (fun x => (x.2, x.1)) <$> map_to_list (kp c);
  inv_dom : dom (kp c) = dom (kv c);
  inv_size : (size (kv c) <= CACHE_SIZE)%nat
}.

Lemma inv_pk_nan c : inv c -> Forall (fun x => not_nan x.1) (pk c).
Proof.
  intros Hi. rewrite (inv_pk _ Hi). apply Forall_forall. intros x Hx.
  apply list_elem_of_fmap in Hx as ([k p] & -> & Hx). apply elem_of_map_to_list in Hx.
  by apply (inv_nan _ Hi k).
Qed.

Lemma inv_kp_kv c k : inv c -> is_Some (kp c !! k) <-> is_Some (kv c !! k).
Proof. intros Hi. rewrite <- !elem_of_dom, (inv_dom _ Hi). done. Qed.

(** The entry of a key among those of the others. *)
Lemma pk_of c k p :
  inv c -> kp c !! k = Some p ->
  pk c ≡ₚ (p, k) :: ((fun x => (x.2, x.1)) <$> map_to_list (delete k (kp c))).
Proof.
  intros Hi Hk. rewrite (inv_pk _ Hi). rewrite <- (map_to_list_delete (kp c) k p Hk). done.
Qed.

Lemma insert_entry (m : gmap K spec_float) k p l :
  m !! k = None -> l ≡ₚ (fun x => (x.2, x.1)) <$> map_to_list m ->
  FloatMultimap.insert p k l ≡ₚ (fun x => (x.2, x.1)) <$> map_to_list (<[k := p]> m).
Proof.
  intros Hk Hl. rewrite FloatMultimap.insert_perm, Hl, map_to_list_insert by done. done.
Qed.

Lemma add_inv c k v p :
  inv c -> not_nan p -> kv c !! k = None -> (size (kv c) < CACHE_SIZE)%nat -> inv (add c k v p).
Proof.
  intros Hi Hp Hk Hs. assert (kp c !! k = None) as Hkp.
  { apply eq_None_not_Some. rewrite inv_kp_kv by done. rewrite Hk. by intros []. }
  unfold add. rewrite !KVMap.add_spec. split; cbn.
  - apply FloatMultimap.insert_sorted; [done|by apply inv_pk_nan|apply Hi].
  - intros k' p'. rewrite lookup_insert_Some. intros [[_ <-]|[_ ?]]; [done|by eapply inv_nan].
  - apply insert_entry; [done|apply Hi].
  - by rewrite !dom_insert_L, (inv_dom _ Hi).
  - rewrite map_size_insert_None by done. lia.
Qed.

Lemma updatePrority_spec c k p v :
  inv c -> not_nan p -> kv c !! k = Some v ->
  exists c', updatePrority c k p = Ok c' /\ inv c' /\ kv c' = kv c /\ influMap c' = influMap c /\
    kp c' = <[k := p]> (kp c).
Proof.
  intros Hi Hp Hk. assert (is_Some (kp c !! k)) as [q Hq] by (apply inv_kp_kv; [done|by rewrite Hk]).
  unfold updatePrority, KVMap.subscript. rewrite Hq. run. rewrite KVMap.add_spec, KVMap.kv_remove_spec.
  rewrite insert_delete_eq. eexists. split; [done|]. split; [|done].
  pose proof (pk_of c k q Hi Hq) as Hpk.
  assert (FloatMultimap.erase_first (FloatMultimap.in_range q k) (pk c) ≡ₚ
          (fun x => (x.2, x.1)) <$> map_to_list (delete k (kp c))) as He.
  { eapply FloatMultimap.erase_first_perm; [exact Hpk| |].
    - unfold FloatMultimap.in_range. cbn. by rewrite SFltb_irrefl, bool_decide_eq_true_2.
    - intros [q' k'] Hin. apply list_elem_of_fmap in Hin as ([k2 q2] & [= -> ->] & Hin).
      apply elem_of_map_to_list, lookup_delete_Some in Hin as [Hne _].
      unfold FloatMultimap.in_range. cbn. rewrite (bool_decide_eq_false_2 (k2 = k)) by congruence.
      by rewrite andb_false_r. }
  split; cbn.
  - apply FloatMultimap.insert_sorted; [done| |by apply FloatMultimap.erase_first_sorted, Hi].
    rewrite Forall_forall. intros x Hx. pose proof (inv_pk_nan _ Hi) as Hn. rewrite Forall_forall in Hn.
    apply Hn. eapply elem_of_submseteq; [done|]. apply sublist_submseteq, FloatMultimap.erase_first_sublist.
  - intros k' p'. rewrite lookup_insert_Some. intros [[_ <-]|[_ ?]]; [done|by eapply inv_nan].
  - rewrite <- insert_delete_eq. apply insert_entry; [apply lookup_delete_eq|done].
  - rewrite dom_insert_L, <- (inv_dom _ Hi). apply elem_of_dom_2 in Hq. set_solver.
  - apply Hi.
Qed.

(** The first entry has the least priority of all. *)
Lemma head_min c p k rest :
  inv c -> pk c = (p, k) :: rest ->
  kp c !! k = Some p /\ forall k' p', kp c !! k' = Some p' -> SFltb p' p = false.
Proof.
  intros Hi E. assert (forall k' p', (p', k') ∈ pk c <-> kp c !! k' = Some p') as Hin.
  { intros k' p'. rewrite (inv_pk _ Hi), list_elem_of_fmap. split.
    - intros ([k2 p2] & [= -> ->] & Hx). by apply elem_of_map_to_list.
    - intros Hx. exists (k', p'). split; [done|]. by apply elem_of_map_to_list. }
  split; [apply Hin; rewrite E; left|]. intros k' p' Hk'. apply Hin in Hk'. rewrite E in Hk'.
  apply elem_of_cons in Hk' as [[= -> ->]|Hk']; [apply SFltb_irrefl|].
  pose proof (inv_sorted _ Hi) as Hs. rewrite E in Hs. apply StronglySorted_inv in Hs as [_ Hall].
  rewrite Forall_forall in Hall. by apply (Hall (p', k')).
Qed.

Lemma deleteMin_inv c p k rest :
  inv c -> pk c = (p, k) :: rest ->
  inv (mk rest (KVMap.remove (kp c) k) (KVMap.remove (kv c) k) (influMap c)).
Proof.
  intros Hi E. destruct (head_min c p k rest Hi E) as [Hk _].
  pose proof (pk_of c k p Hi Hk) as Hpk. rewrite E in Hpk. apply Permutation_cons_inv in Hpk.
  rewrite !KVMap.kv_remove_spec. split; cbn.
  - pose proof (inv_sorted _ Hi) as Hs. rewrite E in Hs. by apply StronglySorted_inv in Hs as [? _].
  - intros k' p' [_ Hk']%lookup_delete_Some. by eapply inv_nan.
  - done.
  - by rewrite !dom_delete_L, (inv_dom _ Hi).
  - rewrite map_size_delete. pose proof (inv_size _ Hi). destruct (kv c !! k); cbn; lia.
Qed.

(** The effect of [addCache], on every branch. *)
Lemma addCache_spec c k v p :
  inv c -> not_nan p -> (0 < CACHE_SIZE)%nat ->
  exists c', addCache c k v p = Ok c' /\ inv c' /\ influMap c' = influMap c /\
    ( (* hit *)
     (is_Some (kv c !! k) /\ kv c' = kv c /\ kp c' = <[k := p]> (kp c)) \/
     (* miss, room *)
     (kv c !! k = None /\ (size (kv c) < CACHE_SIZE)%nat /\ kv c' = <[k := v]> (kv c) /\ kp c' = <[k := p]> (kp c)) \/
     (* miss, full: an entry of least priority [p0] is replaced when [p] gains on it *)
     (kv c !! k = None /\ size (kv c) = CACHE_SIZE /\
      exists k0 p0, kp c !! k0 = Some p0 /\ (forall k' p', kp c !! k' = Some p' -> SFltb p' p0 = false) /\
        if gains p0 p then kv c' = <[k := v]> (delete k0 (kv c)) /\ kp c' = <[k := p]> (delete k0 (kp c))
        else c' = c)).
Proof.
  intros Hi Hp Hpos. unfold addCache.
  destruct (KVMap.containsKey (kv c) k) eqn:Hc.
  - apply KVMap.containsKey_true in Hc as [v0 Hk].
    destruct (updatePrority_spec c k p v0 Hi Hp Hk) as (c' & E & Hi' & Hkv & Hin & Hkp).
    exists c'. split_and!; try done. left. by rewrite Hk.
  - apply not_true_iff_false in Hc. rewrite KVMap.containsKey_true, <- eq_None_not_Some in Hc.
    case_decide as Hs.
    + eexists. split; [done|]. split; [by apply add_inv|]. split; [done|]. right. left.
      unfold add; cbn. by rewrite !KVMap.add_spec.
    + pose proof (inv_size _ Hi) as Hsz. unfold KVMap.size in Hs.
      assert (size (kv c) = CACHE_SIZE) as Hfull by lia.
      destruct (pk c) as [|[p0 k0] rest] eqn:E.
      { exfalso. pose proof (inv_pk _ Hi) as Hpk. rewrite E in Hpk. symmetry in Hpk.
        apply Permutation_nil_r, fmap_nil_inv, map_to_list_empty_iff in Hpk.
        pose proof (inv_dom _ Hi) as Hd. rewrite Hpk, dom_empty_L in Hd. symmetry in Hd.
        apply dom_empty_iff_L in Hd. rewrite Hd, map_size_empty in Hfull. lia. }
      destruct (head_min c p0 k0 rest Hi E) as [Hk0 Hmin]. unfold deleteMin. rewrite E.
      destruct (gains p0 p) eqn:Hg; run.
      * eexists. split; [done|]. pose proof (deleteMin_inv c p0 k0 rest Hi E) as Hi'.
        assert (is_Some (kv c !! k0)) as Hk0v by (by apply inv_kp_kv; [|rewrite Hk0]).
        split; [|split; [done|]].
        -- apply add_inv; try done; cbn; rewrite KVMap.kv_remove_spec.
           ++ rewrite lookup_delete_None. by right.
           ++ rewrite map_size_delete. destruct Hk0v as [v0 ->]. cbn. lia.
        -- right. right. split_and!; try done. exists k0, p0. rewrite Hg. split_and!; try done;
             unfold add; cbn; by rewrite KVMap.add_spec, KVMap.kv_remove_spec.
      * exists c. split_and!; try done. right. right. split_and!; try done.
        exists k0, p0. by rewrite Hg.
Qed.

Lemma inv_empty influ : inv (mk [] ∅ ∅ influ).
Proof.
  split; cbn; [constructor| |done|set_solver|rewrite map_size_empty; lia]. intros k p. by rewrite lookup_empty.
Qed.

(** C31. [addCache] keeps the three maps of the cache consistent and within its
    bound: a known key only gets its new priority; a new key is added while
    there is room; in a full cache it replaces an entry of least priority when
    it gains on it, and otherwise nothing changes. *)
Theorem cache_admission c k v p :
  inv c -> not_nan p -> (0 < CACHE_SIZE)%nat ->
  exists c', addCache c k v p = Ok c' /\ inv c' /\ influMap c' = influMap c /\
    ((is_Some (kv c !! k) /\ kv c' = kv c /\ kp c' = <[k := p]> (kp c)) \/
     (kv c !! k = None /\ (size (kv c) < CACHE_SIZE)%nat /\ kv c' = <[k := v]> (kv c) /\ kp c' = <[k := p]> (kp c)) \/
     (kv c !! k = None /\ size (kv c) = CACHE_SIZE /\
      exists k0 p0, kp c !! k0 = Some p0 /\ (forall k' p', kp c !! k' = Some p' -> SFltb p' p0 = false) /\
        if gains p0 p then kv c' = <[k := v]> (delete k0 (kv c)) /\ kp c' = <[k := p]> (delete k0 (kp c))
        else c' = c)).
Proof. apply addCache_spec. Qed.
End Cache.
Arguments t K V {_ _}.

(** *** Construction: the vertices of [INFLU_FILE] are kept for ever *)
(** A cache of one entry that is full. *)
Definition one_entry : t Z Z := Eval vm_compute in
  match addCache 1 (mk [] ∅ ∅ ∅) 5 50 (f64_of_Z 1) with Ok c => c | _ => mk [] ∅ ∅ ∅ end.
Lemma one_entry_inv : inv 1 one_entry.
Proof.
  destruct (addCache_spec 1 (mk [] ∅ ∅ ∅ : t Z Z) 5 50 (f64_of_Z 1) (inv_empty 1 ∅)) as (c' & E & Hi & _);
    [by vm_compute|lia|].
  assert (Ok one_entry = Ok c') as [= ->]; [|done]. rewrite <- E. vm_compute. reflexivity.
Qed.
Lemma cache_admission_witness :
  exists c', addCache 1 one_entry 6 60 (f64_of_Z 9) = Ok c' /\ inv 1 c'.
Proof.
  destruct (cache_admission 1 one_entry 6 60 (f64_of_Z 9) one_entry_inv) as (c' & E & Hi & _);
    [by vm_compute|lia|].
  exists c'. split; [exact E|exact Hi].
Defined.

Section Load.
(** [boost::lexical_cast<long>], which throws [bad_lexical_cast]. *)
Variable lexical_cast : cstr -> outcome Z.

(** The loop over the links of a line.  [int to] has no initial value: an
    empty field reads it undefined. *)
Fixpoint parse_links (fuel : nat) (links : cstr) : outcome (list Z) :=
  match fuel with
  | O => OutOfFuel
  | S fuel =>
    match find_char " " links with
    | None => Ok []
    | Some spacepos =>
      to ← (if decide (0 < spacepos)%nat then x ← lexical_cast (take spacepos links); Ok (to_int32 x)
            else Undefined);
      links ← substr links (spacepos + 1) (length links);
      linkvec ← parse_links fuel links;
      Ok (to :: linkvec)
    end
  end.

(** One line; [None] is the early return on a line without a tab.  The test
    of [*links.end()] reads the terminating zero, so a space is always added. *)
Definition influ_line (line : cstr) : outcome (option (Z * list Z)) :=
  match find_char "009" line with
  | None => Ok None
  | Some pos =>
    source ← lexical_cast (take pos line);
    links ← substr line (pos + 1) (length line);
    let links := links ++ [" "%char] in
    linkvec ← parse_links (S (length links)) links;
    Ok (Some (source, linkvec))
  end.
Fixpoint load_lines (lines : list cstr) (m : gmap Z (list Z)) : outcome (gmap Z (list Z)) :=
  match lines with
  | [] => Ok m
  | line :: lines =>
    r ← influ_line line;
    match r with
    | None => Ok m
    | Some (source, linkvec) => load_lines lines (KVMap.add m source linkvec)
    end
  end.
(** [Cache()]: a missing file gives no lines. *)
Definition create (influ_file : cstr) : outcome (t Z (list Z)) :=
  m ← load_lines (getlines "010" influ_file) ∅; Ok (mk [] ∅ ∅ m).
End Load.
End Cache.

(** ** [FIFOCache] *)
Module FIFOCache.
Section FIFOCache.
Context {K V : Type} `{Countable K}.
Variable CACHE_SIZE : nat.

Record t := mk { elements : gmap K V; keys : list K }.
Implicit Types c : t.

Definition create : t := mk ∅ [].
Definition getValue c (key : K) : outcome V := KVMap.subscript (elements c) key.
Definition containsKey c (key : K) : bool := KVMap.containsKey (elements c) key.
(** [queue::front] and [pop] of an empty queue are undefined. *)
Definition addCache c (key : K) (val : V) : outcome t :=
  if containsKey c key then Ok c
  else
    c ← (if Z.of_nat CACHE_SIZE - 1 <? Z.of_nat (length (keys c)) then
           match keys c with
           | [] => Undefined
           | k :: ks => Ok (mk (KVMap.remove (elements c) k) ks)
           end
         else Ok c);
    Ok (mk (KVMap.add (elements c) key val) (keys c ++ [key])).
(** [show] prints the queue by popping it. *)
Definition show c : list K * t := (keys c, mk (elements c) []).

Record inv c : Prop := {
  inv_nodup : NoDup (keys c);
  inv_keys : forall k, k ∈ keys c <-> is_Some (elements c !! k);
  inv_bound : (length (keys c) <= CACHE_SIZE)%nat
}.

Lemma inv_create : inv create.
Proof. split; cbn; [constructor| |lia]. intros k. by rewrite lookup_empty, elem_of_nil, is_Some_alt. Qed.

Lemma size_elements c : inv c -> base.size (elements c) = length (keys c).
Proof.
  intros Hi. rewrite <- size_dom. rewrite <- (size_list_to_set (C := gset K) (keys c)) by apply Hi.
  f_equal. apply set_eq. intros k. rewrite elem_of_dom, elem_of_list_to_set. symmetry. apply Hi.
Qed.

(** A hit changes nothing; a miss appends the key and, when the cache is full,
    drops the oldest one. *)
Lemma addCache_fifo c k v :
  inv c -> (0 < CACHE_SIZE)%nat ->
  exists c', addCache c k v = Ok c' /\ inv c' /\
    match elements c !! k with
    | Some _ => c' = c
    | None =>
      if decide (length (keys c) < CACHE_SIZE)%nat then
        keys c' = keys c ++ [k] /\ elements c' = <[k := v]> (elements c)
      else exists k0 ks, keys c = k0 :: ks /\ keys c' = ks ++ [k] /\
        elements c' = <[k := v]> (delete k0 (elements c))
    end.
Proof.
  intros Hi Hpos. unfold addCache, containsKey.
  destruct (elements c !! k) as [v0|] eqn:Hk.
  { rewrite (proj2 (KVMap.containsKey_true _ _)) by (by rewrite Hk). by exists c. }
  assert (KVMap.containsKey (elements c) k = false) as ->.
  { apply not_true_iff_false. rewrite KVMap.containsKey_true, Hk. by intros []. }
  assert (k ∉ keys c) as Hni by (rewrite (inv_keys _ Hi), Hk; by intros []).
  pose proof (inv_bound _ Hi) as Hb. pose proof (inv_nodup _ Hi) as Hnd.
  destruct (Z.ltb_spec (Z.of_nat CACHE_SIZE - 1) (Z.of_nat (length (keys c)))) as [Hfull|Hroom].
  - destruct (keys c) as [|k0 ks] eqn:Ek; [cbn in Hfull; lia|]. run.
    eexists. split; [done|]. cbn [elements keys]. rewrite KVMap.add_spec, KVMap.kv_remove_spec.
    split; [|rewrite decide_False by lia; by exists k0, ks].
    apply NoDup_cons in Hnd as [Hk0 Hnd]. apply not_elem_of_cons in Hni as [Hkk0 Hni].
    split; cbn.
    + apply NoDup_app. split_and!; [done| |apply NoDup_singleton].
      intros x Hx ->%list_elem_of_singleton. done.
    + intros k'. rewrite elem_of_app, list_elem_of_singleton, lookup_insert_is_Some, lookup_delete_is_Some.
      rewrite <- (inv_keys _ Hi), Ek, elem_of_cons. destruct (decide (k = k')); naive_solver.
    + rewrite length_app. cbn in *. lia.
  - run. eexists. split; [done|]. cbn [elements keys].
    rewrite KVMap.add_spec. split; [|by rewrite decide_True by lia]. split; cbn.
    + apply NoDup_app. split_and!; [done| |apply NoDup_singleton].
      intros x Hx ->%list_elem_of_singleton. done.
    + intros k'. rewrite elem_of_app, list_elem_of_singleton, lookup_insert_is_Some, <- (inv_keys _ Hi).
      destruct (decide (k = k')); naive_solver.
    + rewrite length_app. cbn. lia.
Qed.

(** After [show] a full cache no longer evicts: it grows past its bound. *)
Lemma show_grows c k v :
  inv c -> length (keys c) = CACHE_SIZE -> (0 < CACHE_SIZE)%nat -> elements c !! k = None ->
  exists c', addCache (show c).2 k v = Ok c' /\ base.size (elements c') = S CACHE_SIZE.
Proof.
  intros Hi Hfull Hpos Hk. unfold addCache, containsKey, show. cbn [snd elements keys length].
  assert (KVMap.containsKey (elements c) k = false) as ->.
  { apply not_true_iff_false. rewrite KVMap.containsKey_true, Hk. by intros []. }
  destruct (Z.ltb_spec (Z.of_nat CACHE_SIZE - 1) (Z.of_nat 0)); [lia|]. run.
  eexists. split; [done|]. cbn [elements]. rewrite KVMap.add_spec, map_size_insert_None by done.
  by rewrite size_elements, Hfull.
Qed.

(** The FIFO cache holds at most [CACHE_SIZE] entries: a known key changes
    nothing, a new one is appended, and in a full cache the oldest leaves. *)
Theorem fifo_admission c k v :
  inv c -> (0 < CACHE_SIZE)%nat ->
  exists c', addCache c k v = Ok c' /\ inv c' /\
    match elements c !! k with
    | Some _ => c' = c
    | None =>
      if decide (length (keys c) < CACHE_SIZE)%nat then
        keys c' = keys c ++ [k] /\ elements c' = <[k := v]> (elements c)
      else exists k0 ks, keys c = k0 :: ks /\ keys c' = ks ++ [k] /\
        elements c' = <[k := v]> (delete k0 (elements c))
    end.
Proof. apply addCache_fifo. Qed.

(** Printing a full FIFO cache empties its queue of keys, so that the next
    insertion takes the cache past its bound. *)
Theorem fifo_show_overflows c k v :
  inv c -> length (keys c) = CACHE_SIZE -> (0 < CACHE_SIZE)%nat -> elements c !! k = None ->
  exists c', addCache (show c).2 k v = Ok c' /\ base.size (elements c') = S CACHE_SIZE.
Proof. apply show_grows. Qed.
End FIFOCache.

Definition fifo_full : t (K := Z) (V := Z) := mk {[1 := 10]} [1].
Lemma fifo_full_inv : inv 1 fifo_full.
Proof.
  split; cbn; [apply NoDup_singleton| |lia]. intros k. rewrite list_elem_of_singleton.
  destruct (decide (k = 1)) as [->|Hne]; [by rewrite lookup_singleton_eq|].
  rewrite lookup_singleton_ne by done. split; [done|by intros []].
Qed.
Lemma fifo_admission_witness :
  exists c', addCache 1 fifo_full 2 20 = Ok c' /\ inv 1 c'.
Proof.
  destruct (fifo_admission 1 fifo_full 2 20 fifo_full_inv ltac:(lia)) as (c' & E & Hi & _).
  exists c'. split; [exact E|exact Hi].
Defined.
Lemma fifo_show_overflows_witness :
  exists c', addCache 1 (show fifo_full).2 2 20 = Ok c' /\ base.size (elements c') = 2%nat.
Proof. exact (fifo_show_overflows 1 fifo_full 2 20 fifo_full_inv eq_refl ltac:(lia) eq_refl). Defined.
End FIFOCache.
