(* ===== verification/FlatStore.v ===== *)
(** * The flat store: store/writer.cpp, store/reader.cpp, store/flat_file.h, store/sstore.h

    [Writer] turns the text of a graph, one adjacency list per line, into two
    binary files: [vec] holds the numbers of all the lists one after the other,
    and [hdr] the running totals.  [Reader] maps both files and cuts out the
    list of a vertex.  [SStore] puts the priority cache in front of it.

    A file is its bytes.  [write(2)] is taken to write all it is given: the
    program ignores its result. *)
From S2P Require Import Prelude Float StringPiece Table Cache.

(** ** [FlatFile] *)
Module FlatFile.
(** [flatwrite(long)] and [flatwrite(long*, int)], at the end of the file. *)
Definition flatwrite (file : cstr) (value : Z) : cstr := file ++ marshal value.
Definition flatwrite_array (file : cstr) (value : list Z) (size : Z) : cstr :=
  file ++ mjoin (marshal <$> take (Z.to_nat (to_int32 size)) value).
End FlatFile.

Section FlatStore.
(** [boost::lexical_cast<long>]: throws on text that is not a number. *)
Variable lexical_cast : cstr -> outcome Z.

(** ** [Writer] *)
Record Writer := { vec : cstr; hdr : cstr }.

Fixpoint mapM_cast (ws : list cstr) : outcome (list Z) :=
  match ws with
  | [] => Ok []
  | w :: ws => x ← lexical_cast w; xs ← mapM_cast ws; Ok (x :: xs)
  end.
Definition handleLine (value : cstr) : outcome (list Z) :=
  mapM_cast (split_on (is_char " ") (trim_right value)).

(** The loop of [write]; [&adjvec[0]] of an empty vector is undefined. *)
Fixpoint write_lines (lines : list cstr) (total : Z) (w : Writer) : outcome Writer :=
  match lines with
  | [] => Ok w
  | line :: lines =>
    adjvec ← handleLine line;
    let size := to_uint32 (Z.of_nat (length adjvec)) in
    let total := to_int64 (total + size) in
    _ ← deref (head adjvec);
    write_lines lines total
      {| vec := FlatFile.flatwrite_array (vec w) adjvec size;
         hdr := FlatFile.flatwrite (hdr w) total |}
  end.
Definition write (input : cstr) : outcome Writer :=
  write_lines (getlines "010" input) 0 {| vec := []; hdr := FlatFile.flatwrite [] 0 |}.

(** ** [Reader] *)

(** [ptr[i]] of a mapped [long*]: outside the mapping it is undefined. *)
Definition long_at (file : cstr) (i : Z) : outcome Z :=
  if i <? 0 then Undefined
  else if decide (8 * Z.to_nat i + 8 <= length file)%nat
       then unmarshal (take 8 (drop (8 * Z.to_nat i) file)) else Undefined.
Fixpoint longs_from (file : cstr) (pos : Z) (n : nat) : outcome (list Z) :=
  match n with
  | O => Ok []
  | S n => x ← long_at file pos; xs ← longs_from file (pos + 1) n; Ok (x :: xs)
  end.

(** [read]: [vector(first, last)] with [last] before [first] is undefined. *)
Definition read (w : Writer) (index : Z) : outcome (list Z) :=
  pos ← long_at (hdr w) index;
  next ← long_at (hdr w) (index + 1);
  let dist := to_int64 (next - pos) in
  if dist <? 0 then Undefined else longs_from (vec w) pos (Z.to_nat dist).

(** ** Proofs *)
Definition bytes (l : list Z) : cstr := mjoin (marshal <$> l).

Lemma length_marshal (x : Z) : length (marshal x) = 8%nat.
Proof. apply length_le_bytes. Qed.

Lemma bytes_app l1 l2 : bytes (l1 ++ l2) = bytes l1 ++ bytes l2.
Proof. unfold bytes. by rewrite fmap_app, join_app. Qed.

Lemma bytes_cons x l : bytes (x :: l) = marshal x ++ bytes l.
Proof. done. Qed.

Lemma length_bytes l : length (bytes l) = (8 * length l)%nat.
Proof.
  induction l as [|x l IH]; [done|]. rewrite bytes_cons, length_app, length_marshal, IH. simpl. lia.
Qed.

Lemma drop_bytes l i : drop (8 * i) (bytes l) = bytes (drop i l).
Proof.
  revert i. induction l as [|x l IH]; intros i; [by destruct i|].
  destruct i as [|i]; [done|]. cbn [drop]. rewrite <- IH, bytes_cons.
  replace (8 * S i)%nat with (length (marshal x) + 8 * i)%nat by (rewrite length_marshal; lia).
  by rewrite drop_app_add.
Qed.

(** Reading a number back from the bytes of a list. *)
Lemma long_at_bytes l i x :
  l !! i = Some x -> representable x -> long_at (bytes l) (Z.of_nat i) = Ok x.
Proof.
  intros Hi Hx. unfold long_at. destruct (Z.ltb_spec (Z.of_nat i) 0); [lia|]. rewrite Nat2Z.id.
  pose proof (lookup_lt_Some _ _ _ Hi). rewrite decide_True by (rewrite length_bytes; lia).
  rewrite drop_bytes, (drop_S _ _ _ Hi), bytes_cons, take_app_length' by (by rewrite length_marshal).
  by apply unmarshal_marshal.
Qed.

Lemma longs_from_bytes l1 l2 l3 :
  Forall representable l2 ->
  longs_from (bytes (l1 ++ l2 ++ l3)) (Z.of_nat (length l1)) (length l2) = Ok l2.
Proof.
  revert l1. induction l2 as [|x l2 IH]; intros l1 Hl; [done|]. cbn [length longs_from].
  apply Forall_cons in Hl as [Hx Hl].
  rewrite (long_at_bytes _ (length l1) x); [|by rewrite lookup_app_r, Nat.sub_diag by lia|done]. run.
  replace (Z.of_nat (length l1) + 1) with (Z.of_nat (length (l1 ++ [x]))) by (rewrite length_app; cbn; lia).
  replace (l1 ++ (x :: l2) ++ l3) with ((l1 ++ [x]) ++ l2 ++ l3) by (by rewrite <- app_assoc).
  rewrite IH by done. done.
Qed.

(** The running totals written to [hdr]. *)
Fixpoint totals (acc : Z) (ls : list (list Z)) : list Z :=
  match ls with
  | [] => []
  | l :: ls => (acc + Z.of_nat (length l)) :: totals (acc + Z.of_nat (length l)) ls
  end.

(** [lexical_cast<long>] returns a [long]. *)
Hypothesis lexical_cast_long : forall s x, lexical_cast s = Ok x -> representable x.

Lemma mapM_cast_spec ws xs : mapM_cast ws = Ok xs -> length xs = length ws /\ Forall representable xs.
Proof.
  revert xs. induction ws as [|s ws IH]; intros xs E; cbn in E.
  - by injection E as <-.
  - apply bind_Ok in E as (x & Ex & E). apply bind_Ok in E as (ys & Ey & E). injection E as <-.
    destruct (IH ys Ey). split; [cbn; congruence|]. constructor; [by eapply lexical_cast_long|done].
Qed.

(** A line that is accepted holds at least one number: the address of the
    first element is defined. *)
Lemma handleLine_nonempty line l :
  handleLine line = Ok l -> l <> [] /\ Forall representable l.
Proof.
  intros E. apply mapM_cast_spec in E as [Hlen Hr]. split; [|done]. intros ->.
  apply (split_on_nonempty (is_char " ") (trim_right line)). by apply nil_length_inv.
Qed.

(** The lists of the lines, when all of them are accepted. *)
Fixpoint parse (lines : list cstr) : outcome (list (list Z)) :=
  match lines with
  | [] => Ok []
  | line :: lines => l ← handleLine line; ls ← parse lines; Ok (l :: ls)
  end.

Definition sum_length (ls : list (list Z)) : Z := Z.of_nat (length (mjoin ls)).

Lemma write_lines_spec lines ls total w :
  parse lines = Ok ls -> Forall (fun l => Z.of_nat (length l) < 2 ^ 31) ls ->
  0 <= total -> total + sum_length ls < 2 ^ 63 ->
  write_lines lines total w =
  Ok {| vec := vec w ++ bytes (mjoin ls); hdr := hdr w ++ bytes (totals total ls) |}.
Proof.
  revert ls total w. induction lines as [|line lines IH]; intros ls total w E Hl Ht Hb; cbn in E.
  { injection E as <-. cbn. rewrite !app_nil_r. by destruct w. }
  apply bind_Ok in E as (l & El & E). apply bind_Ok in E as (ls' & Els & E). injection E as <-.
  cbn [write_lines]. rewrite El. run. destruct (handleLine_nonempty _ _ El) as [Hne _].
  apply Forall_cons in Hl as [Hll Hl]. destruct l as [|x l]; [done|]. cbn [head deref]. run.
  unfold sum_length in Hb. rewrite mjoin_cons, length_app in Hb.
  unfold wrapu. rewrite Z.mod_small by lia. rewrite wraps_small by lia.
  rewrite (IH ls') by (done || unfold sum_length; lia). f_equal. cbn [vec hdr].
  unfold FlatFile.flatwrite_array, FlatFile.flatwrite. f_equal.
  - rewrite to_int32_small by lia. rewrite take_ge by lia.
    rewrite mjoin_cons, bytes_app, <- app_assoc. done.
  - cbn [totals]. rewrite bytes_cons, <- app_assoc. done.
Qed.

Lemma totals_lookup ls acc i :
  (i <= length ls)%nat ->
  (acc :: totals acc ls) !! i = Some (acc + sum_length (take i ls)).
Proof.
  revert acc i. induction ls as [|l ls IH]; intros acc i Hi.
  - cbn in Hi. assert (i = 0)%nat as -> by lia. cbn. f_equal. unfold sum_length. cbn. lia.
  - destruct i as [|i]; [cbn; f_equal; unfold sum_length; cbn; lia|].
    cbn [totals take]. rewrite lookup_cons. rewrite (IH _ i) by (cbn in Hi; lia).
    f_equal. unfold sum_length. rewrite mjoin_cons, length_app. lia.
Qed.

Lemma parse_representable lines ls : parse lines = Ok ls -> Forall (Forall representable) ls.
Proof.
  revert ls. induction lines as [|line lines IH]; intros ls E; cbn in E; [by injection E as <-|].
  apply bind_Ok in E as (l & El & E). apply bind_Ok in E as (ls' & Els & E). injection E as <-.
  constructor; [|by apply IH]. by eapply handleLine_nonempty.
Qed.

Lemma write_read lines ls i l :
  parse lines = Ok ls -> Forall (fun l => Z.of_nat (length l) < 2 ^ 31) ls ->
  sum_length ls < 2 ^ 63 -> ls !! i = Some l ->
  exists w, write_lines lines 0 {| vec := []; hdr := FlatFile.flatwrite [] 0 |} = Ok w /\
    read w (Z.of_nat i) = Ok l.
Proof.
  intros E Hlen Hb Hl. pose proof (parse_representable _ _ E) as Hrep.
  rewrite (write_lines_spec lines ls) by (done || lia). eexists. split; [done|].
  assert (ls = take i ls ++ l :: drop (S i) ls) as Els by (symmetry; by apply take_drop_middle).
  pose proof (lookup_lt_Some _ _ _ Hl) as Hi.
  unfold read. cbn [hdr vec app FlatFile.flatwrite]. change (marshal 0 ++ bytes (totals 0 ls)) with (bytes (0 :: totals 0 ls)).
  assert (forall j, (j <= length ls)%nat -> 0 <= sum_length (take j ls) < 2 ^ 63) as Hsum.
  { intros j Hj. unfold sum_length in *. rewrite <- (take_drop j ls), join_app, length_app in Hb. lia. }
  rewrite (long_at_bytes _ i (0 + sum_length (take i ls))); [|apply totals_lookup; lia|
    unfold representable; cbn; specialize (Hsum i); lia]. run.
  replace (Z.of_nat i + 1) with (Z.of_nat (S i)) by lia.
  rewrite (long_at_bytes _ (S i) (0 + sum_length (take (S i) ls))); [|apply totals_lookup; lia|
    unfold representable; cbn; specialize (Hsum (S i)); lia]. run.
  assert (sum_length (take (S i) ls) = sum_length (take i ls) + Z.of_nat (length l)) as Hnext.
  { unfold sum_length. rewrite (take_S_r _ _ _ Hl), join_app, length_app. cbn. rewrite app_nil_r. lia. }
  pose proof (Hsum i ltac:(lia)). pose proof (Hsum (S i) ltac:(lia)).
  rewrite wraps_small by lia. rewrite Hnext.
  replace (0 + (sum_length (take i ls) + Z.of_nat (length l)) - (0 + sum_length (take i ls)))
    with (Z.of_nat (length l)) by lia.
  destruct (Z.ltb_spec (Z.of_nat (length l)) 0); [lia|]. rewrite Nat2Z.id.
  rewrite Els, join_app, mjoin_cons. rewrite take_app_length' by (rewrite length_take; lia).
  apply longs_from_bytes. rewrite Forall_lookup in Hrep. by eapply Hrep.
Qed.

(** The flat files: when every line of the input parses, the numbers of
    line [i] are read back at index [i], with the offsets taken from the header
    file (lines of fewer than 2^31 numbers, fewer than 2^63 in all). *)
Theorem flat_roundtrip lines ls i l :
  parse lines = Ok ls -> Forall (fun l => Z.of_nat (length l) < 2 ^ 31) ls ->
  sum_length ls < 2 ^ 63 -> ls !! i = Some l ->
  exists w, write_lines lines 0 {| vec := []; hdr := FlatFile.flatwrite [] 0 |} = Ok w /\
    read w (Z.of_nat i) = Ok l.
Proof. apply write_read. Qed.
End FlatStore.

(** Numbers of one decimal digit. *)
Definition cast_digit (s : cstr) : outcome Z :=
  match s with [c] => if isdigit c then Ok (uchar c - 48) else Throw | _ => Throw end.
Lemma cast_digit_long s x : cast_digit s = Ok x -> representable x.
Proof.
  unfold cast_digit. destruct s as [|c [|]]; try done. destruct (isdigit c); [|done].
  intros [= <-]. pose proof (uchar_range c). unfold representable, MarshalLaws_long. lia.
Qed.
Lemma flat_roundtrip_witness :
  exists w, write_lines cast_digit [lit "1 2"; lit "7"; lit "3 4 5"] 0 {| vec := []; hdr := FlatFile.flatwrite [] 0 |} = Ok w /\
    read w 2 = Ok [3; 4; 5].
Proof.
  apply (flat_roundtrip cast_digit cast_digit_long [lit "1 2"; lit "7"; lit "3 4 5"] [[1; 2]; [7]; [3; 4; 5]] 2 [3; 4; 5]).
  - vm_compute. reflexivity.
  - by repeat constructor.
  - vm_compute. reflexivity.
  - reflexivity.
Defined.

(** ** [SStore] *)
Module SStore.
Section SStore.
Context {K D : Type} `{Countable K}.
Variable CACHE_SIZE : nat.
(** [reader.read]. *)
Variable reader : K -> outcome D.

(** [getData]: the data and the cache afterwards ([getData] always returns
    true). *)
Definition getData (cache : Cache.t K D) (k : K) (priority : spec_float) : outcome (Cache.t K D * D) :=
  if Cache.containsKey cache k then
    d ← Cache.getValue cache k;
    cache ← (if negb (Cache.containsInfluKey cache k)
             then Cache.addCache CACHE_SIZE cache k d priority else Ok cache);
    Ok (cache, d)
  else
    d ← reader k;
    cache ← Cache.addCache CACHE_SIZE cache k d priority;
    Ok (cache, d).

(** What the store has for a key: the list of the influence file, which the
    cache loads when it is constructed, and otherwise what the reader returns. *)
Definition stored (influ : gmap K D) (k : K) : outcome D :=
  match influ !! k with Some d => Ok d | None => reader k end.
(** The influence file is the one that was loaded, and every cached list is the
    stored one. *)
Definition coherent (influ : gmap K D) (cache : Cache.t K D) : Prop :=
  Cache.influMap cache = influ /\ forall k d, Cache.kv cache !! k = Some d -> stored influ k = Ok d.
Lemma coherent_fresh influ : coherent influ (Cache.mk [] ∅ ∅ influ).
Proof. split; [done|]. intros k d Hk. cbn in Hk. by rewrite lookup_empty in Hk. Qed.

Lemma addCache_coherent influ cache cache' k d p :
  Cache.inv CACHE_SIZE cache -> not_nan p -> (0 < CACHE_SIZE)%nat -> coherent influ cache -> stored influ k = Ok d ->
  Cache.addCache CACHE_SIZE cache k d p = Ok cache' ->
  Cache.inv CACHE_SIZE cache' /\ coherent influ cache'.
Proof.
  intros Hi Hp Hpos [Hin Hkv] Hd E.
  destruct (Cache.addCache_spec CACHE_SIZE cache k d p Hi Hp Hpos) as (c' & E' & Hi' & Hin' & Hcases).
  rewrite E in E'. injection E' as <-. split; [done|]. split; [by rewrite Hin'|].
  intros k' d'. destruct Hcases as [(_ & -> & _)|[(_ & _ & -> & _)|(_ & _ & k0 & p0 & _ & _ & Hc)]].
  - apply Hkv.
  - intros [[<- <-]|[_ ?]]%lookup_insert_Some; auto.
  - destruct (Cache.gains p0 p); [|subst; apply Hkv]. destruct Hc as [-> _].
    intros [[<- <-]|[_ [_ ?]%lookup_delete_Some]]%lookup_insert_Some; auto.
Qed.

(** The cache is transparent: [getData] returns what is stored. *)
Lemma getData_stored influ cache k p :
  Cache.inv CACHE_SIZE cache -> not_nan p -> (0 < CACHE_SIZE)%nat -> coherent influ cache ->
  match stored influ k with
  | Ok d => exists cache', getData cache k p = Ok (cache', d) /\
      Cache.inv CACHE_SIZE cache' /\ coherent influ cache'
  | _ => Cache.containsKey cache k = false /\ getData cache k p = (d ← reader k; Ok (cache, d))
  end.
Proof.
  intros Hi Hp Hpos Hc. unfold getData.
  destruct (Cache.containsKey cache k) eqn:Hk.
  - assert (exists d, Cache.getValue cache k = Ok d /\ stored influ k = Ok d) as (d & Hv & Hd).
    { destruct Hc as [<- Hkv]. unfold Cache.containsKey in Hk. unfold Cache.getValue, Cache.containsInfluKey.
      destruct (KVMap.containsKey (Cache.influMap cache) k) eqn:Hif.
      - apply KVMap.containsKey_true in Hif as [d Hd]. exists d. unfold KVMap.subscript, stored. by rewrite Hd.
      - rewrite orb_false_r in Hk. apply KVMap.containsKey_true in Hk as [d Hd]. exists d.
        unfold KVMap.subscript. rewrite Hd. auto. }
    rewrite Hv, Hd. run. destruct (Cache.containsInfluKey cache k); run; [by exists cache|].
    destruct (Cache.addCache_spec CACHE_SIZE cache k d p Hi Hp Hpos) as (c' & E & _).
    rewrite E. run. exists c'. split; [done|]. by eapply addCache_coherent.
  - assert (stored influ k = reader k) as Hs.
    { destruct Hc as [<- _]. apply orb_false_iff in Hk as [_ Hk]. unfold KVMap.containsKey in Hk.
      unfold stored. by destruct (Cache.influMap cache !! k). }
    rewrite Hs. destruct (reader k) as [d| | | |] eqn:Hd; try done. run.
    destruct (Cache.addCache_spec CACHE_SIZE cache k d p Hi Hp Hpos) as (c' & E & _).
    rewrite E. run. exists c'. split; [done|]. by eapply addCache_coherent.
Qed.

(** A sequence of lookups with their priorities. *)
Fixpoint lookups (cache : Cache.t K D) (ks : list (K * spec_float)) : outcome (Cache.t K D * list D) :=
  match ks with
  | [] => Ok (cache, [])
  | (k, p) :: ks =>
    '(cache, d) ← getData cache k p; '(cache, ds) ← lookups cache ks; Ok (cache, d :: ds)
  end.
Lemma lookups_stored influ ks ds :
  (0 < CACHE_SIZE)%nat -> Forall2 (fun kp d => not_nan kp.2 /\ stored influ kp.1 = Ok d) ks ds ->
  forall cache, Cache.inv CACHE_SIZE cache -> coherent influ cache ->
  exists cache', lookups cache ks = Ok (cache', ds) /\ Cache.inv CACHE_SIZE cache' /\ coherent influ cache'.
Proof.
  intros Hpos. induction 1 as [|[k p] d ks ds [Hp Hd] Hks IH]; intros cache Hi Hc.
  { by exists cache. }
  cbn [lookups fst snd] in *. pose proof (getData_stored influ cache k p Hi Hp Hpos Hc) as Hg. rewrite Hd in Hg.
  destruct Hg as (c1 & E & Hi1 & Hc1). rewrite E. run.
  destruct (IH c1 Hi1 Hc1) as (c2 & E2 & Hi2 & Hc2). rewrite E2. run. by exists c2.
Qed.

(** C30. The cache in front of the store is transparent.  Start from a new
    cache that has loaded any influence file [influ].  Whatever is admitted and
    evicted on the way, every sequence of lookups (with priorities that are
    numbers) returns for each key the list of the influence file when the file
    has the key, and exactly what the reader returns for every other key; the
    cache stays consistent and within its bound, it still holds the influence
    file, and it holds no list that differs from the stored one.  (Nothing makes
    the influence file agree with the reader, and the theorem does not ask for
    it: the file wins.) *)
Theorem store_transparent influ ks ds :
  (0 < CACHE_SIZE)%nat ->
  Forall2 (fun kp d => not_nan kp.2 /\
    match influ !! kp.1 with Some l => d = l | None => reader kp.1 = Ok d end) ks ds ->
  exists cache', lookups (Cache.mk [] ∅ ∅ influ) ks = Ok (cache', ds) /\
    Cache.inv CACHE_SIZE cache' /\ Cache.influMap cache' = influ /\
    forall k d, Cache.kv cache' !! k = Some d ->
      match influ !! k with Some l => d = l | None => reader k = Ok d end.
Proof.
  intros Hpos Hks. destruct (lookups_stored influ ks ds Hpos) with (cache := Cache.mk (K := K) (V := D) [] ∅ ∅ influ)
    as (cache' & E & Hi & Hin & Hkv).
  - eapply Forall2_impl; [exact Hks|]. intros [k p] d [Hp Hd]. split; [done|]. unfold stored. cbn in *.
    by destruct (influ !! k); [rewrite Hd|].
  - apply Cache.inv_empty.
  - apply coherent_fresh.
  - exists cache'. split_and!; [done..|]. intros k d Hk. specialize (Hkv k d Hk). unfold stored in Hkv.
    destruct (influ !! k); [by injection Hkv|done].
Qed.
End SStore.
(** The influence file of the sample has a list for 4 that the reader does not
    have; 3 is read, then found in the cache, then evicted by 6 and read again. *)
Definition sample_cast (s : cstr) : outcome Z := Ok (default 0 (uchar <$> head s) - 48).
Definition sample_influ : gmap Z (list Z) := {[4 := [7; 8]]}.
Lemma store_transparent_witness :
  Cache.create sample_cast (lit "4" ++ ["009"%char] ++ lit "7 8" ++ ["010"%char]) = Ok (Cache.mk [] ∅ ∅ sample_influ) /\
  exists cache', lookups 1 (fun k => Ok [k * k]) (Cache.mk [] ∅ ∅ sample_influ)
    [(3, f64_of_Z 1); (4, f64_of_Z 2); (3, f64_of_Z 3); (6, f64_of_Z 9); (3, f64_of_Z 4)] =
    Ok (cache', [[9]; [7; 8]; [9]; [36]; [9]]).
Proof.
  split; [vm_compute; reflexivity|].
  destruct (store_transparent 1 (fun k => Ok [k * k]) sample_influ
    [(3, f64_of_Z 1); (4, f64_of_Z 2); (3, f64_of_Z 3); (6, f64_of_Z 9); (3, f64_of_Z 4)]
    [[9]; [7; 8]; [9]; [36]; [9]]) as (c' & E & _).
  - lia.
  - by repeat (constructor; [by split; vm_compute|]).
  - exists c'. exact E.
Defined.
End SStore.
