(* ===== verification/MMap.v ===== *)
(** * Mapped files: store/mmaped_file.h, store/flat_file.cpp, store/access_mode.h

    [MMapedFile] keeps a descriptor and one mapped area.  The system calls are
    parameters; the model also keeps the set of areas that are mapped, so that
    one can say which addresses are valid. *)
From S2P Require Import Prelude StringPiece.

Module MMap.
Inductive access_mode := READ_ONLY | READ_WRITE_PRIVATE | READ_WRITE_SHARED.

Section MMap.
(** [getpagesize()], [open] (a negative result is a failure), [fstat]'s size,
    [mmap] (from the hint, length, descriptor and offset to an address),
    [munmap] and [close] (whether they succeed). *)
Variable pagesize : Z.
Variable os_open : cstr -> access_mode -> Z.
Variable os_filesize : Z -> option Z.
Variable os_mmap : option Z -> Z -> Z -> Z -> option Z.
Variable os_munmap : Z -> Z -> bool.
Variable os_close : Z -> bool.

Definition ALIGN_TO_PAGE (x : Z) : Z := Z.land x (Z.lnot (pagesize - 1)).
Definition UPPER_ALIGN_TO_PAGE (x : Z) : Z := ALIGN_TO_PAGE (x + (pagesize - 1)).
Definition OFFSET_INTO_PAGE (x : Z) : Z := Z.land x (pagesize - 1).

Record MMapedFile := {
  fd : Z;
  memory_area : option Z;
  size_mapped : Z;
  offset_mapped : Z;
  reference_count : Z
}.
Definition MMapedFile_new : MMapedFile :=
  {| fd := -1; memory_area := None; size_mapped := 0; offset_mapped := 0; reference_count := 0 |}.

(** The areas of the process: base address and length. *)
Definition areas : Type := list (Z * Z).
Definition mapped (a : areas) (addr : Z) : Prop :=
  exists base len, (base, len) ∈ a /\ base <= addr < base + len.

(** [open] unless the descriptor is there already. *)
Definition ensure_open (f : MMapedFile) (filename : cstr) (mode : access_mode) : outcome MMapedFile :=
  if fd f =? -1 then
    let fd := os_open filename mode in
    if fd <? 0 then Throw
    else Ok {| fd := fd; memory_area := memory_area f; size_mapped := size_mapped f;
               offset_mapped := offset_mapped f; reference_count := reference_count f |}
  else Ok f.
Definition filesize (fd : Z) : outcome Z :=
  match os_filesize fd with Some n => Ok n | None => Throw end.

Definition readMmapFile (f : MMapedFile) (a : areas) (filename : cstr) : outcome (MMapedFile * areas * Z) :=
  match filename with
  | [] => Throw
  | _ =>
    f ← ensure_open f filename READ_ONLY;
    size ← filesize (fd f);
    match os_mmap None size (fd f) 0 with
    | None => Throw
    | Some addr =>
      Ok ({| fd := fd f; memory_area := Some addr; size_mapped := size;
             offset_mapped := offset_mapped f; reference_count := reference_count f |},
          (addr, size) :: a, addr)
    end
  end.

(** The pointer returned for an area that is there: [memory_area + offset -
    offset_mapped]; with no area the null pointer is taken as address 0. *)
Definition pointer (area : option Z) (offset base : Z) : Z := default 0 area + offset - base.

Definition openAndMmapFile (f : MMapedFile) (a : areas) (filename : cstr) (mode : access_mode)
    (offset length : Z) (map_whole_file allow_remap : bool) : outcome (MMapedFile * areas * Z) :=
  match filename with
  | [] => Throw
  | _ =>
    let address_to_map := memory_area f in
    f ← ensure_open f filename mode;
    whole ← (if map_whole_file then filesize (fd f) else Ok 0);
    let offset_to_map := if map_whole_file then 0 else ALIGN_TO_PAGE offset in
    let length_to_map := if map_whole_file then whole else to_uint64 (UPPER_ALIGN_TO_PAGE length) in
    let counted := {| fd := fd f; memory_area := memory_area f; size_mapped := size_mapped f;
                      offset_mapped := offset_mapped f; reference_count := reference_count f + 1 |} in
    if (offset_to_map =? offset_mapped f) && (length_to_map =? size_mapped f) then
      Ok (counted, a, pointer (memory_area f) offset (offset_mapped f))
    else if (offset_mapped f <=? offset_to_map) &&
            (to_uint64 (length_to_map + offset_to_map - offset_mapped f) <=? size_mapped f) then
      Ok (counted, a, pointer (memory_area f) offset (offset_mapped f))
    else
      a ← match memory_area f with
          | Some m => if os_munmap m (size_mapped f)
                      then Ok (filter (fun x => x <> (m, size_mapped f)) a) else Throw
          | None => Ok a
          end;
      match os_mmap address_to_map length_to_map (fd f) offset_to_map with
      | None => Throw
      | Some addr =>
        if bool_decide (is_Some address_to_map) && negb allow_remap && negb (bool_decide (address_to_map = Some addr))
        then Throw
        else
          Ok ({| fd := fd f; memory_area := Some addr; size_mapped := length_to_map;
                 offset_mapped := offset_to_map; reference_count := reference_count f + 1 |},
              (addr, length_to_map) :: a, addr + offset - offset_to_map)
      end
  end.

(** [munmapAndCloseFile]: only the descriptor is reset. *)
Definition munmapAndCloseFile (f : MMapedFile) (a : areas) : outcome (MMapedFile * areas) :=
  _ ← (if os_munmap (default 0 (memory_area f)) (size_mapped f) then Ok tt else Throw);
  _ ← (if os_close (fd f) then Ok tt else Throw);
  Ok ({| fd := -1; memory_area := memory_area f; size_mapped := size_mapped f;
         offset_mapped := offset_mapped f; reference_count := reference_count f |},
      filter (fun x => x <> (default 0 (memory_area f), size_mapped f)) a).

(** ** Theorems *)

(** A mapping of the whole file covers every offset of the file. *)
Lemma readMmapFile_covers f a filename r i :
  readMmapFile f a filename = Ok r ->
  let '(f', a', addr) := r in
  0 <= i < size_mapped f' -> mapped a' (addr + i) /\ memory_area f' = Some addr.
Proof.
  intros E. unfold readMmapFile in E. destruct filename as [|c filename]; [done|].
  inv_ok. destruct (os_mmap _ _ _ _) as [addr|] eqn:Em; [|done]. injection E as <-. cbn.
  intros Hi. split; [|done]. exists addr, a1. split; [left|]. lia.
Qed.

Lemma whole_file_covers f a filename mode offset len r :
  openAndMmapFile f a filename mode offset len true true = Ok r ->
  memory_area f = None -> size_mapped f = 0 -> offset_mapped f = 0 -> 0 <= offset < size_mapped r.1.1 ->
  mapped r.1.2 r.2.
Proof.
  intros E Hm Hs Ho. unfold openAndMmapFile in E. destruct filename as [|c filename]; [done|].
  apply bind_Ok in E as (f1 & E1 & E).
  assert (memory_area f1 = None /\ size_mapped f1 = 0 /\ offset_mapped f1 = 0) as (Hm1 & Hs1 & Ho1).
  { unfold ensure_open in E1. destruct (fd f =? -1); [|by injection E1 as <-].
    destruct (os_open _ _ <? 0); [done|]. by injection E1 as <-. }
  apply bind_Ok in E as (whole & Ew & E). rewrite Hm1, Hs1, Ho1 in E.
  destruct ((0 =? 0) && (whole =? 0)) eqn:E0.
  { injection E as <-. cbn. lia. }
  destruct ((0 <=? 0) && _) eqn:E2.
  { injection E as <-. cbn. lia. }
  cbn [mbind outcome_bind] in E. destruct (os_mmap _ _ _ _) as [addr|]; [|done].
  rewrite andb_false_r in E. cbn in E. injection E as <-. cbn. intros Hoff.
  exists addr, whole. split; [left|]. lia.
Qed.

(** After [munmapAndCloseFile] the object still holds the address of the
    unmapped area: opening a file of the same size again returns a pointer into
    it, without mapping anything. *)
Lemma reopen_dangles f a filename mode n m f1 a1 fd2 :
  memory_area f = Some m -> size_mapped f = n -> offset_mapped f = 0 -> 0 < n ->
  (forall base len, (base, len) ∈ a -> (base, len) <> (m, n) -> m < base \/ base + len <= m) ->
  munmapAndCloseFile f a = Ok (f1, a1) ->
  filename <> [] -> os_open filename mode = fd2 -> 0 <= fd2 -> os_filesize fd2 = Some n ->
  exists f2, openAndMmapFile f1 a1 filename mode 0 0 true true = Ok (f2, a1, m) /\ ~ mapped a1 m.
Proof.
  intros Hm Hn Ho Hpos Hdisj E Hne Hop Hfd Hsz. unfold munmapAndCloseFile in E. rewrite Hm, Hn in E.
  destruct (os_munmap _ _); [|done]. cbn [mbind outcome_bind] in E.
  destruct (os_close _); [|done]. cbn [mbind outcome_bind default] in E. injection E as <- <-.
  destruct filename as [|c filename]; [done|]. unfold openAndMmapFile, ensure_open. cbn [fd].
  rewrite Z.eqb_refl, Hop. destruct (Z.ltb_spec fd2 0); [lia|]. run. unfold filesize. cbn [fd].
  rewrite Hsz. run.
  cbn [offset_mapped size_mapped memory_area]. rewrite Ho, !Z.eqb_refl. cbn [andb].
  eexists. split; [unfold pointer; cbn; do 2 f_equal; lia|].
  intros (base & len & Hin & Hr). apply list_elem_of_filter in Hin as [Hne' Hin].
  destruct (Hdisj base len Hin Hne'); lia.
Qed.

(** A part of a file: the offset is rounded down to a page and the length up,
    but the length is not extended by the offset into the page.  The mapping of
    [length] bytes at [offset] can end before the last byte asked for. *)
Lemma short_mapping filename mode r :
  pagesize = 4096 ->
  openAndMmapFile MMapedFile_new [] filename mode 4000 4096 false true = Ok r ->
  mapped r.1.2 r.2 /\ ~ mapped r.1.2 (r.2 + 4095).
Proof.
  intros Hp E. unfold openAndMmapFile in E. destruct filename as [|c filename]; [done|].
  apply bind_Ok in E as (f1 & E1 & E). unfold ensure_open in E1. cbn [fd MMapedFile_new Z.eqb] in E1.
  destruct (os_open _ _ <? 0); [done|]. injection E1 as <-.
  unfold UPPER_ALIGN_TO_PAGE, ALIGN_TO_PAGE in E. rewrite Hp in E.
  cbn [mbind outcome_bind memory_area size_mapped offset_mapped MMapedFile_new] in E.
  change (Z.land 4000 (Z.lnot (4096 - 1))) with 0 in E.
  change (to_uint64 (Z.land (4096 + (4096 - 1)) (Z.lnot (4096 - 1)))) with 4096 in E.
  change (to_uint64 (4096 + 0 - 0)) with 4096 in E. cbn [Z.eqb andb Z.leb Z.compare Pos.compare Pos.compare_cont] in E.
  destruct (os_mmap _ _ _ _) as [addr|]; [|done]. cbn in E. injection E as <-. cbn [fst snd].
  split.
  - exists addr, 4096. split; [left|lia].
  - intros (base & len & [[= -> ->]|[]%not_elem_of_nil]%elem_of_cons & Hr). lia.
Qed.

(** Closing a mapped file leaves the address and the size of the mapping in
    the object, so that opening the same file again returns the old address
    although it is no longer mapped. *)
Theorem reopen_returns_unmapped f a filename mode n m f1 a1 fd2 :
  memory_area f = Some m -> size_mapped f = n -> offset_mapped f = 0 -> 0 < n ->
  (forall base len, (base, len) ∈ a -> (base, len) <> (m, n) -> m < base \/ base + len <= m) ->
  munmapAndCloseFile f a = Ok (f1, a1) ->
  filename <> [] -> os_open filename mode = fd2 -> 0 <= fd2 -> os_filesize fd2 = Some n ->
  exists f2, openAndMmapFile f1 a1 filename mode 0 0 true true = Ok (f2, a1, m) /\ ~ mapped a1 m.
Proof. apply reopen_dangles. Qed.

(** A first mapping of the whole file covers every offset into it. *)
Theorem whole_file_mapped f a filename mode offset len r :
  openAndMmapFile f a filename mode offset len true true = Ok r ->
  memory_area f = None -> size_mapped f = 0 -> offset_mapped f = 0 -> 0 <= offset < size_mapped r.1.1 ->
  mapped r.1.2 r.2.
Proof. apply whole_file_covers. Qed.
End MMap.

(** An operating system with one file of 100 bytes, mapped at 8192. *)
Definition demo_file : MMapedFile :=
  {| fd := 3; memory_area := Some 8192; size_mapped := 100; offset_mapped := 0; reference_count := 1 |}.
Lemma reopen_returns_unmapped_witness :
  exists f2, openAndMmapFile 4096 (fun _ _ => 3) (fun _ => Some 100) (fun _ _ _ _ => Some 8192) (fun _ _ => true)
    {| fd := -1; memory_area := Some 8192; size_mapped := 100; offset_mapped := 0; reference_count := 1 |} []
    (lit "graph") READ_ONLY 0 0 true true = Ok (f2, [], 8192) /\ ~ mapped [] 8192.
Proof.
  apply (reopen_returns_unmapped 4096 (fun _ _ => 3) (fun _ => Some 100) (fun _ _ _ _ => Some 8192) (fun _ _ => true)
    (fun _ => true) demo_file [(8192, 100)] (lit "graph") READ_ONLY 100 8192 _ [] 3); try reflexivity; try lia; try done.
  intros base len Hin Hne. by apply list_elem_of_singleton in Hin.
Defined.
Lemma whole_file_mapped_witness :
  exists r, openAndMmapFile 4096 (fun _ _ => 3) (fun _ => Some 100) (fun _ _ _ _ => Some 8192) (fun _ _ => true)
    MMapedFile_new [] (lit "graph") READ_ONLY 40 0 true true = Ok r /\ mapped r.1.2 r.2.
Proof.
  eexists. split; [vm_compute; reflexivity|].
  apply (whole_file_mapped 4096 (fun _ _ => 3) (fun _ => Some 100) (fun _ _ _ _ => Some 8192) (fun _ _ => true)
    MMapedFile_new [] (lit "graph") READ_ONLY 40 0); try (vm_compute; reflexivity). cbn. lia.
Defined.
End MMap.
