(* ===== verification/LruCache.v ===== *)
(** * The LRU cache: store/lrucache.h

    [LRUCache] keeps a [std::map] from keys to the nodes of a doubly linked
    list whose head is the least recently used entry.  Nodes live in a heap:
    addresses map to nodes, [new] takes a fresh address and [delete] removes
    it; following a pointer that is null or was deleted is undefined. *)
From S2P Require Import Prelude.

Module LRUCache.
Section LRUCache.
Context {Key Value : Type} `{Countable Key}.

Abbreviation addr := Z.
Record Node := mkNode { prev : option addr; next : option addr; key : Key; value : Value }.
Abbreviation heap := (gmap addr Node).
Implicit Types (h : heap) (n : addr).

Definition set_prev (x : Node) (p : option addr) : Node := mkNode p (next x) (key x) (value x).
Definition set_next (x : Node) (p : option addr) : Node := mkNode (prev x) p (key x) (value x).

(** ** [Node] *)
Definition unlink h n : outcome heap :=
  x ← deref (h !! n);
  h ← match next x with
      | Some a => y ← deref (h !! a); Ok (<[a := set_prev y (prev x)]> h)
      | None => Ok h
      end;
  x ← deref (h !! n);
  h ← match prev x with
      | Some a => y ← deref (h !! a); Ok (<[a := set_next y (next x)]> h)
      | None => Ok h
      end;
  x ← deref (h !! n);
  Ok (<[n := mkNode None None (key x) (value x)]> h).

(** [delete n]: the destructor deletes the nodes that follow. *)
Fixpoint delete_node (fuel : nat) h n : outcome heap :=
  match fuel with
  | O => OutOfFuel
  | S fuel =>
    x ← deref (h !! n);
    h ← match next x with Some a => delete_node fuel h a | None => Ok h end;
    Ok (delete n h)
  end.

(** ** [List] *)
Record List := mkList { head : option addr; tail : option addr; size : Z }.
Implicit Types l : List.

Definition list_clear h l : outcome (heap * List) :=
  h ← match head l with Some a => delete_node (S (base.size h)) h a | None => Ok h end;
  Ok (h, mkList None None 0).

Definition pop h l : outcome (heap * List * option addr) :=
  match head l with
  | None => Ok (h, l, None)
  | Some oldHead =>
    x ← deref (h !! oldHead);
    let newHead := next x in
    h ← unlink h oldHead;
    let size := to_uint64 (size l - 1) in
    Ok (h, mkList newHead (if size =? 0 then None else tail l) size, Some oldHead)
  end.

Definition list_remove h l n : outcome (heap * List) :=
  x ← deref (h !! n);
  let hd := if decide (Some n = head l) then next x else head l in
  let tl := if decide (Some n = tail l) then prev x else tail l in
  h ← unlink h n;
  Ok (h, mkList hd tl (to_uint64 (size l - 1))).

Definition push h l n : outcome (heap * List) :=
  h ← unlink h n;
  '(h, hd) ← match head l with
             | None => Ok (h, Some n)
             | Some a =>
               b ← (if decide (head l = tail l) then Ok a else deref (tail l));
               y ← deref (h !! b);
               let h := <[b := set_next y (Some n)]> h in
               x ← deref (h !! n);
               Ok (<[n := set_prev x (Some b)]> h, head l)
             end;
  Ok (h, mkList hd (Some n) (to_uint64 (size l + 1))).

(** ** [LRUCache] *)
Record t := mk {
  hp : heap;
  brk : addr;
  m_cache : gmap Key addr;
  m_keys : List;
  m_maxSize : Z;
  m_elasticity : Z
}.
Implicit Types c : t.
Definition create (maxSize elasticity : Z) : t := mk ∅ 1 ∅ (mkList None None 0) maxSize elasticity.
Definition cache_size c : Z := Z.of_nat (base.size (m_cache c)).

Definition clear c : outcome t :=
  '(h, l) ← list_clear (hp c) (m_keys c);
  Ok (mk h (brk c) ∅ l (m_maxSize c) (m_elasticity c)).

(** [while (m_cache.size() > m_maxSize)]. *)
Fixpoint prune_loop (fuel : nat) c (count : Z) : outcome (t * Z) :=
  match fuel with
  | O => OutOfFuel
  | S fuel =>
    if m_maxSize c <? cache_size c then
      '(h, l, n) ← pop (hp c) (m_keys c);
      n ← deref n;
      x ← deref (h !! n);
      h' ← delete_node (S (base.size h)) h n;
      prune_loop fuel (mk h' (brk c) (delete (key x) (m_cache c)) l (m_maxSize c) (m_elasticity c)) (count + 1)
    else Ok (c, count)
  end.
Definition prune c : outcome (t * Z) :=
  if (0 <? m_maxSize c) && (to_uint64 (m_maxSize c + m_elasticity c) <=? cache_size c)
  then prune_loop (S (base.size (m_cache c))) c 0 else Ok (c, 0).

(** Move the node of a hit to the end of the list. *)
Definition touch c n : outcome t :=
  '(h, l) ← list_remove (hp c) (m_keys c) n;
  '(h, l) ← push h l n;
  Ok (mk h (brk c) (m_cache c) l (m_maxSize c) (m_elasticity c)).

Definition insert c (k : Key) (v : Value) : outcome t :=
  match m_cache c !! k with
  | Some n => touch c n
  | None =>
    let n := brk c in
    let h := <[n := mkNode None None k v]> (hp c) in
    '(h, l) ← push h (m_keys c) n;
    '(c, _) ← prune (mk h (brk c + 1) (<[k := n]> (m_cache c)) l (m_maxSize c) (m_elasticity c));
    Ok c
  end.

(** [get] throws [KeyNotFound]. *)
Definition get c (k : Key) : outcome (t * Value) :=
  match m_cache c !! k with
  | None => Throw
  | Some n => c ← touch c n; x ← deref (hp c !! n); Ok (c, value x)
  end.

(** [remove] unlinks the node without deleting it. *)
Definition remove c (k : Key) : outcome t :=
  match m_cache c !! k with
  | None => Ok c
  | Some n =>
    '(h, l) ← list_remove (hp c) (m_keys c) n;
    Ok (mk h (brk c) (delete k (m_cache c)) l (m_maxSize c) (m_elasticity c))
  end.
Definition contains c (k : Key) : bool := bool_decide (is_Some (m_cache c !! k)).

(** ** Segments of the list

    [dseg h p L nx]: the nodes [L], linked one to the next, between the
    predecessor [p] and the successor [nx]. *)
Abbreviation entry := (addr * (Key * Value))%type.
Implicit Types L : list entry.
Definition first L (nx : option addr) : option addr := match L with [] => nx | (a, _) :: _ => Some a end.
Definition final (p : option addr) L : option addr := match last L with None => p | Some (a, _) => Some a end.
Fixpoint dseg h (p : option addr) L (nx : option addr) : Prop :=
  match L with
  | [] => True
  | (a, (k, v)) :: L => h !! a = Some (mkNode p (first L nx) k v) /\ dseg h (Some a) L nx
  end.

Lemma final_cons p a kv L : final p ((a, kv) :: L) = final (Some a) L.
Proof. unfold final. destruct L as [|e L] using rev_ind; [done|]. by rewrite app_comm_cons, !last_snoc. Qed.
Lemma final_snoc p L a kv : final p (L ++ [(a, kv)]) = Some a.
Proof. unfold final. by rewrite last_snoc. Qed.
Lemma first_app L1 L2 nx : first (L1 ++ L2) nx = first L1 (first L2 nx).
Proof. by destruct L1 as [|[a kv] L1]. Qed.

Lemma dseg_app h p L1 L2 nx :
  dseg h p (L1 ++ L2) nx <-> dseg h p L1 (first L2 nx) /\ dseg h (final p L1) L2 nx.
Proof.
  revert p. induction L1 as [|[a [k v]] L1 IH]; intros p.
  - cbn. naive_solver.
  - rewrite final_cons. cbn [app dseg]. rewrite IH, first_app. naive_solver.
Qed.

Lemma dseg_frame h h' p L nx :
  (forall a, a ∈ L.*1 -> h' !! a = h !! a) -> dseg h p L nx -> dseg h' p L nx.
Proof.
  revert p. induction L as [|[a [k v]] L IH]; intros p Hf Hd; [done|]. cbn in *. destruct Hd as [Ha Hd].
  split; [rewrite Hf by left; done|]. apply IH; [|done]. intros b Hb. apply Hf. by right.
Qed.

Lemma dseg_insert_ne h p L nx a x : a ∉ L.*1 -> dseg h p L nx -> dseg (<[a := x]> h) p L nx.
Proof. intros Ha. apply dseg_frame. intros b Hb. apply lookup_insert_ne. by intros ->. Qed.

(** Redirecting the links at both ends of a segment. *)
Lemma dseg_set_prev h p p' a kv L nx x :
  NoDup (((a, kv) :: L).*1) -> dseg h p ((a, kv) :: L) nx -> h !! a = Some x ->
  dseg (<[a := set_prev x p']> h) p' ((a, kv) :: L) nx.
Proof.
  destruct kv as [k v]. intros [Hni _]%NoDup_cons [Ha Hd] Hx. cbn in *.
  rewrite Ha in Hx. injection Hx as <-. rewrite lookup_insert_eq. split; [done|]. by apply dseg_insert_ne.
Qed.

Lemma dseg_set_next h p L a kv nx nx' x :
  NoDup ((L ++ [(a, kv)]).*1) -> dseg h p (L ++ [(a, kv)]) nx -> h !! a = Some x ->
  dseg (<[a := set_next x nx']> h) p (L ++ [(a, kv)]) nx'.
Proof.
  destruct kv as [k v]. rewrite fmap_app. intros (_ & Hni & _)%NoDup_app Hd Hx.
  apply dseg_app in Hd as [Hd [Ha _]]. rewrite Ha in Hx. injection Hx as <-. apply dseg_app.
  split; [apply dseg_insert_ne; [intros Hin; apply (Hni _ Hin); left|done]|].
  cbn. by rewrite lookup_insert_eq.
Qed.
(** ** [unlink] takes a node out of the list *)
Lemma nodup_middle (L1 L2 : list addr) a :
  NoDup (L1 ++ a :: L2) -> a ∉ L1 /\ a ∉ L2 /\ NoDup L1 /\ NoDup L2 /\ (forall b, b ∈ L1 -> b ∉ L2).
Proof.
  intros (H1 & H2 & [H3 H4]%NoDup_cons)%NoDup_app. split_and!; try done.
  - intros Hin. apply (H2 _ Hin). left.
  - intros b Hb Hb'. apply (H2 _ Hb). by right.
Qed.

Lemma unlink_next h L1 a k v L2 :
  NoDup ((L1 ++ (a, (k, v)) :: L2).*1) -> dseg h None (L1 ++ (a, (k, v)) :: L2) None ->
  exists h1, (match first L2 None with
              | Some b => y ← deref (h !! b); Ok (<[b := set_prev y (final None L1)]> h)
              | None => Ok h
              end) = Ok h1 /\
    dseg h1 None L1 (Some a) /\ h1 !! a = Some (mkNode (final None L1) (first L2 None) k v) /\
    dseg h1 (final None L1) L2 None /\
    (forall b, b ∉ ((L1 ++ (a, (k, v)) :: L2).*1) -> h1 !! b = h !! b).
Proof.
  intros Hnd Hd. apply dseg_app in Hd as [Hd1 [Ha Hd2]]. rewrite fmap_app in Hnd. cbn in Hnd.
  destruct (nodup_middle _ _ _ Hnd) as (Hn1 & Hn2 & Hnd1 & Hnd2 & Hdis).
  destruct L2 as [|[b kvb] L2]; [by exists h|].
  assert (exists y, h !! b = Some y) as [y Hy] by (destruct kvb; destruct Hd2 as [Hb _]; eauto).
  cbn [first]. rewrite Hy. run. eexists. split; [done|]. cbn in Hn2.
  assert (a <> b) by (intros ->; apply Hn2; left).
  assert (b ∉ L1.*1) by (intros Hin; apply (Hdis _ Hin); left).
  split_and!.
  - by apply dseg_insert_ne.
  - by rewrite lookup_insert_ne.
  - by eapply dseg_set_prev.
  - intros b' Hb'. rewrite lookup_insert_ne; [done|]. intros <-. apply Hb'.
    rewrite fmap_app. apply elem_of_app. right. right. left.
Qed.

Lemma unlink_spec h L1 a k v L2 :
  NoDup ((L1 ++ (a, (k, v)) :: L2).*1) -> dseg h None (L1 ++ (a, (k, v)) :: L2) None ->
  exists h', unlink h a = Ok h' /\ dseg h' None (L1 ++ L2) None /\
    h' !! a = Some (mkNode None None k v) /\
    (forall b, b ∉ ((L1 ++ (a, (k, v)) :: L2).*1) -> h' !! b = h !! b).
Proof.
  intros Hnd Hd. destruct (unlink_next h L1 a k v L2 Hnd Hd) as (h1 & E1 & Hd1 & Ha1 & Hd2 & Hf1).
  assert (h !! a = Some (mkNode (final None L1) (first L2 None) k v)) as Ha
    by (by apply dseg_app in Hd as [_ [Ha _]]).
  unfold unlink. rewrite Ha. run. cbn [next prev]. rewrite E1. run. rewrite Ha1. run. cbn [next prev].
  rewrite fmap_app in Hnd. cbn in Hnd.
  destruct (nodup_middle _ _ _ Hnd) as (Hn1 & Hn2 & Hnd1 & Hnd2 & Hdis).
  destruct L1 as [|[c kvc] L1 _] using rev_ind.
  - change (final None []) with (@None addr) in *. run. rewrite Ha1. run. eexists. split; [done|]. split_and!.
    + by apply dseg_insert_ne.
    + apply lookup_insert_eq.
    + intros b Hb. rewrite lookup_insert_ne by (intros <-; apply Hb; left). by apply Hf1.
  - rewrite final_snoc in *. rewrite fmap_app in Hn1, Hdis. cbn in Hn1, Hdis.
    assert (c <> a) by (intros ->; apply Hn1, elem_of_app; right; left).
    assert (c ∉ L2.*1) by (apply Hdis, elem_of_app; right; left).
    assert (exists y, h1 !! c = Some y) as [y Hy].
    { apply dseg_app in Hd1 as [_ Hc]. destruct kvc. destruct Hc as [Hc _]. eauto. }
    rewrite Hy. run. rewrite lookup_insert_ne, Ha1 by done. run. eexists. split; [done|]. split_and!.
    + apply dseg_insert_ne; [rewrite fmap_app; intros [Hin|Hin]%elem_of_app; [|done];
        by rewrite fmap_app in Hin|].
      apply dseg_app. split.
      * by eapply dseg_set_next.
      * rewrite final_snoc. by apply dseg_insert_ne.
    + apply lookup_insert_eq.
    + intros b Hb. rewrite !lookup_insert_ne; [by apply Hf1| |]; intros <-; apply Hb; rewrite !fmap_app.
      * apply elem_of_app. left. apply elem_of_app. right. left.
      * apply elem_of_app. right. left.
Qed.
(** ** The list operations *)
Record lrep h l L : Prop := {
  l_seg : dseg h None L None;
  l_nodup : NoDup (L.*1);
  l_head : head l = first L None;
  l_tail : tail l = final None L;
  l_size : size l = Z.of_nat (length L);
  l_small : Z.of_nat (length L) < 2 ^ 64
}.

Lemma nodup_remove (L1 L2 : list entry) x :
  NoDup ((L1 ++ x :: L2).*1) -> NoDup ((L1 ++ L2).*1).
Proof.
  rewrite !fmap_app. cbn. intros (H1 & H2 & [H3 H4]%NoDup_cons)%NoDup_app. apply NoDup_app.
  split_and!; try done. intros b Hb Hb'. apply (H2 _ Hb). by right.
Qed.

Lemma final_ne (L1 L2 : list entry) a kv x p :
  NoDup ((L1 ++ (a, kv) :: x :: L2).*1) -> final p (L1 ++ (a, kv) :: x :: L2) = final p (L1 ++ x :: L2) /\
  final p (L1 ++ (a, kv) :: x :: L2) <> Some a.
Proof.
  intros Hnd. destruct (exists_last (l := x :: L2)) as (L3 & [z kvz] & E); [done|]. rewrite E in *.
  change ((a, kv) :: L3 ++ [(z, kvz)]) with (((a, kv) :: L3) ++ [(z, kvz)]) in *.
  rewrite !app_assoc, !final_snoc in *. split; [done|]. intros [= ->].
  rewrite !fmap_app in Hnd. apply NoDup_app in Hnd as (_ & Hni & _). apply (Hni a); [|left].
  apply elem_of_app. right. left.
Qed.

Lemma list_remove_spec h l L1 a k v L2 :
  lrep h l (L1 ++ (a, (k, v)) :: L2) ->
  exists h' l', list_remove h l a = Ok (h', l') /\ lrep h' l' (L1 ++ L2) /\
    h' !! a = Some (mkNode None None k v) /\
    (forall b, b ∉ ((L1 ++ (a, (k, v)) :: L2).*1) -> h' !! b = h !! b).
Proof.
  intros [Hd Hnd Hh Ht Hs Hsm]. destruct (unlink_spec h L1 a k v L2 Hnd Hd) as (h' & E & Hd' & Ha & Hf).
  assert (h !! a = Some (mkNode (final None L1) (first L2 None) k v)) as Hx
    by (by apply dseg_app in Hd as [_ [Hx _]]).
  unfold list_remove. rewrite Hx, E. run. eexists h', _. split; [done|]. split; [|done].
  rewrite length_app in Hs, Hsm. cbn in Hs, Hsm.
  split; cbn [head tail size]; [done|by eapply nodup_remove| | | |rewrite length_app; lia].
  - rewrite Hh, first_app. cbn [first next]. destruct L1 as [|[b kvb] L1]; cbn [first app].
    + by rewrite decide_True.
    + rewrite decide_False; [done|]. intros [= ->]. cbn in Hnd. apply NoDup_cons in Hnd as [Hni _].
      apply Hni. rewrite fmap_app. apply elem_of_app. right. left.
  - rewrite Ht. cbn [prev]. destruct L2 as [|x L2].
    + rewrite final_snoc, decide_True by done. by rewrite app_nil_r.
    + destruct (final_ne L1 L2 a (k, v) x None Hnd) as [<- Hne]. by rewrite decide_False.
  - rewrite Hs, length_app. unfold wrapu. rewrite Z.mod_small by lia. lia.
Qed.

Lemma unlink_isolated h a k v :
  h !! a = Some (mkNode None None k v) -> unlink h a = Ok h.
Proof. intros Ha. unfold unlink. rewrite Ha. run. cbn. rewrite Ha. run. cbn. rewrite Ha. run. by rewrite insert_id. Qed.

Lemma push_spec h l L a k v :
  lrep h l L -> a ∉ L.*1 -> h !! a = Some (mkNode None None k v) -> Z.of_nat (length L) + 1 < 2 ^ 64 ->
  exists h' l', push h l a = Ok (h', l') /\ lrep h' l' (L ++ [(a, (k, v))]) /\
    (forall b, b ∉ ((L ++ [(a, (k, v))]).*1) -> h' !! b = h !! b).
Proof.
  intros [Hd Hnd Hh Ht Hs Hsm] Hni Ha Hmax. unfold push. rewrite (unlink_isolated h a k v Ha). run. rewrite Hh.
  assert (NoDup ((L ++ [(a, (k, v))]).*1)) as Hnd'.
  { rewrite fmap_app. apply NoDup_app. split_and!; [done| |apply NoDup_singleton].
    intros b Hb ->%list_elem_of_singleton. done. }
  assert (to_uint64 (size l + 1) = Z.of_nat (length (L ++ [(a, (k, v))]))) as Hsz.
  { rewrite Hs, length_app. unfold wrapu. rewrite Z.mod_small by lia. cbn. lia. }
  destruct (decide (L = [])) as [->|Hne].
  { cbn [first]. run. eexists h, _. split; [done|]. split; [|done].
    by split. }
  destruct (exists_last Hne) as (L0 & [z kvz] & ->).
  assert (exists a0, first (L0 ++ [(z, kvz)]) None = Some a0 /\
    (if decide (Some a0 = tail l) then Ok a0 else deref (tail l)) = Ok z) as (a0 & Ea0 & Eb).
  { rewrite Ht, final_snoc. destruct L0 as [|[b kvb] L0]; cbn; eexists; (split; [done|]);
      case_decide; try done. by simplify_eq. }
  rewrite Ea0, Eb. run.
  assert (z <> a) as Hza by (intros ->; apply Hni; rewrite fmap_app; apply elem_of_app; right; left).
  assert (exists y, h !! z = Some y) as [y Hy].
  { apply dseg_app in Hd as [_ Hz]. destruct kvz. destruct Hz as [Hz _]. eauto. }
  rewrite Hy. run. rewrite lookup_insert_ne, Ha by done. run. eexists _, _. split; [done|]. split.
  - split; cbn [head tail size]; try done.
    + apply dseg_app. split.
      * apply dseg_insert_ne; [done|]. by eapply dseg_set_next.
      * rewrite final_snoc. cbn. by rewrite lookup_insert_eq.
    + rewrite <- Ea0. by destruct L0 as [|[? ?] ?].
    + by rewrite final_snoc.
    + rewrite length_app. cbn. lia.
  - intros b Hb. rewrite !lookup_insert_ne; [done| |]; intros <-; apply Hb; rewrite !fmap_app.
    + apply elem_of_app. left. apply elem_of_app. right. left.
    + apply elem_of_app. right. left.
Qed.

Lemma pop_spec h l a k v L :
  lrep h l ((a, (k, v)) :: L) ->
  exists h' l', pop h l = Ok (h', l', Some a) /\ lrep h' l' L /\
    h' !! a = Some (mkNode None None k v) /\
    (forall b, b ∉ (((a, (k, v)) :: L).*1) -> h' !! b = h !! b).
Proof.
  intros [Hd Hnd Hh Ht Hs Hsm]. destruct (unlink_spec h [] a k v L Hnd Hd) as (h' & E & Hd' & Ha & Hf).
  assert (h !! a = Some (mkNode None (first L None) k v)) as Hx by apply Hd.
  unfold pop. rewrite Hh. cbn [first]. rewrite Hx. run. rewrite E. run. eexists h', _. split; [done|].
  split; [|done]. cbn in Hs, Hsm.
  assert (to_uint64 (size l - 1) = Z.of_nat (length L)) as Hsz
    by (rewrite Hs; unfold wrapu; rewrite Z.mod_small by lia; lia).
  split; cbn [head tail size]; try done.
  - cbn in Hnd. by apply NoDup_cons in Hnd as [_ ?].
  - rewrite Hsz. destruct L as [|x L]; cbn [length]; [done|].
    destruct (Z.eqb_spec (Z.of_nat (S (length L))) 0); [lia|]. rewrite Ht. 
    destruct (final_ne [] L a (k, v) x None Hnd) as [-> _]. done.
  - lia.
Qed.
(** ** The cache as a list of entries, least recently used first *)
Definition idx L : list (Key * addr) := (fun e => (e.2.1, e.1)) <$> L.
Record rep c L : Prop := {
  r_list : lrep (hp c) (m_keys c) L;
  r_keys : NoDup ((idx L).*1);
  r_map : m_cache c = list_to_map (idx L);
  r_fresh : forall a, is_Some (hp c !! a) -> a < brk c
}.

Lemma idx_app L1 L2 : idx (L1 ++ L2) = idx L1 ++ idx L2.
Proof. apply fmap_app. Qed.

Lemma rep_size c L : rep c L -> base.size (m_cache c) = length L.
Proof. intros Hr. rewrite (r_map _ _ Hr), map_size_list_to_map by apply Hr. apply length_fmap. Qed.

Lemma rep_lookup c L k n :
  rep c L -> m_cache c !! k = Some n -> exists v L1 L2, L = L1 ++ (n, (k, v)) :: L2.
Proof.
  intros Hr Hk. rewrite (r_map _ _ Hr) in Hk. apply elem_of_list_to_map in Hk; [|apply Hr].
  apply list_elem_of_fmap in Hk as ([a [k' v]] & [= -> ->] & Hin).
  apply list_elem_of_split in Hin as (L1 & L2 & ->). by exists v, L1, L2.
Qed.

Lemma rep_lookup_None c L k : rep c L -> m_cache c !! k = None -> k ∉ (idx L).*1.
Proof. intros Hr Hk. rewrite (r_map _ _ Hr) in Hk. by apply not_elem_of_list_to_map. Qed.

Lemma fresh_update h h' (b : addr) (X : list addr) :
  (forall a, is_Some (h !! a) -> a < b) -> (forall a, a ∈ X -> a < b) ->
  (forall a, a ∉ X -> h' !! a = h !! a) -> forall a, is_Some (h' !! a) -> a < b.
Proof.
  intros Hh HX Hf a Ha. destruct (decide (a ∈ X)) as [Hin|Hni]; [by apply HX|].
  apply Hh. by rewrite <- Hf.
Qed.

Lemma dseg_allocated h p L nx a : dseg h p L nx -> a ∈ L.*1 -> is_Some (h !! a).
Proof.
  revert p. induction L as [|[b [k v]] L IH]; intros p Hd Ha; [by apply not_elem_of_nil in Ha|].
  cbn in *. destruct Hd as [Hb Hd]. apply elem_of_cons in Ha as [->|Ha]; [by rewrite Hb|by eapply IH].
Qed.

Lemma rep_allocated c L a : rep c L -> a ∈ L.*1 -> a < brk c.
Proof. intros Hr Ha. apply (r_fresh _ _ Hr). eapply dseg_allocated; [apply (l_seg _ _ _ (r_list _ _ Hr))|done]. Qed.

(** A hit moves the node to the end. *)
Lemma touch_spec c L1 n k v L2 :
  rep c (L1 ++ (n, (k, v)) :: L2) ->
  exists c', touch c n = Ok c' /\ rep c' (L1 ++ L2 ++ [(n, (k, v))]) /\
    m_maxSize c' = m_maxSize c /\ m_elasticity c' = m_elasticity c /\ m_cache c' = m_cache c.
Proof.
  intros Hr. destruct (list_remove_spec _ _ _ _ _ _ _ (r_list _ _ Hr)) as (h1 & l1 & E1 & Hl1 & Hn & Hf1).
  assert (n ∉ (L1 ++ L2).*1) as Hni.
  { pose proof (l_nodup _ _ _ (r_list _ _ Hr)) as Hnd. rewrite fmap_app in Hnd. cbn in Hnd.
    destruct (nodup_middle _ _ _ Hnd) as (? & ? & _). rewrite fmap_app. intros [?|?]%elem_of_app; done. }
  pose proof (l_small _ _ _ (r_list _ _ Hr)) as Hsm. rewrite length_app in Hsm. cbn in Hsm.
  destruct (push_spec h1 l1 (L1 ++ L2) n k v Hl1 Hni Hn) as (h2 & l2 & E2 & Hl2 & Hf2).
  { rewrite length_app. lia. }
  unfold touch. rewrite E1. run. rewrite E2. run. eexists. split; [done|]. split; [|done].
  assert (L1 ++ L2 ++ [(n, (k, v))] ≡ₚ L1 ++ (n, (k, v)) :: L2) as Hp.
  { rewrite (Permutation_app_comm L2). cbn. done. }
  split; cbn [hp m_cache m_keys brk].
  - by rewrite app_assoc.
  - unfold idx. rewrite Hp. apply Hr.
  - rewrite (r_map _ _ Hr). apply list_to_map_proper; [apply Hr|]. unfold idx. by rewrite Hp.
  - apply (fresh_update (hp c) _ _ ((L1 ++ (n, (k, v)) :: L2).*1)); [apply Hr|intros a Ha; by eapply rep_allocated|].
    intros a Ha. rewrite Hf2, Hf1; [done|done|]. rewrite <- app_assoc. by rewrite Hp.
Qed.

(** ** Eviction *)
Lemma delete_isolated h n k v fuel :
  h !! n = Some (mkNode None None k v) -> delete_node (S fuel) h n = Ok (delete n h).
Proof. intros Hn. cbn [delete_node]. rewrite Hn. run. done. Qed.

Lemma delete_first (k : Key) (n : addr) (l : list (Key * addr)) :
  NoDup (((k, n) :: l).*1) -> delete k (list_to_map ((k, n) :: l) : gmap Key addr) = list_to_map l.
Proof.
  intros [Hk _]%NoDup_cons. cbn. rewrite delete_insert_id; [done|]. by apply not_elem_of_list_to_map_1.
Qed.

Lemma evict_spec c n k v L :
  rep c ((n, (k, v)) :: L) ->
  exists h l, pop (hp c) (m_keys c) = Ok (h, l, Some n) /\ h !! n = Some (mkNode None None k v) /\
    rep (mk (delete n h) (brk c) (delete k (m_cache c)) l (m_maxSize c) (m_elasticity c)) L.
Proof.
  intros Hr. destruct (pop_spec _ _ _ _ _ _ (r_list _ _ Hr)) as (h & l & E & Hl & Hn & Hf).
  exists h, l. split; [done|]. split; [done|].
  pose proof (l_nodup _ _ _ (r_list _ _ Hr)) as Hnd. cbn in Hnd. apply NoDup_cons in Hnd as [Hni _].
  split; cbn [hp m_cache m_keys brk].
  - destruct Hl as [Hd ? ? ? ? ?]. split; try done. eapply dseg_frame; [|done].
    intros a Ha. apply lookup_delete_ne. by intros ->.
  - pose proof (r_keys _ _ Hr) as Hk. cbn in Hk. by apply NoDup_cons in Hk as [_ ?].
  - rewrite (r_map _ _ Hr). apply delete_first, (r_keys _ _ Hr).
  - intros a Ha. apply lookup_delete_is_Some in Ha as [_ Ha]. revert a Ha.
    apply (fresh_update (hp c) _ _ (((n, (k, v)) :: L).*1)); [apply Hr|intros a Ha; by eapply rep_allocated|done].
Qed.

Lemma prune_loop_spec fuel c L count :
  rep c L -> 0 <= m_maxSize c -> (length L < fuel)%nat ->
  exists c' count', prune_loop fuel c count = Ok (c', count') /\
    rep c' (drop (length L - Z.to_nat (m_maxSize c)) L) /\
    m_maxSize c' = m_maxSize c /\ m_elasticity c' = m_elasticity c.
Proof.
  revert c L count. induction fuel as [|fuel IH]; intros c L count Hr Hm Hf; [lia|].
  cbn [prune_loop]. unfold cache_size. rewrite (rep_size c L Hr).
  destruct (Z.ltb_spec (m_maxSize c) (Z.of_nat (length L))) as [Hlt|Hge].
  - destruct L as [|[n [k v]] L]; [cbn in Hlt; lia|].
    destruct (evict_spec c n k v L Hr) as (h & l & E & Hn & Hr').
    rewrite E. run. rewrite Hn. run. rewrite (delete_isolated h n k v _ Hn). run. cbn [key].
    destruct (IH _ L (count + 1) Hr') as (c' & count' & E' & Hr2 & Hm2 & He2); [done|cbn in Hf; lia|].
    exists c', count'. cbn [m_maxSize m_elasticity] in *. split_and!; try done.
    replace (length ((n, (k, v)) :: L) - Z.to_nat (m_maxSize c))%nat
      with (S (length L - Z.to_nat (m_maxSize c)))%nat by (cbn [length] in *; lia). done.
  - exists c, count. replace (length L - Z.to_nat (m_maxSize c))%nat with 0%nat by lia. done.
Qed.

(** ** The abstract cache *)
Definition trim (maxSize elasticity : Z) (E : list (Key * Value)) : list (Key * Value) :=
  if (0 <? maxSize) && (to_uint64 (maxSize + elasticity) <=? Z.of_nat (length E))
  then drop (length E - Z.to_nat maxSize) E else E.
Definition others (k : Key) (E : list (Key * Value)) : list (Key * Value) := filter (fun x => x.1 <> k) E.
Definition same (k : Key) (E : list (Key * Value)) : list (Key * Value) := filter (fun x => x.1 = k) E.

Lemma absent_key k (E : list (Key * Value)) : k ∉ E.*1 -> others k E = E /\ same k E = [].
Proof.
  induction E as [|[k' v'] E IH]; intros Hk; [done|]. cbn in Hk. apply not_elem_of_cons in Hk as [Hne Hk].
  destruct (IH Hk) as [Ho Hs]. unfold others, same in *. rewrite !filter_cons, Ho, Hs. cbn.
  rewrite decide_True, decide_False by congruence. done.
Qed.

Lemma split_key E1 (k : Key) (v : Value) E2 :
  NoDup ((E1 ++ (k, v) :: E2).*1) ->
  others k (E1 ++ (k, v) :: E2) = E1 ++ E2 /\ same k (E1 ++ (k, v) :: E2) = [(k, v)].
Proof.
  rewrite fmap_app. cbn. intros (H1 & H2 & [H3 H4]%NoDup_cons)%NoDup_app.
  assert (k ∉ E1.*1) as Hk1 by (intros Hin; apply (H2 _ Hin); left).
  destruct (absent_key _ _ Hk1) as [Ho1 Hs1], (absent_key _ _ H3) as [Ho2 Hs2]. unfold others, same in *.
  rewrite !filter_app, !filter_cons, Ho1, Hs1, Ho2, Hs2. cbn. by rewrite decide_False, decide_True by naive_solver.
Qed.

Lemma idx_keys L : (idx L).*1 = L.*2.*1.
Proof. unfold idx. rewrite <- !list_fmap_compose. done. Qed.

Lemma rep_split c L1 n k v L2 :
  rep c (L1 ++ (n, (k, v)) :: L2) ->
  others k ((L1 ++ (n, (k, v)) :: L2).*2) = L1.*2 ++ L2.*2 /\
  same k ((L1 ++ (n, (k, v)) :: L2).*2) = [(k, v)].
Proof.
  intros Hr. pose proof (r_keys _ _ Hr) as Hk. rewrite idx_keys, fmap_app in Hk. rewrite fmap_app.
  by apply split_key.
Qed.

Lemma insert_hit c L k v n :
  rep c L -> m_cache c !! k = Some n ->
  exists c' L', insert c k v = Ok c' /\ rep c' L' /\ L'.*2 = others k (L.*2) ++ same k (L.*2).
Proof.
  intros Hr Hk. destruct (rep_lookup c L k n Hr Hk) as (v0 & L1 & L2 & ->).
  destruct (touch_spec c L1 n k v0 L2 Hr) as (c' & E & Hr' & _). unfold insert. rewrite Hk.
  exists c', (L1 ++ L2 ++ [(n, (k, v0))]). split_and!; try done.
  destruct (rep_split c L1 n k v0 L2 Hr) as [-> ->]. by rewrite !fmap_app, <- app_assoc.
Qed.

Lemma insert_miss c L k v :
  rep c L -> m_cache c !! k = None -> 0 <= m_maxSize c -> Z.of_nat (length L) + 1 < 2 ^ 64 ->
  exists c' L', insert c k v = Ok c' /\ rep c' L' /\
    L'.*2 = trim (m_maxSize c) (m_elasticity c) (L.*2 ++ [(k, v)]).
Proof.
  intros Hr Hk Hm Hmax. unfold insert. rewrite Hk.
  set (n := brk c). set (h := <[n := mkNode None None k v]> (hp c)).
  assert (n ∉ L.*1) as Hni by (intros Hin; pose proof (rep_allocated c L n Hr Hin); subst n; lia).
  assert (lrep h (m_keys c) L) as Hl.
  { destruct (r_list _ _ Hr) as [Hd ? ? ? ? ?]. split; try done. by apply dseg_insert_ne. }
  destruct (push_spec h (m_keys c) L n k v Hl Hni) as (h' & l' & E & Hl' & Hf);
    [apply lookup_insert_eq|done|]. rewrite E. run.
  set (c1 := mk h' (n + 1) (<[k := n]> (m_cache c)) l' (m_maxSize c) (m_elasticity c)).
  assert (rep c1 (L ++ [(n, (k, v))])) as Hr1.
  { pose proof (rep_lookup_None c L k Hr Hk) as Hkn. split; cbn [hp m_cache m_keys brk c1].
    - done.
    - rewrite idx_app, fmap_app. apply NoDup_app. split_and!; [apply Hr| |apply NoDup_singleton].
      intros x Hx ->%list_elem_of_singleton. done.
    - rewrite idx_app, (r_map _ _ Hr). symmetry. by apply list_to_map_snoc.
    - apply (fresh_update h _ _ ((L ++ [(n, (k, v))]).*1)); [| |done].
      + intros a [x Hx]. apply lookup_insert_Some in Hx as [[<- _]|[_ Hx]]; [lia|].
        assert (a < n) by (apply (r_fresh _ _ Hr); by rewrite Hx). lia.
      + intros a Ha. rewrite fmap_app in Ha. apply elem_of_app in Ha as [Ha|Ha].
        * pose proof (rep_allocated c L a Hr Ha). subst n. lia.
        * apply list_elem_of_singleton in Ha. cbn in Ha. lia. }
  unfold prune, trim, cache_size. rewrite (rep_size c1 _ Hr1). cbn [m_maxSize m_elasticity c1].
  rewrite !length_app, length_fmap. cbn [length].
  destruct ((0 <? m_maxSize c) && _) eqn:Hp; run.
  - destruct (prune_loop_spec (S (length L + 1)) c1 _ 0 Hr1) as (c' & cnt & E' & Hr' & _ & _);
      [done|rewrite length_app; cbn; lia|]. rewrite E'. run. eexists _, _. split; [done|]. split; [done|].
    rewrite fmap_drop, fmap_app, length_app. done.
  - eexists _, _. split; [done|]. split; [done|]. by rewrite fmap_app.
Qed.

Lemma get_hit c L k v n :
  rep c L -> m_cache c !! k = Some n -> (k, v) ∈ L.*2 ->
  exists c' L', get c k = Ok (c', v) /\ rep c' L' /\ L'.*2 = others k (L.*2) ++ same k (L.*2).
Proof.
  intros Hr Hk Hv. destruct (rep_lookup c L k n Hr Hk) as (v0 & L1 & L2 & ->).
  destruct (touch_spec c L1 n k v0 L2 Hr) as (c' & E & Hr' & _). unfold get. rewrite Hk, E. run.
  destruct (rep_split c L1 n k v0 L2 Hr) as [Ho Hs].
  assert (v = v0) as ->.
  { assert ((k, v) ∈ same k ((L1 ++ (n, (k, v0)) :: L2).*2)) as Hin by (by apply list_elem_of_filter).
    rewrite Hs in Hin. apply list_elem_of_singleton in Hin. by injection Hin. }
  assert (exists p q, hp c' !! n = Some (mkNode p q k v0)) as (p & q & ->).
  { pose proof (l_seg _ _ _ (r_list _ _ Hr')) as Hd. rewrite app_assoc in Hd.
    apply dseg_app in Hd as [_ [Hn _]]. eauto. }
  run. exists c', (L1 ++ L2 ++ [(n, (k, v0))]). split_and!; try done.
  rewrite Ho, Hs. by rewrite !fmap_app, <- app_assoc.
Qed.

Lemma remove_spec c L k :
  rep c L ->
  exists c' L', remove c k = Ok c' /\ rep c' L' /\ L'.*2 = others k (L.*2).
Proof.
  intros Hr. unfold remove. destruct (m_cache c !! k) as [n|] eqn:Hk.
  - destruct (rep_lookup c L k n Hr Hk) as (v & L1 & L2 & ->).
    destruct (list_remove_spec _ _ _ _ _ _ _ (r_list _ _ Hr)) as (h & l & E & Hl & Hn & Hf).
    rewrite E. run. eexists _, (L1 ++ L2). split; [done|].
    destruct (rep_split c L1 n k v L2 Hr) as [-> _]. split; [|by rewrite fmap_app].
    assert (idx (L1 ++ (n, (k, v)) :: L2) ≡ₚ (k, n) :: idx (L1 ++ L2)) as Hp.
    { rewrite !idx_app. cbn. by rewrite Permutation_middle. }
    pose proof (r_keys _ _ Hr) as Hnd. rewrite Hp in Hnd.
    split; cbn [hp m_cache m_keys brk]; [done|cbn in Hnd; by apply NoDup_cons in Hnd as [_ ?]| |].
    + rewrite (r_map _ _ Hr). rewrite (list_to_map_proper _ _ (r_keys _ _ Hr) Hp). by apply delete_first.
    + apply (fresh_update (hp c) _ _ ((L1 ++ (n, (k, v)) :: L2).*1)); [apply Hr|intros a Ha; by eapply rep_allocated|done].
  - exists c, L. split_and!; try done. pose proof (rep_lookup_None c L k Hr Hk) as Hni.
    rewrite idx_keys in Hni. symmetry. by apply absent_key.
Qed.
(** ** [clear] deletes the whole chain through the destructors *)
Lemma delete_chain fuel h p a kv L :
  dseg h p ((a, kv) :: L) None -> NoDup (((a, kv) :: L).*1) -> (length L < fuel)%nat ->
  exists h', delete_node fuel h a = Ok h' /\
    forall b, h' !! b = if decide (b ∈ ((a, kv) :: L).*1) then None else h !! b.
Proof.
  revert fuel p a kv. induction L as [|[b kvb] L IH]; intros fuel p a [k v] [Ha Hd] Hnd Hf;
    (destruct fuel as [|fuel]; [lia|]); cbn [delete_node]; rewrite Ha; run; cbn [next first].
  - run. eexists. split; [done|]. intros c. cbn. destruct (decide (c = a)) as [->|Hne].
    + rewrite lookup_delete_eq, decide_True by left. done.
    + rewrite lookup_delete_ne, decide_False by set_solver. done.
  - apply NoDup_cons in Hnd as [Hni Hnd].
    destruct (IH fuel (Some a) b kvb Hd Hnd) as (h1 & E1 & H1); [cbn in Hf; lia|]. rewrite E1. run.
    eexists. split; [done|]. intros c. destruct (decide (c = a)) as [->|Hne].
    + rewrite lookup_delete_eq, decide_True by left. done.
    + rewrite lookup_delete_ne, H1 by done.
      destruct (decide (c ∈ ((b, kvb) :: L).*1)) as [Hin|Hin].
      * by rewrite decide_True by (by right).
      * rewrite decide_False; [done|]. intros [->|?]%elem_of_cons; done.
Qed.

Lemma chain_length h p L nx : dseg h p L nx -> NoDup (L.*1) -> (length L <= base.size h)%nat.
Proof.
  intros Hd Hnd. rewrite <- (length_fmap fst L), <- (size_list_to_set (C := gset addr) (L.*1)) by done.
  rewrite <- size_dom. apply subseteq_size. intros a Ha. apply elem_of_list_to_set in Ha.
  apply elem_of_dom. by eapply dseg_allocated.
Qed.

Lemma lru_clear_spec c L : rep c L -> exists c', clear c = Ok c' /\ rep c' [].
Proof.
  intros Hr. unfold clear, list_clear. rewrite (l_head _ _ _ (r_list _ _ Hr)).
  pose proof (l_seg _ _ _ (r_list _ _ Hr)) as Hd. pose proof (l_nodup _ _ _ (r_list _ _ Hr)) as Hnd.
  assert (exists h', (match first L None with Some a => delete_node (S (base.size (hp c))) (hp c) a | None => Ok (hp c) end) = Ok h'
    /\ forall a, is_Some (h' !! a) -> is_Some (hp c !! a)) as (h' & E & Hs).
  { destruct L as [|[a kv] L]; [by exists (hp c)|]. cbn [first].
    pose proof (chain_length _ _ _ _ Hd Hnd) as Hlen. cbn in Hlen.
    destruct (delete_chain (S (base.size (hp c))) (hp c) None a kv L Hd Hnd) as (h' & E & Hh); [lia|].
    exists h'. split; [done|]. intros b. rewrite Hh. case_decide; [by intros []|done]. }
  rewrite E. run. eexists. split; [done|]. split; cbn [hp m_cache m_keys brk]; [split; try done; constructor|constructor|done|].
  intros a Ha. by apply (r_fresh _ _ Hr), Hs.
Qed.

(** ** The cache as a list of entries, the least recently used first *)
Inductive op := Insert (k : Key) (v : Value) | Get (k : Key) | Remove (k : Key) | Clear.

(** What a caller sees: the value of a [get], or that it threw. *)
Definition exec c (o : op) : outcome (t * option Value) :=
  match o with
  | Insert k v => c ← insert c k v; Ok (c, None)
  | Get k => match get c k with
             | Throw => Ok (c, None)
             | r => '(c, v) ← r; Ok (c, Some v)
             end
  | Remove k => c ← remove c k; Ok (c, None)
  | Clear => c ← clear c; Ok (c, None)
  end.
Definition exec_spec (maxSize elasticity : Z) (E : list (Key * Value)) (o : op) :
    list (Key * Value) * option Value :=
  match o with
  | Insert k v => match same k E with
                  | [] => (trim maxSize elasticity (E ++ [(k, v)]), None)
                  | s => (others k E ++ s, None)
                  end
  | Get k => match same k E with
             | [] => (E, None)
             | (_, v) :: _ => (others k E ++ same k E, Some v)
             end
  | Remove k => (others k E, None)
  | Clear => ([], None)
  end.
Definition lru_run := fix go (c : t) (os : list op) : outcome (t * list (option Value)) :=
  match os with
  | [] => Ok (c, [])
  | o :: os => '(c, r) ← exec c o; '(c, rs) ← go c os; Ok (c, r :: rs)
  end.
Definition spec_run (maxSize elasticity : Z) :=
  fix go (E : list (Key * Value)) (os : list op) : list (Key * Value) * list (option Value) :=
  match os with
  | [] => (E, [])
  | o :: os => let '(E, r) := exec_spec maxSize elasticity E o in
               let '(E, rs) := go E os in (E, r :: rs)
  end.

(** The configuration is never changed. *)
Definition config c : Z * Z := (m_maxSize c, m_elasticity c).
Lemma touch_config c n c' : touch c n = Ok c' -> config c' = config c.
Proof.
  unfold touch. intros E. apply bind_Ok in E as ([h l] & _ & E). apply bind_Ok in E as ([h' l'] & _ & E).
  by injection E as <-.
Qed.
Lemma prune_loop_config fuel : forall c n r, prune_loop fuel c n = Ok r -> config r.1 = config c.
Proof.
  induction fuel as [|fuel IH]; intros c n r E; [done|]. cbn [prune_loop] in E.
  destruct (m_maxSize c <? cache_size c); [|by injection E as <-].
  repeat match type of E with
  | (_ ≫= _) = Ok _ => apply bind_Ok in E as (? & _ & E)
  | context [match ?x with _ => _ end] => destruct x; try done
  end; apply IH in E; by rewrite E.
Qed.
Lemma exec_config c o r : exec c o = Ok r -> config r.1 = config c.
Proof.
  destruct o as [k v|k|k|]; cbn [exec].
  - intros (c1 & E & E')%bind_Ok. injection E' as <-. cbn [fst]. unfold insert in E.
    destruct (m_cache c !! k); [by eapply touch_config|].
    apply bind_Ok in E as ([h l] & _ & E). apply bind_Ok in E as ([c2 n] & E & E'). injection E' as <-.
    unfold prune in E. destruct (_ && _); [by apply prune_loop_config in E|by injection E as <- _].
  - unfold get. destruct (m_cache c !! k) as [n|]; [|by intros [= <-]].
    destruct (touch c n) as [c1| | | |] eqn:E; run; try done; [|by intros [= <-]].
    destruct (deref (hp c1 !! n)) as [x| | | |]; run; try done; intros [= <-]; cbn [fst];
      [by eapply touch_config|done].
  - unfold remove. destruct (m_cache c !! k); [|by intros [= <-]].
    intros (c1 & E & E')%bind_Ok. injection E' as <-. apply bind_Ok in E as ([h l] & _ & E). by injection E as <-.
  - unfold clear. intros (c1 & E & E')%bind_Ok. injection E' as <-.
    apply bind_Ok in E as ([h l] & _ & E). by injection E as <-.
Qed.

Lemma same_mapped c L k n : rep c L -> m_cache c !! k = Some n -> exists v, same k (L.*2) = [(k, v)] /\ (k, v) ∈ L.*2.
Proof.
  intros Hr Hk. destruct (rep_lookup c L k n Hr Hk) as (v & L1 & L2 & ->). exists v.
  split; [by apply (rep_split c L1 n)|]. rewrite fmap_app. apply elem_of_app. right. left.
Qed.
Lemma same_absent c L k : rep c L -> m_cache c !! k = None -> same k (L.*2) = [].
Proof.
  intros Hr Hk. apply absent_key. rewrite <- idx_keys. by apply (rep_lookup_None c).
Qed.

Lemma exec_sim c L o :
  rep c L -> 0 <= m_maxSize c -> Z.of_nat (length L) + 1 < 2 ^ 64 ->
  exists c' L' r, exec c o = Ok (c', r) /\ rep c' L' /\
    exec_spec (m_maxSize c) (m_elasticity c) (L.*2) o = (L'.*2, r).
Proof.
  intros Hr Hm Hl. destruct o as [k v|k|k|]; cbn [exec exec_spec].
  - destruct (m_cache c !! k) as [n|] eqn:Hk.
    + destruct (insert_hit c L k v n Hr Hk) as (c' & L' & E & Hr' & HL). rewrite E. run.
      destruct (same_mapped c L k n Hr Hk) as (w & Hs & _). exists c', L', None. rewrite HL, Hs. by split_and!.
    + destruct (insert_miss c L k v Hr Hk Hm Hl) as (c' & L' & E & Hr' & HL). rewrite E. run.
      rewrite (same_absent c L k Hr Hk). exists c', L', None. by rewrite HL.
  - destruct (m_cache c !! k) as [n|] eqn:Hk.
    + destruct (same_mapped c L k n Hr Hk) as (w & Hs & Hin).
      destruct (get_hit c L k w n Hr Hk Hin) as (c' & L' & E & Hr' & HL). rewrite E. run.
      exists c', L', (Some w). rewrite HL, Hs. by split_and!.
    + rewrite (same_absent c L k Hr Hk). unfold get. rewrite Hk. by exists c, L, None.
  - destruct (remove_spec c L k Hr) as (c' & L' & E & Hr' & HL). rewrite E. run. exists c', L', None. by rewrite HL.
  - destruct (lru_clear_spec c L Hr) as (c' & E & Hr'). rewrite E. run. by exists c', [], None.
Qed.

Lemma exec_spec_length maxSize elasticity E o :
  (length (exec_spec maxSize elasticity E o).1 <= S (length E))%nat.
Proof.
  assert (forall k, length (others k E ++ same k E) = length E) as Hlen.
  { intros k. rewrite length_app, Nat.add_comm, <- length_app. apply Permutation_length. apply filter_app_complement. }
  assert (forall k, (length (others k E) <= length E)%nat) as Ho by (intros k; apply length_filter).
  destruct o as [k v|k|k|]; cbn [exec_spec].
  - specialize (Hlen k). destruct (same k E); cbn [fst]; [|rewrite Hlen; lia]. unfold trim.
    case_match; rewrite ?length_drop, !length_app; cbn; lia.
  - specialize (Hlen k). destruct (same k E) as [|[? ?] ?]; cbn [fst]; [|rewrite Hlen]; lia.
  - cbn [fst]. specialize (Ho k). lia.
  - cbn. lia.
Qed.

Lemma create_rep maxSize elasticity : rep (create maxSize elasticity) [].
Proof.
  split; cbn; [split; try done; constructor|constructor|done|]. intros a. rewrite lookup_empty. by intros [].
Qed.

Lemma run_sim os : forall c L,
  rep c L -> 0 <= m_maxSize c -> Z.of_nat (length L + length os) < 2 ^ 64 ->
  exists c' L' rs, lru_run c os = Ok (c', rs) /\ rep c' L' /\
    spec_run (m_maxSize c) (m_elasticity c) (L.*2) os = (L'.*2, rs).
Proof.
  induction os as [|o os IH]; intros c L Hr Hm Hl.
  { by exists c, L, []. }
  cbn [length] in Hl. destruct (exec_sim c L o Hr Hm) as (c1 & L1 & r & E & Hr1 & HE); [lia|].
  pose proof (exec_config c o _ E) as Hc. unfold config in Hc. cbn [fst] in Hc. injection Hc as Hc1 Hc2.
  pose proof (exec_spec_length (m_maxSize c) (m_elasticity c) (L.*2) o) as Hlen. rewrite HE in Hlen. cbn [fst] in Hlen.
  rewrite !length_fmap in Hlen.
  destruct (IH c1 L1 Hr1) as (c' & L' & rs & E' & Hr' & HE'); [lia..|].
  exists c', L', (r :: rs). cbn [lru_run spec_run]. rewrite E. run. rewrite E'. run.
  rewrite HE. rewrite Hc1, Hc2 in HE'. by rewrite HE'.
Qed.

(** C28. The linked list and the map implement an LRU list: for every sequence
    of insertions, lookups, removals and clears on a new cache, the pointer
    operations never touch a deleted node, the lookups return what the list of
    entries in order of use gives, an insertion of a new key moves the cache
    back to [maxSize] entries once [maxSize + elasticity] is reached by dropping
    the least recently used ones, and an insertion of a known key only touches
    it (its value stays). *)
Theorem lru_refines (maxSize elasticity : Z) (os : list op) :
  0 <= maxSize -> Z.of_nat (length os) < 2 ^ 64 ->
  exists c' L' rs, lru_run (create maxSize elasticity) os = Ok (c', rs) /\ rep c' L' /\
    spec_run maxSize elasticity [] os = (L'.*2, rs).
Proof. intros Hm Hl. exact (run_sim os _ [] (create_rep maxSize elasticity) Hm Hl). Qed.
End LRUCache.
Lemma lru_refines_witness :
  let os := [Insert 1 10; Insert 2 20; Get 1; Insert 3 30; Get 2; Insert 1 99; Get 1] in
  exists c' rs, lru_run (create (Key := Z) (Value := Z) 2 0) os = Ok (c', rs) /\
    rs = [None; None; Some 10; None; None; None; Some 10].
Proof.
  intros os. destruct (lru_refines (Key := Z) (Value := Z) 2 0 os) as (c' & L' & rs & E & _ & Hs).
  - lia.
  - vm_compute. reflexivity.
  - exists c', rs. split; [exact E|]. vm_compute in Hs. by injection Hs.
Defined.
End LRUCache.
