(* ===== verification/BlockStore.v ===== *)
(** * The block store: store/blockwriter.h, store/index.h, store/record.cpp, store/kvreader.h, store/filemanager.cpp

    [BlockWriter] packs the lines of a graph as records [key=value#] into
    blocks of [BLOCK_SIZE] bytes, with the first key of each block in
    [masters]; [Index] finds the block of a key; [KVReader] takes the text of a
    block apart again. *)
From S2P Require Import Prelude StringPiece Table Cache.

Definition hash_sep : ascii := "#".
Definition equals : ascii := "=".

(** ** [Record] *)
Module Record.
Record t := mk { key : cstr; value : cstr }.
(** [set]: without ['='], [find] gives [npos]: [substr(0, npos)] is the whole
    text and so is [substr(npos + 1, ...)], since [npos + 1] wraps to 0. *)
Definition set (record : cstr) : t :=
  match find_char equals record with
  | Some pos => mk (take pos record) (drop (pos + 1) record)
  | None => mk record record
  end.
Definition equals_key (a b : t) : bool := bool_decide (key a = key b).
End Record.

(** ** [BlockWriter] *)
Section BlockWriter.
(** [BLOCK_SIZE] is [1024 * 8] in the program. *)
Variable BLOCK_SIZE : nat.

Record BlockWriter := {
  masters : cstr; buffer : cstr; keys : cstr; out : cstr
}.

(** [seekp] and [write]: a gap after the end of the file is filled with zeros. *)
Definition write_at (file : cstr) (offset : nat) (data : cstr) : cstr :=
  take offset (file ++ replicate (offset - length file) "000"%char) ++ data ++ drop (offset + length data) file.
Definition write (w : BlockWriter) (blockStart : nat) (buf : cstr) : BlockWriter :=
  {| masters := masters w; buffer := buffer w; keys := keys w;
     out := write_at (out w) (blockStart * BLOCK_SIZE) buf |}.

Definition fillBuffer (w : BlockWriter) : BlockWriter :=
  {| masters := masters w; keys := keys w; out := out w;
     buffer := buffer w ++ replicate (BLOCK_SIZE - length (buffer w)) hash_sep |}.

(** [setMasters]: the text before the first ['=']; without one, [find_first]
    gives the end. *)
Definition setMasters (w : BlockWriter) (buf : cstr) : BlockWriter :=
  let pos := match find_char equals buf with Some p => p | None => length buf end in
  {| masters := masters w ++ take pos buf ++ [hash_sep]; buffer := buffer w; keys := keys w; out := out w |}.

(** [handleLine]: [strs[1]] of a line without a tab is undefined. *)
Definition handleLine (w : BlockWriter) (line : cstr) : outcome (BlockWriter * cstr) :=
  let strs := split_on (is_char "009") (trim_right line) in
  k ← deref (strs !! 0%nat);
  v ← deref (strs !! 1%nat);
  Ok ({| masters := masters w; buffer := buffer w; keys := keys w ++ k ++ [hash_sep]; out := out w |},
      k ++ [equals] ++ v ++ [hash_sep]).
Definition set_buffer (w : BlockWriter) (b : cstr) : BlockWriter :=
  {| masters := masters w; buffer := b; keys := keys w; out := out w |}.

(** One round of [batchedWrite]: the number of the current block and the
    writer. *)
Definition write_line (s : nat * BlockWriter) (line : cstr) : outcome (nat * BlockWriter) :=
  let '(i, w) := s in
  let '(i, w) :=
    if decide (BLOCK_SIZE < length (buffer w) + length line)%nat then
      let w := fillBuffer (setMasters w (buffer w)) in
      (S i, set_buffer (write w i (buffer w)) [])
    else (i, w) in
  '(w, hl) ← handleLine w line;
  Ok (i, set_buffer w (buffer w ++ hl)).
(** The last block is written before it is filled. *)
Definition batchedWrite (input : cstr) : outcome BlockWriter :=
  '(i, w) ← for_each write_line (getlines "010" input)
              (0%nat, {| masters := []; buffer := []; keys := []; out := [] |});
  if decide (length (buffer w) <> 0)%nat
  then Ok (fillBuffer (write (setMasters w (buffer w)) i (buffer w)))
  else Ok w.
(** *** The size of a block *)
Lemma split_on_first f s w ws : split_on f s = w :: ws -> (length w <= length s)%nat.
Proof.
  revert w ws. induction s as [|x s IH]; intros w ws E; cbn in E; [by injection E as <-|].
  destruct (f x); [injection E as <- _; cbn; lia|].
  destruct (split_on f s) as [|w0 ws0]; [injection E as <- _; cbn; lia|].
  injection E as <- _. specialize (IH w0 ws0 eq_refl). cbn. lia.
Qed.

Lemma split_on_fields f s k v ws : split_on f s = k :: v :: ws -> (length k + length v + 1 <= length s)%nat.
Proof.
  revert k v ws. induction s as [|x s IH]; intros k v ws E; cbn in E; [done|]. destruct (f x).
  - injection E as <- E. pose proof (split_on_first f s v ws E). cbn. lia.
  - destruct (split_on f s) as [|w ws0] eqn:Es; [done|]. injection E as <- ->.
    specialize (IH w v ws eq_refl). cbn. lia.
Qed.

Lemma length_trim_right s : (length (trim_right s) <= length s)%nat.
Proof.
  destruct (trim_right_if_prefix isspace s) as (post & E & _). rewrite E at 2. rewrite length_app.
  unfold trim_right. lia.
Qed.

(** A record is at most one byte longer than its line. *)
Lemma handleLine_length w line w' hl :
  handleLine w line = Ok (w', hl) -> (length hl <= length line + 1)%nat /\ buffer w' = buffer w.
Proof.
  intros E. unfold handleLine in E. apply bind_Ok in E as (k & Ek & E). apply bind_Ok in E as (v & Ev & E).
  injection E as <- <-. split; [|done]. apply deref_Ok in Ek, Ev.
  destruct (split_on (is_char "009") (trim_right line)) as [|k' [|v' ws]] eqn:Es; try done.
  injection Ek as ->. injection Ev as ->. apply split_on_fields in Es.
  pose proof (length_trim_right line). repeat (rewrite length_app; cbn [length app]). lia.
Qed.

(** The test compares the buffer and the raw line with the block size, but the
    record is one byte longer: a block can have one byte too many, no more. *)
Lemma write_line_bound i w line i' w' :
  (length line <= BLOCK_SIZE)%nat -> write_line (i, w) line = Ok (i', w') ->
  (length (buffer w') <= BLOCK_SIZE + 1)%nat.
Proof.
  intros Hl E. unfold write_line in E. case_decide as Hc.
  - apply bind_Ok in E as ([w1 hl] & E1 & E). injection E as <- <-.
    apply handleLine_length in E1 as [H1 H2]. cbn [buffer set_buffer] in *. rewrite H2. cbn. lia.
  - apply bind_Ok in E as ([w1 hl] & E1 & E). injection E as <- <-.
    apply handleLine_length in E1 as [H1 H2]. cbn [buffer set_buffer] in *. rewrite H2, length_app. lia.
Qed.
End BlockWriter.

(** ** [FileManager] (store/filemanager.cpp) *)
Module FileManager.
Section FileManager.
Variable BLOCK_SIZE : nat.
(** [readFully]: [getline] up to a byte 255, or the end of the file. *)
Definition readFully (file : cstr) : cstr :=
  match find_char "255" file with Some pos => take pos file | None => file end.
(** [create] writes 4 * 4096 bytes from a buffer of [BLOCK_SIZE]. *)
Definition create : outcome cstr :=
  if decide (4 * 4096 <= BLOCK_SIZE)%nat then Ok (replicate (4 * 4096) "000"%char) else Undefined.
Definition read (file : cstr) (blockStart blockCount : nat) : cstr :=
  take (blockCount * BLOCK_SIZE) (drop (blockStart * BLOCK_SIZE) file).
(** [write] reads [blockCount] blocks from the caller's buffer. *)
Definition write (file : cstr) (blockStart blockCount : nat) (data : cstr) : outcome cstr :=
  if decide (blockCount * BLOCK_SIZE <= length data)%nat
  then Ok (write_at file (blockStart * BLOCK_SIZE) (take (blockCount * BLOCK_SIZE) data))
  else Undefined.
Definition appWrite (file : cstr) (data : cstr) : outcome cstr :=
  if decide (BLOCK_SIZE <= length data)%nat then Ok (file ++ take BLOCK_SIZE data) else Undefined.

(** What was written to a range of blocks is read back from it. *)
Lemma write_then_read file b n data file' :
  write file b n data = Ok file' -> read file' b n = take (n * BLOCK_SIZE) data.
Proof.
  unfold write. case_decide as Hl; [|done]. intros [= <-]. unfold read, write_at.
  rewrite drop_app_length'.
  - rewrite take_app_length'; [done|]. rewrite length_take. lia.
  - rewrite length_take, length_app, length_replicate. lia.
Qed.

(** The other blocks of the file keep their bytes. *)
Lemma write_frame file b n data file' b' n' :
  write file b n data = Ok file' -> ((b + n) * BLOCK_SIZE <= length file)%nat ->
  (b' + n' <= b \/ b + n <= b')%nat ->
  read file' b' n' = read file b' n'.
Proof.
  unfold write. case_decide as Hl; [|done]. intros [= <-] Hlen Hd. unfold read, write_at.
  rewrite length_take, Nat.min_l by done.
  replace (b * BLOCK_SIZE - length file)%nat with 0%nat by lia. cbn [replicate]. rewrite app_nil_r.
  destruct Hd as [Hd|Hd].
  - assert ((b' + n') * BLOCK_SIZE <= b * BLOCK_SIZE)%nat by (apply Nat.mul_le_mono_r; lia).
    rewrite drop_app_le by (rewrite length_take; lia).
    rewrite take_app_le by (rewrite length_drop, length_take; lia).
    rewrite !take_drop_commute, take_take. f_equal. f_equal. lia.
  - assert ((b + n) * BLOCK_SIZE <= b' * BLOCK_SIZE)%nat by (apply Nat.mul_le_mono_r; lia).
    rewrite app_assoc. rewrite drop_app_ge by (rewrite length_app, !length_take; lia).
    rewrite drop_drop. f_equal. f_equal. rewrite length_app, !length_take. lia.
Qed.

(** The block file: blocks written are read back, and writing blocks
    changes no other block of the file. *)
Theorem blocks_independent file b n data file' b' n' :
  write file b n data = Ok file' -> ((b + n) * BLOCK_SIZE <= length file)%nat ->
  (b' + n' <= b \/ b + n <= b')%nat ->
  read file' b n = take (n * BLOCK_SIZE) data /\ read file' b' n' = read file b' n'.
Proof. intros E Hl Hd. split; [by eapply write_then_read|by eapply write_frame]. Qed.
End FileManager.
Lemma blocks_independent_witness :
  exists file', write 2 (lit "aabbcc") 1 1 (lit "xy") = Ok file' /\ read 2 file' 1 1 = lit "xy" /\
    read 2 file' 2 1 = lit "cc".
Proof.
  eexists. split; [vm_compute; reflexivity|].
  exact (blocks_independent 2 (lit "aabbcc") 1 1 (lit "xy") (lit "aaxycc") 2 1 ltac:(vm_compute; reflexivity)
    ltac:(cbn; lia) ltac:(lia)).
Defined.
End FileManager.

(** ** [Index] *)
Module Index.
Section Index.
Variable lexical_cast : cstr -> outcome Z.

Fixpoint cast_all (ws : list cstr) : outcome (list Z) :=
  match ws with
  | [] => Ok []
  | w :: ws => x ← lexical_cast w; xs ← cast_all ws; Ok (x :: xs)
  end.
Definition splitString (line : cstr) (delimiter : ascii) : outcome (list Z) :=
  match find_char delimiter line with
  | None => Ok []
  | Some _ => cast_all (getlines delimiter line)
  end.
Definition initIndex (keys : cstr) : outcome (list Z) := splitString keys hash_sep.
End Index.

(** [std::upper_bound] by bisection over [first, first + count). *)
Fixpoint upper_bound (fuel : nat) (index : list Z) (first count : nat) (key : Z) : outcome nat :=
  match fuel with
  | O => OutOfFuel
  | S fuel =>
    if decide (count = 0)%nat then Ok first
    else
      let step := (count / 2)%nat in
      x ← deref (index !! (first + step)%nat);
      if key <? x then upper_bound fuel index first step key
      else upper_bound fuel index (first + step + 1) (count - (step + 1)) key
  end.
Definition getBlockAddr (index : list Z) (key : Z) : outcome Z :=
  p ← upper_bound (S (length index)) index 0 (length index) key; Ok (Z.of_nat p - 1).

Definition ascending (index : list Z) : Prop :=
  forall i j x y, index !! i = Some x -> index !! j = Some y -> (i <= j)%nat -> x <= y.

Lemma upper_bound_spec index key fuel first count :
  ascending index -> (first + count <= length index)%nat -> (count < fuel)%nat ->
  (forall i x, (i < first)%nat -> index !! i = Some x -> x <= key) ->
  (forall i x, (first + count <= i)%nat -> index !! i = Some x -> key < x) ->
  exists p, upper_bound fuel index first count key = Ok p /\ (p <= length index)%nat /\
    (forall i x, index !! i = Some x -> (i < p)%nat <-> x <= key).
Proof.
  intros Hs. revert first count. induction fuel as [|fuel IH]; intros first count Hlen Hf Hlo Hhi; [lia|].
  cbn [upper_bound]. case_decide as Hc.
  - subst count. exists first. split; [done|]. split; [lia|]. intros i x Hi. split; [intros; by eapply Hlo|].
    intros Hx. destruct (decide (i < first)%nat); [done|]. assert (key < x) by (eapply Hhi; [|done]; lia). lia.
  - pose proof (Nat.div_lt count 2). pose proof (Nat.Div0.div_le_mono 0 count 2).
    destruct (lookup_lt_is_Some_2 index (first + count / 2)) as [x Hx]; [lia|]. rewrite Hx. run.
    destruct (Z.ltb_spec key x) as [Hlt|Hge].
    + apply IH; [lia|lia|done|]. intros i y Hi Hy. assert (x <= y) by (eapply Hs; [..|exact Hi]; done). lia.
    + apply IH; [lia|lia| |intros i y Hi Hy; eapply Hhi; [|done]; lia].
      intros i y Hi Hy. assert (y <= x) by (eapply (Hs i (first + count / 2)%nat); [done|done|lia]). lia.
Qed.

(** The block found for a key is the last one whose first key is not larger;
    a key below all of them gives -1. *)
Lemma getBlockAddr_spec index key :
  ascending index ->
  exists b, getBlockAddr index key = Ok b /\ -1 <= b < Z.of_nat (length index) /\
    (forall i x, index !! i = Some x -> Z.of_nat i <= b <-> x <= key).
Proof.
  intros Hs. unfold getBlockAddr.
  destruct (upper_bound_spec index key (S (length index)) 0 (length index) Hs) as (p & E & Hle & Hp).
  - lia.
  - lia.
  - intros i x Hi. lia.
  - intros i x Hi Hx. apply lookup_lt_Some in Hx. lia.
  - rewrite E. run. exists (Z.of_nat p - 1). split; [done|]. split.
    + lia.
    + intros i x Hx. rewrite <- (Hp i x Hx). lia.
Qed.

(** The block index: with ascending first keys, [getBlockAddr] finds the
    last block whose first key is not greater than the key (-1 when there is
    none), and the binary search ends. *)
Theorem index_finds_block index key :
  ascending index ->
  exists b, getBlockAddr index key = Ok b /\ -1 <= b < Z.of_nat (length index) /\
    (forall i x, index !! i = Some x -> Z.of_nat i <= b <-> x <= key).
Proof. apply getBlockAddr_spec. Qed.
Lemma index_finds_block_witness :
  exists b, getBlockAddr [1; 5; 9] 7 = Ok b /\ -1 <= b < 3 /\
    (forall i x, [1; 5; 9] !! i = Some x -> Z.of_nat i <= b <-> x <= 7).
Proof.
  apply (index_finds_block [1; 5; 9] 7). intros i j x y Hi Hj Hle.
  destruct i as [|[|[|i]]]; cbn in Hi; try discriminate Hi; injection Hi as <-;
    (destruct j as [|[|[|j]]]; cbn in Hj; try discriminate Hj; injection Hj as <-; lia).
Defined.
End Index.

(** ** [KVReader] *)
Module KVReader.
(** [while (!ends_with(text, "####")) erase_tail(text, 1)]: an empty text stays
    empty, so the loop ends only when the text contains ["####"]. *)
Definition four_hashes : cstr := replicate 4 hash_sep.
Definition ends_with (s suffix : cstr) : bool :=
  bool_decide (drop (length s - length suffix) s = suffix).
Fixpoint erase_until (fuel : nat) (text : cstr) : outcome cstr :=
  match fuel with
  | O => OutOfFuel
  | S fuel => if ends_with text four_hashes then Ok text else erase_until fuel (removelast text)
  end.

(** Boost's [split] with [token_compress_on]: runs of separators count once. *)
Fixpoint squeeze (f : ascii -> bool) (s : cstr) : cstr :=
  match s with
  | [] => []
  | x :: t => if f x && match t with y :: _ => f y | [] => false end then squeeze f t else x :: squeeze f t
  end.
Definition split_compress (f : ascii -> bool) (s : cstr) : list cstr := split_on f (squeeze f s).

Definition not_digit (c : ascii) : bool := negb (isdigit c).
Definition splitString (fuel : nat) (text : cstr) : outcome (list cstr) :=
  text ← erase_until fuel text;
  Ok (split_compress (is_char hash_sep) (trim_right_if not_digit text)).
Definition getRecordList (fuel : nat) (text : cstr) : outcome (list Record.t) :=
  result ← splitString fuel text; Ok (map Record.set result).

Section GetKeyValue.
Context {K V D : Type} `{Countable K} `{!IterateKernel K V D}.
Definition getKeyValue (fuel : nat) (text : cstr) : outcome (gmap K D) :=
  rs ← getRecordList fuel text;
  for_each (fun kvmap r =>
      key ← Table.getKey (IterateKernel := _) (V := V) (D := D) (Record.key r);
      val ← Table.getValue (K := K) (V := V) (Record.value r);
      Ok (KVMap.add kvmap key val)) rs ∅.
End GetKeyValue.

(** *** Round trip of a block *)
Definition encode (r : cstr * cstr) : cstr := r.1 ++ [equals] ++ r.2.
Definition block_text (rs : list (cstr * cstr)) (n : nat) : cstr :=
  mjoin ((fun r => encode r ++ [hash_sep]) <$> rs) ++ replicate n hash_sep.

(** A record that survives: no separator inside, and a value that ends in a
    digit. *)
Definition plain (r : cstr * cstr) : Prop :=
  hash_sep ∉ r.1 /\ equals ∉ r.1 /\ hash_sep ∉ r.2 /\
  exists c, last r.2 = Some c /\ isdigit c = true.

Lemma set_encode r : equals ∉ r.1 -> Record.set (encode r) = Record.mk r.1 r.2.
Proof.
  intros Hr. unfold Record.set, encode. cbn [app]. rewrite find_char_app by done. f_equal.
  - by rewrite take_app_length.
  - by rewrite drop_app_add.
Qed.

Lemma split_on_plain c w : c ∉ w -> split_on (is_char c) w = [w].
Proof.
  induction w as [|x w IH]; intros Hw; [done|]. apply not_elem_of_cons in Hw as [Hx Hw]. cbn.
  unfold is_char at 1. rewrite bool_decide_eq_false_2 by congruence. by rewrite IH.
Qed.

Lemma split_on_join c ws : Forall (fun w => c ∉ w) ws -> ws <> [] -> split_on (is_char c) (join [c] ws) = ws.
Proof.
  induction 1 as [|w ws Hw Hws IH]; intros Hne; [done|]. destruct ws as [|w' ws].
  - cbn [join]. by apply split_on_plain.
  - change (join [c] (w :: w' :: ws)) with (w ++ c :: join [c] (w' :: ws)).
    rewrite split_on_app by done. by rewrite IH.
Qed.

Lemma squeeze_app_plain c w s : c ∉ w -> squeeze (is_char c) (w ++ s) = w ++ squeeze (is_char c) s.
Proof.
  induction w as [|x w IH]; intros Hw; [done|]. apply not_elem_of_cons in Hw as [Hx Hw]. cbn [app squeeze].
  unfold is_char at 1. rewrite bool_decide_eq_false_2 by congruence. cbn [andb]. by rewrite IH.
Qed.

Lemma squeeze_join c ws :
  Forall (fun w => c ∉ w /\ w <> []) ws -> squeeze (is_char c) (join [c] ws) = join [c] ws.
Proof.
  induction 1 as [|w ws [Hw Hne] Hws IH]; [done|]. destruct ws as [|w' ws].
  - cbn [join]. rewrite <- (app_nil_r w) at 1. by rewrite squeeze_app_plain, app_nil_r.
  - change (join [c] (w :: w' :: ws)) with (w ++ c :: join [c] (w' :: ws)).
    rewrite squeeze_app_plain by done. f_equal. apply Forall_cons in Hws as [[Hw' Hne'] _].
    assert (exists y t, join [c] (w' :: ws) = y :: t /\ y <> c) as (y & t & Ey & Hy).
    { destruct w' as [|y w']; [done|]. exists y. apply not_elem_of_cons in Hw' as [? _].
      destruct ws; cbn; eexists; split; done. }
    assert (is_char c y = false) as Hf by (by apply bool_decide_eq_false).
    rewrite Ey in *. transitivity (c :: squeeze (is_char c) (y :: t)); [|by rewrite IH].
    cbn [squeeze]. by rewrite Hf, andb_false_r.
Qed.

Lemma trim_tail f s t c :
  last s = Some c -> f c = false -> Forall (fun x => f x = true) t -> trim_right_if f (s ++ t) = s.
Proof.
  intros Hl Hc Ht. unfold trim_right_if. rewrite rev_app_distr.
  assert (forall u, Forall (fun x => f x = true) u -> drop_while f (u ++ rev s) = drop_while f (rev s)) as Hd.
  { induction 1 as [|x u Hx Hu IH]; [done|]. cbn. by rewrite Hx. }
  rewrite Hd by (by apply Forall_rev). by apply (trim_right_if_id f s c).
Qed.

Lemma block_text_join rs n :
  rs <> [] -> block_text rs n = join [hash_sep] (encode <$> rs) ++ replicate (S n) hash_sep.
Proof.
  intros Hne. unfold block_text. induction rs as [|r rs IH]; [done|]. cbn [fmap list_fmap].
  rewrite (mjoin_cons (encode r ++ [hash_sep])). destruct rs as [|r' rs].
  - cbn. by rewrite <- !app_assoc.
  - rewrite <- app_assoc, IH by done. cbn [fmap list_fmap].
    change (join [hash_sep] (encode r :: encode r' :: (encode <$> rs)))
      with (encode r ++ [hash_sep] ++ join [hash_sep] (encode r' :: (encode <$> rs))).
    by rewrite <- !app_assoc.
Qed.

Lemma ends_with_hashes s n : (3 <= n)%nat -> ends_with (s ++ replicate (S n) hash_sep) four_hashes = true.
Proof.
  intros Hn. unfold ends_with. apply bool_decide_eq_true. unfold four_hashes.
  rewrite length_app, !length_replicate.
  replace (S n) with ((S n - 4) + 4)%nat by lia. rewrite replicate_add, app_assoc.
  rewrite drop_app_length'; [done|]. rewrite length_app, length_replicate. lia.
Qed.

Lemma join_last ws w c : last ws = Some w -> last w = Some c -> last (join [hash_sep] ws) = Some c.
Proof.
  intros Hl Hc. induction ws as [|x ws IH]; [done|]. destruct ws as [|y ws].
  - cbn in Hl |- *. by injection Hl as ->.
  - change (join [hash_sep] (x :: y :: ws)) with (x ++ [hash_sep] ++ join [hash_sep] (y :: ws)).
    rewrite !last_app. rewrite IH by done. done.
Qed.

Lemma last_encode r c : last r.2 = Some c -> last (encode r) = Some c.
Proof. intros Hl. unfold encode. by rewrite !last_app, Hl. Qed.

(** Reading the text of a filled block gives the records back. *)
Lemma block_roundtrip rs n fuel :
  rs <> [] -> Forall plain rs -> (3 <= n)%nat ->
  getRecordList (S fuel) (block_text rs n) = Ok ((fun r => Record.mk r.1 r.2) <$> rs).
Proof.
  intros Hne Hp Hn. unfold getRecordList, splitString. rewrite block_text_join by done.
  cbn [erase_until]. rewrite ends_with_hashes by done. run.
  destruct (last rs) as [r|] eqn:Hl; [|by apply last_None in Hl].
  assert (plain r) as (_ & _ & _ & c & Hc & Hd).
  { rewrite Forall_forall in Hp. apply Hp. apply last_Some in Hl as [rs' ->]. apply elem_of_app. right. left. }
  rewrite (trim_tail _ _ _ c).
  - unfold split_compress. rewrite squeeze_join, split_on_join.
    + f_equal. rewrite <- list_fmap_compose. apply list_fmap_ext. intros i x Hx.
      apply set_encode. rewrite Forall_lookup in Hp. by destruct (Hp i x Hx) as (_ & ? & _).
    + apply Forall_fmap. eapply Forall_impl; [exact Hp|]. intros x (H1 & _ & H2 & _). unfold encode, compose.
      rewrite !elem_of_app. intros [?|[?%list_elem_of_singleton|?]]; done.
    + by destruct rs.
    + apply Forall_fmap. eapply Forall_impl; [exact Hp|]. intros x (H1 & _ & H2 & _). unfold encode, compose. split.
      * rewrite !elem_of_app. intros [?|[?%list_elem_of_singleton|?]]; done.
      * by destruct x as [[|? ?] ?].
  - apply (join_last _ (encode r)); [|by apply last_encode]. by rewrite fmap_last, Hl.
  - unfold not_digit. by rewrite Hd.
  - apply Forall_replicate. done.
Qed.

(** A text in which ["####"] does not occur makes the loop run for ever. *)
Lemma erase_until_diverges fuel text :
  (forall s t, text <> s ++ four_hashes ++ t) -> erase_until fuel text = OutOfFuel.
Proof.
  revert text. induction fuel as [|fuel IH]; intros text Hno; [done|]. cbn [erase_until].
  assert (ends_with text four_hashes = false) as ->.
  { unfold ends_with. apply bool_decide_eq_false. intros E.
    apply (Hno (take (length text - length four_hashes) text) []).
    rewrite app_nil_r. etransitivity; [symmetry; apply take_drop|]. f_equal. exact E. }
  apply IH. intros s t E. destruct text as [|x text _] using rev_ind.
  - cbn in E. by apply (Hno s t).
  - rewrite removelast_last in E. apply (Hno s (t ++ [x])). by rewrite E, <- !app_assoc.
Qed.

(** A block written as ["key=value#"] records and filled up with ['#'] is
    read back as the same records, in order (keys and values without separators,
    values that end in a digit, at least three fill characters). *)
Theorem block_records_roundtrip rs n fuel :
  rs <> [] -> Forall plain rs -> (3 <= n)%nat ->
  getRecordList (S fuel) (block_text rs n) = Ok ((fun r => Record.mk r.1 r.2) <$> rs).
Proof. apply block_roundtrip. Qed.
Lemma block_records_roundtrip_witness :
  getRecordList 1 (block_text [(lit "12", lit "3 4"); (lit "7", lit "5")] 3) =
  Ok [Record.mk (lit "12") (lit "3 4"); Record.mk (lit "7") (lit "5")].
Proof.
  apply (block_records_roundtrip [(lit "12", lit "3 4"); (lit "7", lit "5")] 3 0); [done| |lia].
  repeat (constructor; [split_and!;
    [by apply (bool_decide_unpack _); vm_compute|by apply (bool_decide_unpack _); vm_compute
    |by apply (bool_decide_unpack _); vm_compute|eexists; by split; vm_compute]|]). constructor.
Defined.

(** The loop that strips a block's text down to its last ["####"] never
    ends when the text has none, as for a block filled by fewer than four
    characters. *)
Theorem erase_loop_diverges fuel text :
  (forall s t, text <> s ++ four_hashes ++ t) -> erase_until fuel text = OutOfFuel.
Proof. apply erase_until_diverges. Qed.
Lemma erase_loop_diverges_witness : erase_until 1000 (lit "1=2##") = OutOfFuel.
Proof.
  apply (erase_loop_diverges 1000 (lit "1=2##")). intros s t E.
  do 5 (destruct s as [|? s]; [cbn in E; discriminate E|]; cbn in E; injection E as _ E).
  apply (f_equal length) in E. rewrite !length_app in E. cbn in E. lia.
Defined.
End KVReader.
