(* ===== verification/Maiter.v ===== *)
(** * The iteration kernels: kernel/kernel.h, kernel/kernel.cc

    A job runs three kernels on every worker: [MaiterKernel1] loads the
    vertices into the state table, [MaiterKernel2] iterates (it takes a row,
    adds its delta to its value, sends the effects of the delta to the
    neighbours and resets the delta), and [MaiterKernel3] writes the values
    out.  [MarshalledMap] carries the arguments of a kernel. *)
From S2P Require Import Prelude Float StringPiece Probe Table DeltaTable StateTable GlobalTable.
From S2P Require Import Cache FlatStore BlockStore SampleKernel Cluster.

(** ** [MarshalledMap], for values of one type *)
Module MarshalledMap.
Section MarshalledMap.
Context {T : Type} `{!Marshal T}.
Record t := mk { p_ : gmap cstr T; serialized_ : gmap cstr cstr }.
Implicit Types m : t.

Definition create : t := mk ∅ ∅.
Definition put m (k : cstr) (v : T) : t := mk (<[k := v]> (p_ m)) (delete k (serialized_ m)).
(** [get]: [p_.find(k)->second] of an unknown key is undefined. *)
Definition get m (k : cstr) : outcome (t * T) :=
  m ← match serialized_ m !! k with
      | Some s => v ← unmarshal s; Ok (mk (<[k := v]> (p_ m)) (delete k (serialized_ m)))
      | None => Ok m
      end;
  v ← deref (p_ m !! k);
  Ok (m, v).
Definition contains m (key : cstr) : bool :=
  bool_decide (is_Some (p_ m !! key)) || bool_decide (is_Some (serialized_ m !! key)).
(** The order of an [unordered_map] is not specified; the model uses that of
    [map_to_list]. *)
Definition ToMessage m : list Arg :=
  (fun x => {| arg_key := x.1; arg_value := marshal x.2 |}) <$> map_to_list (p_ m).
Definition FromMessage m (p : list Arg) : t :=
  mk (p_ m) (foldl (fun s a => <[arg_key a := arg_value a]> s) (serialized_ m) p).

(** [DSMKernel::get_cp_var]. *)
Definition get_cp_var m (key : cstr) (defval : T) : outcome (t * T) :=
  get (if contains m key then m else put m key defval) key.

Lemma get_put m k v : get (put m k v) k = Ok (put m k v, v).
Proof. unfold get, put. cbn. rewrite lookup_delete_eq. run. cbn. by rewrite lookup_insert_eq. Qed.

Lemma FromMessage_lookup (m : gmap cstr T) (k : cstr) :
  foldl (fun (s : gmap cstr cstr) a => <[arg_key a := arg_value a]> s) ∅
    ((fun x : cstr * T => {| arg_key := x.1; arg_value := marshal x.2 |}) <$> map_to_list m) !! k =
  marshal <$> m !! k.
Proof.
  assert (forall l (s : gmap cstr cstr), NoDup (l.*1) ->
    foldl (fun s a => <[arg_key a := arg_value a]> s) s
      ((fun x : cstr * T => {| arg_key := x.1; arg_value := marshal x.2 |}) <$> l) !! k =
    match (list_to_map l : gmap cstr T) !! k with Some v => Some (marshal v) | None => s !! k end) as Hl.
  { induction l as [|[k' v] l IH]; intros s Hnd; [done|]. cbn in *. apply NoDup_cons in Hnd as [Hni Hnd].
    rewrite IH by done. destruct (decide (k = k')) as [->|Hne].
    - rewrite (not_elem_of_list_to_map_1 l k' Hni), !lookup_insert_eq. done.
    - rewrite !lookup_insert_ne by done. done. }
  rewrite Hl by apply NoDup_fst_map_to_list. rewrite list_to_map_to_list. by destruct (m !! k).
Qed.

(** What the worker reads from the message of the master's map. *)
Lemma message_roundtrip `{!MarshalLaws T} m k v :
  p_ m !! k = Some v -> representable v ->
  exists m', get (FromMessage create (ToMessage m)) k = Ok (m', v).
Proof.
  intros Hk Hv. unfold get, FromMessage, ToMessage. cbn [p_ serialized_ create].
  rewrite FromMessage_lookup, Hk. cbn [fmap option_fmap option_map].
  rewrite unmarshal_marshal by done. run. cbn [p_]. rewrite lookup_insert_eq. run. by eexists.
Qed.

(** Arguments that were received and not yet read are not sent on. *)
Lemma unread_dropped m k s : p_ m !! k = None -> serialized_ m !! k = Some s ->
  contains m k = true /\ forall a, a ∈ ToMessage m -> arg_key a <> k.
Proof.
  intros Hp Hs. split.
  - unfold contains. rewrite Hs. apply orb_true_iff. by right.
  - intros a Ha. unfold ToMessage in Ha. apply list_elem_of_fmap in Ha as ([k' v] & -> & Hin).
    apply elem_of_map_to_list in Hin. cbn. intros ->. congruence.
Qed.

(** The arguments of a kernel: what the master put under a key is what the
    worker gets from the map it builds from the message. *)
Theorem kernel_args_roundtrip `{!MarshalLaws T} m k v :
  p_ m !! k = Some v -> representable v ->
  exists m', get (FromMessage create (ToMessage m)) k = Ok (m', v).
Proof. apply message_roundtrip. Qed.

(** A map that received an argument and has not read it contains its key,
    but the message made from the map has no entry for it. *)
Theorem unread_args_dropped m k s :
  p_ m !! k = None -> serialized_ m !! k = Some s ->
  contains m k = true /\ forall a, a ∈ ToMessage m -> arg_key a <> k.
Proof. apply unread_dropped. Qed.
End MarshalledMap.
Definition one_arg : t (T := Z) := put create (lit "nodes") 42.
Lemma kernel_args_roundtrip_witness :
  exists m', get (FromMessage create (ToMessage one_arg)) (lit "nodes") = Ok (m', 42).
Proof. apply (kernel_args_roundtrip one_arg (lit "nodes") 42); [reflexivity|by vm_compute]. Defined.
Lemma unread_args_dropped_witness :
  let m := FromMessage create (ToMessage one_arg) in
  contains m (lit "nodes") = true /\ forall a, a ∈ ToMessage m -> arg_key a <> lit "nodes".
Proof.
  intros m. apply (unread_args_dropped m (lit "nodes") (marshal 42)); vm_compute; reflexivity.
Defined.
End MarshalledMap.

Module Maiter.
Section Maiter.
Context {K V D : Type} `{Countable K} `{!Hashable K}.
Context `{!ValueInit K} `{!ValueInit V} `{!ValueInit D}.
Context `{!IterateKernel K V D} `{!Sharder K} `{!Marshal K} `{!Marshal V}.
Variable bufmsg : Z.
Variable wire_size : KVPairData -> Z.

#[local] Abbreviation table := (GlobalTable.t (K := K) (V := V) (D := D)).
#[local] Abbreviation message := GlobalTable.message.
Implicit Types tb : table.

(** ** [MaiterKernel1]: loading *)
Definition splitString (line : cstr) (delimiter : ascii) : list cstr :=
  match find_char delimiter line with
  | None => []
  | Some _ => getlines delimiter line
  end.

(** The body of [read_file].  [delta], [value] and [data] have no value before
    the initialisers set them; a local of class type is value-initialised. *)
Definition load_key tb (word : cstr) : outcome table :=
  key ← getKey (V := V) (D := D) word;
  let '(value, data) := init_v (D := D) key value_init value_init in
  let '(delta, data) := init_c key value_init data in
  GlobalTable.put tb key delta value data.
Definition read_file tb (keys_file : cstr) : outcome table :=
  for_each load_key (splitString (FileManager.readFully keys_file) hash_sep) tb.
Definition init_table tb (num_nodes : Z) (keys_file : cstr) : outcome table :=
  tb ← (if GlobalTable.binit tb then Ok tb else GlobalTable.InitStateTable tb);
  tb ← GlobalTable.resize tb num_nodes;
  read_file tb keys_file.

(** ** [MaiterKernel2]: iterating *)

(** Write through the references [v1] and [v2] into bucket [pos] of a shard. *)
Definition set_row tb (shard pos : Z) (a b : V) : outcome table :=
  s ← GlobalTable.partition tb shard;
  x ← vec_at (StateTable.buckets_ s) pos;
  s ← StateTable.set_cell s pos x (StateTable.Cell a b (StateTable.v3 (bval x)) (StateTable.prio (bval x)));
  GlobalTable.set_partition tb shard (GlobalTable.State s).
Definition get_row tb (shard pos : Z) : outcome (bucket K (StateTable.cell V D)) :=
  s ← GlobalTable.partition tb shard; vec_at (StateTable.buckets_ s) pos.

(** [run_iter(it2->key(), it2->value1(), it2->value2(), data)]: the first three
    arguments are references into the bucket the iterator is on, [data] is a
    local copy. *)
Definition run_iter tb (shard pos : Z) (data : D) : outcome (table * list message) :=
  x ← get_row tb shard pos;
  let k := bk x in
  let '(d1, d2, data) := process_delta_v k (StateTable.v1 (bval x)) (StateTable.v2 (bval x)) data in
  tb ← set_row tb shard pos d1 d2;
  tb ← GlobalTable.accumulateF2 tb k d1;
  x ← get_row tb shard pos;
  let output := g_func k (StateTable.v1 (bval x)) (StateTable.v2 (bval x)) data [] in
  tb ← GlobalTable.updateF1 tb k (default_v (K := K) (D := D));
  for_each (GlobalTable.apply_one bufmsg wire_size) output (tb, []).

(** The rest of the iteration state: the store's cache and the statistics. *)
Record loop_state := LoopState {
  ls_table : table; ls_sent : list message; ls_cache : Cache.t K D;
  totalF2 : spec_float; updates : Z
}.
Variable CACHE_SIZE : nat.
Variable reader : K -> outcome D.

(** One row: the statistics, the adjacency data from the store, [run_iter].
    The value of the row is the priority, as a [float]. *)
Definition visit (ls : loop_state) (shard pos : Z) : outcome loop_state :=
  x ← get_row (ls_table ls) shard pos;
  let v := v_double (K := K) (D := D) (StateTable.v2 (bval x)) in
  '(cache, data) ← SStore.getData CACHE_SIZE reader (ls_cache ls) (bk x) (f32_of_f64 v);
  '(tb, ms) ← run_iter (ls_table ls) shard pos data;
  Ok (LoopState tb (ls_sent ls ++ ms) cache (f64_add (totalF2 ls) v) (updates ls + 1)).

(** [while (!it2->done())] for the iterator over all the rows ... *)
Fixpoint row_loop (fuel : nat) (ls : loop_state) (shard pos : Z) : outcome loop_state :=
  match fuel with
  | O => OutOfFuel
  | S fuel =>
    s ← GlobalTable.partition (ls_table ls) shard;
    if pos + 1 =? StateTable.size_ s then Ok ls
    else
      pos ← next_loop (StateTable.buckets_ s) (StateTable.size_ s) (S (length (StateTable.buckets_ s))) pos;
      if StateTable.size_ s <=? pos then Ok ls
      else ls ← visit ls shard pos; row_loop fuel ls shard pos
  end.
(** ... and for the scheduled positions, whose [Next] is always true. *)
Definition position_loop (ls : loop_state) (shard : Z) (scheduled_pos : list Z) : outcome loop_state :=
  for_each (fun ls pos => visit ls shard pos) scheduled_pos ls.

(** One round of [run_loop]'s [while (true)], for the iterator it got; [None]
    is the [break] on a null iterator. *)
Definition run_pass (fuel : nat) (ls : loop_state) (shard : Z) (it : StateTable.TableIterator (K := K) (V := V) (D := D)) :
    outcome (option loop_state) :=
  match it with
  | StateTable.NoIterator => Ok None
  | StateTable.RowIterator => ls ← row_loop fuel ls shard (-1); Ok (Some ls)
  | StateTable.PositionIterator ps => ls ← position_loop ls shard ps; Ok (Some ls)
  | StateTable.EntireIterator e => ls ← row_loop fuel ls shard (StateTable.ep_pos e); Ok (Some ls)
  end.

(** ** [MaiterKernel3]: writing the result *)

(** [operator<<] of keys and values. *)
Variable show_k : K -> cstr.
Variable show_v : V -> cstr.
Definition dump_line (r : K * StateTable.cell V D) : cstr :=
  show_k r.1 ++ lit (String.String "009" "") ++ show_v (StateTable.v2 r.2) ++ lit (String.String "010" "").

Fixpoint dump_loop (fuel : nat) (it : StateTable.EntirePassIterator (K := K) (V := V) (D := D)) (file : cstr)
    (totalF1 totalF2 : spec_float) : outcome (cstr * spec_float * spec_float) :=
  match fuel with
  | O => OutOfFuel
  | S fuel =>
    if StateTable.ep_done it then Ok (file, totalF1, totalF2)
    else
      '(it, cont) ← StateTable.ep_Next it;
      if negb cont then Ok (file, totalF1, totalF2)
      else
        x ← StateTable.ep_bucket it;
        dump_loop fuel it (file ++ dump_line (bk x, bval x))
          (f64_add totalF1 (v_double (K := K) (D := D) (StateTable.v1 (bval x))))
          (f64_add totalF2 (v_double (K := K) (D := D) (StateTable.v2 (bval x))))
  end.
Definition dump tb (shard : Z) : outcome (cstr * spec_float * spec_float) :=
  s ← GlobalTable.partition tb shard;
  dump_loop (S (S (length (StateTable.buckets_ s)))) (StateTable.EntirePass s) [] (S754_zero false) (S754_zero false).

(** The sum of the deltas, in bucket order. *)
Definition total1 (l : list (K * StateTable.cell V D)) (acc : spec_float) : spec_float :=
  fold_left (fun acc r => f64_add acc (v_double (K := K) (D := D) (StateTable.v1 r.2))) l acc.

Lemma dump_loop_spec s fuel p tot file t1 t2 :
  StateTable.wf s -> (p <= length (StateTable.buckets_ s))%nat -> (length (StateTable.buckets_ s) - p < fuel)%nat ->
  dump_loop fuel {| StateTable.ep_parent := s; StateTable.ep_pos := Z.of_nat p - 1; StateTable.ep_total := tot |} file t1 t2 =
  Ok (file ++ mjoin (dump_line <$> rows (drop p (StateTable.buckets_ s))),
      total1 (rows (drop p (StateTable.buckets_ s))) t1,
      StateTable.total (rows (drop p (StateTable.buckets_ s))) t2).
Proof.
  intros Hwf. revert p tot file t1 t2. induction fuel as [|fuel IH]; intros p tot file t1 t2 Hp Hf; [lia|].
  cbn [dump_loop]. rewrite StateTable.ep_done_spec by done.
  case_bool_decide as Hd; [rewrite drop_ge by lia; cbn; by rewrite app_nil_r|].
  destruct (StateTable.ep_Next_spec s p tot Hwf) as (q & E & Hq & Hr & Hc); [lia|]. rewrite E, Hr. run.
  destruct Hc as [->|(x & Hx & Hu & Hr')].
  - rewrite bool_decide_eq_false_2 by lia. run. rewrite drop_ge by lia. cbn. by rewrite app_nil_r.
  - pose proof (lookup_lt_Some _ _ _ Hx). rewrite bool_decide_eq_true_2 by lia. run.
    unfold StateTable.ep_bucket. cbn [StateTable.ep_parent StateTable.ep_pos]. rewrite (vec_at_Some _ _ _ Hx). run.
    replace (Z.of_nat q) with (Z.of_nat (S q) - 1) by lia. rewrite IH by lia.
    rewrite Hr'. cbn [fmap list_fmap]. by rewrite mjoin_cons, app_assoc.
Qed.

(** The dump of a shard writes one line for each of its rows, with the
    key and the value, and no other line; the totals are those of the rows. *)
Theorem dump_lists_rows tb i s :
  GlobalTable.partitions_ tb !! i = Some (GlobalTable.State s) -> StateTable.wf s ->
  exists l, dump tb (Z.of_nat i) =
      Ok (mjoin (dump_line <$> l), total1 l (S754_zero false), StateTable.total l (S754_zero false)) /\
    l ≡ₚ map_to_list (StateTable.contents s).
Proof.
  intros Hp Hwf. exists (rows (StateTable.buckets_ s)). split.
  - unfold dump, GlobalTable.partition. rewrite (vec_at_Some _ _ _ Hp). run. unfold StateTable.EntirePass.
    change (-1) with (Z.of_nat 0 - 1). by rewrite dump_loop_spec by (done || lia).
  - unfold StateTable.contents, to_map. symmetry.
    apply map_to_list_to_map, rows_keys_NoDup, (StateTable.wf_inv _ Hwf).
Qed.

(** ** One iteration *)
Section Iteration.
Context `{!AccumulateLaws K V D} `{!MarshalLaws K} `{!MarshalLaws V}.
Context {owners : list Z} {w : Z}.
Hypothesis representable_accumulate : forall a b : V,
  representable a -> representable b -> representable (accumulate (K := K) (D := D) a b).

(** A row whose delta was consumed: the value takes the delta, the delta is
    the default one. *)
Definition settled (c : StateTable.cell V D) (d1 d2 : V) : StateTable.cell V D :=
  StateTable.Cell (default_v (K := K) (D := D)) (accumulate (K := K) (D := D) d2 d1)
    (StateTable.v3 c) (v_zero (K := K) (D := D)).

Lemma get_row_at tb i s p x :
  GlobalTable.partitions_ tb !! i = Some (GlobalTable.State s) -> StateTable.buckets_ s !! p = Some x ->
  get_row tb (Z.of_nat i) (Z.of_nat p) = Ok x.
Proof.
  intros Hp Hx. unfold get_row, GlobalTable.partition. rewrite (vec_at_Some _ _ _ Hp). run.
  by apply vec_at_Some.
Qed.

(** Rewriting the row at position [p] of the local shard [i] in place. *)
Definition holds_row tb (i p : nat) (x : bucket K (StateTable.cell V D)) : Prop :=
  GlobalTable.wf owners w tb /\ GlobalTable.get_shard tb (bk x) = Z.of_nat i /\ in_use x = true /\
  exists s, GlobalTable.partitions_ tb !! i = Some (GlobalTable.State s) /\
    StateTable.buckets_ s !! p = Some x.

Definition rewrote tb tb' (k : K) (c : StateTable.cell V D) : Prop :=
  GlobalTable.pending_writes_ tb' = GlobalTable.pending_writes_ tb /\
  (forall k', GlobalTable.row tb' k' = if decide (k = k') then Some c else GlobalTable.row tb k') /\
  (forall k', GlobalTable.held tb' k' = if decide (k = k') then Some (StateTable.v1 c) else GlobalTable.held tb k').

Lemma rewrote_trans tb1 tb2 tb3 k c1 c2 : rewrote tb1 tb2 k c1 -> rewrote tb2 tb3 k c2 -> rewrote tb1 tb3 k c2.
Proof.
  intros (P1 & R1 & H1) (P2 & R2 & H2). split; [congruence|].
  split; intros k'; [rewrite R2, R1|rewrite H2, H1]; by case_decide.
Qed.

Lemma holds_row_wf tb i s p x : holds_row tb i p x ->
  GlobalTable.partitions_ tb !! i = Some (GlobalTable.State s) -> StateTable.wf s.
Proof. intros (Hwf & _) Hp. by apply (GlobalTable.wf_part _ _ _ Hwf) in Hp as (_ & ? & _). Qed.

(** Storing a state table that differs from the old one in the cell at [p]. *)
Lemma store_cell tb i p x s s' c :
  holds_row tb i p x -> GlobalTable.partitions_ tb !! i = Some (GlobalTable.State s) ->
  StateTable.wf s' -> StateTable.contents s' = <[bk x := c]> (StateTable.contents s) ->
  StateTable.buckets_ s' !! p = Some (Bucket (bk x) c true) ->
  exists tb', GlobalTable.set_partition tb (Z.of_nat i) (GlobalTable.State s') = Ok tb' /\
    holds_row tb' i p (Bucket (bk x) c true) /\ rewrote tb tb' (bk x) c.
Proof.
  intros (Hwf & Hk & Hu & _) Hs Hwf' Hc' Hb'.
  destruct (GlobalTable.store_row tb i (bk x) s s' c Hwf Hk Hs Hwf' Hc') as (E & Hw' & Hp' & Hr & Hh).
  eexists. split; [done|]. split; [|done]. split_and!; try done. by exists s'.
Qed.

Lemma set_row_spec tb i p x a b :
  holds_row tb i p x ->
  let c := StateTable.Cell a b (StateTable.v3 (bval x)) (StateTable.prio (bval x)) in
  exists tb', set_row tb (Z.of_nat i) (Z.of_nat p) a b = Ok tb' /\
    holds_row tb' i p (Bucket (bk x) c true) /\ rewrote tb tb' (bk x) c.
Proof.
  intros Hh c. pose proof Hh as (Hwf & Hk & Hu & s & Hs & Hx). pose proof (holds_row_wf _ _ s _ _ Hh Hs) as Hw.
  unfold set_row, GlobalTable.partition. rewrite (vec_at_Some _ _ _ Hs). run.
  rewrite (vec_at_Some _ _ _ Hx). run.
  destruct (StateTable.set_cell_at s p x c Hw Hx Hu) as (E & Hw' & Hc' & Hb'). subst c. rewrite E. run.
  rewrite Hu in *. by apply (store_cell tb i p x s).
Qed.

Lemma local_row tb i p x : holds_row tb i p x ->
  GlobalTable.is_local_shard tb (GlobalTable.get_shard tb (bk x)) = Ok true.
Proof.
  intros (Hwf & Hk & _ & s & Hs & _). rewrite Hk.
  pose proof (GlobalTable.wf_part _ _ _ Hwf _ _ Hs) as [Ho _].
  rewrite (GlobalTable.wf_local tb i w Hwf Ho). by rewrite Z.eqb_refl.
Qed.

Lemma accumulateF2_row tb i p x v :
  holds_row tb i p x ->
  let c := StateTable.Cell (StateTable.v1 (bval x)) (accumulate (K := K) (D := D) (StateTable.v2 (bval x)) v)
             (StateTable.v3 (bval x)) (StateTable.prio (bval x)) in
  exists tb', GlobalTable.accumulateF2 tb (bk x) v = Ok tb' /\
    holds_row tb' i p (Bucket (bk x) c true) /\ rewrote tb tb' (bk x) c.
Proof.
  intros Hh c. pose proof Hh as (Hwf & Hk & Hu & s & Hs & Hx). pose proof (holds_row_wf _ _ s _ _ Hh Hs) as Hw.
  unfold GlobalTable.accumulateF2, GlobalTable.write_local, GlobalTable.partition.
  rewrite (local_row tb i p x Hh), Hk, (vec_at_Some _ _ _ Hs). run.
  unfold StateTable.accumulateF2. rewrite (StateTable.checked_bucket_at s p x Hw Hx Hu). run.
  destruct (StateTable.set_cell_at s p x c Hw Hx Hu) as (E & Hw' & Hc' & Hb'). subst c. rewrite E. run.
  rewrite Hu in *. by apply (store_cell tb i p x s).
Qed.

Lemma updateF1_row tb i p x v :
  holds_row tb i p x ->
  let c := StateTable.Cell v (StateTable.v2 (bval x)) (StateTable.v3 (bval x)) (v_zero (K := K) (D := D)) in
  exists tb', GlobalTable.updateF1 tb (bk x) v = Ok tb' /\
    holds_row tb' i p (Bucket (bk x) c true) /\ rewrote tb tb' (bk x) c.
Proof.
  intros Hh c. pose proof Hh as (Hwf & Hk & Hu & s & Hs & Hx). pose proof (holds_row_wf _ _ s _ _ Hh Hs) as Hw.
  unfold GlobalTable.updateF1, GlobalTable.partition.
  rewrite (local_row tb i p x Hh), Hk, (vec_at_Some _ _ _ Hs). run.
  unfold StateTable.updateF1. rewrite (StateTable.checked_bucket_at s p x Hw Hx Hu). run.
  destruct (StateTable.set_cell_at s p x c Hw Hx Hu) as (E & Hw' & Hc' & Hb'). subst c. rewrite E. run.
  rewrite Hu in *. apply (store_cell tb i p x s); try done. by destruct Hw'.
Qed.

(** The row is settled, and then the output is accumulated. *)
Lemma run_iter_settles tb i p x data d1 d2 data' :
  holds_row tb i p x ->
  process_delta_v (bk x) (StateTable.v1 (bval x)) (StateTable.v2 (bval x)) data = (d1, d2, data') ->
  exists tb1, run_iter tb (Z.of_nat i) (Z.of_nat p) data =
    for_each (GlobalTable.apply_one bufmsg wire_size)
      (g_func (bk x) d1 (accumulate (K := K) (D := D) d2 d1) data' []) (tb1, []) /\
    holds_row tb1 i p (Bucket (bk x) (settled (bval x) d1 d2) true) /\
    rewrote tb tb1 (bk x) (settled (bval x) d1 d2).
Proof.
  intros Hh Epd. unfold run_iter. pose proof Hh as (_ & _ & _ & s & Hs & Hx).
  rewrite (get_row_at _ _ _ _ _ Hs Hx). run. rewrite Epd. run.
  destruct (set_row_spec tb i p x d1 d2 Hh) as (tb1 & E1 & Hh1 & R1). rewrite E1. run.
  destruct (accumulateF2_row tb1 i p _ d1 Hh1) as (tb2 & E2 & Hh2 & R2). cbn [bk bval] in E2. rewrite E2. run.
  pose proof Hh2 as (_ & _ & _ & s2 & Hs2 & Hx2). rewrite (get_row_at _ _ _ _ _ Hs2 Hx2). run.
  destruct (updateF1_row tb2 i p _ (default_v (K := K) (D := D)) Hh2) as (tb3 & E3 & Hh3 & R3).
  cbn [bk bval] in E3. rewrite E3. run.
  exists tb3. split; [done|]. split; [done|].
  eapply rewrote_trans; [|apply R3]. eapply rewrote_trans; done.
Qed.

(** What an iteration that returns did to the whole table. *)
Lemma run_iter_sound tb i p x data d1 d2 data' tb' ms :
  holds_row tb i p x -> GlobalTable.buffered_ok bufmsg tb ->
  process_delta_v (bk x) (StateTable.v1 (bval x)) (StateTable.v2 (bval x)) data = (d1, d2, data') ->
  let v := accumulate (K := K) (D := D) d2 d1 in
  let output := g_func (bk x) d1 v data' [] in
  Forall row_representable output ->
  run_iter tb (Z.of_nat i) (Z.of_nat p) data = Ok (tb', ms) ->
  GlobalTable.wf owners w tb' /\ GlobalTable.buffered_ok bufmsg tb' /\
  Forall (GlobalTable.message_ok owners) ms /\
  (forall k, StateTable.v2 <$> GlobalTable.row tb' k =
     if decide (bk x = k) then Some v else StateTable.v2 <$> GlobalTable.row tb k) /\
  (forall k, GlobalTable.oadd (D := D) (GlobalTable.held tb' k) (GlobalTable.inflight (D := D) ms k) =
     GlobalTable.oadd (D := D)
       (if decide (bk x = k) then Some (default_v (K := K) (D := D)) else GlobalTable.held tb k)
       (GlobalTable.carried (D := D) output k)) /\
  (representable (default_v (K := K) (V := V) (D := D)) -> representable v ->
     GlobalTable.rows_ok tb -> GlobalTable.rows_ok tb').
Proof.
  intros Hh Hb Epd v output Hrep Er.
  destruct (run_iter_settles tb i p x data d1 d2 data' Hh Epd) as (tb1 & E & Hh1 & Hp1 & Hr1 & Hd1).
  assert (GlobalTable.buffered_ok bufmsg tb1) as Hb1 by (unfold GlobalTable.buffered_ok; by rewrite Hp1).
  pose proof Hh1 as (Hwf1 & _). rewrite E in Er.
  destruct (GlobalTable.apply_pairs_sound bufmsg wire_size representable_accumulate output tb1 [] _ Hwf1 Hb1 Hrep Er)
    as (Hwf' & Hb' & Hms & Hc).
  destruct (GlobalTable.apply_pairs_values bufmsg wire_size representable_accumulate output tb1 [] _ Hwf1 Hb1 Hrep Er)
    as [H2 Hok]. cbn [fst] in *. split_and!; auto.
  - intros k. rewrite H2, Hr1. by case_decide.
  - intros k. rewrite Hc, Hd1. f_equal. apply GlobalTable.oadd_None_r.
  - intros Hdef Hv Ht. apply Hok. intros k c Hk. rewrite Hr1 in Hk.
    case_decide; [by injection Hk as <-|by apply (Ht k)].
Qed.

(** It returns when the neighbours can be addressed. *)
Lemma run_iter_spec tb i p x data d1 d2 data' :
  holds_row tb i p x -> GlobalTable.buffered_ok bufmsg tb ->
  process_delta_v (bk x) (StateTable.v1 (bval x)) (StateTable.v2 (bval x)) data = (d1, d2, data') ->
  let v := accumulate (K := K) (D := D) d2 d1 in
  let output := g_func (bk x) d1 v data' [] in
  Forall row_representable output ->
  Forall (fun r => GlobalTable.addressable (owners := owners) (w := w) tb r.1) output ->
  exists tb' ms, run_iter tb (Z.of_nat i) (Z.of_nat p) data = Ok (tb', ms) /\
    GlobalTable.wf owners w tb' /\ GlobalTable.buffered_ok bufmsg tb' /\
    Forall (GlobalTable.message_ok owners) ms /\
    (forall k, StateTable.v2 <$> GlobalTable.row tb' k =
       if decide (bk x = k) then Some v else StateTable.v2 <$> GlobalTable.row tb k) /\
    (forall k, GlobalTable.oadd (D := D) (GlobalTable.held tb' k) (GlobalTable.inflight (D := D) ms k) =
       GlobalTable.oadd (D := D)
         (if decide (bk x = k) then Some (default_v (K := K) (D := D)) else GlobalTable.held tb k)
         (GlobalTable.carried (D := D) output k)).
Proof.
  intros Hh Hb Epd v output Hrep Hadd.
  destruct (run_iter_settles tb i p x data d1 d2 data' Hh Epd) as (tb1 & E & Hh1 & Hp1 & Hr1 & Hd1).
  assert (GlobalTable.buffered_ok bufmsg tb1) as Hb1 by (unfold GlobalTable.buffered_ok; by rewrite Hp1).
  pose proof Hh1 as (Hwf1 & _).
  assert (Forall (fun r => GlobalTable.addressable (owners := owners) (w := w) tb1 r.1) output) as Hadd1.
  { eapply Forall_impl; [done|]. intros r [? Ha]. split; [done|]. intros Ho. rewrite Hr1.
    case_decide; [done|by apply Ha]. }
  destruct (GlobalTable.apply_pairs_total bufmsg wire_size representable_accumulate output tb1 [] Hwf1 Hb1 Hrep Hadd1)
    as (tb' & ms & E' & _). subst output v. rewrite <- E in E'.
  exists tb', ms. split; [done|].
  destruct (run_iter_sound tb i p x data d1 d2 data' tb' ms Hh Hb Epd Hrep E') as (? & ? & ? & ? & ? & _). done.
Qed.

(** C4. One iteration of a vertex: its value takes its delta, its delta is
    reset to the default, no other value changes, and exactly what [g_func]
    produced for the neighbours is added to what is pending for them, in local
    rows, delta tables or messages. *)
Theorem iteration_step tb i p x data d1 d2 data' :
  holds_row tb i p x -> GlobalTable.buffered_ok bufmsg tb ->
  process_delta_v (bk x) (StateTable.v1 (bval x)) (StateTable.v2 (bval x)) data = (d1, d2, data') ->
  let v := accumulate (K := K) (D := D) d2 d1 in
  let output := g_func (bk x) d1 v data' [] in
  Forall row_representable output ->
  Forall (fun r => GlobalTable.addressable (owners := owners) (w := w) tb r.1) output ->
  exists tb' ms, run_iter tb (Z.of_nat i) (Z.of_nat p) data = Ok (tb', ms) /\
    GlobalTable.wf owners w tb' /\ GlobalTable.buffered_ok bufmsg tb' /\
    Forall (GlobalTable.message_ok owners) ms /\
    (forall k, StateTable.v2 <$> GlobalTable.row tb' k =
       if decide (bk x = k) then Some v else StateTable.v2 <$> GlobalTable.row tb k) /\
    (forall k, GlobalTable.oadd (D := D) (GlobalTable.held tb' k) (GlobalTable.inflight (D := D) ms k) =
       GlobalTable.oadd (D := D)
         (if decide (bk x = k) then Some (default_v (K := K) (D := D)) else GlobalTable.held tb k)
         (GlobalTable.carried (D := D) output k)).
Proof. apply run_iter_spec. Qed.
End Iteration.
End Maiter.

(** ** The sample kernel

    Worker 0 of the sample cluster with the delta 0 for its vertex 0, whose
    neighbours are 1 and 3. *)
Section Sample.
Import GlobalTable.
#[local] Abbreviation table := (GlobalTable.t (K := Z) (V := Z) (D := list Z)).
Definition started : table := Eval vm_compute in
  (Cluster.get_ok (accumulateF1 10 Cluster.sample_size Cluster.worker0 0 0) (Cluster.no_table, [])).1.
Definition source : bucket Z (StateTable.cell Z (list Z)) := Bucket 0 (StateTable.Cell 0 far [] far) true.
Lemma started_row : holds_row (owners := Cluster.sample_owners) (w := 0) started 0 0 source.
Proof.
  split_and!; [|reflexivity|reflexivity|by eexists].
  assert (accumulateF1 10 Cluster.sample_size Cluster.worker0 0 0 = Ok (started, [])) as E by reflexivity.
  destruct (Cluster.wf_workers 10 Cluster.sample_owners Cluster.c0 Cluster.sample_wf 0%nat Cluster.worker0 eq_refl) as [Hw Hb].
  by destruct (accumulate_sound 10 Cluster.sample_size min_representable Cluster.worker0 0 0 _ Hw Hb
    ltac:(done) ltac:(done) E) as [? _].
Qed.
Lemma iteration_step_witness :
  exists tb' ms, run_iter 10 Cluster.sample_size started 0 0 [1; 3] = Ok (tb', ms) /\
    StateTable.v2 <$> row tb' 0 = Some 0.
Proof.
  destruct (iteration_step 10 Cluster.sample_size min_representable started 0 0 source [1; 3] 0 far [1; 3]
    started_row) as (tb' & ms & E & _ & _ & _ & Hv & _).
  - split; by vm_compute.
  - reflexivity.
  - by repeat constructor.
  - by repeat (constructor; [by split; vm_compute|]).
  - exists tb', ms. split; [exact E|]. exact (Hv 0).
Defined.

Definition show_digit (z : Z) : cstr := [char_of (48 + z)].
Lemma dump_lists_rows_witness :
  exists l, dump show_digit (fun v => show_digit (v mod 10)) Cluster.applied.1 1 =
      Ok (mjoin (dump_line show_digit (fun v => show_digit (v mod 10)) <$> l),
          total1 l (S754_zero false), StateTable.total l (S754_zero false)) /\
    (length l = 1)%nat.
Proof.
  destruct (dump_lists_rows show_digit (fun v => show_digit (v mod 10)) Cluster.applied.1 1
    (match partitions_ Cluster.applied.1 !! 1%nat with Some (State s) => s | _ => StateTable.mk [] 0 0 (S754_zero false) 0 false end))
    as (l & E & Hl).
  - reflexivity.
  - apply StateTable.state_wfb_sound. vm_compute. reflexivity.
  - exists l. split; [exact E|]. rewrite Hl. vm_compute. reflexivity.
Defined.
End Sample.
End Maiter.
