(* ===== verification/Loading.v ===== *)
(** * Start-up: from an empty table to the loaded one

    A worker creates its tables ([GlobalTable::Init]), is told the owner of
    each shard ([HandleShardAssignment]), turns its own shards into state tables
    ([InitStateTable]), sizes them ([resize]) and loads the vertices
    ([MaiterKernel1::read_file] of kernel/kernel.h).  This file shows that the
    sequence establishes the invariant of GlobalTable.v and which rows it
    leaves in the table. *)
From S2P Require Import Prelude Float StringPiece Probe Table SampleKernel DeltaTable StateTable GlobalTable.
From S2P Require Import Master Worker BlockStore Cluster Maiter.

Module Loading.
Import GlobalTable.
Section Loading.
Context {K V D : Type} `{Countable K} `{!Hashable K}.
Context `{!ValueInit K} `{!ValueInit V} `{!ValueInit D}.
Context `{!IterateKernel K V D} `{!Sharder K} `{!Marshal K} `{!Marshal V}.
Context `{!MarshalLaws K} `{!MarshalLaws V} `{!PriorityLaws K V D}.
#[local] Abbreviation table := (GlobalTable.t (K := K) (V := V) (D := D)).
Implicit Types tb : table.

(** ** Creation *)

(** A table whose shards are all empty delta tables of one bucket. *)
Definition blank (p : LocalTable (K := K) (V := V) (D := D)) : Prop :=
  exists d, p = Delta d /\ DeltaTable.wf d /\ DeltaTable.contents d = ∅ /\ DeltaTable.size_ d = 1.
Record fresh (owners : list Z) (w : Z) tb : Prop := {
  fr_helper : exists e, helper tb = Some {| helper_id := w; helper_epoch := e |};
  fr_shards : num_shards tb = Z.of_nat (length owners);
  fr_bound : Z.of_nat (length owners) < 2 ^ 31;
  fr_owners : sinfo_owner <$> partinfo_ tb = owners;
  fr_length : length (partitions_ tb) = length owners;
  fr_part : Forall blank (partitions_ tb);
  fr_pending : pending_writes_ tb = 0;
  fr_binit : binit tb = false
}.

Lemma create_deltaT_blank : exists p, create_deltaT (K := K) (V := V) (D := D) = Ok p /\ blank p.
Proof.
  unfold create_deltaT. destruct (DeltaTable.create_spec (K := K) (V := V) 2 1) as (d & E & Hw & Hc & Hs); [lia|].
  unfold depth. rewrite E. run. eexists. split; [done|]. by exists d.
Qed.

Lemma Init_fresh id n w e :
  0 <= n < 2 ^ 31 ->
  exists tb, Init id n (Some {| helper_id := w; helper_epoch := e |}) = Ok tb /\
    fresh (replicate (Z.to_nat n) (-1)) w tb.
Proof.
  intros Hn. unfold Init. rewrite (proj2 (Z.leb_le 0 n)) by lia. run.
  destruct (for_each_inv (fun ps (_ : Z) => p ← create_deltaT (K := K) (V := V) (D := D); Ok (ps ++ [p]))
    (fun pre ps => length ps = length pre /\ Forall blank ps) (seqZ 0 n) []) as (ps & E & Hl & Hb).
  - done.
  - intros pre z todo ps _ [Hl Hb]. destruct create_deltaT_blank as (p & E & Hp). rewrite E. run.
    eexists. split; [done|]. rewrite !length_app, Hl. split; [done|]. apply Forall_app. by repeat constructor.
  - rewrite E. run. eexists. split; [done|]. rewrite length_seqZ in Hl.
    split; cbn; rewrite ?length_replicate, ?fmap_replicate; try done; try lia. by exists e.
Qed.

(** The assignment message for one table: shard by shard. *)
Definition assignment (tid : Z) (owners : list Z) : list (Master.Taskid * Z) :=
  imap (fun k o => ((tid, Z.of_nat k), o)) owners.
Lemma elem_of_assignment tid owners i o :
  (i, o) ∈ assignment tid owners <-> exists k, i = (tid, Z.of_nat k) /\ owners !! k = Some o.
Proof.
  unfold assignment. rewrite list_elem_of_lookup. setoid_rewrite list_lookup_imap. setoid_rewrite fmap_Some. naive_solver.
Qed.
Lemma assignment_NoDup tid owners : NoDup (assignment tid owners).*1.
Proof.
  apply NoDup_alt. intros a b i Ha Hb. unfold assignment in *. rewrite list_lookup_fmap, list_lookup_imap in Ha, Hb.
  destruct (owners !! a), (owners !! b); cbn in *; try done. simplify_eq. lia.
Qed.

(** A worker that was told the owners of its only table. *)
Lemma assignment_fresh tid owners old (w : Worker.t) tb :
  Worker.tables w = [(tid, tb)] -> fresh old (Worker.id w) tb -> length old = length owners ->
  exists w' tb', Worker.HandleShardAssignment w (assignment tid owners) = Ok w' /\ Worker.table_at w' tid = Ok tb' /\
    fresh owners (Worker.id w) tb'.
Proof.
  intros Ht [? ? ? Ho ? ? ? ?] Hlen.
  assert (forall k, Worker.info_at w (tid, Z.of_nat k) = partinfo_ tb !! k) as Hinfo.
  { intros k. unfold Worker.info_at, Worker.position. rewrite Ht. cbn. rewrite decide_True by done. cbn.
    rewrite (proj2 (Z.leb_le _ _)) by lia. by rewrite Nat2Z.id. }
  assert (length (partinfo_ tb) = length owners) as Hlp by (rewrite <- Hlen, <- Ho; by rewrite length_fmap).
  destruct (Worker.assignments_spec (assignment tid owners) w) as (w' & E & Hr & Hset & _).
  { apply assignment_NoDup. }
  { intros i Hi. apply list_elem_of_fmap in Hi as ([j o] & -> & (k & -> & Hk)%elem_of_assignment). cbn. rewrite Hinfo.
    apply lookup_lt_is_Some_2. rewrite Hlp. by eapply lookup_lt_Some. }
  pose proof (Worker.ra_tables _ _ Hr) as HF. rewrite Ht in HF. apply Forall2_cons_inv_l in HF as ([i tb'] & l & [Ei (ps & Etb & Hps)] & HF & Et').
  apply Forall2_nil_inv_l in HF as ->. cbn in Ei, Etb, Hps. subst i tb'.
  exists w', (set_partinfo tb ps). split; [done|]. split.
  { unfold Worker.table_at, Worker.position. rewrite Et'. cbn. by rewrite decide_True. }
  split; cbn; try done; [congruence..|lia| |congruence]. apply list_eq. intros k. rewrite list_lookup_fmap.
  destruct (owners !! k) as [o|] eqn:Hk.
  - destruct (lookup_lt_is_Some_2 (partinfo_ tb) k) as [p Hp]; [rewrite Hlp; by eapply lookup_lt_Some|].
    assert (Worker.info_at w' (tid, Z.of_nat k) = Some (Worker.assigned (Worker.id w) o p)) as Hi.
    { apply Hset; [|by rewrite Hinfo]. apply elem_of_assignment. by exists k. }
    apply Worker.info_at_Some in Hi as (n & tb1 & _ & Hn & _ & Hp1). rewrite Et' in Hn. destruct n; [|done].
    injection Hn as <-. cbn in Hp1. rewrite Nat2Z.id in Hp1. by rewrite Hp1.
  - apply lookup_ge_None in Hk. by rewrite lookup_ge_None_2 by lia.
Qed.

(** ** [InitStateTable] *)
Lemma create_localT_spec :
  exists s, create_localT (K := K) (V := V) (D := D) = Ok (State s) /\ StateTable.wf s /\
    StateTable.contents s = ∅ /\ StateTable.size_ s = 1.
Proof.
  unfold create_localT. destruct (StateTable.state_create_spec (K := K) (V := V) (D := D) 1 1) as (s & E & ? & ? & ?); [lia|].
  unfold depth. rewrite E. run. by exists s.
Qed.

(** Loops over the shards that rewrite the local ones: [body] replaces the
    partition of a local shard and keeps the others. *)
Lemma local_shard tb ps owners w i o :
  (exists e, helper tb = Some {| helper_id := w; helper_epoch := e |}) ->
  sinfo_owner <$> partinfo_ tb = owners -> owners !! i = Some o ->
  is_local_shard (set_partitions tb ps) (Z.of_nat i) = Ok (o =? w).
Proof.
  intros [e He] Ho Hoi. unfold is_local_shard, owner, get_partition_info.
  cbn [helper partinfo_ set_partitions]. rewrite He. rewrite <- Ho, list_lookup_fmap in Hoi.
  apply fmap_Some in Hoi as (info & Hi & ->). by rewrite (vec_at_Some _ _ _ Hi).
Qed.

Section ShardLoop.
Variable body : table -> Z -> outcome table.
Variables (owners : list Z) (w : Z) (tb : table) (P Q : nat -> LocalTable (K := K) (V := V) (D := D) -> Prop).
Hypothesis body_local : forall ps i p, ps !! i = Some p -> owners !! i = Some w -> P i p ->
  exists p', body (set_partitions tb ps) (Z.of_nat i) = Ok (set_partitions tb (<[i := p']> ps)) /\ Q i p'.
Hypothesis body_remote : forall ps i p, ps !! i = Some p -> owners !! i <> Some w -> P i p ->
  (i < length owners)%nat -> body (set_partitions tb ps) (Z.of_nat i) = Ok (set_partitions tb ps) /\ Q i p.

Definition reached (n : nat) (ps : list (LocalTable (K := K) (V := V) (D := D))) : Prop :=
  length ps = length owners /\
  forall i p, ps !! i = Some p -> if decide (i < n)%nat then Q i p else P i p.

Lemma reached_step n ps p : ps !! n = Some p -> Q n p -> reached n ps -> reached (S n) ps.
Proof.
  intros Hp Hq [Hl Hall]. split; [done|]. intros i q Hi. destruct (decide (i = n)) as [->|Hne].
  - rewrite decide_True by lia. rewrite Hp in Hi. by injection Hi as <-.
  - specialize (Hall i q Hi). destruct (decide (i < n)%nat);
      [rewrite decide_True by lia|rewrite decide_False by lia]; done.
Qed.
Lemma reached_insert n ps p : Q n p -> reached n ps -> (n < length owners)%nat -> reached (S n) (<[n := p]> ps).
Proof.
  intros Hq [Hl Hall] Hn. split; [by rewrite length_insert|]. intros i q Hi.
  apply list_lookup_insert_Some in Hi as [(<- & <- & _)|[Hne Hi]]; [by rewrite decide_True by lia|].
  specialize (Hall i q Hi). destruct (decide (i < n)%nat);
    [rewrite decide_True by lia|rewrite decide_False by lia]; done.
Qed.

Lemma shard_loop :
  length (partitions_ tb) = length owners -> (forall i p, partitions_ tb !! i = Some p -> P i p) ->
  exists ps, for_each body (seqZ 0 (Z.of_nat (length owners))) tb = Ok (set_partitions tb ps) /\
    length ps = length owners /\ forall i p, ps !! i = Some p -> Q i p.
Proof.
  intros Hl HP.
  destruct (for_each_inv body (fun pre tb' => exists ps, tb' = set_partitions tb ps /\ reached (length pre) ps)
    (seqZ 0 (Z.of_nat (length owners))) tb) as (tb' & E & ps & -> & Hps & Hall).
  - exists (partitions_ tb). split; [by destruct tb|]. split; [done|]. intros i p Hp. by apply HP.
  - intros pre z todo ? Hs (ps & -> & Hr). rewrite length_app, Nat.add_1_r.
    pose proof (f_equal (fun l => l !! length pre) Hs) as Hz. cbv beta in Hz.
    rewrite list_lookup_middle in Hz by done. apply lookup_seqZ in Hz as [-> Hlt]. rewrite Z.add_0_l.
    pose proof Hr as [Hlen Hall]. destruct (lookup_lt_is_Some_2 ps (length pre)) as [p Hp]; [lia|].
    pose proof (Hall _ p Hp) as HPp. rewrite decide_False in HPp by lia.
    destruct (decide (owners !! length pre = Some w)) as [Ho|Ho].
    + destruct (body_local ps (length pre) p Hp Ho HPp) as (p' & E & Hq).
      eexists. split; [done|]. eexists. split; [done|]. apply reached_insert; [done..|lia].
    + destruct (body_remote ps (length pre) p Hp Ho HPp) as [E Hq]; [lia|].
      eexists. split; [done|]. exists ps. split; [done|]. by apply (reached_step _ _ p).
  - exists ps. split_and!; [done..|]. intros i p Hp. specialize (Hall i p Hp).
    rewrite decide_True in Hall; [done|]. rewrite length_seqZ. apply lookup_lt_Some in Hp. lia.
Qed.
End ShardLoop.

(** The local shards are empty state tables of [m] buckets. *)
Definition initialised (owners : list Z) (w m : Z) (i : nat) (p : LocalTable (K := K) (V := V) (D := D)) : Prop :=
  if decide (owners !! i = Some w) then
    exists s, p = State s /\ StateTable.wf s /\ StateTable.contents s = ∅ /\ StateTable.size_ s = m
  else blank p.

Lemma initialised_ok owners w m i p : initialised owners w m i p -> part_ok owners w 0 i p.
Proof.
  unfold initialised. case_decide as Hoi.
  - intros (s & -> & Hs & Hc & _). split_and!; [done..|]. intros k. rewrite Hc, lookup_empty. by intros [].
  - intros (d & -> & Hd & Hc & Hs). split; [done|].
    by apply (empty_delta_ok (Z.of_nat (length owners)) (Z.of_nat i) 0 d).
Qed.

Lemma InitStateTable_spec owners w tb :
  fresh owners w tb ->
  exists tb', InitStateTable tb = Ok tb' /\ wf owners w tb' /\ binit tb' = true /\ pending_writes_ tb' = 0 /\
    forall i p, partitions_ tb' !! i = Some p -> initialised owners w 1 i p.
Proof.
  intros Hf. pose proof Hf as [Hh Hn Hb Ho Hl Hp Hpend _]. unfold InitStateTable. rewrite Hl.
  destruct (shard_loop (fun tb i =>
      loc ← is_local_shard tb i;
      if loc : bool then p ← create_localT; set_partition tb i p else Ok tb)
    owners w tb (fun _ => blank) (initialised owners w 1)) as (ps & E & Hps & Hall).
  - intros ps i p Hi Hoi _. rewrite (local_shard tb ps owners w i w) by done. rewrite Z.eqb_refl. run.
    destruct create_localT_spec as (s & E & Hs). rewrite E. run.
    unfold set_partition. cbn [partitions_ set_partitions].
    rewrite vec_set_lt by (by eapply lookup_lt_Some). run.
    eexists. split; [done|]. unfold initialised. rewrite decide_True by done. by exists s.
  - intros ps i p Hi Hoi Hbl Hlt. destruct (lookup_lt_is_Some_2 owners i Hlt) as [o Ho'].
    rewrite (local_shard tb ps owners w i o) by done.
    destruct (Z.eqb_spec o w) as [->|_]; [done|]. run.
    split; [done|]. unfold initialised. by rewrite decide_False.
  - done.
  - intros i p Hi. by eapply Forall_lookup_1.
  - rewrite E. run. eexists. split; [done|]. split_and!; try done.
    split; try done. cbn [partitions_ set_partitions set_binit pending_writes_]. rewrite Hpend.
    intros i p Hi. by eapply initialised_ok, Hall.
Qed.

(** ** [resize] *)
Lemma shards_resize_spec owners w tb n :
  wf owners w tb -> pending_writes_ tb = 0 -> (0 < length owners)%nat ->
  0 <= n -> n / Z.of_nat (length owners) + 1 < 2 ^ 31 -> n < 2 ^ 62 ->
  (forall i p, partitions_ tb !! i = Some p -> initialised owners w 1 i p) ->
  exists tb', resize tb n = Ok tb' /\ wf owners w tb' /\ pending_writes_ tb' = 0 /\
    forall i p, partitions_ tb' !! i = Some p -> initialised owners w (n / Z.of_nat (length owners) + 1) i p.
Proof.
  intros Hwf Hpend Hpos Hn0 Hm Hn62 Hinit. unfold resize. rewrite (wf_length _ _ _ Hwf).
  set (m := n / Z.of_nat (length owners) + 1) in *.
  assert (0 < m) as Hm0 by (subst m; pose proof (Z.div_pos n (Z.of_nat (length owners))); lia).
  assert (to_int64 (to_uint64 n / Z.of_nat (length owners) + 1) = m) as Em.
  { rewrite wrapu_small by lia. fold m. apply wraps_small; lia. }
  rewrite Em.
  destruct (shard_loop (fun tb i =>
      loc ← is_local_shard tb i;
      if loc : bool then
        p ← vec_at (partitions_ tb) i; p ← resize_local p m; set_partition tb i p
      else Ok tb)
    owners w tb (initialised owners w 1) (initialised owners w m)) as (ps & E & Hps & Hall).
  - intros ps i p Hi Hoi HP. rewrite (local_shard tb ps owners w i w);
      [|apply Hwf|apply (wf_owners _ _ _ Hwf)|done]. rewrite Z.eqb_refl. run.
    cbn [partitions_ set_partitions]. rewrite (vec_at_Some _ _ _ Hi). run.
    unfold initialised in HP. rewrite decide_True in HP by done. destruct HP as (s & -> & Hs & Hc & Hsz).
    pose proof (StateTable.state_wf_entries_size _ Hs) as He. rewrite Hc, map_size_empty in He.
    destruct (StateTable.state_resize_spec 1 s m Hs) as (s' & E & Hs' & Hsz' & Hc'); [lia..|].
    cbn [resize_local]. unfold depth. rewrite E. run. unfold set_partition. cbn [partitions_ set_partitions].
    rewrite vec_set_lt by (by eapply lookup_lt_Some). run. eexists. split; [done|].
    unfold initialised. rewrite decide_True by done. exists s'. split_and!; try done.
    rewrite Hc'. case_decide; [done|]. by rewrite Hc, fmap_empty.
  - intros ps i p Hi Hoi HP Hlt. destruct (lookup_lt_is_Some_2 owners i Hlt) as [o Ho'].
    rewrite (local_shard tb ps owners w i o); [|apply Hwf|apply (wf_owners _ _ _ Hwf)|done].
    destruct (Z.eqb_spec o w) as [->|_]; [done|]. run. split; [done|].
    unfold initialised in *. by rewrite decide_False in * by done.
  - apply Hwf.
  - done.
  - eexists. split; [done|]. split_and!; try done. destruct Hwf as [? ? ? ? ? _]. split; try done.
    cbn [partitions_ set_partitions pending_writes_]. rewrite Hpend.
    intros i p Hi. by eapply initialised_ok, Hall.
Qed.

(** ** [read_file] *)

(** The row that the kernel's initialisers give a vertex. *)
Definition init_values (k : K) : V * V * D :=
  let '(value, data) := init_v (D := D) k value_init value_init in
  let '(delta, data) := init_c k value_init data in
  (delta, value, data).
Definition init_row (k : K) : StateTable.cell V D :=
  let '(delta, value, data) := init_values k in StateTable.fresh_cell (K := K) delta value data.

Lemma load_key_put tb word :
  Maiter.load_key tb word =
  (k ← getKey (V := V) (D := D) word;
   let '(delta, value, data) := init_values k in put tb k delta value data).
Proof.
  unfold Maiter.load_key, init_values. destruct (getKey word) as [k| | | |]; run; try done.
  destruct (init_v k value_init value_init) as [value data]. by destruct (init_c k value_init data).
Qed.

Definition in_shard (n : Z) (i : nat) (k : K) : bool := bool_decide (shard_of k n = Z.of_nat i).
Definition expected (n : Z) (ks : list K) (i : nat) : gmap K (StateTable.cell V D) :=
  list_to_map ((fun k => (k, init_row k)) <$> filter (fun k => in_shard n i k = true) ks).

Lemma keyed_lookup (l : list K) k :
  (list_to_map ((fun k => (k, init_row k)) <$> l) : gmap K (StateTable.cell V D)) !! k =
  if decide (k ∈ l) then Some (init_row k) else None.
Proof.
  induction l as [|k' l IH]; [done|]. rewrite fmap_cons, list_to_map_cons.
  destruct (decide (k' = k)) as [->|Hne].
  - rewrite decide_True by left. apply lookup_insert_eq.
  - rewrite lookup_insert_ne, IH by done. apply decide_ext. rewrite elem_of_cons. naive_solver.
Qed.
Lemma expected_lookup n ks i k :
  expected n ks i !! k = if decide (in_shard n i k = true /\ k ∈ ks) then Some (init_row k) else None.
Proof.
  unfold expected. rewrite keyed_lookup. apply decide_ext.
  apply (list_elem_of_filter (fun k => in_shard n i k = true)).
Qed.

Lemma expected_size n ks i :
  (base.size (expected n ks i) <= length (filter (fun k => in_shard n i k = true) ks))%nat.
Proof.
  unfold expected. generalize (filter (fun k => in_shard n i k = true) ks). intros l.
  induction l as [|k l IH]; [done|]. rewrite fmap_cons, list_to_map_cons, map_size_insert.
  cbn [length]. destruct (_ !! k); cbn; lia.
Qed.

Lemma expected_snoc n ks i k :
  expected n (ks ++ [k]) i =
  if in_shard n i k then <[k := init_row k]> (expected n ks i) else expected n ks i.
Proof.
  apply map_eq. intros k'. destruct (in_shard n i k) eqn:Hk.
  - destruct (decide (k = k')) as [<-|Hne].
    + rewrite lookup_insert_eq, expected_lookup, decide_True; [done|]. split; [done|].
      apply elem_of_app. right. left.
    + rewrite lookup_insert_ne, !expected_lookup by done.
      apply decide_ext. rewrite elem_of_app, list_elem_of_singleton. naive_solver.
  - rewrite !expected_lookup. apply decide_ext. rewrite elem_of_app, list_elem_of_singleton.
    split; [intros [? [?| ->]]; [done|congruence]|intros [? ?]; auto].
Qed.

(** The table after the keys [ks] were loaded. *)
Record loaded (owners : list Z) (w m : Z) (ks : list K) tb : Prop := {
  ld_wf : wf owners w tb;
  ld_pending : 0 <= pending_writes_ tb <= Z.of_nat (length ks);
  ld_rows : forall i s, partitions_ tb !! i = Some (State s) ->
    StateTable.size_ s = m /\ StateTable.contents s = expected (Z.of_nat (length owners)) ks i
}.

Lemma load_remote owners w m ks tb k :
  loaded owners w m ks tb ->
  (forall i s, partitions_ tb !! i = Some (State s) -> in_shard (Z.of_nat (length owners)) i k = false) ->
  loaded owners w m (ks ++ [k]) (set_pending tb (pending_writes_ tb + 1)).
Proof.
  intros [Hwf Hp Hr] Hno. split.
  - apply set_pending_wf; [done|]. intros i d Hd.
    apply (wf_part _ _ _ Hwf) in Hd as [_ (_ & _ & He & _)]. lia.
  - cbn. rewrite length_app. cbn. lia.
  - cbn. intros i s Hs. rewrite expected_snoc, (Hno i s Hs). by apply Hr.
Qed.

Lemma load_local owners w m ks tb k i s s' :
  loaded owners w m ks tb -> partitions_ tb !! i = Some (State s) ->
  shard_of k (Z.of_nat (length owners)) = Z.of_nat i ->
  StateTable.wf s' -> StateTable.size_ s' = m ->
  StateTable.contents s' = <[k := init_row k]> (StateTable.contents s) ->
  exists tb', set_partition tb (Z.of_nat i) (State s') = Ok tb' /\ loaded owners w m (ks ++ [k]) tb'.
Proof.
  intros [Hwf Hp Hr] Hs Hk Hw' Hsz Hc'. pose proof (wf_part _ _ _ Hwf _ _ Hs) as (Ho & _ & Hh).
  destruct (set_partition_spec tb i (State s') Hwf) as [E Hwf'];
    [by eapply lookup_lt_Some|split_and!; [done..|by eapply homed_insert]|].
  eexists. split; [done|]. split; [done|cbn; rewrite length_app; cbn; lia|].
  cbn [partitions_ set_partitions]. intros j s'' Hj. rewrite expected_snoc.
  apply list_lookup_insert_Some in Hj as [(<- & [= <-] & _)|[Hne Hj]].
  - destruct (Hr i s Hs) as [_ Hc]. unfold in_shard. rewrite bool_decide_eq_true_2 by done.
    split; [done|]. by rewrite Hc', Hc.
  - unfold in_shard. rewrite bool_decide_eq_false_2 by lia. by apply Hr.
Qed.

(** One key of the file. *)
Lemma load_key_spec owners w m ks tb word k :
  loaded owners w m ks tb -> getKey (V := V) (D := D) word = Ok k ->
  0 <= shard_of k (Z.of_nat (length owners)) < Z.of_nat (length owners) ->
  (forall i, Z.of_nat (length (filter (fun k => in_shard (Z.of_nat (length owners)) i k = true) (ks ++ [k]))) <= m) ->
  exists tb', Maiter.load_key tb word = Ok tb' /\ loaded owners w m (ks ++ [k]) tb'.
Proof.
  intros Hld Hkey Hrange Hroom. pose proof Hld as [Hwf Hp Hr]. rewrite load_key_put, Hkey. run.
  destruct (init_values k) as [[delta value] data] eqn:Ev.
  assert (init_row k = StateTable.fresh_cell (K := K) delta value data) as Hrow by (unfold init_row; by rewrite Ev).
  destruct (shard_index tb k Hwf Hrange) as (i & o & Hk & Ho & Hi).
  destruct (wf_lookup tb i o Hwf Ho) as (p & Hpi & Ep & Hok).
  unfold put. rewrite Hk, (wf_local tb i o Hwf Ho). run. destruct p as [d|s].
  - destruct Hok as [Hne _]. destruct (Z.eqb_spec o w) as [->|_]; [done|]. run. eexists. split; [done|].
    apply load_remote; [done|]. intros j s Hj. unfold in_shard. apply bool_decide_eq_false_2.
    intros Hjk. assert (j = i) as -> by lia. congruence.
  - destruct Hok as (Ho' & Hs & _). rewrite Ho in Ho'. injection Ho' as ->. rewrite Z.eqb_refl. run.
    unfold partition. rewrite Ep. run. destruct (Hr i s Hpi) as [Hsz Hc].
    destruct (StateTable.put_room 1 s k delta value data Hs) as (s' & E & Hw' & Hc' & Hsz').
    { right. rewrite (StateTable.state_wf_entries_size _ Hs), Hsz, Hc.
      pose proof (expected_size (Z.of_nat (length owners)) ks i). specialize (Hroom i).
      rewrite filter_app, filter_cons_True, filter_nil, length_app in Hroom
        by (unfold in_shard; by apply bool_decide_eq_true_2). cbn in Hroom. lia. }
    unfold depth. rewrite E. run. rewrite <- Hrow in Hc'. by apply (load_local owners w m ks tb k i s s'); try congruence.
Qed.

Definition fits (n m : Z) (ks : list K) : Prop :=
  Forall (fun k => 0 <= shard_of k n < n) ks /\
  forall i, Z.of_nat (length (filter (fun k => in_shard n i k = true) ks)) <= m.

Lemma load_words owners w m words : forall before tb ks,
  Forall2 (fun word k => getKey (V := V) (D := D) word = Ok k) words ks ->
  fits (Z.of_nat (length owners)) m (before ++ ks) ->
  loaded owners w m before tb ->
  exists tb', for_each Maiter.load_key words tb = Ok tb' /\ loaded owners w m (before ++ ks) tb'.
Proof.
  induction words as [|word words IH]; intros before tb ks Hw Hfit Hld.
  { apply Forall2_nil_inv_l in Hw as ->. exists tb. by rewrite app_nil_r. }
  apply Forall2_cons_inv_l in Hw as (k & ks' & Hk & Hw & ->).
  replace (before ++ k :: ks') with ((before ++ [k]) ++ ks') in * by (by rewrite <- app_assoc).
  pose proof Hfit as [Hrange Hroom].
  destruct (load_key_spec owners w m before tb word k Hld Hk) as (tb1 & E & Hld1).
  { apply Forall_app in Hrange as [[_ Hrange]%Forall_app _]. rewrite Forall_singleton in Hrange. exact Hrange. }
  { intros i. specialize (Hroom i). rewrite filter_app, length_app in Hroom. lia. }
  cbn [for_each]. rewrite E. run. by apply IH.
Qed.

(** What a loaded table holds. *)
Lemma loaded_row owners w m ks tb k :
  loaded owners w m ks tb -> 0 <= shard_of k (Z.of_nat (length owners)) ->
  row tb k =
  if decide (k ∈ ks /\ owners !! Z.to_nat (shard_of k (Z.of_nat (length owners))) = Some w)
  then Some (init_row k) else None.
Proof.
  intros [Hwf _ Hr] Hpos. unfold row, get_shard. rewrite (wf_shards _ _ _ Hwf).
  set (i := Z.to_nat (shard_of k (Z.of_nat (length owners)))).
  destruct (partitions_ tb !! i) as [[d|s]|] eqn:Hp.
  - pose proof (wf_part _ _ _ Hwf _ _ Hp) as [Ho _]. rewrite decide_False; [done|]. by intros [_ ?].
  - pose proof (wf_part _ _ _ Hwf _ _ Hp) as [Ho _]. destruct (Hr i s Hp) as [_ ->].
    rewrite expected_lookup. apply decide_ext. unfold in_shard. rewrite bool_decide_eq_true.
    assert (shard_of k (Z.of_nat (length owners)) = Z.of_nat i) by lia. naive_solver.
  - rewrite decide_False; [done|]. intros [_ Ho]. apply lookup_lt_Some in Ho.
    apply lookup_ge_None in Hp. rewrite (wf_length _ _ _ Hwf) in Hp. lia.
Qed.

Lemma init_table_spec owners w tb n file ks :
  fresh owners w tb -> (0 < length owners)%nat ->
  0 <= n < 2 ^ 62 -> n / Z.of_nat (length owners) + 1 < 2 ^ 31 ->
  Forall2 (fun word k => getKey (V := V) (D := D) word = Ok k)
    (Maiter.splitString (FileManager.readFully file) hash_sep) ks ->
  fits (Z.of_nat (length owners)) (n / Z.of_nat (length owners) + 1) ks ->
  exists tb', Maiter.init_table tb n file = Ok tb' /\
    loaded owners w (n / Z.of_nat (length owners) + 1) ks tb'.
Proof.
  intros Hf Hpos Hn Hm Hkeys Hfit. unfold Maiter.init_table. rewrite (fr_binit _ _ _ Hf).
  destruct (InitStateTable_spec owners w tb Hf) as (tb1 & E1 & Hwf1 & _ & Hp1 & Hi1). rewrite E1. run.
  destruct (shards_resize_spec owners w tb1 n Hwf1 Hp1 Hpos) as (tb2 & E2 & Hwf2 & Hp2 & Hi2); [lia..|done|].
  rewrite E2. run. unfold Maiter.read_file.
  apply (load_words owners w _ _ [] tb2 ks); [done..|]. split; [done|rewrite Hp2; cbn; lia|].
  intros i s Hs. specialize (Hi2 i _ Hs). unfold initialised in Hi2. case_decide.
  - destruct Hi2 as (s' & [= <-] & _ & Hc & Hsz). by rewrite Hc.
  - destruct Hi2 as (d & [=] & _).
Qed.

(** C27. Start-up: a worker creates its table, is told the owners of the
    shards, and runs [init_table], which sizes the local shards and loads the
    keys file.  All of it succeeds, and when no shard gets more than
    [n / shards + 1] keys, the table is then well formed and has exactly the rows
    of the keys the worker owns, with the kernel's initial delta, value and
    data. *)
Theorem startup_loads tid owners w peers n file ks :
  (0 < length owners)%nat -> Z.of_nat (length owners) < 2 ^ 31 ->
  0 <= n < 2 ^ 62 -> n / Z.of_nat (length owners) + 1 < 2 ^ 31 ->
  Forall2 (fun word k => getKey (V := V) (D := D) word = Ok k)
    (Maiter.splitString (FileManager.readFully file) hash_sep) ks ->
  fits (Z.of_nat (length owners)) (n / Z.of_nat (length owners) + 1) ks ->
  exists tb0 wk tb tb', Init tid (Z.of_nat (length owners)) (Some {| helper_id := w; helper_epoch := 0 |}) = Ok tb0 /\
    Worker.HandleShardAssignment (Worker.mk w 0 Master.CP_NONE ∅ peers true ∅ [(tid, tb0)] ∅) (assignment tid owners) = Ok wk /\
    Worker.table_at wk tid = Ok tb /\
    Maiter.init_table tb n file = Ok tb' /\ wf owners w tb' /\
    forall k, 0 <= shard_of k (Z.of_nat (length owners)) ->
      row tb' k =
      if decide (k ∈ ks /\ owners !! Z.to_nat (shard_of k (Z.of_nat (length owners))) = Some w)
      then Some (init_row k) else None.
Proof.
  intros Hpos Hlt Hn Hm Hkeys Hfit. destruct (Init_fresh tid (Z.of_nat (length owners)) w 0) as (tb0 & E0 & Hf0); [lia|].
  destruct (assignment_fresh tid owners _ (Worker.mk w 0 Master.CP_NONE ∅ peers true ∅ [(tid, tb0)] ∅) tb0 eq_refl Hf0)
    as (wk & tb & E1 & E2 & Hf); [rewrite length_replicate; lia|].
  destruct (init_table_spec owners w tb n file ks Hf Hpos Hn Hm Hkeys Hfit) as (tb' & E & Hld).
  exists tb0, wk, tb, tb'. split_and!; [done..|apply Hld|]. intros k Hk. by eapply loaded_row.
Qed.
End Loading.

(** ** The capacity with the [Mod] sharder

    The vertices [0 .. n-1] of a graph, sharded by remainder, fit into the
    tables of [n / shards + 1] buckets that [resize] makes. *)
Lemma Mod_eq k n : 0 <= k -> 0 < n < 2 ^ 31 -> Sharding.Mod k n = k mod n.
Proof.
  intros Hk Hn. unfold Sharding.Mod. rewrite Z.rem_mod_nonneg by lia.
  pose proof (Z.mod_pos_bound k n). apply to_int32_small. lia.
Qed.

Lemma Mod_fits (shards n : Z) :
  0 < shards < 2 ^ 31 -> 0 <= n -> fits (K := Z) shards (n / shards + 1) (seqZ 0 n).
Proof.
  intros Hs Hn. split.
  { apply Forall_forall. intros k Hk. apply elem_of_seqZ in Hk. apply Mod_range; lia. }
  intros i. set (l := filter (fun k => in_shard shards i k = true) (seqZ 0 n)).
  assert (forall k, k ∈ l -> 0 <= k < n /\ k mod shards = Z.of_nat i) as Hl.
  { intros k [Hk Hin]%list_elem_of_filter. apply elem_of_seqZ in Hin. unfold in_shard in Hk.
    apply bool_decide_eq_true in Hk. change (shard_of k shards) with (Sharding.Mod k shards) in Hk.
    rewrite Mod_eq in Hk by lia. split; [lia|done]. }
  assert (length ((fun k : Z => (k / shards)%Z) <$> l) <= length (seqZ 0 (n / shards + 1)%Z))%nat as Hlen.
  { apply NoDup_incl_length.
    - apply NoDup_ListNoDup, NoDup_fmap_2_strong; [|apply NoDup_filter, NoDup_seqZ].
      intros x y Hx Hy E. apply Hl in Hx as [_ Hx], Hy as [_ Hy].
      rewrite (Z.div_mod x shards), (Z.div_mod y shards) by lia. congruence.
    - intros q Hq. apply list_elem_of_In, list_elem_of_fmap in Hq as (k & -> & Hk).
      apply Hl in Hk as [Hk _]. apply list_elem_of_In, elem_of_seqZ.
      pose proof (Z.div_pos k shards). pose proof (Z.div_le_mono k n shards). lia. }
  rewrite length_fmap, length_seqZ in Hlen. pose proof (Z.div_pos n shards). lia.
Qed.

(** With the [Mod] sharder and the vertices [0 .. n-1] the capacity
    suffices: every shard gets at most [n / shards + 1] of them, so no row is
    lost to a full table. *)
Theorem Mod_capacity (shards n : Z) (i : nat) :
  0 < shards < 2 ^ 31 -> 0 <= n ->
  Z.of_nat (length (filter (fun k => in_shard shards i k = true) (seqZ 0 n))) <= n / shards + 1.
Proof. intros Hs Hn. by apply Mod_fits. Qed.
Lemma Mod_capacity_witness :
  Z.of_nat (length (filter (fun k => in_shard 3 1 k = true) (seqZ 0 10))) <= 10 / 3 + 1.
Proof. apply (Mod_capacity 3 10 1); lia. Defined.

(** ** The sample kernel: worker 1 of two, which loads the vertices 0 to 3 *)
Section Sample.
Definition keys_file : cstr := lit "#a#aa#aaa#".
Lemma startup_loads_witness :
  exists tb tb' : GlobalTable.t (K := Z) (V := Z) (D := list Z),
    Maiter.init_table tb 4 keys_file = Ok tb' /\ row tb' 3 = Some (init_row 3) /\ row tb' 2 = None.
Proof.
  destruct (startup_loads (V := Z) (D := list Z) 0 Cluster.sample_owners 1 [0; 0] 4 keys_file [0; 1; 2; 3])
    as (tb0 & wk & tb & tb' & _ & _ & _ & E & _ & Hrow).
  - cbn. lia.
  - cbn. lia.
  - lia.
  - vm_compute. reflexivity.
  - by repeat constructor.
  - apply (Mod_fits 2 4); lia.
  - exists tb, tb'. split; [exact E|]. split; apply Hrow; by vm_compute.
Defined.
End Sample.
End Loading.
