(* ===== verification/Examples.v ===== *)
(** * The example kernels: examples/*.cc

    The iteration kernels of PageRank, connected components, shortest paths,
    Katz, Adsorption and SimRank, the termination checker of SimRank, and the
    generator of the graphs they read (gengraph.cc).  A kernel whose operations
    always return a value is an instance of [IterateKernel]; all but PageRank
    leave [getKey] and [getValue] undefined, which are pure virtual, so these
    two are parameters.  [lexical_cast] is Boost's, also a parameter. *)
From S2P Require Import Prelude Float StringPiece Decimal Probe Table.

(** ** Adjacency lists *)
Record Link := { link_end : Z; link_weight : spec_float }.

Section Links.
Variable cast_int : cstr -> outcome Z.
Variable cast_float : cstr -> outcome spec_float.

(** [linestr.substr(0, pos)] and [linestr.substr(pos+1)] for the position of
    the tab; without one [pos] is -1 and both are the whole line. *)
Definition split_tab (linestr : cstr) : cstr * cstr :=
  match find_char "009" linestr with
  | Some pos => (take pos linestr, drop (S pos) linestr)
  | None => (linestr, linestr)
  end.

(** The loop over the links.  The variable [int to] has no initial value: an
    empty field pushes an indeterminate one.  What follows the last space is
    not read. *)
Fixpoint int_links (fuel : nat) (links : cstr) : outcome (list Z) :=
  match fuel with
  | O => OutOfFuel
  | S fuel =>
    match find_char " " links with
    | None => Ok []
    | Some spacepos =>
      to ← (if decide (0 < spacepos)%nat then cast_int (take spacepos links) else Undefined);
      linkvec ← int_links fuel (drop (S spacepos) links);
      Ok (to :: linkvec)
    end
  end.

(** One weighted link.  The comma is searched in the rest of the line,
    [links], and cuts the field [link]. *)
Definition weighted_link (links : cstr) (spacepos : nat) : outcome Link :=
  let link := take spacepos links in
  let cut := find_char "," links in
  e ← cast_int (match cut with Some c => take c link | None => link end);
  w ← substr link (match cut with Some c => S c | None => 0%nat end) (length link);
  w ← cast_float w;
  Ok {| link_end := e; link_weight := w |}.
Fixpoint weighted_links (fuel : nat) (links : cstr) : outcome (list Link) :=
  match fuel with
  | O => OutOfFuel
  | S fuel =>
    match find_char " " links with
    | None => Ok []
    | Some spacepos =>
      to ← (if decide (0 < spacepos)%nat then weighted_link links spacepos
            else Ok {| link_end := 0; link_weight := S754_zero false |});
      linkvec ← weighted_links fuel (drop (S spacepos) links);
      Ok (to :: linkvec)
    end
  end.

(** [read_data] of the kernels that test the tab (connected components), of
    those that do not (Katz), and of those with weights (shortest paths,
    Adsorption). *)
Definition read_data_checked (line : cstr) (k : Z) (data : list Z) : outcome (Z * list Z) :=
  match find_char "009" line with
  | None => Ok (k, data)
  | Some pos =>
    source ← cast_int (take pos line);
    linkvec ← int_links (S (length line)) (drop (S pos) line);
    Ok (source, linkvec)
  end.
Definition read_data_unchecked (line : cstr) (k : Z) (data : list Z) : outcome (Z * list Z) :=
  let '(s, links) := split_tab line in
  source ← cast_int s;
  linkvec ← int_links (S (length links)) links;
  Ok (source, linkvec).
Definition read_data_weighted (line : cstr) (k : Z) (data : list Link) : outcome (Z * list Link) :=
  let '(s, links) := split_tab line in
  source ← cast_int s;
  linkvec ← weighted_links (S (length links)) links;
  Ok (source, linkvec).
End Links.

(** [std::max] and [std::min]: the first argument when neither is smaller. *)
Definition f_min (a b : spec_float) : spec_float := if SFltb b a then b else a.
Definition i_max (a b : Z) : Z := if a <? b then b else a.

(** ** Connected components (con_component.cc)

    Vertex ids are propagated along the edges, the largest wins. *)
Module ConComponent.
Section ConComponent.
Variable cast_int : cstr -> outcome Z.
Variable getKey_ : cstr -> outcome Z.
Variable getValue_ : cstr -> outcome (list Z).

#[export] Instance kernel : IterateKernel Z Z (list Z) := {
  read_data := read_data_checked cast_int;
  init_c k delta data := (k, data);
  default_v := 0;
  init_v k v data := (0, data);
  accumulate a b := i_max a b;
  process_delta_v k delta value data := (delta, value, data);
  priority pri value delta := to_int32 (value - i_max value delta);
  g_func k delta value data output := output ++ ((fun target => (target, value)) <$> data);
  getKey := getKey_;
  getValue := getValue_;
  v_zero := 0;
  v_eqb := Z.eqb;
  v_ltb := Z.ltb;
  v_double := f64_of_Z
}.
End ConComponent.
End ConComponent.

(** ** PageRank (pagerank.cc) *)
Module Pagerank.
Section Pagerank.
Variable cast_long : cstr -> outcome Z.

(** [0.2] and [0.8] as [double]s. *)
Definition c02 : spec_float := S754_finite false 7205759403792794 (-55).
Definition c08 : spec_float := S754_finite false 7205759403792794 (-53).

(** The test of [*links.end()] reads the terminating zero, so that a space is
    always added; a link is a [long] stored in an [int]. *)
Definition read_data (line : cstr) (k : Z) (data : list Z) : outcome (Z * list Z) :=
  match find_char "009" line with
  | None => Ok (k, data)
  | Some pos =>
    source ← cast_long (take pos line);
    let links := drop (S pos) line ++ [" "%char] in
    linkvec ← int_links (fun s => x ← cast_long s; Ok (to_int32 x)) (S (length links)) links;
    Ok (source, linkvec)
  end.
Fixpoint cast_fields (strs : list cstr) : outcome (list Z) :=
  match strs with
  | [] => Ok []
  | s :: strs => x ← cast_long s; vec ← cast_fields strs; Ok (x :: vec)
  end.
Definition getValue (value : cstr) : outcome (list Z) :=
  cast_fields (split_on (is_char " ") (trim_right value)).
(** [delta * 0.8 / size]: the product and the quotient are [double]s. *)
Definition outv (delta : spec_float) (data : list Z) : spec_float :=
  let size := to_int32 (Z.of_nat (length data)) in
  f32_of_f64 (f64_div (f64_mul (f64_of_f32 delta) c08) (f64_of_Z size)).

#[export] Instance kernel : IterateKernel Z spec_float (list Z) := {
  read_data := read_data;
  init_c k delta data := (f32_of_f64 c02, data);
  default_v := S754_zero false;
  init_v k v data := (S754_zero false, data);
  accumulate a b := f32_add a b;
  process_delta_v k delta value data := (delta, value, data);
  priority pri value delta := delta;
  g_func k delta value data output := output ++ ((fun target => (target, outv delta data)) <$> data);
  getKey := cast_long;
  getValue := getValue;
  v_zero := S754_zero false;
  v_eqb := SFeqb;
  v_ltb := SFltb;
  v_double := f64_of_f32
}.
End Pagerank.
End Pagerank.

(** ** Shortest paths (shortestpath.cc) *)
Module Shortestpath.
Section Shortestpath.
Variable cast_int : cstr -> outcome Z.
Variable cast_float : cstr -> outcome spec_float.
Variable getKey_ : cstr -> outcome Z.
Variable getValue_ : cstr -> outcome (list Link).
Variable shortestpath_source : Z.

Definition imax : spec_float := f32_max.

#[export] Instance kernel : IterateKernel Z spec_float (list Link) := {
  read_data := read_data_weighted cast_int cast_float;
  init_c k delta data := (if k =? shortestpath_source then S754_zero false else imax, data);
  default_v := imax;
  init_v k v data := (imax, data);
  accumulate a b := f_min a b;
  process_delta_v k delta value data := (delta, value, data);
  priority pri value delta := f32_sub value (f_min value delta);
  g_func k delta value data output :=
    output ++ ((fun target => (link_end target, f32_add delta (link_weight target))) <$> data);
  getKey := getKey_;
  getValue := getValue_;
  v_zero := S754_zero false;
  v_eqb := SFeqb;
  v_ltb := SFltb;
  v_double := f64_of_f32
}.
End Shortestpath.
End Shortestpath.

(** ** Katz centrality (katz.cc) *)
Module Katz.
Section Katz.
Variable cast_int : cstr -> outcome Z.
Variable getKey_ : cstr -> outcome Z.
Variable getValue_ : cstr -> outcome (list Z).
Variable katz_source : Z.
Variable katz_beta : spec_float.

Definition outv (delta : spec_float) : spec_float := f32_of_f64 (f64_mul katz_beta (f64_of_f32 delta)).

#[export] Instance kernel : IterateKernel Z spec_float (list Z) := {
  read_data := read_data_unchecked cast_int;
  init_c k delta data := (if k =? katz_source then f32_of_Z 1000000 else S754_zero false, data);
  default_v := S754_zero false;
  init_v k v data := (S754_zero false, data);
  accumulate a b := f32_add a b;
  process_delta_v k delta value data := (delta, value, data);
  priority pri value delta := delta;
  g_func k delta value data output := output ++ ((fun target => (target, outv delta)) <$> data);
  getKey := getKey_;
  getValue := getValue_;
  v_zero := S754_zero false;
  v_eqb := SFeqb;
  v_ltb := SFltb;
  v_double := f64_of_f32
}.
End Katz.
End Katz.

(** ** Adsorption (adsorption.cc) *)
Module Adsorption.
Section Adsorption.
Variable cast_int : cstr -> outcome Z.
Variable cast_float : cstr -> outcome spec_float.
Variable getKey_ : cstr -> outcome Z.
Variable getValue_ : cstr -> outcome (list Link).
Variable adsorption_starts : Z.
Variable adsorption_damping : spec_float.

Definition outv (delta : spec_float) (target : Link) : spec_float :=
  f32_of_f64 (f64_mul (f64_mul (f64_of_f32 delta) adsorption_damping) (f64_of_f32 (link_weight target))).

#[export] Instance kernel : IterateKernel Z spec_float (list Link) := {
  read_data := read_data_weighted cast_int cast_float;
  init_c k delta data := (if k <? adsorption_starts then f32_of_Z 10 else S754_zero false, data);
  default_v := S754_zero false;
  init_v k v data := (S754_zero false, data);
  accumulate a b := f32_add a b;
  process_delta_v k delta value data := (delta, value, data);
  priority pri value delta := delta;
  g_func k delta value data output :=
    output ++ ((fun target => (link_end target, outv delta target)) <$> data);
  getKey := getKey_;
  getValue := getValue_;
  v_zero := S754_zero false;
  v_eqb := SFeqb;
  v_ltb := SFltb;
  v_double := f64_of_f32
}.
End Adsorption.
End Adsorption.

(** ** SimRank (simrank.cc)

    Keys are pairs ["a_b"]; the data is the number of pairs of in-neighbours
    and the two lists of out-neighbours.  [data[0][0]] of an empty vector is
    undefined, so these operations are partial. *)
Module Simrank.
Section Simrank.
Variable cast_int : cstr -> outcome Z.
(** [lexical_cast<string>(int)]. *)
Variable cast_string : Z -> cstr.

Definition data_t : Type := list (list Z).
(** [s.substr(0, p)] and [s.substr(p+1)] for the position [p] of [c], or -1. *)
Definition cut_at (c : ascii) (s : cstr) : cstr * cstr :=
  match find_char c s with
  | Some p => (take p s, drop (S p) s)
  | None => (s, s)
  end.
Definition blank (s : cstr) : bool := bool_decide (s = [] \/ s = [" "%char]).

Definition read_data (line k : cstr) (data : data_t) : outcome (cstr * data_t) :=
  match find_char "009" line with
  | None => Ok (k, data)
  | Some pos =>
    let k := take pos line in
    let '(I_ab, remain) := cut_at " " (drop (S pos) line) in
    i_ab ← cast_int I_ab;
    let '(links_a, links_b) := cut_at "009" remain in
    if blank links_a || blank links_b then Ok (k, [[i_ab]])
    else
      tmp_a ← int_links cast_int (S (length links_a)) links_a;
      tmp_b ← int_links cast_int (S (length links_b)) links_b;
      Ok (k, [[i_ab]; tmp_a; tmp_b])
  end.

(** [data[0][0]]. *)
Definition data00 (data : data_t) : outcome Z := row ← vec_at data 0; vec_at row 0.

Definition init_c (k : cstr) (delta : spec_float) (data : data_t) : outcome spec_float :=
  let '(key_a, key_b) := cut_at "_" k in
  if decide (key_a = key_b) then
    i ← data00 data; Ok (f64_div (f64_of_Z i) Pagerank.c08)
  else Ok (S754_zero false).
Definition init_v (k : cstr) (v : spec_float) (data : data_t) : spec_float := S754_zero false.
Definition process_delta_v (k : cstr) (delta value : spec_float) (data : data_t) : outcome spec_float :=
  if SFeqb delta (S754_zero false) then Ok delta
  else
    I_ab ← data00 data;
    if I_ab =? 0 then Ok delta
    else Ok (f64_div (f64_mul delta Pagerank.c08) (f64_of_Z I_ab)).
Definition accumulate (a b : spec_float) : spec_float := f64_add a b.
Definition priority (pri value delta : spec_float) : spec_float := delta.
Definition default_v : spec_float := S754_zero false.

(** The loops of [g_func]; [list] holds the keys sent so far. *)
Definition pair_key (a b : Z) : cstr :=
  if a <? b then cast_string a ++ "_"%char :: cast_string b
  else cast_string b ++ "_"%char :: cast_string a.
Definition push_pair (outv : spec_float) (st : list cstr * list (cstr * spec_float)) (ab : Z * Z) :
    list cstr * list (cstr * spec_float) :=
  let '(list, output) := st in
  let '(a, b) := ab in
  if a =? b then st
  else
    let key := pair_key a b in
    if bool_decide (key ∈ list) then st else (list ++ [key], output ++ [(key, outv)]).
Definition push_pairs (outv : spec_float) (as_ bs : list Z) (output : list (cstr * spec_float)) :
    list (cstr * spec_float) :=
  (fold_left (fun st a => fold_left (fun st b => push_pair outv st (a, b)) bs st) as_ ([], output)).2.
(** [g_func], with the counter [count] of the kernel object. *)
Definition g_func (count : Z) (k : cstr) (delta value : spec_float) (data : data_t)
    (output : list (cstr * spec_float)) : outcome (Z * list (cstr * spec_float)) :=
  if decide (length data < 3)%nat then Ok (count, output)
  else
    let count := to_int32 (count + 1) in
    if SFeqb delta (S754_zero false) then Ok (count, output)
    else
      I_ab ← data00 data;
      if I_ab =? 0 then Ok (count, output)
      else
        as_ ← vec_at data 1;
        bs ← vec_at data 2;
        if bool_decide (as_ = []) || bool_decide (bs = []) then Ok (count, output)
        else Ok (count, push_pairs delta as_ bs output).

(** The termination checker [SUM]. *)
Record SUM := { sum_last : spec_float; sum_curr : spec_float }.
Definition SUM_new : SUM := {| sum_last := SFopp f64_max; sum_curr := S754_zero false |}.
Definition set_curr (c : SUM) : spec_float := sum_curr c.
Fixpoint sum_loop {It} `{!LocalTableIterator It spec_float} (fuel : nat) (defaultv : spec_float) (it : It)
    (partial_curr : spec_float) : outcome spec_float :=
  match fuel with
  | O => OutOfFuel
  | S fuel =>
    if it_done it then Ok partial_curr
    else
      '(it, cont) ← it_Next it;
      if negb cont then Ok partial_curr
      else
        v ← it_value2 it;
        sum_loop fuel defaultv it (if SFeqb v defaultv then partial_curr else f64_add partial_curr v)
  end.
Definition sum_estimate_prog {It} `{!LocalTableIterator It spec_float} (fuel : nat) (it : It) : outcome spec_float :=
  sum_loop fuel (it_defaultV it) it (S754_zero false).
Definition sum_terminate (threshold : spec_float) (c : SUM) (local_reports : list spec_float) : bool * SUM :=
  let curr := fold_left f64_add local_reports (S754_zero false) in
  if SFleb threshold (SFabs curr)
  then (true, {| sum_last := sum_last c; sum_curr := curr |})
  else (false, {| sum_last := curr; sum_curr := curr |}).
End Simrank.
End Simrank.

(** ** Generated graphs (gengraph.cc)

    The random numbers are streams: [rand n] is the [n]-th call of
    [rand_target], [degree key] the value of [rand_degree] for a vertex. *)
Module GenGraph.
Section GenGraph.
Variable rand : nat -> Z.

(** [do p = rand_target() while (p == key)]; [n] calls were made before. *)
Fixpoint draw (fuel : nat) (key : Z) (n : nat) : outcome (Z * nat) :=
  match fuel with
  | O => OutOfFuel
  | S fuel => if rand n =? key then draw fuel key (S n) else Ok (rand n, S n)
  end.
Fixpoint draw_links (fuel count : nat) (key : Z) (n : nat) : outcome (list Z * nat) :=
  match count with
  | O => Ok ([], n)
  | S count =>
    '(p, n) ← draw fuel key n;
    '(links, n) ← draw_links fuel count key n;
    Ok (p :: links, n)
  end.
Definition InitLinks (fuel : nat) (degree key : Z) (n : nat) : outcome (list Z * nat) :=
  let degree := if 10000 <? degree then 10000 else degree in
  draw_links fuel (Z.to_nat degree) key n.

(** One line of [gen_unweightgraph]. *)
Definition links_text (links : list Z) : cstr := mjoin ((fun t => show_int t ++ [" "%char]) <$> links).
Definition graph_line (i : Z) (links : list Z) : cstr := show_int i ++ "009"%char :: links_text links.
(** The loop over the vertices of a shard: [i += num_shards] from
    [current_shard()]. *)
Fixpoint gen_loop (steps fuel : nat) (degree : Z -> Z) (graph_size num_shards i : Z) (n : nat) :
    outcome (cstr * nat) :=
  match steps with
  | O => OutOfFuel
  | S steps =>
    if i <? graph_size then
      '(links, n) ← InitLinks fuel (degree i) i n;
      '(rest, n) ← gen_loop steps fuel degree graph_size num_shards (to_int32 (i + num_shards)) n;
      Ok (graph_line i links ++ "010"%char :: rest, n)
    else Ok ([], n)
  end.
Definition gen_unweightgraph (fuel : nat) (degree : Z -> Z) (graph_size num_shards current_shard : Z) :
    outcome cstr :=
  '(partition, _) ← gen_loop (S (Z.to_nat graph_size)) fuel degree graph_size num_shards current_shard 0;
  Ok partition.
End GenGraph.
End GenGraph.

(** ** Reading a generated graph back *)

Lemma find_char_none c w : c ∉ w -> find_char c w = None.
Proof.
  induction w as [|x w IH]; intros Hc; [done|]. cbn [find_char].
  apply not_elem_of_cons in Hc as [Hx Hc]. by rewrite decide_False, (IH Hc).
Qed.
Lemma plain_absent c w : Forall (fun x => plain x = true) w -> plain c = false -> c ∉ w.
Proof. intros Hw Hc Hin. rewrite Forall_forall in Hw. rewrite Hw in Hc; done. Qed.

Lemma drop_after {A} (w : list A) c s : drop (S (length w)) (w ++ c :: s) = s.
Proof. by induction w. Qed.

Section ReadBack.
Variable cast_int : cstr -> outcome Z.
(** [lexical_cast<int>] reads what [operator<<] writes. *)
Hypothesis cast_show : forall i, - 2 ^ 31 <= i < 2 ^ 31 -> cast_int (show_int i) = Ok i.
Abbreviation is_int i := (- 2 ^ 31 <= i < 2 ^ 31).

Lemma links_text_cons t l : GenGraph.links_text (t :: l) = show_int t ++ " "%char :: GenGraph.links_text l.
Proof. unfold GenGraph.links_text. cbn [fmap list_fmap]. by rewrite mjoin_cons, <- app_assoc. Qed.

Lemma int_links_text l : forall fuel, (length l < fuel)%nat -> Forall (fun t => is_int t) l ->
  int_links cast_int fuel (GenGraph.links_text l) = Ok l.
Proof.
  induction l as [|t l IH]; intros fuel Hf Hl; destruct fuel as [|fuel]; try (cbn in Hf; lia); [done|].
  apply Forall_cons in Hl as [Ht Hl]. cbn [length] in Hf. rewrite links_text_cons. cbn [int_links].
  rewrite find_char_app by (by eapply plain_absent; [apply show_int_plain|]).
  pose proof (show_int_nonempty t) as Hn.
  rewrite decide_True by (destruct (show_int t); [done|cbn; lia]).
  rewrite take_app_length, (cast_show t Ht). run.
  rewrite drop_after, (IH fuel) by (done || lia). by run.
Qed.
Lemma links_text_length l : (length l <= length (GenGraph.links_text l))%nat.
Proof.
  induction l as [|t l IH]; [done|]. rewrite links_text_cons, length_app. cbn [length]. lia.
Qed.

(** One line of the file. *)
Lemma graph_line_read i l k data : is_int i -> Forall (fun t => is_int t) l ->
  read_data_checked cast_int (GenGraph.graph_line i l) k data = Ok (i, l).
Proof.
  intros Hi Hl. unfold read_data_checked, GenGraph.graph_line.
  rewrite find_char_app by (by eapply plain_absent; [apply show_int_plain|]).
  rewrite take_app_length, (cast_show i Hi). run. rewrite drop_after.
  rewrite int_links_text; [by run| |done]. rewrite length_app. cbn [length].
  pose proof (links_text_length l). lia.
Qed.
Lemma graph_line_newline i l : "010"%char ∉ GenGraph.graph_line i l.
Proof.
  unfold GenGraph.graph_line. rewrite elem_of_app, elem_of_cons. intros [Hin|[Hin|Hin]]; [|done|].
  - by eapply plain_absent; [apply (show_int_plain i)|..|exact Hin].
  - induction l as [|t l IH]; [by apply not_elem_of_nil in Hin|]. rewrite links_text_cons in Hin.
    apply elem_of_app in Hin as [Hin|[Hin|Hin]%elem_of_cons]; [|done|auto].
    by eapply plain_absent; [apply (show_int_plain t)|..|exact Hin].
Qed.

(** PageRank's [read_data] adds a space of its own, and reads the empty field
    between the two. *)
Lemma pagerank_line_undefined i l : is_int i -> Forall (fun t => is_int t) l ->
  forall k data, Pagerank.read_data cast_int (GenGraph.graph_line i l) k data = Undefined.
Proof.
  intros Hi Hl k data. unfold Pagerank.read_data, GenGraph.graph_line.
  rewrite find_char_app by (by eapply plain_absent; [apply show_int_plain|]).
  rewrite take_app_length, (cast_show i Hi). run. rewrite drop_after.
  assert (forall fuel, (length l < fuel)%nat -> int_links (fun s => x ← cast_int s; Ok (to_int32 x)) fuel
    (GenGraph.links_text l ++ [" "%char]) = Undefined) as ->; [|by run|].
  2:{ rewrite length_app. pose proof (links_text_length l). cbn. lia. }
  induction Hl as [|t l Ht Hl IH]; intros fuel Hf; destruct fuel as [|fuel]; try (cbn in Hf; lia); [done|].
  cbn [length] in Hf. rewrite links_text_cons, <- app_assoc. cbn [int_links app].
  rewrite find_char_app by (by eapply plain_absent; [apply show_int_plain|]).
  pose proof (show_int_nonempty t) as Hn.
  rewrite decide_True by (destruct (show_int t); [done|cbn; lia]).
  rewrite take_app_length, (cast_show t Ht). run. rewrite drop_after, (IH fuel) by lia. by run.
Qed.
End ReadBack.

(** ** Generating *)
Section Generate.
Import GenGraph.
Variables (rand : nat -> Z) (fuel : nat) (size : Z).
(** The draws are vertices, and among [fuel] successive ones some is not a
    given vertex. *)
Hypothesis rand_range : forall n, 0 <= rand n < size.
Hypothesis rand_varies : forall key n, exists j, (j < fuel)%nat /\ rand (n + j) <> key.

Lemma draw_spec key : forall fuel n, (exists j, (j < fuel)%nat /\ rand (n + j) <> key) ->
  exists p n', draw rand fuel key n = Ok (p, n') /\ p <> key /\ 0 <= p < size.
Proof.
  induction fuel0 as [|f IH]; intros n (j & Hj & Hne); [lia|]. cbn [draw].
  destruct (Z.eqb_spec (rand n) key) as [Heq|Hneq]; [|by eauto].
  destruct j as [|j]; [by rewrite Nat.add_0_r in Hne|].
  apply IH. exists j. split; [lia|]. by rewrite <- Nat.add_succ_comm in Hne.
Qed.

(** The links of a vertex: other vertices, as many as the degree says. *)
Definition links_of (degree key : Z) (links : list Z) : Prop :=
  Forall (fun p => p <> key /\ 0 <= p < size) links /\
  Z.of_nat (length links) = Z.max 0 (Z.min degree 10000).

Lemma InitLinks_spec degree key n :
  exists links n', InitLinks rand fuel degree key n = Ok (links, n') /\ links_of degree key links.
Proof.
  unfold InitLinks, links_of.
  assert (forall count n, exists links n', draw_links rand fuel count key n = Ok (links, n') /\
    Forall (fun p => p <> key /\ 0 <= p < size) links /\ length links = count) as Hd.
  { clear n. induction count as [|count IH]; intros n; cbn [draw_links]; [by eauto|].
    destruct (draw_spec key fuel n (rand_varies key n)) as (p & n1 & -> & Hp). run.
    destruct (IH n1) as (links & n2 & -> & Hl & Hlen). run. exists (p :: links), n2.
    split; [done|]. split; [by constructor|]. cbn. lia. }
  destruct (Hd (Z.to_nat (if 10000 <? degree then 10000 else degree)) n) as (links & n' & -> & Hl & Hlen).
  exists links, n'. split_and!; [done..|]. rewrite Hlen. destruct (Z.ltb_spec 10000 degree); lia.
Qed.

Variables (degree : Z -> Z) (num_shards : Z).
Hypothesis shards_pos : 0 < num_shards.
Hypothesis size_small : size + num_shards < 2 ^ 31.

(** The rows of the file from vertex [i] on. *)
Definition rows_from (i : Z) (rows : list (Z * list Z)) : Prop :=
  (exists m, rows.*1 = (fun j => i + num_shards * Z.of_nat j) <$> seq 0 m /\
     size <= i + num_shards * Z.of_nat m) /\
  Forall (fun r => r.1 < size /\ links_of (degree r.1) r.1 r.2) rows.

Lemma gen_loop_spec steps : forall i n, 0 <= i -> i < 2 ^ 31 -> (Z.to_nat (size - i) < steps)%nat ->
  exists rows n', gen_loop rand steps fuel degree size num_shards i n =
      Ok (mjoin ((fun r => graph_line r.1 r.2 ++ ["010"%char]) <$> rows), n') /\ rows_from i rows.
Proof.
  induction steps as [|steps IH]; intros i n Hi Hi' Hs; [lia|]. cbn [gen_loop].
  destruct (Z.ltb_spec i size) as [Hlt|Hge].
  - destruct (InitLinks_spec (degree i) i n) as (links & n1 & -> & Hl). run.
    rewrite to_int32_small by lia.
    destruct (IH (i + num_shards) n1) as (rows & n2 & -> & (m & Hm & Hend) & Hrows); [lia..|]. run.
    exists ((i, links) :: rows), n2. split.
    { cbn [fmap list_fmap fst snd]. by rewrite mjoin_cons, <- app_assoc. }
    split; [|by constructor]. exists (S m). split; [|lia]. cbn [seq].
    rewrite !fmap_cons, Hm, <- fmap_S_seq, <- list_fmap_compose. f_equal; [cbn; lia|].
    apply list_fmap_ext. intros j x _. cbn. lia.
  - exists [], n. split; [done|]. split; [|constructor]. exists 0%nat. split; [done|]. lia.
Qed.

Lemma getlines_rows (rows : list (Z * list Z)) :
  getlines "010" (mjoin ((fun r => graph_line r.1 r.2 ++ ["010"%char]) <$> rows)) =
  (fun r => graph_line r.1 r.2) <$> rows.
Proof.
  induction rows as [|[i l] rows IH]; [done|]. cbn [fmap list_fmap fst snd].
  rewrite mjoin_cons, <- app_assoc. cbn [app]. rewrite getlines_app by apply graph_line_newline.
  f_equal. exact IH.
Qed.

(** A generated graph is read back: [gen_unweightgraph] writes for its
    shard one line for each of the vertices [current_shard()],
    [current_shard() + num_shards], ... below [graph_size], each with
    min(degree, 10000) links to other vertices, and [read_data] of the
    connected-components kernel returns exactly that vertex and those links
    for every line. *)
Theorem graph_read_back (cast_int : cstr -> outcome Z) shard :
  (forall i, - 2 ^ 31 <= i < 2 ^ 31 -> cast_int (show_int i) = Ok i) -> 0 <= shard < 2 ^ 31 ->
  exists file rows, gen_unweightgraph rand fuel degree size num_shards shard = Ok file /\
    rows_from shard rows /\
    Forall2 (fun line r => forall k data, read_data_checked cast_int line k data = Ok r)
      (getlines "010" file) rows.
Proof.
  intros Hcast [Hs Hs']. unfold gen_unweightgraph.
  destruct (gen_loop_spec (S (Z.to_nat size)) shard 0 Hs Hs') as (rows & n & -> & Hrows); [lia|]. run.
  eexists _, rows. split; [done|]. split; [done|]. rewrite getlines_rows.
  apply Forall2_fmap_l, Forall_Forall2_diag. destruct Hrows as [(m & Hm & _) Hrows].
  assert (Forall (fun r => 0 <= r.1) rows) as Hpos.
  { apply (Forall_fmap fst (fun i => 0 <= i)). rewrite Hm. apply Forall_fmap, Forall_true. intros j. cbn. lia. }
  rewrite Forall_forall in *. intros [i l] Hin k data.
  destruct (Hrows _ Hin) as [Hlt [Hl _]]. specialize (Hpos _ Hin). cbn [fst snd] in *.
  apply (graph_line_read cast_int Hcast); [lia|]. eapply Forall_impl; [exact Hl|]. cbn. lia.
Qed.
End Generate.

(** ** Laws of the accumulations *)
Lemma i_max_max a b : i_max a b = Z.max a b.
Proof. unfold i_max. destruct (Z.ltb_spec a b); lia. Qed.

Section ConLaws.
Variables (cast_int getKey_ : cstr -> outcome Z) (getValue_ : cstr -> outcome (list Z)).
#[export] Instance con_component_laws :
  @AccumulateLaws Z Z (list Z) (ConComponent.kernel cast_int getKey_ getValue_).
Proof. split; intros; unfold accumulate, ConComponent.kernel; rewrite !i_max_max; lia. Qed.
#[export] Instance con_component_priority :
  @PriorityLaws Z Z (list Z) (ConComponent.kernel cast_int getKey_ getValue_).
Proof. by intros ????. Qed.
End ConLaws.

(** The scheduling priority of connected components is inverted: a row
    whose delta would raise its value has a negative priority, a row whose
    delta brings nothing has priority 0, so that the selection by highest
    priority takes the rows without work first.  The shortest-path kernel's
    priority has the other sign. *)
Theorem con_priority_inverted cast getKey_ getValue_ pri value delta :
  0 <= value < 2 ^ 31 -> - 2 ^ 31 <= delta < 2 ^ 31 ->
  let p := priority (K := Z) (D := list Z) (IterateKernel := ConComponent.kernel cast getKey_ getValue_) pri value delta in
  p <= 0 /\ (p < 0 <->
    accumulate (K := Z) (D := list Z) (IterateKernel := ConComponent.kernel cast getKey_ getValue_) value delta <> value).
Proof.
  intros Hv Hd p. subst p. unfold priority, accumulate, ConComponent.kernel. rewrite !i_max_max.
  rewrite to_int32_small by lia. lia.
Qed.
Lemma con_priority_inverted_witness :
  priority (K := Z) (D := list Z) (IterateKernel := ConComponent.kernel (fun _ => Throw) (fun _ => Throw) (fun _ => Throw)) 0 3 7 < 0.
Proof.
  apply (con_priority_inverted (fun _ => Throw) (fun _ => Throw) (fun _ => Throw) 0 3 7 ltac:(lia) ltac:(lia)).
  vm_compute. discriminate.
Defined.

(** PageRank's accumulation is not associative: it adds [float]s, and the
    order in which updates arrive changes the sum.  The laws under which the
    tables combine updates in any order do not hold for it. *)
Theorem pagerank_not_associative cast :
  ~ @AccumulateLaws Z spec_float (list Z) (Pagerank.kernel cast).
Proof.
  intros [_ Ha].
  specialize (Ha (f32_of_Z 1) (S754_finite false 1 (-24)) (S754_finite false 1 (-24))).
  vm_compute in Ha. discriminate Ha.
Qed.

(** ** SimRank's pairs *)
Section SimrankPairs.
Import Simrank.
Variable cast_string : Z -> cstr.
Abbreviation key_of ab := (pair_key cast_string ab.1 ab.2).

(** The keys pushed so far and those of the pairs seen. *)
Definition pushed (outv : spec_float) (output0 : list (cstr * spec_float)) (seen : list (Z * Z))
    (st : list cstr * list (cstr * spec_float)) : Prop :=
  st.2 = output0 ++ ((fun k => (k, outv)) <$> st.1) /\ NoDup st.1 /\
  forall k, k ∈ st.1 <-> exists ab, ab ∈ seen /\ ab.1 <> ab.2 /\ k = key_of ab.

Lemma push_pair_spec outv output0 seen st ab :
  pushed outv output0 seen st -> pushed outv output0 (seen ++ [ab]) (push_pair cast_string outv st ab).
Proof.
  destruct st as [l o], ab as [a b]. intros (Ho & Hn & Hk). cbn [fst snd] in *. unfold push_pair.
  assert (forall k, (exists ab, ab ∈ seen ++ [(a, b)] /\ ab.1 <> ab.2 /\ k = key_of ab) <->
    k ∈ l \/ (a <> b /\ k = pair_key cast_string a b)) as Hk'.
  { intros k. rewrite Hk. split.
    - intros (ab & Hin & Hne & ->). apply elem_of_app in Hin as [Hin|Hin%list_elem_of_singleton]; [by left; eauto|].
      subst ab. by right.
    - intros [(ab & Hin & Hne & ->)|[Hne ->]]; [exists ab|exists (a, b)];
        (split; [apply elem_of_app; auto|done]). right. by apply list_elem_of_singleton. }
  unfold pushed. setoid_rewrite Hk'.
  destruct (Z.eqb_spec a b) as [->|Hne]; [split_and!; try done; intros k; naive_solver|].
  case_bool_decide as Hin; cbn [fst snd].
  { split_and!; try done. intros k. naive_solver. }
  split_and!.
  - by rewrite Ho, fmap_app, app_assoc.
  - apply NoDup_app. split_and!; [done| |apply NoDup_singleton]. intros k Hk1 ->%list_elem_of_singleton. done.
  - intros k. rewrite elem_of_app, list_elem_of_singleton. naive_solver.
Qed.

Lemma push_row outv output0 a bs : forall seen st, pushed outv output0 seen st ->
  pushed outv output0 (seen ++ ((fun b => (a, b)) <$> bs)) (fold_left (fun st b => push_pair cast_string outv st (a, b)) bs st).
Proof.
  induction bs as [|b bs IH]; intros seen st Hp; cbn [fold_left]; [by rewrite app_nil_r|].
  rewrite fmap_cons, cons_middle, app_assoc. apply IH, push_pair_spec, Hp.
Qed.
Lemma push_rows outv output0 as_ bs : forall seen st, pushed outv output0 seen st ->
  pushed outv output0 (seen ++ mjoin ((fun a => (fun b => (a, b)) <$> bs) <$> as_))
    (fold_left (fun st a => fold_left (fun st b => push_pair cast_string outv st (a, b)) bs st) as_ st).
Proof.
  induction as_ as [|a as_ IH]; intros seen st Hp; cbn [fold_left]; [by rewrite app_nil_r|].
  rewrite fmap_cons, mjoin_cons, app_assoc. apply IH, push_row, Hp.
Qed.

(** SimRank sends the delta of a pair of vertices once to every pair of
    distinct out-neighbours: [g_func] of a row with a delta, in-neighbours and
    two lists of out-neighbours appends one message for each key of such a
    pair, smaller vertex first, without repetitions, and nothing else. *)
Theorem simrank_pairs count k delta value i0 row0 as_ bs rest output :
  SFeqb delta (S754_zero false) = false -> i0 <> 0 -> as_ <> [] -> bs <> [] ->
  exists keys, g_func cast_string count k delta value ((i0 :: row0) :: as_ :: bs :: rest) output =
      Ok (to_int32 (count + 1), output ++ ((fun key => (key, delta)) <$> keys)) /\
    NoDup keys /\
    forall key, key ∈ keys <-> exists a b, a ∈ as_ /\ b ∈ bs /\ a <> b /\
      key = cast_string (Z.min a b) ++ "_"%char :: cast_string (Z.max a b).
Proof.
  intros Hd Hi Ha Hb. unfold g_func. rewrite decide_False by (cbn; lia). rewrite Hd.
  change (data00 ((i0 :: row0) :: as_ :: bs :: rest)) with (Ok i0). run.
  destruct (Z.eqb_spec i0 0); [done|]. change (vec_at _ 1) with (Ok as_). change (vec_at _ 2) with (Ok bs). run.
  rewrite !bool_decide_eq_false_2 by done. cbn [orb]. unfold push_pairs.
  destruct (push_rows delta output as_ bs [] ([], output)) as (Ho & Hn & Hk).
  { split_and!; [by rewrite app_nil_r|constructor|]. intros key. split; [by intros ?%not_elem_of_nil|].
    intros (ab & Hin & _). by apply not_elem_of_nil in Hin. }
  eexists. split; [by rewrite Ho|]. split; [done|]. intros key. rewrite Hk. cbn [app]. split.
  - intros ([a b] & Hin & Hne & ->). apply list_elem_of_join in Hin as (l & Hin & Hl).
    apply list_elem_of_fmap in Hl as (a' & -> & Ha'). apply list_elem_of_fmap in Hin as (b' & [= -> ->] & Hb').
    exists a', b'. split_and!; try done. cbn [fst snd]. unfold pair_key.
    destruct (Z.ltb_spec a' b'); [rewrite Z.min_l, Z.max_r by lia|rewrite Z.min_r, Z.max_l by lia]; done.
  - intros (a & b & Hina & Hinb & Hne & ->). exists (a, b). split_and!; [|done|].
    + apply list_elem_of_join. eexists. split; [|by apply list_elem_of_fmap_2, Hina]. by apply list_elem_of_fmap_2.
    + cbn [fst snd]. unfold pair_key.
      destruct (Z.ltb_spec a b); [rewrite Z.min_l, Z.max_r by lia|rewrite Z.min_r, Z.max_l by lia]; done.
Qed.
End SimrankPairs.
Lemma simrank_pairs_witness :
  exists keys, Simrank.g_func show_int 0 (lit "1_2") (f64_of_Z 1) (f64_of_Z 0) [[1]; [3; 4]; [4; 3; 5]] [] =
    Ok (1, (fun key => (key, f64_of_Z 1)) <$> keys) /\ NoDup keys.
Proof.
  destruct (simrank_pairs show_int 0 (lit "1_2") (f64_of_Z 1) (f64_of_Z 0) 1 [] [3; 4] [4; 3; 5] [] [])
    as (keys & E & Hn & _); [reflexivity|lia|discriminate|discriminate|].
  exists keys. split; [exact E|exact Hn].
Defined.

(** ** The round trip on a graph of two vertices *)
Definition two_rand (n : nat) : Z := Z.of_nat n mod 3.
Lemma two_rand_varies key n : exists j, (j < 2)%nat /\ two_rand (n + j) <> key.
Proof.
  unfold two_rand. destruct (decide (Z.of_nat (n + 0) mod 3 = key)) as [E|]; [|exists 0%nat; split; [lia|done]].
  exists 1%nat. split; [lia|]. rewrite Nat.add_0_r in E. rewrite Nat2Z.inj_add. change (Z.of_nat 1) with 1.
  intros E'. pose proof (Z.div_mod (Z.of_nat n) 3). pose proof (Z.div_mod (Z.of_nat n + 1) 3). lia.
Qed.
Lemma graph_read_back_witness :
  exists file rows, GenGraph.gen_unweightgraph two_rand 2 (fun _ => 2) 3 2 0 = Ok file /\
    Forall2 (fun line r => forall k data, read_data_checked parse_int line k data = Ok r)
      (getlines "010" file) rows /\ rows_from 3 (fun _ => 2) 2 0 rows.
Proof.
  destruct (graph_read_back two_rand 2 3 ltac:(intros n; apply Z.mod_pos_bound; lia) two_rand_varies
    (fun _ => 2) 2 ltac:(lia) ltac:(lia) parse_int 0 parse_show ltac:(lia)) as (file & rows & E & Hr & Hf).
  exists file, rows. split; [exact E|]. split; [exact Hf|exact Hr].
Defined.
