(* ===== verification/Iteration.v ===== *)
(** * Iterating on a cluster

    The composition of the kernels' iteration ([MaiterKernel2::run_iter],
    kernel/kernel.h) with the exchange of updates between the workers: a run
    interleaves iterations of any rows of any workers with flushes and
    deliveries in any order.  For kernels that propagate values along edges
    and combine them idempotently the result is characterised: whenever
    nothing is buffered, under way or left to absorb, the values are the least
    solution of the edge constraints. *)
From S2P Require Import Prelude Float StringPiece Probe Table SampleKernel DeltaTable StateTable GlobalTable Cluster Cache FlatStore Maiter Worker Loading Examples.

Create HintDb below.

(** A kernel that propagates along edges: the accumulation is idempotent,
    [process_delta_v] is the inherited empty one, and what [g_func] sends makes
    up for the growth of the value along every edge. *)
Class PropagationLaws (K V D : Type) `{!IterateKernel K V D} := {
  targets : D -> list K;
  edge : K -> D -> K -> V -> V;
  accumulate_idem : forall a, accumulate (K := K) (D := D) a a = a;
  process_keeps : forall k d v data, process_delta_v (K := K) (D := D) k d v data = (d, v, data);
  edge_sent : forall k d v data j, j ∈ targets data ->
    exists x, (j, x) ∈ g_func k d (accumulate (K := K) (D := D) v d) data [] /\
      let e := edge k data j (accumulate (K := K) (D := D) v d) in
      let b := accumulate (K := K) (D := D) (edge k data j v) x in
      accumulate (K := K) (D := D) e b = b
}.

Module Iteration.
Import GlobalTable.
Section Iteration.
Context {K V D : Type} `{Countable K} `{!Hashable K}.
Context `{!ValueInit K} `{!ValueInit V} `{!ValueInit D}.
Context `{!IterateKernel K V D} `{!Sharder K} `{!Marshal K} `{!Marshal V}.
Variable bufmsg : Z.
Variable wire_size : KVPairData -> Z.
(** The adjacency data of a vertex, as the store returns it. *)
Variable adj : K -> D.
Abbreviation cluster := (Cluster.t (K := K) (V := V) (D := D)).
Implicit Types (c : cluster) (tb : GlobalTable.t (K := K) (V := V) (D := D)).

(** One step of one worker: an iteration of the row in bucket [p] of its shard
    [i], or a step that exchanges updates. *)
Inductive istep : cluster -> cluster -> Prop :=
  | istep_exchange c c' : Cluster.step bufmsg wire_size c None c' -> istep c c'
  | istep_iterate ws ms w tb i p s x tb' ms' :
      ws !! w = Some tb -> partitions_ tb !! i = Some (State s) ->
      StateTable.buckets_ s !! p = Some x -> in_use x = true ->
      Maiter.run_iter bufmsg wire_size tb (Z.of_nat i) (Z.of_nat p) (adj (bk x)) = Ok (tb', ms') ->
      istep (Cluster.mk ws ms) (Cluster.mk (<[w := tb']> ws) (ms ++ ms')).
Inductive isteps : cluster -> cluster -> Prop :=
  | isteps_refl c : isteps c c
  | isteps_next c1 c2 c3 : istep c1 c2 -> isteps c2 c3 -> isteps c1 c3.

Section Runs.
Context `{!AccumulateLaws K V D} `{!MarshalLaws K} `{!MarshalLaws V} `{!PropagationLaws K V D}.
Context (owners : list Z).
Hypothesis representable_accumulate : forall a b : V,
  representable a -> representable b -> representable (accumulate (K := K) (D := D) a b).
Hypothesis representable_default : representable (default_v (K := K) (V := V) (D := D)).
Hypothesis representable_sent : forall k d v j x,
  representable d -> representable v -> (j, x) ∈ g_func (V := V) k d v (adj k) [] -> representable j /\ representable x.

#[local] Notation "a ⊕ b" := (oadd (K := K) (D := D) a b) (at level 50, left associativity).

(** ** The order of the accumulation, with "nothing" at the bottom *)
Definition below (a b : option V) : Prop := a ⊕ b = b.
#[local] Notation "a ⊑ b" := (below a b) (at level 70).

Lemma oadd_idem (a : option V) : a ⊕ a = a.
Proof. destruct a; cbn; [|done]. f_equal. apply accumulate_idem. Qed.
Lemma below_refl a : a ⊑ a.
Proof. apply oadd_idem. Qed.
Lemma below_trans a b e : a ⊑ b -> b ⊑ e -> a ⊑ e.
Proof. unfold below. intros E1 E2. by rewrite <- E2, oadd_assoc, E1. Qed.
Lemma below_l a b : a ⊑ a ⊕ b.
Proof. unfold below. by rewrite oadd_assoc, oadd_idem. Qed.
Lemma below_r a b : b ⊑ a ⊕ b.
Proof. rewrite oadd_comm. apply below_l. Qed.
Lemma below_lub a b e : a ⊑ e -> b ⊑ e -> a ⊕ b ⊑ e.
Proof. unfold below. intros E1 E2. by rewrite <- oadd_assoc, E2, E1. Qed.
Lemma below_mono a b e f : a ⊑ b -> e ⊑ f -> a ⊕ e ⊑ b ⊕ f.
Proof.
  intros H1 H2. apply below_lub; eapply below_trans; [exact H1|apply below_l|exact H2|apply below_r].
Qed.
Lemma below_antisym a b : a ⊑ b -> b ⊑ a -> a = b.
Proof. unfold below. intros E1 E2. by rewrite <- E1, oadd_comm, E2. Qed.
#[local] Hint Resolve below_refl below_l below_r below_lub below_mono : below.

Lemma carried_below (l : list (K * V)) k x : (k, x) ∈ l -> Some x ⊑ carried (D := D) l k.
Proof.
  induction l as [|r l IH]; intros Hin; [by apply not_elem_of_nil in Hin|]. rewrite carried_cons.
  apply elem_of_cons in Hin as [<-|Hin]; cbn [fst snd].
  - rewrite decide_True by done. auto with below.
  - eapply below_trans; [by apply IH|]. auto with below.
Qed.
Lemma carried_bound (l : list (K * V)) k b : (forall x, (k, x) ∈ l -> Some x ⊑ b) -> carried (D := D) l k ⊑ b.
Proof.
  induction l as [|[k' x] l IH]; intros Hl; [done|]. rewrite carried_cons. cbn [fst snd].
  apply below_lub; [|apply IH; intros y Hy; apply Hl; by right].
  case_decide as E; [|done]. subst k'. apply Hl. by left.
Qed.

(** ** The value of a vertex: the second field of its row at the owner *)
Definition value c (k : K) : option V :=
  o ← owners !! Z.to_nat (shard_of k (Z.of_nat (length owners)));
  tb ← Cluster.workers c !! Z.to_nat o;
  StateTable.v2 <$> row tb k.
Definition rows_in c : Prop := forall w tb, Cluster.workers c !! w = Some tb -> rows_ok tb.

(** A row is at the owner of its key. *)
Lemma row_owner c w tb k :
  Cluster.wf bufmsg owners c -> Cluster.workers c !! w = Some tb -> is_Some (row tb k) ->
  owners !! Z.to_nat (shard_of k (Z.of_nat (length owners))) = Some (Z.of_nat w).
Proof.
  intros Hwf Hw Hr. destruct (Cluster.wf_workers _ _ _ Hwf w tb Hw) as [Hwt _]. unfold row, get_shard in Hr.
  rewrite (wf_shards _ _ _ Hwt) in Hr.
  destruct (partitions_ tb !! _) as [[d|s]|] eqn:Hp; [by destruct Hr| |by destruct Hr].
  by apply (wf_part _ _ _ Hwt) in Hp as [? _].
Qed.
Lemma row_value c w tb k cell :
  Cluster.wf bufmsg owners c -> Cluster.workers c !! w = Some tb -> row tb k = Some cell ->
  value c k = Some (StateTable.v2 cell).
Proof.
  intros Hwf Hw Hr. unfold value. rewrite (row_owner c w tb k Hwf Hw) by (by rewrite Hr). cbn [mbind option_bind].
  rewrite Nat2Z.id, Hw. cbn [mbind option_bind]. by rewrite Hr.
Qed.
Lemma value_row c k v : Cluster.wf bufmsg owners c -> value c k = Some v ->
  exists o tb cell, owners !! Z.to_nat (shard_of k (Z.of_nat (length owners))) = Some (Z.of_nat o) /\
    Cluster.workers c !! o = Some tb /\ row tb k = Some cell /\ StateTable.v2 cell = v.
Proof.
  intros Hwf Hv. unfold value in Hv. apply bind_Some in Hv as (o & Ho & Hv).
  apply bind_Some in Hv as (tb & Htb & Hv). apply fmap_Some in Hv as (cell & Hr & ->).
  pose proof (row_owner c (Z.to_nat o) tb k Hwf Htb ltac:(by rewrite Hr)) as Ho'.
  by exists (Z.to_nat o), tb, cell.
Qed.

(** Changing the table of one worker. *)
Lemma value_insert ws ms w tb tb' ms' k (f : option V -> option V) :
  ws !! w = Some tb ->
  (owners !! Z.to_nat (shard_of k (Z.of_nat (length owners))) = Some (Z.of_nat w) \/ forall x, f x = x) ->
  StateTable.v2 <$> row tb' k = f (StateTable.v2 <$> row tb k) ->
  value (Cluster.mk (<[w := tb']> ws) ms') k = f (value (Cluster.mk ws ms) k).
Proof.
  intros Hw Ho Hr. unfold value. cbn [Cluster.workers]. destruct Ho as [-> | Hid].
  - cbn [mbind option_bind]. rewrite Nat2Z.id, list_lookup_insert_eq, Hw by (by eapply lookup_lt_Some). exact Hr.
  - rewrite Hid in Hr |- *. destruct (owners !! _) as [o|]; [|done]. cbn [mbind option_bind].
    destruct (decide (w = Z.to_nat o)) as [<-|Hne]; [|by rewrite list_lookup_insert_ne].
    rewrite list_lookup_insert_eq, Hw by (by eapply lookup_lt_Some). exact Hr.
Qed.
Lemma rows_in_insert ws ms w tb' ms' :
  rows_in (Cluster.mk ws ms) -> rows_ok tb' -> rows_in (Cluster.mk (<[w := tb']> ws) ms').
Proof.
  intros Hr Ht w' tw Hw'. cbn [Cluster.workers] in Hw'.
  apply list_lookup_insert_Some in Hw' as [(_ & <- & _)|[_ Hw']]; [done|]. by apply (Hr w').
Qed.
Lemma value_keeps ws ms w tb tb' ms' :
  ws !! w = Some tb -> keeps_values tb tb' -> rows_in (Cluster.mk ws ms) ->
  (forall k, value (Cluster.mk (<[w := tb']> ws) ms') k = value (Cluster.mk ws ms) k) /\
  rows_in (Cluster.mk (<[w := tb']> ws) ms').
Proof.
  intros Hw [Hv Hok] Hr. split.
  - intros k. by apply (value_insert _ _ w tb tb' ms' k (fun x => x)); [|right|].
  - by eapply rows_in_insert; [|apply Hok, (Hr w)].
Qed.

(** Exchanging updates changes no value and nothing that is pending. *)
Lemma exchange_keeps c c' :
  Cluster.wf bufmsg owners c -> rows_in c -> Cluster.step bufmsg wire_size c None c' ->
  (forall k, value c' k = value c k) /\ rows_in c'.
Proof.
  intros Hwf Hr Hs. remember None as e eqn:He.
  destruct Hs as [|ws ms w tb tb' ms' Hx E|ws pre post dst d due tb tb' ms' Hx E|ws pre post m Hm|ws ms w tb i tb' Hx E
    |ws ms w tb tb' ms' Hx E]; [done|..].
  - destruct (Cluster.wf_workers _ _ _ Hwf w tb Hx) as [Hw Hb].
    destruct (SendUpdates_spec wire_size tb Hw) as (tb1 & ms1 & E1 & _ & _ & _ & _ & _ & Hrow); [apply Hb|].
    rewrite E1 in E. injection E as <- <-.
    apply (value_keeps ws ms w tb); [done| |done]. by apply keeps_values_same.
  - assert (message_ok owners (PutRequest dst d)) as (i & l & Hi & Ho & Hkv & Hl & Hsh).
    { pose proof (Cluster.wf_net _ _ _ Hwf) as Hn. cbn in Hn. by apply Forall_app in Hn as [_ [Hn _]%Forall_cons]. }
    destruct (Cluster.wf_workers _ _ _ Hwf _ tb Hx) as [Hw Hb].
    destruct (ApplyUpdates_sound bufmsg wire_size representable_accumulate due tb d l _ Hw Hb Hkv Hl E)
      as (_ & _ & _ & _ & Hv). by apply (value_keeps ws (pre ++ PutRequest dst d :: post) _ tb).
  - done.
  - destruct (Cluster.wf_workers _ _ _ Hwf w tb Hx) as [Hw _].
    destruct (terminate_shard_spec tb i tb' Hw E) as (_ & _ & Hh).
    apply (value_keeps ws ms w tb); [done| |done]. apply keeps_values_same. intros k. by destruct (Hh k).
  - destruct (Cluster.wf_workers _ _ _ Hwf w tb Hx) as [Hw _].
    destruct (termcheck_sound tb _ Hw E) as (_ & _ & _ & _ & Hk). by apply (value_keeps ws ms w tb).
Qed.

(** ** One iteration *)
Lemma row_at tb w i p s x :
  wf owners w tb -> partitions_ tb !! i = Some (State s) -> StateTable.buckets_ s !! p = Some x ->
  in_use x = true ->
  Maiter.holds_row (owners := owners) (w := w) tb i p x /\ row tb (bk x) = Some (bval x) /\
  held tb (bk x) = Some (StateTable.v1 (bval x)).
Proof.
  intros Hwf Hp Hx Hu. pose proof (wf_part _ _ _ Hwf _ _ Hp) as (_ & Hs & Hh).
  assert (StateTable.contents s !! bk x = Some (bval x)) as Hc.
  { apply (to_map_holds _ p); [|done..]. apply Hs. }
  assert (get_shard tb (bk x) = Z.of_nat i) as Hk.
  { unfold get_shard. rewrite (wf_shards _ _ _ Hwf). apply Hh. by rewrite Hc. }
  split; [split_and!; [done..|by exists s]|]. unfold row, held. rewrite Hk, Nat2Z.id, Hp. by rewrite Hc.
Qed.

(** What the iteration of a vertex does to the cluster: its value takes its
    delta, the delta of its row is the default one, and what [g_func] produced
    is added to what is pending. *)
Definition iterated c c' (k0 : K) (d v : V) : Prop :=
  let output := g_func k0 d (accumulate (K := K) (D := D) v d) (adj k0) [] in
  value c k0 = Some v /\
  (forall k, value c' k = if decide (k0 = k) then Some (accumulate (K := K) (D := D) v d) else value c k) /\
  (forall k, exists old rest, Cluster.total c k = old ⊕ rest /\ (k0 = k -> old = Some d) /\
     Cluster.total c' k =
       (if decide (k0 = k) then Some (default_v (K := K) (D := D)) else old) ⊕ carried (D := D) output k ⊕ rest).

Lemma oadd_shuffle (h' i' rest i : option V) : h' ⊕ rest ⊕ (i ⊕ i') = h' ⊕ i' ⊕ (rest ⊕ i).
Proof.
  rewrite <- (oadd_assoc h' i'), <- (oadd_assoc h' rest). f_equal.
  rewrite (oadd_comm i), (oadd_assoc i'), (oadd_comm i' rest), <- oadd_assoc. done.
Qed.

Lemma iterate_spec_plain ws ms w tb i p s x tb' ms' :
  (forall k d v data, process_delta_v (K := K) (D := D) k d v data = (d, v, data)) ->
  let c := Cluster.mk ws ms in
  let c' := Cluster.mk (<[w := tb']> ws) (ms ++ ms') in
  Cluster.wf bufmsg owners c -> rows_in c ->
  ws !! w = Some tb -> partitions_ tb !! i = Some (State s) ->
  StateTable.buckets_ s !! p = Some x -> in_use x = true ->
  Maiter.run_iter bufmsg wire_size tb (Z.of_nat i) (Z.of_nat p) (adj (bk x)) = Ok (tb', ms') ->
  Cluster.wf bufmsg owners c' /\ rows_in c' /\
  iterated c c' (bk x) (StateTable.v1 (bval x)) (StateTable.v2 (bval x)).
Proof.
  intros Hplain c c' Hwf Hrows Hw Hp Hx Hu E. destruct (Cluster.wf_workers _ _ _ Hwf w tb Hw) as [Hwt Hb].
  destruct (row_at tb (Z.of_nat w) i p s x Hwt Hp Hx Hu) as (Hh & Hr & Hd).
  destruct (Hrows w tb Hw (bk x) (bval x) Hr) as [R1 R2].
  destruct (Maiter.run_iter_sound bufmsg wire_size representable_accumulate tb i p x (adj (bk x)) _ _ _ tb' ms' Hh Hb
    (Hplain _ _ _ _)) as (Hwt' & Hb' & Hms & Hv & Ht & Hok); [|done|].
  { apply Forall_forall. intros [j y] Hin. by eapply representable_sent; [..|exact Hin]; auto. }
  pose proof (row_owner c w tb (bk x) Hwf Hw ltac:(by rewrite Hr)) as Ho.
  split_and!.
  - eapply Cluster.wf_update; try done. apply Forall_app. split; [apply Hwf|done].
  - eapply rows_in_insert; [done|]. apply Hok; auto. by apply (Hrows w).
  - split_and!; [by apply (row_value c w tb)| |].
    + intros k. specialize (Hv k). destruct (decide (bk x = k)) as [<-|Hne].
      * by apply (value_insert ws ms w tb tb' (ms ++ ms') (bk x) (fun _ => Some _)); [|left|].
      * by apply (value_insert ws ms w tb tb' (ms ++ ms') k (fun y => y)); [|right|].
    + intros k. unfold Cluster.total. subst c c'. cbn [Cluster.workers Cluster.net].
      destruct (osum_insert ((fun tb => held tb k) <$> ws) w (held tb k) (held tb' k)) as (rest & E1 & E2).
      { by rewrite list_lookup_fmap, Hw. }
      exists (held tb k), (rest ⊕ inflight (D := D) ms k). split_and!.
      * by rewrite E1, oadd_assoc.
      * by intros <-.
      * rewrite list_fmap_insert, E2, inflight_app, oadd_shuffle, Ht. done.
Qed.

Lemma iterate_spec ws ms w tb i p s x tb' ms' :
  let c := Cluster.mk ws ms in
  let c' := Cluster.mk (<[w := tb']> ws) (ms ++ ms') in
  Cluster.wf bufmsg owners c -> rows_in c ->
  ws !! w = Some tb -> partitions_ tb !! i = Some (State s) ->
  StateTable.buckets_ s !! p = Some x -> in_use x = true ->
  Maiter.run_iter bufmsg wire_size tb (Z.of_nat i) (Z.of_nat p) (adj (bk x)) = Ok (tb', ms') ->
  Cluster.wf bufmsg owners c' /\ rows_in c' /\
  iterated c c' (bk x) (StateTable.v1 (bval x)) (StateTable.v2 (bval x)).
Proof. apply iterate_spec_plain, process_keeps. Qed.

(** ** The invariant

    [init] are the values the computation starts from; a [solution] bounds
    what every vertex sends whenever it bounds what the vertex has. *)
Section Invariant.
Variable init : K -> V.

Definition solution (X : K -> V) : Prop :=
  (forall k, Some (default_v (K := K) (D := D)) ⊑ Some (X k)) /\
  forall k d v j x, Some d ⊑ Some (X k) -> Some v ⊑ Some (X k) ->
    (j, x) ∈ g_func k d v (adj k) [] -> Some x ⊑ Some (X j).

Record inv c : Prop := {
  inv_wf : Cluster.wf bufmsg owners c;
  inv_rows : rows_in c;
  inv_init : forall k, is_Some (value c k) -> Some (init k) ⊑ value c k ⊕ Cluster.total c k;
  inv_edge : forall k v j, value c k = Some v -> is_Some (value c j) -> j ∈ targets (adj k) ->
    Some (edge k (adj k) j v) ⊑ value c j ⊕ Cluster.total c j
}.
Definition bounded (X : K -> V) c : Prop := forall k, value c k ⊕ Cluster.total c k ⊑ Some (X k).

Lemma iterated_grows c c' k0 d v k : iterated c c' k0 d v ->
  value c k ⊕ Cluster.total c k ⊑ value c' k ⊕ Cluster.total c' k.
Proof.
  intros (Hv0 & Hv & Ht). rewrite Hv. destruct (Ht k) as (old & rest & -> & Hold & ->).
  destruct (decide (k0 = k)) as [<-|Hne].
  - rewrite Hold, Hv0 by done.
    change (Some (accumulate (K := K) (D := D) v d)) with (Some v ⊕ Some d).
    rewrite (oadd_assoc (Some v)). auto 6 with below.
  - auto 6 with below.
Qed.
Lemma iterated_bound X c c' k0 d v k : solution X ->
  bounded X c -> iterated c c' k0 d v -> value c' k ⊕ Cluster.total c' k ⊑ Some (X k).
Proof.
  intros [Hdef Hsol] Hb (Hv0 & Hv & Ht).
  assert (Some v ⊑ Some (X k0)) as Bv.
  { eapply below_trans; [|apply Hb]. rewrite Hv0. auto with below. }
  assert (Some d ⊑ Some (X k0)) as Bd.
  { eapply below_trans; [|apply Hb]. destruct (Ht k0) as (old & rest & -> & Hold & _). rewrite Hold by done.
    eapply below_trans; [apply below_l|apply below_r]. }
  assert (Some (accumulate (K := K) (D := D) v d) ⊑ Some (X k0)) as Ba by by apply (below_lub (Some v) (Some d)).
  specialize (Hb k). rewrite Hv. destruct (Ht k) as (old & rest & Et & Hold & ->).
  assert (rest ⊑ Some (X k)) as Br.
  { eapply below_trans; [|exact Hb]. rewrite Et. eapply below_trans; apply below_r. }
  assert (carried (D := D) (g_func k0 d (accumulate (K := K) (D := D) v d) (adj k0) []) k ⊑ Some (X k)) as Bc.
  { apply carried_bound. intros x Hin. by apply (Hsol k0 d (accumulate (K := K) (D := D) v d) k x). }
  destruct (decide (k0 = k)) as [<-|Hne].
  - auto 8 with below.
  - assert (old ⊑ Some (X k)) as Bo.
    { eapply below_trans; [|exact Hb]. rewrite Et. eapply below_trans; [apply below_l|apply below_r]. }
    assert (value c k ⊑ Some (X k)) as Bk by (eapply below_trans; [apply below_l|exact Hb]).
    auto 8 with below.
Qed.

Lemma iterated_inv c c' k0 d v : inv c ->
  Cluster.wf bufmsg owners c' -> rows_in c' -> iterated c c' k0 d v -> inv c'.
Proof.
  intros [Hwf Hrows Hi He] Hwf' Hrows' Hit. pose proof Hit as (Hv0 & Hv & Ht).
  assert (forall k, is_Some (value c' k) -> is_Some (value c k)) as Hsome.
  { intros k. rewrite Hv. case_decide as E; [|done]. subst k. by rewrite Hv0. }
  split; [done|done|..].
  - intros k Hk. eapply below_trans; [by apply Hi, Hsome|]. by eapply iterated_grows.
  - intros k u j Hk Hj Hin.
    assert (forall u, value c k = Some u -> Some (edge k (adj k) j u) ⊑ value c' j ⊕ Cluster.total c' j) as Hold.
    { intros u' Hu'. eapply below_trans; [by apply He; [..|exact Hin]; auto|]. by eapply iterated_grows. }
    rewrite Hv in Hk. destruct (decide (k0 = k)) as [<-|Hne]; [|by apply Hold].
    injection Hk as <-. destruct (edge_sent k0 d v (adj k0) j Hin) as (x & Hx & Hle).
    apply (below_trans _ (Some (edge k0 (adj k0) j v) ⊕ Some x)); [cbn; unfold below; cbn; by rewrite Hle|].
    apply below_lub; [by apply Hold|]. eapply below_trans; [by apply carried_below|].
    destruct (Ht j) as (old & rest & _ & _ & ->). eapply below_trans; [|apply below_r].
    eapply below_trans; [apply below_r|apply below_l].
Qed.

Lemma istep_inv c c' : inv c -> istep c c' -> inv c' /\
  (forall k, is_Some (value c k) -> is_Some (value c' k)) /\
  forall X, solution X -> bounded X c -> bounded X c'.
Proof.
  intros Hinv Hs. pose proof Hinv as [Hwf Hrows Hi He].
  destruct Hs as [c c' Hs|ws ms w tb i p s x tb' ms' Hw Hp Hx Hu E].
  - destruct (Cluster.silent_total bufmsg wire_size owners representable_accumulate c c' Hwf Hs) as [Hwf' Ht].
    destruct (exchange_keeps c c' Hwf Hrows Hs) as [Hv Hrows']. split_and!.
    + split; [done|done|..]; intros *; rewrite ?Hv, ?Ht; auto.
    + intros k. by rewrite Hv.
    + intros X _ Hb k. rewrite Hv, Ht. apply Hb.
  - destruct (iterate_spec ws ms w tb i p s x tb' ms' Hwf Hrows Hw Hp Hx Hu E) as (Hwf' & Hrows' & Hit).
    split_and!; [by eapply iterated_inv| |intros X Hsol Hb k; by eapply iterated_bound].
    intros k Hk. destruct Hit as (_ & Hv & _). rewrite Hv. by case_decide.
Qed.
Lemma isteps_inv c c' : inv c -> isteps c c' -> inv c' /\
  (forall k, is_Some (value c k) -> is_Some (value c' k)) /\
  forall X, solution X -> bounded X c -> bounded X c'.
Proof.
  intros Hinv Hs. induction Hs as [|c1 c2 c3 Hs _ IH]; [by split_and!; auto|].
  destruct (istep_inv c1 c2 Hinv Hs) as (Hinv2 & Hs2 & Hb2). destruct (IH Hinv2) as (Hinv3 & Hs3 & Hb3).
  split_and!; eauto.
Qed.
End Invariant.

(** ** From loading to a settled cluster *)

(** The tables as [MaiterKernel1] leaves them: every row has the kernel's
    initial delta and value, and nothing is buffered or under way. *)
Definition start (k : K) : StateTable.cell V D := Loading.init_row k.
Definition initial c : Prop :=
  Cluster.wf bufmsg owners c /\ Cluster.quiescent c /\ rows_in c /\
  forall w tb k cell, Cluster.workers c !! w = Some tb -> row tb k = Some cell -> cell = start k.
(** Nothing is buffered or under way, and no delta would change a value. *)
Definition settled c : Prop :=
  Cluster.quiescent c /\
  forall w tb k cell, Cluster.workers c !! w = Some tb -> row tb k = Some cell ->
    Some (StateTable.v1 cell) ⊑ Some (StateTable.v2 cell).

Hypothesis edge_start : forall k j, j ∈ targets (adj k) ->
  Some (edge k (adj k) j (StateTable.v2 (start k))) ⊑ Some (StateTable.v2 (start j)).

(** In a quiescent cluster a row's delta is all that is pending for its key. *)
Lemma quiescent_row c w tb k cell :
  Cluster.wf bufmsg owners c -> Cluster.quiescent c -> Cluster.workers c !! w = Some tb ->
  row tb k = Some cell -> Cluster.total c k = Some (StateTable.v1 cell).
Proof.
  intros Hwf Hq Hw Hr. rewrite (Cluster.quiescent_total bufmsg owners c k w tb Hwf Hq); [|by eapply row_owner|done].
  unfold row, held in *. destruct (partitions_ tb !! _) as [[d|s]|]; try done. by rewrite Hr.
Qed.
Lemma osum_bound (l : list (option V)) b : Forall (fun a => a ⊑ b) l -> osum (D := D) (K := K) l ⊑ b.
Proof. induction 1 as [|a l Ha Hl IH]; [done|]. change (a ⊕ osum (D := D) (K := K) l ⊑ b). auto with below. Qed.
Lemma quiescent_bound c k b :
  Cluster.wf bufmsg owners c -> Cluster.quiescent c ->
  (forall w tb cell, Cluster.workers c !! w = Some tb -> row tb k = Some cell -> Some (StateTable.v1 cell) ⊑ b) ->
  Cluster.total c k ⊑ b.
Proof.
  intros Hwf [Hq Hn] Hb. unfold Cluster.total. rewrite (Cluster.inflight_none (Cluster.net c) k Hn), oadd_None_r.
  apply osum_bound, Forall_fmap, Forall_lookup. intros w tb Hw. cbn. specialize (Hb w tb).
  unfold row, held in *. destruct (partitions_ tb !! _) as [[d|s]|] eqn:Hp; [|by destruct (_ !! k); [apply Hb|]|done].
  destruct (Cluster.wf_workers _ _ _ Hwf w tb Hw) as [Hwt _].
  pose proof (wf_part _ _ _ Hwt _ _ Hp) as [_ (Hd & _)].
  pose proof (DeltaTable.wf_entries_size _ Hd) as He. rewrite (Hq w tb _ d Hw Hp) in He.
  assert (DeltaTable.contents d = ∅) as ->; [apply map_size_empty_inv; lia|done].
Qed.

(** The initial rows are below [X]. *)
Definition starts_below c (X : K -> V) : Prop := forall k, is_Some (value c k) ->
  Some (StateTable.v1 (start k)) ⊑ Some (X k) /\ Some (StateTable.v2 (start k)) ⊑ Some (X k).

Lemma initial_inv c : initial c ->
  inv (fun k => StateTable.v1 (start k)) c /\
  forall X, starts_below c X -> bounded X c.
Proof.
  intros (Hwf & Hq & Hrows & Hstart). split.
  - split; [done|done|..].
    + intros k [v Hv]. destruct (value_row c k v Hwf Hv) as (o & tb & cell & _ & Hw & Hr & _).
      rewrite (quiescent_row c o tb k cell Hwf Hq Hw Hr), (Hstart o tb k cell Hw Hr). auto with below.
    + intros k v j Hk [u Hj] Hin. destruct (value_row c k v Hwf Hk) as (o & tb & cell & _ & Hw & Hr & <-).
      destruct (value_row c j u Hwf Hj) as (o' & tb' & cell' & _ & Hw' & Hr' & <-).
      rewrite Hj, (Hstart o tb k cell Hw Hr), (Hstart o' tb' j cell' Hw' Hr').
      eapply below_trans; [by apply edge_start|]. auto with below.
  - intros X HX k. apply below_lub.
    + destruct (value c k) as [v|] eqn:Hv; [|done]. destruct (value_row c k v Hwf Hv) as (o & tb & cell & _ & Hw & Hr & <-).
      rewrite (Hstart o tb k cell Hw Hr). apply HX. by rewrite Hv.
    + apply quiescent_bound; [done..|]. intros w tb cell Hw Hr. rewrite (Hstart w tb k cell Hw Hr). apply HX.
      by rewrite (row_value c w tb k cell Hwf Hw Hr).
Qed.

Lemma settled_least init c : inv init c -> settled c -> forall k v, value c k = Some v ->
  Some (init k) ⊑ Some v /\
  (forall j u, value c j = Some u -> j ∈ targets (adj k) -> Some (edge k (adj k) j v) ⊑ Some u) /\
  (forall X, bounded X c -> Some v ⊑ Some (X k)).
Proof.
  intros [Hwf Hrows Hinit Hedge] [Hq Hset].
  assert (forall k v, value c k = Some v -> value c k ⊕ Cluster.total c k ⊑ Some v) as Habs.
  { intros k v Hv. destruct (value_row c k v Hwf Hv) as (o & tb & cell & _ & Hw & Hr & <-).
    rewrite (quiescent_row c o tb k cell Hwf Hq Hw Hr), Hv. apply below_lub; [apply below_refl|]. by eapply Hset. }
  intros k v Hv. split_and!.
  - eapply below_trans; [by apply Hinit|by apply Habs].
  - intros j u Hj Hin. eapply below_trans; [by apply (Hedge k v j)|by apply Habs].
  - intros X Hb. eapply below_trans; [|by apply (Hb k)]. rewrite Hv. auto with below.
Qed.

(** C6. Asynchronous iteration computes the least solution: from loaded
    tables, after any interleaving of iterations of any rows on any workers,
    flushes and deliveries in any order, once nothing is buffered or under way
    and no delta would change a value, every row is still there and its value
    takes in its initial delta, takes in what every in-neighbour's value
    implies along the edge, and is below every solution of these
    constraints. *)
Theorem least_solution c0 c :
  initial c0 -> isteps c0 c -> settled c ->
  (forall k, is_Some (value c0 k) -> is_Some (value c k)) /\
  forall k v, value c k = Some v ->
    Some (StateTable.v1 (start k)) ⊑ Some v /\
    (forall j u, value c j = Some u -> j ∈ targets (adj k) -> Some (edge k (adj k) j v) ⊑ Some u) /\
    (forall X, solution X -> starts_below c0 X -> Some v ⊑ Some (X k)).
Proof.
  intros Hi Hs Hset. destruct (initial_inv c0 Hi) as [Hinv0 Hb0].
  destruct (isteps_inv _ c0 c Hinv0 Hs) as (Hinv & Hsome & Hb). split; [done|]. intros k v Hv.
  destruct (settled_least _ c Hinv Hset k v Hv) as (H1 & H2 & H3). split_and!; auto.
Qed.

(** ** A settled cluster can always be reached

    [vertex] is the set of rows, closed under the edges; [X] is a solution, and
    values below it cannot grow for ever. *)
Section Settling.
Context `{!EqDecision V}.
Variables (vertices : list K) (X : K -> V) (height : K -> V -> nat).
Hypothesis solution_X : solution X.
Hypothesis height_lt : forall k a b,
  Some a ⊑ Some b -> a <> b -> Some b ⊑ Some (X k) -> (height k b < height k a)%nat.
Hypothesis closed : forall k d v j x,
  k ∈ vertices -> (j, x) ∈ g_func k d v (adj k) [] -> j ∈ vertices.

Record placed c : Prop := {
  placed_inv : exists init, inv init c;
  placed_bound : bounded X c;
  placed_owners : Forall (fun o => 0 <= o < Z.of_nat (length (Cluster.workers c))) owners;
  placed_rows : forall k, is_Some (value c k) <-> k ∈ vertices;
  placed_pending : forall k, is_Some (Cluster.total c k) -> k ∈ vertices
}.

Lemma placed_wf c : placed c -> Cluster.wf bufmsg owners c.
Proof. intros [[init []] _ _ _ _]. done. Qed.

(** A row's shard is in range. *)
Lemma row_shard c w tb k :
  Cluster.wf bufmsg owners c -> Cluster.workers c !! w = Some tb -> is_Some (row tb k) ->
  0 <= shard_of k (Z.of_nat (length owners)) < Z.of_nat (length owners).
Proof.
  intros Hwf Hw Hr. pose proof (row_owner c w tb k Hwf Hw Hr) as Ho. apply lookup_lt_Some in Ho.
  destruct (Cluster.wf_workers _ _ _ Hwf w tb Hw) as [Hwt _]. unfold row, get_shard in Hr.
  rewrite (wf_shards _ _ _ Hwt) in Hr.
  destruct (partitions_ tb !! _) as [[d|s]|] eqn:Hp; [by destruct Hr| |by destruct Hr].
  apply (wf_part _ _ _ Hwt) in Hp as (_ & _ & Hh). rewrite (Hh k Hr). lia.
Qed.
Lemma placed_known c : placed c -> Cluster.known owners c.
Proof.
  intros Hp. pose proof (placed_wf c Hp) as Hwf. split; [apply Hp|]. intros k Hk.
  apply (placed_pending _ Hp), (placed_rows _ Hp) in Hk as [v Hv].
  destruct (value_row c k v Hwf Hv) as (o & tb & cell & Ho & Hw & Hr & _).
  assert (is_Some (row tb k)) as Hr' by (by rewrite Hr).
  split; [by eapply row_shard|]. by exists o, tb.
Qed.

Lemma exchange_length c c' : Cluster.step bufmsg wire_size c None c' ->
  length (Cluster.workers c') = length (Cluster.workers c).
Proof. intros Hs. destruct Hs; cbn; by rewrite ?length_insert. Qed.
Lemma istep_length c c' : istep c c' -> length (Cluster.workers c') = length (Cluster.workers c).
Proof. intros Hs. destruct Hs; [by apply exchange_length|]. cbn. by rewrite length_insert. Qed.

Lemma exchange_placed c c' : placed c -> Cluster.step bufmsg wire_size c None c' ->
  placed c' /\ forall k, value c' k = value c k.
Proof.
  intros Hp Hs. pose proof Hp as [[init Hinv] Hb Hown Hrows Hpend].
  destruct (istep_inv init c c' Hinv (istep_exchange _ _ Hs)) as (Hinv' & _ & Hb').
  destruct (Cluster.silent_total bufmsg wire_size owners representable_accumulate c c' (inv_wf _ _ Hinv) Hs) as [_ Ht].
  destruct (exchange_keeps c c' (inv_wf _ _ Hinv) (inv_rows _ _ Hinv) Hs) as [Hv _].
  split; [|done]. split; [by exists init|by apply Hb'|by rewrite (exchange_length _ _ Hs)|..];
    intros k; rewrite ?Hv, ?Ht; auto.
Qed.
Lemma exchanges_placed c us c' : Cluster.steps bufmsg wire_size c us c' -> us = [] -> placed c ->
  isteps c c' /\ placed c' /\ forall k, value c' k = value c k.
Proof.
  intros Hs. induction Hs as [c|c1 ev c2 us c3 Hs Hss IH]; intros Hus Hp.
  { split_and!; [apply isteps_refl|done..]. }
  destruct ev as [[k v]|]; [done|]. destruct (exchange_placed c1 c2 Hp Hs) as [Hp2 Hv2].
  destruct (IH Hus Hp2) as (Hi & Hp3 & Hv3). split_and!; [|done|].
  - by eapply isteps_next; [apply istep_exchange|].
  - intros k. by rewrite Hv3.
Qed.
Lemma isteps_trans c1 c2 c3 : isteps c1 c2 -> isteps c2 c3 -> isteps c1 c3.
Proof. intros H1 H2. induction H1; [done|]. eapply isteps_next; [done|]. auto. Qed.

Lemma iterated_placed c c' k0 d v : placed c -> istep c c' -> iterated c c' k0 d v -> placed c'.
Proof.
  intros [[init Hinv] Hb Hown Hrows Hpend] Hs Hit. pose proof Hit as (Hv0 & Hv & Ht).
  destruct (istep_inv init c c' Hinv Hs) as (Hinv' & _ & Hb').
  assert (k0 ∈ vertices) as Hk0 by (apply Hrows; by rewrite Hv0).
  split; [by exists init|by apply Hb'|by rewrite (istep_length _ _ Hs)|..].
  - intros k. rewrite Hv, <- Hrows. case_decide as Hk; [|done]. subst k. by rewrite Hv0.
  - intros k Hk. destruct (decide (k0 = k)) as [<-|Hne]; [done|].
    destruct (Ht k) as (old & rest & Et & _ & Et'). rewrite Et', decide_False in Hk by done.
    destruct (decide (k ∈ (g_func k0 d (accumulate (K := K) (D := D) v d) (adj k0) []).*1)) as [Hin|Hnin].
    + apply list_elem_of_fmap in Hin as ([j y] & -> & Hin). by eapply closed.
    + rewrite (carried_absent _ _ Hnin), oadd_None_r in Hk. apply Hpend. by rewrite Et.
Qed.
Lemma isteps_placed c c' : isteps c c' -> placed c -> placed c'.
Proof.
  intros Hs. induction Hs as [|c1 c2 c3 Hs _ IH]; [done|]. intros Hp. apply IH. clear IH.
  pose proof Hs as Hs'. destruct Hs as [c1 c2 Hs|ws ms w tb i p s x tb' ms' Hw Hpi Hx Hu E].
  - by apply (exchange_placed c1 c2).
  - pose proof Hp as [[init Hinv] _ _ _ _].
    destruct (iterate_spec ws ms w tb i p s x tb' ms' (inv_wf _ _ Hinv) (inv_rows _ _ Hinv) Hw Hpi Hx Hu E) as (_ & _ & Hit).
    by eapply iterated_placed.
Qed.

(** Any row can be iterated: the call returns, and is a step of the cluster. *)
Lemma iterate_returns c (w : nat) tb (i p : nat) (s : StateTable.t K V D) (x : bucket K (StateTable.cell V D)) :
  placed c -> Cluster.workers c !! w = Some tb -> partitions_ tb !! i = Some (State s) ->
  StateTable.buckets_ s !! p = Some x -> in_use x = true ->
  exists tb' ms', Maiter.run_iter bufmsg wire_size tb (Z.of_nat i) (Z.of_nat p) (adj (bk x)) = Ok (tb', ms') /\
    let c' := Cluster.mk (<[w := tb']> (Cluster.workers c)) (Cluster.net c ++ ms') in
    istep c c' /\ placed c' /\ iterated c c' (bk x) (StateTable.v1 (bval x)) (StateTable.v2 (bval x)).
Proof.
  intros Hp Hw Hpi Hx Hu. pose proof Hp as [[init Hinv] Hb Hown Hrows Hpend]. pose proof Hinv as [Hwf Hrk _ _].
  destruct (Cluster.wf_workers _ _ _ Hwf w tb Hw) as [Hwt Hbuf].
  destruct (row_at tb (Z.of_nat w) i p s x Hwt Hpi Hx Hu) as (Hh & Hr & _).
  destruct (Hrk w tb Hw _ _ Hr) as [R1 R2].
  assert (bk x ∈ vertices) as Hvx. { apply Hrows. by rewrite (row_value c w tb _ _ Hwf Hw Hr). }
  destruct (Maiter.run_iter_spec bufmsg wire_size representable_accumulate tb i p x (adj (bk x)) _ _ _ Hh Hbuf
    (process_keeps _ _ _ _)) as (tb' & ms' & E & _).
  { apply Forall_forall. intros [j y] Hin. eapply representable_sent; [..|exact Hin]; auto. }
  { apply Forall_forall. intros [j y] Hin. cbn [fst]. apply closed in Hin; [|done].
    apply Hrows in Hin as [u Hj]. destruct (value_row c j u Hwf Hj) as (o & tbo & cj & Ho & Hwo & Hrj & _).
    assert (is_Some (row tbo j)) as Hsj by (by rewrite Hrj). split; [by apply (row_shard c o tbo)|].
    intros Ho'. rewrite Ho in Ho'. injection Ho' as Ho'. assert (o = w) as -> by lia.
    rewrite Hw in Hwo. by injection Hwo as <-. }
  exists tb', ms'. split; [done|]. destruct c as [ws ms]. cbn zeta. cbn [Cluster.workers Cluster.net] in *.
  destruct (iterate_spec ws ms w tb i p s x tb' ms' Hwf Hrk Hw Hpi Hx Hu E) as (_ & _ & Hit).
  assert (istep (Cluster.mk ws ms) (Cluster.mk (<[w := tb']> ws) (ms ++ ms'))) as Hs by (by eapply istep_iterate).
  split_and!; [done|by eapply iterated_placed|done].
Qed.
Lemma iterate_possible c w tb k cell :
  placed c -> Cluster.workers c !! w = Some tb -> row tb k = Some cell ->
  exists c', istep c c' /\ placed c' /\ iterated c c' k (StateTable.v1 cell) (StateTable.v2 cell).
Proof.
  intros Hp Hw Hr. destruct (Cluster.wf_workers _ _ _ (placed_wf c Hp) w tb Hw) as [Hwt _].
  unfold row in Hr. destruct (partitions_ tb !! _) as [[d|s]|] eqn:Hpi; try done.
  pose proof (wf_part _ _ _ Hwt _ _ Hpi) as (_ & Hs & _).
  apply lookup_to_map in Hr as (p & x & Hx & Hu & <- & <-); [|apply Hs].
  destruct (iterate_returns c w tb _ p s x Hp Hw Hpi Hx Hu) as (tb' & ms' & _ & ?). by eexists.
Qed.

(** The room that is left below the solution. *)
Definition level c (k : K) : nat := from_option (height k) 0%nat (value c k).
Definition room c : nat := sum_list_with (level c) vertices.

Lemma sum_list_le (f g : K -> nat) l :
  (forall k, (f k <= g k)%nat) -> (sum_list_with f l <= sum_list_with g l)%nat.
Proof.
  intros Hle. induction l as [|j l IH]; [done|]. cbn [sum_list_with]. specialize (Hle j). lia.
Qed.
Lemma sum_list_ext (f g : K -> nat) l : (forall k, f k = g k) -> sum_list_with f l = sum_list_with g l.
Proof. intros E. induction l as [|j l IH]; [done|]. cbn. by rewrite E, IH. Qed.
Lemma sum_list_lt (f g : K -> nat) l k :
  (forall k, (f k <= g k)%nat) -> k ∈ l -> (f k < g k)%nat -> (sum_list_with f l < sum_list_with g l)%nat.
Proof.
  intros Hle Hin Hlt. induction l as [|j l IH]; [by apply not_elem_of_nil in Hin|].
  cbn [sum_list_with]. pose proof (sum_list_le f g l Hle). specialize (Hle j).
  apply elem_of_cons in Hin as [->|Hin]; [lia|]. specialize (IH Hin). lia.
Qed.

Lemma room_decreases c c' k v v' :
  k ∈ vertices -> value c k = Some v ->
  (forall j, value c' j = if decide (k = j) then Some v' else value c j) ->
  (height k v' < height k v)%nat -> (room c' < room c)%nat.
Proof.
  intros Hin Hk Hv Hlt. apply (sum_list_lt _ _ _ k); [|done|]; unfold level; [intros j|]; rewrite Hv.
  - case_decide as E; [|done]. subst j. rewrite Hk. cbn. lia.
  - rewrite decide_True by done. by rewrite Hk.
Qed.

(** A row whose delta would change its value, or none. *)
Lemma work_or_settled c : placed c ->
  (exists w tb k cell, Cluster.workers c !! w = Some tb /\ row tb k = Some cell /\
     ~ Some (StateTable.v1 cell) ⊑ Some (StateTable.v2 cell)) \/
  (forall w tb k cell, Cluster.workers c !! w = Some tb -> row tb k = Some cell ->
     Some (StateTable.v1 cell) ⊑ Some (StateTable.v2 cell)).
Proof.
  intros Hp. pose proof (placed_wf c Hp) as Hwf.
  set (idle k := forall w tb cell, Cluster.workers c !! w = Some tb -> row tb k = Some cell ->
     Some (StateTable.v1 cell) ⊑ Some (StateTable.v2 cell)).
  assert (forall k, k ∈ vertices -> idle k \/ exists w tb cell, Cluster.workers c !! w = Some tb /\
    row tb k = Some cell /\ ~ Some (StateTable.v1 cell) ⊑ Some (StateTable.v2 cell)) as Hdec.
  { intros k Hk. apply (placed_rows _ Hp) in Hk as [v Hv].
    destruct (value_row c k v Hwf Hv) as (o & tb & cell & Ho & Hw & Hr & _).
    destruct (decide (Some (StateTable.v1 cell) ⊕ Some (StateTable.v2 cell) = Some (StateTable.v2 cell))) as [Hb|Hb];
      [left|right; by exists o, tb, cell].
    intros w tb' cell' Hw' Hr'. pose proof (row_owner c w tb' k Hwf Hw' ltac:(by rewrite Hr')) as Ho'.
    rewrite Ho in Ho'. injection Ho' as Ho'. assert (o = w) as -> by lia. rewrite Hw in Hw'. injection Hw' as <-.
    rewrite Hr in Hr'. by injection Hr' as <-. }
  assert (Forall idle vertices \/ exists k, k ∈ vertices /\ exists w tb cell, Cluster.workers c !! w = Some tb /\
    row tb k = Some cell /\ ~ Some (StateTable.v1 cell) ⊑ Some (StateTable.v2 cell)) as [Hall|(k & Hk & w & tb & cell & Hx)].
  { clear -Hdec. induction vertices as [|k l IH]; [by left; constructor|].
    destruct (Hdec k ltac:(by left)) as [Hk|Hk]; [|right; exists k; split; [by left|done]].
    destruct IH as [Hl|(j & Hj & Hw)]; [by intros j Hj; apply Hdec; right| |right; exists j; split; [by right|done]].
    left. by constructor. }
  - right. intros w tb k cell Hw Hr. rewrite Forall_forall in Hall. apply (Hall k) with (w := w) (tb := tb); [|done..]. apply (placed_rows _ Hp). by rewrite (row_value c w tb k cell Hwf Hw Hr).
  - left. by exists w, tb, k, cell.
Qed.

Lemma settles_placed c : placed c -> exists c', isteps c c' /\ settled c'.
Proof.
  remember (room c) as n eqn:En. revert c En. induction (lt_wf n) as [n _ IH]. intros c -> Hp.
  destruct (Cluster.flush_all bufmsg wire_size owners representable_accumulate (length (Cluster.workers c)) c
    (placed_wf c Hp) (placed_known c Hp)) as (c1 & Hs1 & Hwf1 & Hk1 & Hf1 & Hl1); [done|].
  rewrite <- Hl1 in Hf1. destruct c1 as [ws ms].
  destruct (Cluster.deliver_all bufmsg wire_size owners representable_accumulate ms ws Hwf1 Hk1 Hf1) as (c2 & Hs2 & Hq).
  destruct (exchanges_placed c [] c2 (Cluster.steps_trans _ _ _ [] _ [] _ Hs1 Hs2) eq_refl Hp) as (Hi & Hp2 & Hv2).
  destruct (work_or_settled c2 Hp2) as [(w & tb & k & cell & Hw & Hr & Hn)|Hset]; [|by exists c2].
  destruct (iterate_possible c2 w tb k cell Hp2 Hw Hr) as (c3 & Hs3 & Hp3 & Hit).
  pose proof Hit as (Hv0 & Hv & _).
  destruct (IH (room c3)) with (c := c3) as (c4 & Hs4 & Hset); [|done|done|].
  - assert (room c2 = room c) as <-. { unfold room. apply sum_list_ext. intros j. unfold level. by rewrite Hv2. }
    eapply room_decreases; [apply (placed_rows _ Hp2); by rewrite Hv0|done|done|].
    apply height_lt.
    + apply (below_l (Some (StateTable.v2 cell)) (Some (StateTable.v1 cell))).
    + intros E. apply Hn. unfold below. rewrite oadd_comm. cbn. by rewrite <- E.
    + eapply below_trans; [|apply (placed_bound _ Hp3 k)]. rewrite Hv, decide_True by done. auto with below.
  - exists c4. split; [|done]. eapply isteps_trans; [done|]. by eapply isteps_next.
Qed.

Lemma initial_placed c : initial c -> starts_below c X ->
  Forall (fun o => 0 <= o < Z.of_nat (length (Cluster.workers c))) owners ->
  (forall k, is_Some (value c k) <-> k ∈ vertices) -> placed c.
Proof.
  intros Hi HX Ho Hv. destruct (initial_inv c Hi) as [Hinv Hb]. pose proof Hi as (Hwf & Hq & _ & Hstart).
  split; [by eexists|by apply Hb|done|done|]. intros k [y Hk].
  destruct (decide (k ∈ vertices)) as [|Hn]; [done|]. exfalso.
  assert (Cluster.total c k ⊑ None) as Hbot.
  { apply quiescent_bound; [done..|]. intros w tb cell Hw Hr. destruct Hn. apply Hv.
    by rewrite (row_value c w tb k cell Hwf Hw Hr). }
  rewrite Hk in Hbot. done.
Qed.

(** C7. The computation can always be brought to its end: from every state
    that a run from loaded tables reaches, some further run of flushes,
    deliveries and iterations leads to a state in which nothing is buffered,
    under way or left to absorb, when the graph is closed, every shard has a
    worker and values below the solution cannot grow for ever. *)
Theorem settles c0 c : initial c0 -> starts_below c0 X ->
  Forall (fun o => 0 <= o < Z.of_nat (length (Cluster.workers c0))) owners ->
  (forall k, is_Some (value c0 k) <-> k ∈ vertices) ->
  isteps c0 c -> exists c', isteps c c' /\ settled c'.
Proof.
  intros Hi HX Ho Hv Hs. apply settles_placed. eapply isteps_placed; [done|]. by apply initial_placed.
Qed.
End Settling.
End Runs.
End Iteration.
End Iteration.
