(* ===== verification/Components.v ===== *)
(** * Connected components on a cluster

    The kernel of examples/con_component.cc run by the asynchronous iteration
    of the cluster: every vertex ends with the largest id that reaches it. *)
From S2P Require Import Prelude Float StringPiece Decimal Probe Table DeltaTable StateTable GlobalTable Cluster Cache FlatStore Maiter Worker Loading Examples Iteration.

Module Components.
Import GlobalTable.
Section Components.
Variables (cast_int getKey_ : cstr -> outcome Z) (getValue_ : cstr -> outcome (list Z)).
#[local] Instance con_kernel : IterateKernel Z Z (list Z) := ConComponent.kernel cast_int getKey_ getValue_.
#[local] Instance con_laws : AccumulateLaws Z Z (list Z) := con_component_laws cast_int getKey_ getValue_.
#[local] Existing Instance Marshal_int.
#[local] Existing Instance MarshalLaws_int.
#[local] Instance con_sharder : Sharder Z := Sharding.Mod.

#[local] Instance con_propagation : PropagationLaws Z Z (list Z).
Proof.
  refine {| targets data := data; edge k data j v := v |}.
  - intros a. unfold accumulate, con_kernel, ConComponent.kernel. rewrite i_max_max. lia.
  - done.
  - intros k d v data j Hj. eexists. split.
    + unfold g_func, con_kernel, ConComponent.kernel. cbn [app]. by apply (list_elem_of_fmap_2 (fun t => (t, _)) data j).
    + cbn zeta. unfold accumulate, con_kernel, ConComponent.kernel. rewrite !i_max_max. lia.
Defined.

Variable bufmsg : Z.
Variable wire_size : KVPairData -> Z.
Variable owners : list Z.
Variable adj : Z -> list Z.
(** Vertices are nonnegative [int]s. *)
Hypothesis adj_int : forall k j, j ∈ adj k -> 0 <= j < 2 ^ 31.

Abbreviation cluster := (Cluster.t (K := Z) (V := Z) (D := list Z)).
Abbreviation value := (Iteration.value (K := Z) (V := Z) (D := list Z) owners).
Abbreviation initial := (Iteration.initial (K := Z) (V := Z) (D := list Z) bufmsg owners).
Abbreviation settled := (Iteration.settled (K := Z) (V := Z) (D := list Z)).
Abbreviation isteps := (Iteration.isteps (K := Z) (V := Z) (D := list Z) bufmsg wire_size adj).
Implicit Types c : cluster.

Lemma con_accumulate a b : accumulate (K := Z) (D := list Z) a b = Z.max a b.
Proof. apply i_max_max. Qed.
Lemma con_representable (a b : Z) :
  representable a -> representable b -> representable (accumulate (K := Z) (D := list Z) a b).
Proof. rewrite con_accumulate. unfold representable, MarshalLaws_int. lia. Qed.
Lemma con_default : representable (default_v (K := Z) (V := Z) (D := list Z)).
Proof. unfold representable, MarshalLaws_int, default_v, con_kernel, ConComponent.kernel. lia. Qed.
Lemma con_sent (k d v j x : Z) : representable d -> representable v ->
  (j, x) ∈ g_func k d v (adj k) [] -> representable j /\ representable x.
Proof.
  intros Hd Hv Hin. unfold g_func, con_kernel, ConComponent.kernel in Hin. cbn [app] in Hin.
  apply list_elem_of_fmap in Hin as (t & [= -> ->] & Ht). apply adj_int in Ht.
  split; [|done]. unfold representable, MarshalLaws_int. lia.
Qed.
Lemma con_below (a b : Z) : Iteration.below (K := Z) (D := list Z) (Some a) (Some b) <-> a <= b.
Proof.
  unfold Iteration.below. cbn [oadd]. rewrite con_accumulate. split; [intros [= E]; lia|intros; f_equal; lia].
Qed.
Lemma con_start (k : Z) : StateTable.v1 (Iteration.start (D := list Z) k) = k /\ StateTable.v2 (Iteration.start (D := list Z) k) = 0.
Proof. done. Qed.
Lemma con_edge_start k j : j ∈ targets (adj k) ->
  Iteration.below (K := Z) (D := list Z) (Some (edge k (adj k) j (StateTable.v2 (Iteration.start (D := list Z) k))))
    (Some (StateTable.v2 (Iteration.start (D := list Z) j))).
Proof. intros _. by apply con_below. Qed.

(** [k] can be reached from [u] along edges. *)
Definition reaches (u k : Z) : Prop := rtc (fun a b => b ∈ adj a) u k.
(** [M k] is the largest id of a vertex of [c] that reaches [k], or 0. *)
Definition greatest c (M : Z -> Z) : Prop := forall k,
  0 <= M k /\ (forall u, is_Some (value c u) -> reaches u k -> u <= M k) /\
  (M k = 0 \/ (is_Some (value c (M k)) /\ reaches (M k) k)).

Lemma greatest_solution c M : greatest c M ->
  Iteration.solution (K := Z) (V := Z) (D := list Z) adj M /\
  Iteration.starts_below (K := Z) (V := Z) (D := list Z) owners c M.
Proof.
  intros HM. split.
  - split; [intros k; apply (proj2 (con_below 0 (M k))); by destruct (HM k)|].
    intros k d v j x Hd Hv Hin. unfold g_func, con_kernel, ConComponent.kernel in Hin. cbn [app] in Hin.
    apply list_elem_of_fmap in Hin as (t & [= -> ->] & Ht). apply con_below in Hv. apply con_below.
    destruct (HM k) as (_ & _ & [E|[Hs Hr]]); [destruct (HM t); lia|].
    enough (M k <= M t) by lia. apply (HM t); [done|]. by eapply rtc_r.
  - intros k Hk. destruct (con_start k) as [-> ->]. split; apply con_below; [|by destruct (HM k)].
    apply (HM k); [done|apply rtc_refl].
Qed.

(** C5. Connected components, end to end: from loaded tables, after any
    asynchronous run of iterations, flushes and deliveries, once the cluster is
    settled the value of every vertex is the largest id among the vertices that
    reach it. *)
Theorem component_labels c0 c M :
  initial c0 -> (forall k, is_Some (value c0 k) -> 0 <= k /\ forall j, j ∈ adj k -> is_Some (value c0 j)) ->
  isteps c0 c -> settled c -> greatest c0 M ->
  forall k, is_Some (value c0 k) -> value c k = Some (M k).
Proof.
  intros Hi Hcl Hs Hset HM k Hk.
  destruct (greatest_solution c0 M HM) as [Hsol Hst].
  destruct (Iteration.initial_inv bufmsg adj owners con_edge_start c0 Hi) as [Hinv0 Hb0].
  destruct (Iteration.isteps_inv bufmsg wire_size adj owners con_representable con_default con_sent _ c0 c Hinv0 Hs)
    as (Hinv & Hsome & Hb).
  assert (forall k v, value c k = Some v -> k <= v /\ (forall j u, value c j = Some u -> j ∈ adj k -> v <= u) /\ v <= M k)
    as Hleast.
  { intros k' v Hv. destruct (Iteration.settled_least bufmsg adj owners _ c Hinv Hset k' v Hv) as (H1 & H2 & H3).
    split_and!.
    - by apply con_below in H1.
    - intros j u Hu Hj. by apply con_below, (H2 j u).
    - apply con_below. by apply (H3 M), Hb, Hb0. }
  destruct (Hsome k Hk) as [v Hv]. rewrite Hv. f_equal. destruct (Hleast k v Hv) as (Hkv & _ & HvM).
  destruct (HM k) as (_ & _ & [E|[Hu Hr]]); [destruct (Hcl k Hk); lia|].
  enough (forall w, is_Some (value c0 w) -> reaches w k -> exists u, value c w = Some u /\ u <= v) as Hpath.
  { destruct (Hpath (M k) Hu Hr) as (u & Hu' & Hle). destruct (Hleast _ u Hu') as [? _]. lia. }
  clear -Hcl Hsome Hleast Hv. intros w Hw Hr. revert Hw Hv. induction Hr as [w|w k1 k Hstep Hr IH]; intros Hw Hv.
  { by exists v. }
  destruct (Hcl w Hw) as [_ Hw1]. destruct (IH (Hw1 k1 Hstep) Hv) as (u1 & Hu1 & Hle).
  destruct (Hsome w Hw) as [u Hu]. exists u. split; [done|]. destruct (Hleast w u Hu) as (_ & He & _).
  specialize (He k1 u1 Hu1 Hstep). lia.
Qed.
End Components.

(** ** Two vertices on two workers

    Worker 0 owns vertex 2 and worker 1 vertex 1; each links to the other. *)
Section Sample.
#[local] Instance sample_kernel : IterateKernel Z Z (list Z) := con_kernel parse_int parse_int (fun _ => Ok []).
#[local] Instance sample_laws : AccumulateLaws Z Z (list Z) := con_laws parse_int parse_int (fun _ => Ok []).
#[local] Existing Instance Marshal_int.
#[local] Existing Instance MarshalLaws_int.
#[local] Instance sample_sharder : Sharder Z := Sharding.Mod.
#[local] Instance sample_propagation : PropagationLaws Z Z (list Z) := con_propagation parse_int parse_int (fun _ => Ok []).
#[local] Abbreviation table := (GlobalTable.t (K := Z) (V := Z) (D := list Z)).

Definition two_owners : list Z := [0; 1].
Definition two_adj (k : Z) : list Z := if k =? 1 then [2] else if k =? 2 then [1] else [].
Definition two_size (d : KVPairData) : Z := Z.of_nat (length (kv_data d)).
Definition boot (w : Z) (keys : cstr) : outcome table :=
  tb ← Init 0 2 (Some {| helper_id := w; helper_epoch := 0 |});
  tb ← UpdatePartitions tb 0 0 0;
  tb ← UpdatePartitions tb 1 1 0;
  Maiter.init_table tb 4 keys.
Definition get_ok {A} (m : outcome A) (d : A) : A := match m with Ok a => a | _ => d end.
Definition no_table : table := GlobalTable.mk 0 0 None [] [] 0 0 0 [] false.
Definition worker0 : table := Eval vm_compute in get_ok (boot 0 (lit "1#2#")) no_table.
Definition worker1 : table := Eval vm_compute in get_ok (boot 1 (lit "1#2#")) no_table.
Definition two_cluster : Cluster.t := Cluster.mk [worker0; worker1] [].

Lemma two_tables w tb : Cluster.workers two_cluster !! w = Some tb ->
  (w = 0%nat /\ tb = worker0) \/ (w = 1%nat /\ tb = worker1).
Proof. intros Hw. destruct w as [|[|w]]; cbn in Hw; [left|right|done]; by injection Hw as <-. Qed.

(** The only row of each worker. *)
Lemma two_rows w tb k cell : Cluster.workers two_cluster !! w = Some tb -> row tb k = Some cell ->
  (k = 2 \/ k = 1) /\ cell = Iteration.start (D := list Z) k.
Proof.
  intros Hw Hr.
  assert (forall tb i, tb = worker0 \/ tb = worker1 ->
    match partitions_ tb !! i with Some (State s) => StateTable.contents s !! k | _ => None end = Some cell ->
    (k = 2 \/ k = 1) /\ cell = Iteration.start (D := list Z) k) as Hgen.
  { clear. intros tb i [-> | ->] Hr; destruct i as [|[|i]]; cbn in Hr; try done.
    all: unfold StateTable.contents, to_map in Hr; apply elem_of_list_to_map_2, list_elem_of_singleton in Hr;
      injection Hr as -> ->; (split; [auto|by vm_compute]). }
  apply (Hgen tb (Z.to_nat (get_shard tb k))); [|done].
  destruct (two_tables w tb Hw) as [[_ ->]|[_ ->]]; auto.
Qed.
Ltac one_row :=
  intros k Hk; apply elem_of_dom in Hk; unfold StateTable.contents, to_map in Hk;
  rewrite dom_list_to_map in Hk; apply elem_of_list_to_set, list_elem_of_singleton in Hk; by subst k.
Lemma two_wf : Cluster.wf 10 two_owners two_cluster.
Proof.
  split; [|constructor]. intros w tb Hw. destruct (two_tables w tb Hw) as [[-> ->]|[-> ->]].
  - split; [|split; [by vm_compute|done]]. split; try done; [by exists 0|].
    intros i p Hp. destruct i as [|[|i]]; cbn in Hp; try done; injection Hp as <-.
    + split_and!; [done|by apply StateTable.state_wfb_sound|one_row].
    + split; [done|]. split_and!; [by apply DeltaTable.wfb_sound|done|done|]. by intros k v Hk.
  - split; [|split; [by vm_compute|done]]. split; try done; [by exists 0|].
    intros i p Hp. destruct i as [|[|i]]; cbn in Hp; try done; injection Hp as <-.
    + split; [done|]. split_and!; [by apply DeltaTable.wfb_sound|done|done|]. by intros k v Hk.
    + split_and!; [done|by apply StateTable.state_wfb_sound|one_row].
Qed.
Lemma two_initial : Iteration.initial 10 two_owners two_cluster.
Proof.
  split; [exact two_wf|]. split_and!.
  - split; [|by intros m ?%not_elem_of_nil]. intros w tb i d Hw Hp.
    destruct (two_tables w tb Hw) as [[_ ->]|[_ ->]]; destruct i as [|[|i]]; cbn in Hp; try done; by injection Hp as <-.
  - intros w tb Hw k cell Hr. destruct (two_rows w tb k cell Hw Hr) as [[-> | ->] ->]; by vm_compute.
  - intros w tb k cell Hw Hr. by destruct (two_rows w tb k cell Hw Hr).
Qed.
Lemma two_vertices k : is_Some (Iteration.value two_owners two_cluster k) <-> k ∈ [1; 2].
Proof.
  split.
  - intros [v Hv]. destruct (Iteration.value_row 10 two_owners two_cluster k v two_wf Hv) as (o & tb & cell & _ & Hw & Hr & _).
    destruct (two_rows o tb k cell Hw Hr) as [[-> | ->] _]; set_solver.
  - rewrite !elem_of_cons. intros [->|[->|[]%not_elem_of_nil]]; by eexists.
Qed.
Lemma two_adj_int k j : j ∈ two_adj k -> 0 <= j < 2 ^ 31.
Proof. unfold two_adj. destruct (k =? 1), (k =? 2); set_solver by lia. Qed.

(** Vertex 2 is the largest that reaches either vertex. *)
Definition two_max (k : Z) : Z := if bool_decide (k = 1 \/ k = 2) then 2 else 0.
Lemma two_reaches u k : reaches two_adj u k -> u = k \/ (k = 1 \/ k = 2).
Proof.
  intros Hr. apply rtc_inv_r in Hr as [->|(j & _ & Hj)]; [by left|right]. unfold two_adj in Hj.
  destruct (j =? 1), (j =? 2); set_solver.
Qed.
Lemma two_greatest : greatest two_owners two_adj two_cluster two_max.
Proof.
  intros k. unfold two_max. case_bool_decide as Hk.
  - split_and!; [lia| |right; split; [apply two_vertices; set_solver|]].
    + intros u Hu _. apply two_vertices in Hu. set_solver by lia.
    + destruct Hk as [-> | ->]; [|apply rtc_refl]. eapply rtc_l; [|apply rtc_refl]. by left.
  - split_and!; [lia| |by left]. intros u Hu Hr. apply two_vertices in Hu.
    destruct (two_reaches u k Hr) as [->|?]; [set_solver|done].
Qed.
Lemma two_bound (a b : Z) :
  Iteration.below (K := Z) (D := list Z) (Some a) (Some b) <-> a <= b.
Proof. apply (con_below parse_int parse_int (fun _ => Ok [])). Qed.
Definition two_height (k v : Z) : nat := Z.to_nat (two_max k - v).
Lemma two_height_lt k a b :
  Iteration.below (K := Z) (D := list Z) (Some a) (Some b) -> a <> b ->
  Iteration.below (K := Z) (D := list Z) (Some b) (Some (two_max k)) -> (two_height k b < two_height k a)%nat.
Proof. rewrite !two_bound. unfold two_height. lia. Qed.
Lemma two_closed k d v j x : k ∈ [1; 2] -> (j, x) ∈ g_func k d v (two_adj k) [] -> j ∈ [1; 2].
Proof.
  intros Hk Hin. unfold g_func, sample_kernel, con_kernel, ConComponent.kernel in Hin. cbn [app] in Hin.
  apply list_elem_of_fmap in Hin as (t & [= -> _] & Ht). unfold two_adj in Ht.
  destruct (k =? 1), (k =? 2); set_solver.
Qed.
#[local] Abbreviation rep_acc := (con_representable parse_int parse_int (fun _ => Ok [])).
#[local] Abbreviation rep_def := (con_default parse_int parse_int (fun _ => Ok [])).
#[local] Abbreviation rep_sent := (con_sent parse_int parse_int (fun _ => Ok []) two_adj two_adj_int).
#[local] Abbreviation edge_0 := (con_edge_start parse_int parse_int (fun _ => Ok []) two_adj).
#[local] Abbreviation two_sol := (greatest_solution parse_int parse_int (fun _ => Ok []) two_owners two_adj
  two_cluster two_max two_greatest).

Lemma two_settles : exists c, Iteration.isteps 10 two_size two_adj two_cluster c /\ Iteration.settled c.
Proof.
  apply (Iteration.settles_placed 10 two_size two_adj two_owners rep_acc rep_def rep_sent [1; 2] two_max
    two_height (proj1 two_sol) two_height_lt two_closed two_cluster).
  apply (Iteration.initial_placed 10 two_adj two_owners edge_0);
    [exact two_initial|exact (proj2 two_sol)|by repeat constructor|exact two_vertices].
Qed.

Lemma settles_witness : exists c, Iteration.isteps 10 two_size two_adj two_cluster c /\ Iteration.settled c.
Proof.
  exact (Iteration.settles 10 two_size two_adj two_owners rep_acc rep_def rep_sent edge_0 [1; 2] two_max
    two_height (proj1 two_sol) two_height_lt two_closed two_cluster two_cluster two_initial (proj2 two_sol)
    ltac:(by repeat constructor) two_vertices (Iteration.isteps_refl _ _ _ _)).
Defined.
Lemma least_solution_witness : exists c v,
  Iteration.isteps 10 two_size two_adj two_cluster c /\ Iteration.settled c /\
  Iteration.value two_owners c 1 = Some v /\ v <= 2.
Proof.
  destruct two_settles as (c & Hs & Hset).
  destruct (Iteration.least_solution 10 two_size two_adj two_owners rep_acc rep_def rep_sent edge_0
    two_cluster c two_initial Hs Hset) as [Hsome Hl].
  destruct (Hsome 1 ltac:(by eexists)) as [v Hv]. exists c, v. split_and!; [exact Hs|exact Hset|exact Hv|].
  apply (two_bound v 2). apply (proj2 (proj2 (Hl 1 v Hv)) two_max); [exact (proj1 two_sol)|exact (proj2 two_sol)].
Defined.
Lemma component_labels_witness : exists c,
  Iteration.isteps 10 two_size two_adj two_cluster c /\ Iteration.settled c /\
  Iteration.value two_owners c 1 = Some 2 /\ Iteration.value two_owners c 2 = Some 2.
Proof.
  destruct two_settles as (c & Hs & Hset). exists c. split_and!; [exact Hs|exact Hset|..].
  all: apply (component_labels parse_int parse_int (fun _ => Ok []) 10 two_size two_owners two_adj two_adj_int
    two_cluster c two_max two_initial); [|exact Hs|exact Hset|exact two_greatest|by eexists].
  all: intros k Hk; apply two_vertices in Hk; split; [set_solver by lia|];
    intros j Hj; apply two_vertices; unfold two_adj in Hj; destruct (k =? 1), (k =? 2); set_solver.
Defined.
End Sample.
End Components.
