(* ===== verification/Passes.v ===== *)
(** * Passes of the kernel loop

    [MaiterKernel2::run_loop] (kernel/kernel.h) takes an iterator over the rows
    of its shard and iterates every row the iterator stops at, with the
    adjacency lists served by the cache of the store.  This file shows that
    such a pass, on one worker of a cluster, is a sequence of the steps of
    Iteration.v, one for each row the iterator selects and in its order: the
    buckets of a state table do not move while the pass writes into them, the
    cache is transparent, and the loop ends. *)
From S2P Require Import Prelude Float StringPiece Decimal Probe Table SampleKernel DeltaTable StateTable GlobalTable Cluster Cache FlatStore Maiter Worker Loading Examples Iteration Components.

Module Passes.
Import GlobalTable.
Section Shape.
Context {K V D : Type} `{Countable K} `{!Hashable K}.
Context `{!ValueInit K} `{!ValueInit V} `{!ValueInit D}.
Context `{!IterateKernel K V D} `{!Sharder K} `{!Marshal K} `{!Marshal V}.
Variable bufmsg : Z.
Variable wire_size : KVPairData -> Z.
Implicit Types (tb : GlobalTable.t (K := K) (V := V) (D := D)) (s : StateTable.t K V D).

(** ** What a pass leaves in place

    The keys of the buckets of the state tables, which are in use, and the
    termination flags. *)
Definition slots s : list (K * bool) := (fun x => (bk x, in_use x)) <$> StateTable.buckets_ s.
Definition layout (p : LocalTable (K := K) (V := V) (D := D)) : option (list (K * bool) * Z * bool) :=
  match p with State s => Some (slots s, StateTable.size_ s, StateTable.terminated_ s) | Delta _ => None end.
Definition shape tb : list (option (list (K * bool) * Z * bool)) := layout <$> partitions_ tb.

Lemma shape_state tb tb' i s : shape tb' = shape tb -> partitions_ tb !! i = Some (State s) ->
  exists s', partitions_ tb' !! i = Some (State s') /\ slots s' = slots s /\ StateTable.size_ s' = StateTable.size_ s /\
    StateTable.terminated_ s' = StateTable.terminated_ s.
Proof.
  intros Hsh Hi. assert (shape tb' !! i = Some (layout (State s))) as Hl.
  { rewrite Hsh. unfold shape. by rewrite list_lookup_fmap, Hi. }
  unfold shape in Hl. apply list_lookup_fmap_Some in Hl as ([d|s'] & Hl & Hp); [done|].
  injection Hl as Hs Hz Ht. by exists s'.
Qed.

(** The keys of the rows are those of the used slots. *)
Lemma rows_slots s p : (rows (drop p (StateTable.buckets_ s))).*1 =
  omap (fun ku : K * bool => if ku.2 then Some ku.1 else None) (drop p (slots s)).
Proof.
  unfold slots. rewrite <- fmap_drop. generalize (drop p (StateTable.buckets_ s)) as bs. clear.
  induction bs as [|x bs IH]; [done|]. unfold rows in *. cbn [omap list_omap fmap list_fmap].
  unfold row_of at 1. destruct (in_use x); cbn; by rewrite IH.
Qed.

Lemma vec_at_lookup {A} (v : list A) i x : vec_at v i = Ok x -> 0 <= i /\ v !! Z.to_nat i = Some x.
Proof. unfold vec_at. case_match eqn:Hi; [done|]. intros Hx%deref_Ok. split; [lia|done]. Qed.

Lemma set_partition_shape tb i p p' tb' :
  vec_at (partitions_ tb) i = Ok p -> set_partition tb i p' = Ok tb' -> layout p' = layout p ->
  shape tb' = shape tb.
Proof.
  intros [_ Hp]%vec_at_lookup E Hl. unfold set_partition, vec_set in E.
  case_match; [done|]. injection E as <-. unfold shape. cbn. rewrite list_fmap_insert, Hl.
  apply list_insert_id. by rewrite list_lookup_fmap, Hp.
Qed.
Lemma set_cell_layout s b x c s' : vec_at (StateTable.buckets_ s) b = Ok x ->
  StateTable.set_cell s b x c = Ok s' -> layout (State s') = layout (State s).
Proof.
  intros [_ Hx]%vec_at_lookup E. unfold StateTable.set_cell, vec_set in E. case_match; [done|].
  injection E as <-. cbn. f_equal. f_equal. f_equal. unfold slots. cbn. rewrite list_fmap_insert. cbn.
  apply list_insert_id. by rewrite list_lookup_fmap, Hx.
Qed.
Lemma checked_bucket_read s k b x :
  StateTable.checked_bucket s k = Ok (b, x) -> vec_at (StateTable.buckets_ s) b = Ok x.
Proof.
  intros E. unfold StateTable.checked_bucket in E. apply bind_Ok in E as (b' & _ & E).
  apply bind_Ok in E as (_ & _ & E). apply bind_Ok in E as (x' & Hx & [= <- <-]). done.
Qed.
Lemma partition_at tb i s : partition tb i = Ok s -> vec_at (partitions_ tb) i = Ok (State s).
Proof. unfold partition. intros ([d|s'] & Hp & E)%bind_Ok; [done|]. by injection E as <-. Qed.
Lemma deltaT_at tb i d : deltaT tb i = Ok d -> vec_at (partitions_ tb) i = Ok (Delta d).
Proof. unfold deltaT. intros ([d'|s'] & Hp & E)%bind_Ok; [|done]. by injection E as <-. Qed.

(** ** The writes of an iteration *)
Lemma accumulateF1_layout s k v s' : StateTable.accumulateF1 s k v = Ok s' -> layout (State s') = layout (State s).
Proof. intros ([b x] & Hb & E)%bind_Ok. by eapply set_cell_layout; [eapply checked_bucket_read|]. Qed.
Lemma accumulateF2_layout s k v s' : StateTable.accumulateF2 s k v = Ok s' -> layout (State s') = layout (State s).
Proof. intros ([b x] & Hb & E)%bind_Ok. by eapply set_cell_layout; [eapply checked_bucket_read|]. Qed.
Lemma updateF1_layout s k v s' : StateTable.updateF1 s k v = Ok s' -> layout (State s') = layout (State s).
Proof.
  intros ([b x] & Hb & E)%bind_Ok. apply bind_Ok in E as (s1 & E & [= <-]).
  transitivity (layout (State s1)); [done|]. by eapply set_cell_layout; [eapply checked_bucket_read|].
Qed.
Lemma set_row_shape tb i p a b tb' : Maiter.set_row tb i p a b = Ok tb' -> shape tb' = shape tb.
Proof.
  intros (s & Hs%partition_at & E)%bind_Ok. apply bind_Ok in E as (x & Hx & E). apply bind_Ok in E as (s' & E' & E).
  eapply set_partition_shape; [done..|]. by eapply set_cell_layout.
Qed.
Lemma accumulateF2_shape tb k v tb' : GlobalTable.accumulateF2 tb k v = Ok tb' -> shape tb' = shape tb.
Proof.
  intros (loc & _ & E)%bind_Ok. destruct loc; [|by injection E as <-].
  apply bind_Ok in E as (s & Hs%partition_at & E). apply bind_Ok in E as (s' & E' & E).
  eapply set_partition_shape; [done..|]. by eapply accumulateF2_layout.
Qed.
Lemma updateF1_shape tb k v tb' : GlobalTable.updateF1 tb k v = Ok tb' -> shape tb' = shape tb.
Proof.
  intros (loc & _ & E)%bind_Ok. destruct loc.
  - apply bind_Ok in E as (s & Hs%partition_at & E). apply bind_Ok in E as (s' & E' & E).
    eapply set_partition_shape; [done..|]. by eapply updateF1_layout.
  - apply bind_Ok in E as (d & Hd%deltaT_at & E). apply bind_Ok in E as (d' & _ & E).
    by eapply set_partition_shape.
Qed.

(** Sending empties delta tables only. *)
Lemma send_loop_shape tb i tb' ms : send_loop wire_size 1 tb i = Ok (tb', ms) ->
  shape tb' = shape tb /\ exists d, vec_at (partitions_ tb') i = Ok (Delta d).
Proof.
  cbn [send_loop]. intros (p & Hp & E)%bind_Ok. apply bind_Ok in E as (h & _ & E).
  apply bind_Ok in E as (c & Hc & E). destruct p as [d|s]; [|done].
  apply bind_Ok in E as (p' & Hr & E). apply bind_Ok in Hr as (d' & _ & [= <-]).
  apply bind_Ok in E as (o & _ & E). apply bind_Ok in E as (tb1 & E1 & E).
  assert (shape tb1 = shape tb) as Hsh by (by eapply (set_partition_shape (set_sent tb _) i (Delta d) (Delta d')) in E1).
  destruct (negb _); [by apply bind_Ok in E as (? & ? & _)|]. injection E as <- <-. split; [done|].
  exists d'. unfold set_partition, vec_set in E1. case_match eqn:Hi; [done|]. injection E1 as <-. cbn.
  rewrite <- (Z2Nat.id i) by lia. rewrite Nat2Z.id. apply vec_at_Some, list_lookup_insert_eq. cbn [set_sent partitions_] in Hi. lia.
Qed.
Lemma send_shard_shape tb ms i r : send_shard wire_size (tb, ms) i = Ok r -> shape r.1 = shape tb.
Proof.
  intros (loc & _ & E)%bind_Ok. apply bind_Ok in E as (info & _ & E). apply bind_Ok in E as (p & Hp & E).
  destruct (_ && _); [|by injection E as <-].
  apply bind_Ok in E as ([tb1 ms1] & Es & E). destruct (send_loop_shape _ _ _ _ Es) as [Hsh [d Hd]].
  rewrite Hd in E. cbn in E. apply bind_Ok in E as (p' & Hr & E). apply bind_Ok in Hr as (d' & _ & [= <-]).
  apply bind_Ok in E as (tb2 & E2 & [= <-]). cbn [fst]. rewrite <- Hsh. by eapply set_partition_shape.
Qed.
Lemma for_each_shape {A} (f : GlobalTable.t * list message -> A -> outcome (GlobalTable.t * list message)) l :
  (forall tb ms a r, f (tb, ms) a = Ok r -> shape r.1 = shape tb) ->
  forall tb ms r, for_each f l (tb, ms) = Ok r -> shape r.1 = shape tb.
Proof.
  intros Hf. induction l as [|a l IH]; intros tb ms r E; [by injection E as <-|].
  cbn [for_each] in E. apply bind_Ok in E as ([tb1 ms1] & E1 & E). rewrite (IH _ _ _ E).
  by apply Hf in E1.
Qed.
Lemma SendUpdates_shape tb r : SendUpdates wire_size tb = Ok r -> shape r.1 = shape tb.
Proof.
  intros ([tb' ms'] & E & [= <-])%bind_Ok. by apply (for_each_shape _ _ send_shard_shape) in E.
Qed.
Lemma accumulateF1_shape tb k v r : GlobalTable.accumulateF1 bufmsg wire_size tb k v = Ok r -> shape r.1 = shape tb.
Proof.
  intros (loc & _ & E)%bind_Ok. destruct loc.
  - apply bind_Ok in E as (s & Hs%partition_at & E). apply bind_Ok in E as (s' & E' & E).
    apply bind_Ok in E as (tb' & E & [= <-]). eapply set_partition_shape; [done..|]. by eapply accumulateF1_layout.
  - apply bind_Ok in E as (d & Hd%deltaT_at & E). apply bind_Ok in E as (d' & _ & E).
    apply bind_Ok in E as (tb' & E1 & E). assert (shape tb' = shape tb) as <- by (by eapply set_partition_shape).
    cbn zeta in E. destruct (_ <? _); [by apply SendUpdates_shape in E|by injection E as <-].
Qed.
Lemma run_iter_shape tb i p data tb' ms :
  Maiter.run_iter bufmsg wire_size tb i p data = Ok (tb', ms) -> shape tb' = shape tb.
Proof.
  intros (x & _ & E)%bind_Ok. cbn zeta in E. destruct (process_delta_v _ _ _ _) as [[d1 d2] data'].
  apply bind_Ok in E as (tb1 & <-%set_row_shape & E). apply bind_Ok in E as (tb2 & <-%accumulateF2_shape & E).
  apply bind_Ok in E as (x2 & _ & E). apply bind_Ok in E as (tb3 & <-%updateF1_shape & E).
  apply (for_each_shape (apply_one bufmsg wire_size)) in E; [done|]. clear. intros tb ms [k v] r E.
  apply bind_Ok in E as ([tb' ms'] & E & [= <-]). by apply accumulateF1_shape in E.
Qed.
End Shape.

Section Pass.
Context {K V D : Type} `{Countable K} `{!Hashable K}.
Context `{!ValueInit K} `{!ValueInit V} `{!ValueInit D}.
Context `{!IterateKernel K V D} `{!Sharder K} `{!Marshal K} `{!Marshal V}.
Context `{!AccumulateLaws K V D} `{!MarshalLaws K} `{!MarshalLaws V} `{!PropagationLaws K V D}.
Variable bufmsg : Z.
Variable wire_size : KVPairData -> Z.
Variable adj : K -> D.
Context (owners : list Z).
Hypothesis representable_accumulate : forall a b : V,
  representable a -> representable b -> representable (accumulate (K := K) (D := D) a b).
Hypothesis representable_default : representable (default_v (K := K) (V := V) (D := D)).
Hypothesis representable_sent : forall k d v j x,
  representable d -> representable v -> (j, x) ∈ g_func (V := V) k d v (adj k) [] -> representable j /\ representable x.
Variables (vertices : list K) (X : K -> V).
Hypothesis solution_X : Iteration.solution adj X.
Hypothesis closed : forall k d v j x,
  k ∈ vertices -> (j, x) ∈ g_func k d v (adj k) [] -> j ∈ vertices.
(** The store: the influence file and, for the other keys, its reader give the
    adjacency data of the vertices, and the values, as priorities of its cache,
    are numbers. *)
Variable CACHE_SIZE : nat.
Variable reader : K -> outcome D.
Variable influ : gmap K D.
Hypothesis cache_room : (0 < CACHE_SIZE)%nat.
Hypothesis reader_adj : forall k, k ∈ vertices -> SStore.stored reader influ k = Ok (adj k).
Hypothesis values_num : forall v : V, representable v -> not_nan (f32_of_f64 (v_double (K := K) (D := D) v)).

Abbreviation cluster := (Cluster.t (K := K) (V := V) (D := D)).
Abbreviation loop_state := (Maiter.loop_state (K := K) (V := V) (D := D)).
Abbreviation placed := (Iteration.placed bufmsg adj owners vertices X).
Abbreviation istep := (Iteration.istep bufmsg wire_size adj).
Implicit Types (c : cluster) (ls : loop_state) (s : StateTable.t K V D).

(** The iterations of the vertices [ks], in this order. *)
Inductive iterations : list K -> cluster -> cluster -> Prop :=
  | iterations_nil c : iterations [] c c
  | iterations_cons k d v ks c1 c2 c3 :
      istep c1 c2 -> Iteration.iterated adj owners c1 c2 k d v -> iterations ks c2 c3 ->
      iterations (k :: ks) c1 c3.

(** The cluster [c] when its worker [w] is in the loop at [ls]. *)
Definition at_worker c (w : nat) ls : cluster :=
  Cluster.mk (<[w := Maiter.ls_table ls]> (Cluster.workers c)) (Cluster.net c ++ Maiter.ls_sent ls).
Record running c (w : nat) ls : Prop := {
  run_worker : (w < length (Cluster.workers c))%nat;
  run_placed : placed (at_worker c w ls);
  run_cache : Cache.inv CACHE_SIZE (Maiter.ls_cache ls);
  run_coherent : SStore.coherent reader influ (Maiter.ls_cache ls)
}.

Abbreviation visit := (Maiter.visit bufmsg wire_size CACHE_SIZE reader).
Lemma visit_spec c w ls (i p : nat) s (x : bucket K (StateTable.cell V D)) :
  running c w ls -> partitions_ (Maiter.ls_table ls) !! i = Some (State s) ->
  StateTable.buckets_ s !! p = Some x -> in_use x = true ->
  exists ls', visit ls (Z.of_nat i) (Z.of_nat p) = Ok ls' /\ running c w ls' /\
    istep (at_worker c w ls) (at_worker c w ls') /\
    Iteration.iterated adj owners (at_worker c w ls) (at_worker c w ls') (bk x)
      (StateTable.v1 (bval x)) (StateTable.v2 (bval x)) /\
    shape (Maiter.ls_table ls') = shape (Maiter.ls_table ls) /\ Maiter.updates ls' = Maiter.updates ls + 1.
Proof.
  intros [Hlen Hp Hi Hc] Hpi Hx Hu.
  assert (Cluster.workers (at_worker c w ls) !! w = Some (Maiter.ls_table ls)) as Hw.
  { cbn. by apply list_lookup_insert_eq. }
  destruct (Iteration.iterate_returns bufmsg wire_size adj owners representable_accumulate representable_default
    representable_sent vertices X solution_X closed _ w _ i p s x Hp Hw Hpi Hx Hu) as (tb' & ms' & E & Hs & Hp' & Hit).
  assert (representable (StateTable.v2 (bval x)) /\ bk x ∈ vertices) as [Hrep Hk].
  { pose proof (Iteration.placed_wf _ _ _ _ _ _ Hp) as Hwf. destruct (Cluster.wf_workers _ _ _ Hwf w _ Hw) as [Hwt _].
    destruct (Iteration.row_at owners _ _ i p s x Hwt Hpi Hx Hu) as (_ & Hr & _).
    destruct Hp as [[init Hinv] _ _ Hrows _]. split; [by apply (Iteration.inv_rows _ _ _ _ _ Hinv w _ Hw _ _ Hr)|].
    apply Hrows. by rewrite (Iteration.row_value _ _ _ _ _ _ _ Hwf Hw Hr). }
  pose proof (SStore.getData_stored CACHE_SIZE reader influ (Maiter.ls_cache ls) (bk x) _ Hi (values_num _ Hrep) cache_room Hc) as Hg.
  rewrite (reader_adj _ Hk) in Hg. destruct Hg as (cache' & Eg & Hi' & Hc').
  unfold Maiter.visit. rewrite (Maiter.get_row_at _ _ _ _ _ Hpi Hx). run. rewrite Eg. run. rewrite E. run.
  eexists. split; [done|].
  assert (forall a b u, at_worker c w (Maiter.LoopState tb' (Maiter.ls_sent ls ++ ms') a b u) =
    Cluster.mk (<[w := tb']> (Cluster.workers (at_worker c w ls))) (Cluster.net (at_worker c w ls) ++ ms')) as Eat.
  { intros a b u. unfold at_worker. cbn. by rewrite list_insert_insert_eq, app_assoc. }
  split_and!; rewrite ?Eat; try done; [|by eapply run_iter_shape].
  split; rewrite ?Eat; done.
Qed.

(** ** Passes *)

(** The rows that an iterator over the state table [s] stops at. *)
Inductive schedules s : StateTable.TableIterator (K := K) (V := V) (D := D) -> list K -> Prop :=
  | schedules_rows : schedules s StateTable.RowIterator (rows (StateTable.buckets_ s)).*1
  | schedules_positions ps ks :
      Forall2 (fun (p : nat) k => slots s !! p = Some (k, true)) ps ks ->
      schedules s (StateTable.PositionIterator (Z.of_nat <$> ps)) ks
  | schedules_entire it p : StateTable.ep_pos it = Z.of_nat p - 1 ->
      schedules s (StateTable.EntireIterator it) (rows (drop p (StateTable.buckets_ s))).*1.

(** The loop went from [ls] to [ls'] by iterating [ks]. *)
Definition passed c w ks ls ls' : Prop :=
  running c w ls' /\ iterations ks (at_worker c w ls) (at_worker c w ls') /\
  shape (Maiter.ls_table ls') = shape (Maiter.ls_table ls) /\
  Maiter.updates ls' = Maiter.updates ls + Z.of_nat (length ks).

Lemma passed_nil c w ls : running c w ls -> passed c w [] ls ls.
Proof. intros Hr. split_and!; [done|constructor|done|cbn; lia]. Qed.
Lemma running_state c w ls i s :
  running c w ls -> partitions_ (Maiter.ls_table ls) !! i = Some (State s) -> StateTable.wf s.
Proof.
  intros [Hlen Hp _ _] Hi. pose proof (Iteration.placed_wf _ _ _ _ _ _ Hp) as Hwf.
  destruct (Cluster.wf_workers _ _ _ Hwf w (Maiter.ls_table ls)) as [Hwt _]; [by apply list_lookup_insert_eq|].
  by apply (wf_part _ _ _ Hwt) in Hi as (_ & ? & _).
Qed.
Lemma slots_bucket s p k : slots s !! p = Some (k, true) ->
  exists x, StateTable.buckets_ s !! p = Some x /\ bk x = k /\ in_use x = true.
Proof. unfold slots. intros (x & [= -> ->] & Hx)%list_lookup_fmap_Some. by exists x. Qed.

(** One row, and the rest of the pass from the table as it is then. *)
Lemma visit_pass (c : cluster) w ls (i p : nat) s k ks (rest : loop_state -> outcome loop_state) :
  running c w ls -> partitions_ (Maiter.ls_table ls) !! i = Some (State s) -> slots s !! p = Some (k, true) ->
  (forall ls1 s1, running c w ls1 -> partitions_ (Maiter.ls_table ls1) !! i = Some (State s1) ->
     slots s1 = slots s -> exists ls', rest ls1 = Ok ls' /\ passed c w ks ls1 ls') ->
  exists ls', (ls1 ← visit ls (Z.of_nat i) (Z.of_nat p); rest ls1) = Ok ls' /\ passed c w (k :: ks) ls ls'.
Proof.
  intros Hr Hi (x & Hx & <- & Hu)%slots_bucket Hrest.
  destruct (visit_spec c w ls i p s x Hr Hi Hx Hu) as (ls1 & E & Hr1 & Hs & Hit & Hsh & Hup).
  destruct (shape_state _ _ _ _ Hsh Hi) as (s1 & Hi1 & Hsl & _).
  destruct (Hrest ls1 s1 Hr1 Hi1 Hsl) as (ls' & E' & Hr' & Hits & Hsh' & Hup').
  exists ls'. rewrite E. split; [done|]. split_and!; [done|by eapply iterations_cons|congruence|cbn [length]; lia].
Qed.

Lemma position_loop_spec c w (i : nat) ps ks : forall ls s,
  running c w ls -> partitions_ (Maiter.ls_table ls) !! i = Some (State s) ->
  Forall2 (fun (p : nat) k => slots s !! p = Some (k, true)) ps ks ->
  exists ls', Maiter.position_loop bufmsg wire_size CACHE_SIZE reader ls (Z.of_nat i) (Z.of_nat <$> ps) = Ok ls' /\
    passed c w ks ls ls'.
Proof.
  unfold Maiter.position_loop. revert ks. induction ps as [|p ps IH]; intros ks ls s Hr Hi Hps.
  { apply Forall2_nil_inv_l in Hps as ->. exists ls. split; [done|by apply passed_nil]. }
  apply Forall2_cons_inv_l in Hps as (k & ks' & Hk & Hps & ->).
  cbn [fmap list_fmap for_each]. eapply visit_pass; [done..|]. intros ls1 s1 Hr1 Hi1 Hsl. apply (IH ks' ls1 s1); [done..|]. by rewrite Hsl.
Qed.

Lemma row_loop_spec c w (i : nat) fuel : forall ls s p,
  running c w ls -> partitions_ (Maiter.ls_table ls) !! i = Some (State s) ->
  (length (StateTable.buckets_ s) - p < fuel)%nat ->
  exists ls', Maiter.row_loop bufmsg wire_size CACHE_SIZE reader fuel ls (Z.of_nat i) (Z.of_nat p - 1) = Ok ls' /\
    passed c w (rows (drop p (StateTable.buckets_ s))).*1 ls ls'.
Proof.
  induction fuel as [|fuel IH]; intros ls s p Hr Hi Hf; [lia|]. cbn [Maiter.row_loop].
  unfold partition. rewrite (vec_at_Some _ _ _ Hi). run.
  pose proof (StateTable.wf_size _ (running_state _ _ _ _ _ Hr Hi)) as Hsz. rewrite !Hsz.
  set (bs := StateTable.buckets_ s) in *. replace (Z.of_nat p - 1 + 1) with (Z.of_nat p) by lia.
  destruct (decide (length bs <= p)%nat) as [Hge|Hlt].
  { rewrite (drop_ge bs p) by lia. exists ls. split; [|by apply passed_nil].
    destruct (Z.eqb_spec (Z.of_nat p) (Z.of_nat (length bs))); [done|].
    cbn [next_loop]. replace (Z.of_nat p - 1 + 1) with (Z.of_nat p) by lia.
    destruct (Z.ltb_spec (Z.of_nat p) (Z.of_nat (length bs))); [lia|]. run. case_match; [done|lia]. }
  destruct (Z.eqb_spec (Z.of_nat p) (Z.of_nat (length bs))); [lia|].
  destruct (next_loop_spec bs (S (length bs)) p) as (q & E & Hq & Hrows & Hc); [lia..|].
  rewrite E. run. rewrite Hrows. destruct Hc as [->|(x & Hx & Hu & Hrest)].
  { rewrite drop_ge by lia. exists ls. split; [|by apply passed_nil]. case_match; [done|lia]. }
  destruct (Z.leb_spec (Z.of_nat (length bs)) (Z.of_nat q)) as [?|_]; [apply lookup_lt_Some in Hx; lia|].
  rewrite Hrest. cbn [fmap list_fmap fst].
  eapply visit_pass; [done..| |].
  { unfold slots. fold bs. rewrite list_lookup_fmap, Hx. cbn. by rewrite Hu. }
  intros ls1 s1 Hr1 Hi1 Hsl. apply lookup_lt_Some in Hx.
  assert (length (StateTable.buckets_ s1) = length bs) as Hl.
  { apply (f_equal length) in Hsl. unfold slots in Hsl. by rewrite !length_fmap in Hsl. }
  destruct (IH ls1 s1 (S q) Hr1 Hi1) as (ls' & E' & Hp'); [lia|].
  replace (Z.of_nat (S q) - 1) with (Z.of_nat q) in E' by lia. exists ls'. split; [done|].
  rewrite rows_slots in Hp'. rewrite Hsl in Hp'. by rewrite <- rows_slots in Hp'.
Qed.

Lemma iterations_isteps ks c c' : iterations ks c c' -> Iteration.isteps bufmsg wire_size adj c c'.
Proof. induction 1; [constructor|]. by eapply Iteration.isteps_next. Qed.

Lemma run_pass_spec c w ls (i : nat) s fuel it ks :
  running c w ls -> partitions_ (Maiter.ls_table ls) !! i = Some (State s) ->
  schedules s it ks -> (length (StateTable.buckets_ s) < fuel)%nat ->
  exists ls', Maiter.run_pass bufmsg wire_size CACHE_SIZE reader fuel ls (Z.of_nat i) it = Ok (Some ls') /\
    running c w ls' /\ iterations ks (at_worker c w ls) (at_worker c w ls') /\
    Iteration.isteps bufmsg wire_size adj (at_worker c w ls) (at_worker c w ls') /\
    shape (Maiter.ls_table ls') = shape (Maiter.ls_table ls) /\
    Maiter.updates ls' = Maiter.updates ls + Z.of_nat (length ks).
Proof.
  intros Hr Hi Hsch Hf.
  enough (exists ls', Maiter.run_pass bufmsg wire_size CACHE_SIZE reader fuel ls (Z.of_nat i) it = Ok (Some ls') /\
    passed c w ks ls ls') as (ls' & E & Hr' & Hit & Hsh & Hup).
  { exists ls'. split_and!; try done. by apply iterations_isteps in Hit. }
  destruct Hsch as [|ps ks Hps|it p Hpos]; cbn [Maiter.run_pass].
  - destruct (row_loop_spec c w i fuel ls s 0 Hr Hi) as (ls' & E & Hp); [lia|].
    change (Z.of_nat 0 - 1) with (-1) in E. rewrite E. by exists ls'.
  - destruct (position_loop_spec c w i ps ks ls s Hr Hi Hps) as (ls' & E & Hp). rewrite E. by exists ls'.
  - rewrite Hpos. destruct (row_loop_spec c w i fuel ls s p Hr Hi) as (ls' & E & Hp); [lia|]. rewrite E. by exists ls'.
Qed.

(** C9. A pass of the kernel loop refines the asynchronous iteration: with any
    fuel above the number of buckets it returns, having iterated exactly the
    rows that its iterator selects, each by one step of the cluster and in the
    iterator's order, with the adjacency lists that the store holds although
    they come from a cache; the cluster is again in a state from which every
    row can be iterated, and the cache is still coherent. *)
Theorem pass_refines c w ls (i : nat) s fuel it ks :
  running c w ls -> partitions_ (Maiter.ls_table ls) !! i = Some (State s) ->
  schedules s it ks -> (length (StateTable.buckets_ s) < fuel)%nat ->
  exists ls', Maiter.run_pass bufmsg wire_size CACHE_SIZE reader fuel ls (Z.of_nat i) it = Ok (Some ls') /\
    running c w ls' /\ iterations ks (at_worker c w ls) (at_worker c w ls') /\
    Iteration.isteps bufmsg wire_size adj (at_worker c w ls) (at_worker c w ls') /\
    shape (Maiter.ls_table ls') = shape (Maiter.ls_table ls) /\
    Maiter.updates ls' = Maiter.updates ls + Z.of_nat (length ks).
Proof. apply run_pass_spec. Qed.

(** The scheduler's positions are such a selection, whatever it draws. *)
Lemma kept_schedules s test : StateTable.wf s ->
  exists ks, schedules s (StateTable.PositionIterator
    (filter (fun i => StateTable.keep s test i = true) (seqZ 0 (StateTable.size_ s)))) ks.
Proof.
  intros Hwf. assert (forall ps, Forall (fun i => 0 <= i /\ StateTable.keep s test i = true) ps ->
    exists ks, Forall2 (fun (p : nat) k => slots s !! p = Some (k, true)) (Z.to_nat <$> ps) ks) as Hks.
  { induction 1 as [|i ps [Hi Hk] _ [ks IH]]; [by exists []|]. unfold StateTable.keep in Hk.
    destruct (StateTable.buckets_ s !! Z.to_nat i) as [x|] eqn:Hx; [|done].
    apply andb_prop in Hk as [Hu _]. exists (bk x :: ks). constructor; [|done].
    unfold slots. rewrite list_lookup_fmap, Hx. cbn. by rewrite Hu. }
  set (ps := filter _ _).
  assert (Forall (fun i => 0 <= i /\ StateTable.keep s test i = true) ps) as Hps.
  { apply Forall_forall. intros i. subst ps. rewrite list_elem_of_filter, elem_of_seqZ. intros [? [? _]]. done. }
  destruct (Hks ps Hps) as [ks Hf]. exists ks.
  assert (Z.of_nat <$> (Z.to_nat <$> ps) = ps) as <-; [|by constructor].
  rewrite <- list_fmap_compose. rewrite <- (list_fmap_id ps) at 2.
  apply Forall_fmap_ext. eapply Forall_impl; [exact Hps|]. intros i [Hi _]. by apply Z2Nat.id.
Qed.
Lemma scheduler_schedules s fuel portion rand bfilter ps no_change :
  StateTable.wf s -> StateTable.ScheduledIterator fuel s portion rand bfilter = Ok (ps, no_change) ->
  exists ks, schedules s (StateTable.PositionIterator ps) ks.
Proof.
  intros Hwf E. unfold StateTable.ScheduledIterator in E. case_match.
  - rewrite StateTable.schedule_all_spec in E by done. cbn in E.
    destruct (_ && bfilter); injection E as <- _; by apply kept_schedules.
  - apply bind_Ok in E as (sampled & _ & E). cbn zeta in E. destruct (_ && bfilter).
    { injection E as <- _. exists []. by apply (schedules_positions _ []). }
    apply bind_Ok in E as (cut & _ & E). apply bind_Ok in E as (first & _ & E).
    destruct (_ || _); rewrite StateTable.schedule_if_spec in E by done; injection E as <- _; by apply kept_schedules.
Qed.
End Pass.

(** ** The first pass of a worker that holds vertex 2 *)
Section Sample.
Import Components.
#[local] Instance sample_kernel : IterateKernel Z Z (list Z) := con_kernel parse_int parse_int (fun _ => Ok []).
#[local] Instance sample_laws : AccumulateLaws Z Z (list Z) := con_laws parse_int parse_int (fun _ => Ok []).
#[local] Existing Instance Marshal_int.
#[local] Existing Instance MarshalLaws_int.
#[local] Instance sample_sharder : Sharder Z := Sharding.Mod.
#[local] Instance sample_propagation : PropagationLaws Z Z (list Z) := con_propagation parse_int parse_int (fun _ => Ok []).

Definition first_state : Maiter.loop_state (K := Z) (V := Z) (D := list Z) :=
  Maiter.LoopState worker0 [] (Cache.mk [] ∅ ∅ ∅) (S754_zero false) 0.
Lemma two_placed : Iteration.placed 10 two_adj two_owners [1; 2] two_max two_cluster.
Proof.
  destruct (greatest_solution parse_int parse_int (fun _ => Ok []) two_owners two_adj two_cluster two_max two_greatest)
    as [Hsol Hbelow].
  apply (Iteration.initial_placed 10 two_adj two_owners (con_edge_start parse_int parse_int (fun _ => Ok []) two_adj));
    [exact two_initial|exact Hbelow|by repeat constructor|exact two_vertices].
Qed.
Lemma first_running :
  running 10 two_adj two_owners [1; 2] two_max 1 (fun k => Ok (two_adj k)) ∅ two_cluster 0 first_state.
Proof. split; [cbn; lia|exact two_placed|apply Cache.inv_empty|apply SStore.coherent_fresh]. Qed.
Lemma pass_refines_witness : exists s ls',
  partitions_ worker0 !! 0%nat = Some (State s) /\ (rows (StateTable.buckets_ s)).*1 = [2] /\
  Maiter.run_pass 10 two_size 1 (fun k => Ok (two_adj k)) 10 first_state 0 StateTable.RowIterator = Ok (Some ls') /\
  Iteration.isteps 10 two_size two_adj two_cluster (at_worker two_cluster 0 ls') /\ Maiter.updates ls' = 1.
Proof.
  destruct (partitions_ worker0 !! 0%nat) as [[d|s]|] eqn:Hs; [discriminate| |discriminate].
  assert ((rows (StateTable.buckets_ s)).*1 = [2] /\ (length (StateTable.buckets_ s) < 10)%nat) as [Hr Hl].
  { injection Hs as <-. split; [reflexivity|cbn; lia]. }
  destruct (pass_refines 10 two_size two_adj two_owners
    (con_representable parse_int parse_int (fun _ => Ok [])) (con_default parse_int parse_int (fun _ => Ok []))
    (con_sent parse_int parse_int (fun _ => Ok []) two_adj two_adj_int) [1; 2] two_max
    (proj1 (greatest_solution parse_int parse_int (fun _ => Ok []) two_owners two_adj two_cluster two_max two_greatest))
    two_closed 1 (fun k => Ok (two_adj k)) ∅ ltac:(lia) (fun _ _ => eq_refl) (fun v _ => f32_of_integer v)
    two_cluster 0 first_state 0 s 10 StateTable.RowIterator [2] first_running Hs)
    as (ls' & E & _ & _ & Hi & _ & Hu); [rewrite <- Hr; apply schedules_rows|exact Hl|].
  exists s, ls'. split_and!; [reflexivity|exact Hr|exact E|exact Hi|exact Hu].
Defined.
End Sample.
End Passes.
