(* ===== verification/RunLoop.v ===== *)
(** * The kernel loop

    [MaiterKernel2::run_loop] (kernel/kernel.h) as a worker of a cluster runs
    it: every round takes an iterator from [get_typed_iterator], which flushes
    the buffered updates, pauses, handles the put requests that have arrived
    ([Worker::HandlePutRequest], with its epoch markers, delta logs and taints)
    and may wait for more, and then iterates the rows of the iterator; it ends
    when the termination signal has come.  During a pause the other processes
    take any steps of the iteration.  The loop refines the asynchronous
    iteration of Iteration.v and returns once the signal has come. *)
From S2P Require Import Prelude Float StringPiece Decimal Probe Table SampleKernel DeltaTable StateTable GlobalTable Master Cluster Cache FlatStore Maiter Worker Loading Examples Iteration Components Passes.

Module RunLoop.
Import GlobalTable Passes.
Section RunLoop.
Context {K V D : Type} `{Countable K} `{!Hashable K}.
Context `{!ValueInit K} `{!ValueInit V} `{!ValueInit D}.
Context `{!IterateKernel K V D} `{!Sharder K} `{!Marshal K} `{!Marshal V}.
Variable bufmsg : Z.
Variable wire_size : KVPairData -> Z.
Variable CACHE_SIZE : nat.
Variable reader : K -> outcome D.
Abbreviation table := (GlobalTable.t (K := K) (V := V) (D := D)).
Abbreviation cluster := (Cluster.t (K := K) (V := V) (D := D)).
Implicit Types (c : cluster) (tb : table) (s : StateTable.t K V D).

(** What is not the worker's own doing, by round and number of the pause in
    it: the steps of the other processes, the arrival of the termination
    signal, whether the snapshot interval has passed at the flush and at the put
    requests, and the random draws. *)
Record environment := {
  others : nat -> nat -> cluster -> cluster;
  notified : nat -> nat -> bool;
  due_flush : nat -> nat -> bool;
  due_put : nat -> nat -> bool;
  draws : nat -> nat -> nat -> Z
}.
Variable env : environment.
(** The worker, its shard, [FLAGS_portion], and bounds for the sampling and for
    the rows of a pass. *)
Variables (w : nat) (shard : Z) (portion : spec_float) (sampling fuel : nat).

(** The worker in its cluster: its table is the one in the cluster, and [me] has
    its other fields (its epoch and those of its peers, the active checkpoint,
    ...) and no table. *)
Record process := Proc { pcl : cluster; me : Worker.t (K := K) (V := V) (D := D) }.
Implicit Types p : process.
Definition table_at p : outcome table := deref (Cluster.workers (pcl p) !! w).
Definition set_table p tb : outcome process :=
  Ok (Proc (Cluster.mk (<[w := tb]> (Cluster.workers (pcl p))) (Cluster.net (pcl p))) (me p)).
Definition send p (ms : list message) : process :=
  Proc (Cluster.mk (Cluster.workers (pcl p)) (Cluster.net (pcl p) ++ ms)) (me p).

(** [FlushUpdates] of the worker's table. *)
Definition FlushUpdates (due : bool) p : outcome process :=
  tb ← table_at p;
  '(tb, ms) ← SendUpdates wire_size tb;
  '(tb, ms') ← TermCheck due tb;
  p ← set_table p tb;
  Ok (send p (ms ++ ms')).

(** The registry of the worker has one table, number 0. *)
Definition with_table (m : Worker.t (K := K) (V := V) (D := D)) tb : Worker.t := Worker.set_tables m [(0, tb)].
(** What a handler hands to the network: updates and epoch markers.  (The shards
    and log entries of a checkpoint go to files, the report of a checkpoint to
    the master.) *)
Definition posted (o : Worker.output) : list message :=
  match o with
  | Worker.Sent m => [m]
  | Worker.SendMarker dst source e => [PutRequest dst (Worker.marker_put (Z.to_nat source) e)]
  | _ => []
  end.
(** [HandlePutRequest]: the loop over the put requests for this worker, with
    the body of [Worker::HandlePutRequest].  [pre] and [rest] are the messages
    under way before and after the one looked at, [new] those sent since. *)
Fixpoint put_requests (due : bool) (ws : list table) (m : Worker.t) (pre rest new : list message) : outcome process :=
  match rest with
  | [] => Ok (Proc (Cluster.mk ws (pre ++ new)) m)
  | msg :: rest =>
    match msg with
    | PutRequest dst d =>
        if dst - 1 =? Z.of_nat w then
          tb ← deref (ws !! w);
          '(m, os) ← Worker.put_one bufmsg wire_size due (with_table m tb, []) d;
          tb ← Worker.table_at m 0;
          put_requests due (<[w := tb]> ws) (Worker.set_tables m []) pre rest (new ++ mjoin (posted <$> os))
        else put_requests due ws m (pre ++ [msg]) rest new
    | _ => put_requests due ws m (pre ++ [msg]) rest new
    end
  end.
Definition HandlePutRequest (due : bool) p : outcome process :=
  put_requests due (Cluster.workers (pcl p)) (me p) [] (Cluster.net (pcl p)) [].
(** [HandleTermNotification], when the signal came. *)
Definition notice (came : bool) p : outcome process :=
  if came then
    tb ← table_at p;
    tb ← for_each terminate_shard (seqZ 0 (num_shards tb)) tb;
    set_table p tb
  else Ok p.

(** Flush, pause, apply. *)
Definition exchange (r n : nat) p : outcome process :=
  p ← FlushUpdates (due_flush env r n) p;
  let p := Proc (others env r n (pcl p)) (me p) in
  p ← notice (notified env r n) p;
  HandlePutRequest (due_put env r n) p.

Definition get_typed_iterator (r : nat) p :
    outcome (process * StateTable.TableIterator (K := K) (V := V) (D := D) * list StateTable.termcheck_msg) :=
  GlobalTable.get_iterator table_at set_table sampling (exchange r) (draws env r) portion p shard false.

(** [SendTermcheck(-1, updates, current)]. *)
Definition termchecks (ts : list StateTable.termcheck_msg) : list message :=
  (fun t => TermcheckDelta (-1) t.1 t.2) <$> ts.

(** The locals of [run_loop] with the worker and the cluster around it. *)
Record state := mk { proc : process; cache : Cache.t K D; totalF2 : spec_float; updates : Z }.
Definition cl (st : state) : cluster := pcl (proc st).
Definition start c m (influence : Cache.t K D) : state := mk (Proc c m) influence (S754_zero false) 0.

(** [rounds] iterations of [while (true)], from round [r] on; the flag says
    whether the loop was left by its [break]. *)
Fixpoint run_loop (rounds r : nat) (st : state) : outcome (state * bool) :=
  match rounds with
  | O => Ok (st, false)
  | S rounds =>
    '(p, it, ts) ← get_typed_iterator r (proc st);
    let p := send p (termchecks ts) in
    tb ← table_at p;
    res ← Maiter.run_pass bufmsg wire_size CACHE_SIZE reader fuel
            (Maiter.LoopState tb [] (cache st) (totalF2 st) (updates st)) shard it;
    match res with
    | None => Ok (mk p (cache st) (totalF2 st) (updates st), true)
    | Some ls => run_loop rounds (S r)
                   (mk (Proc (at_worker (pcl p) w ls) (me p)) (Maiter.ls_cache ls) (Maiter.totalF2 ls) (Maiter.updates ls))
    end
  end.
End RunLoop.

(** ** What an exchange leaves in place *)
Section Shapes.
Context {K V D : Type} `{Countable K} `{!Hashable K}.
Context `{!ValueInit K} `{!ValueInit V} `{!ValueInit D}.
Context `{!IterateKernel K V D} `{!Sharder K} `{!Marshal K} `{!Marshal V}.
Variable bufmsg : Z.
Variable wire_size : KVPairData -> Z.
Implicit Types (tb : GlobalTable.t (K := K) (V := V) (D := D)) (s : StateTable.t K V D).

Lemma termcheck_shape tb r : termcheck tb = Ok r -> shape r.1 = shape tb.
Proof.
  unfold termcheck. intros ([[tb' cur] upd] & E & [= <-])%bind_Ok. cbn [fst].
  change (shape (set_snapshot tb' _)) with (shape tb').
  revert E. generalize (seqZ 0 (Z.of_nat (length (partitions_ tb)))) as l. generalize (S754_zero false), 0.
  intros c u l. revert tb c u. induction l as [|z l IH]; intros tb c u E; [by injection E as -> _ _|].
  cbn [for_each] in E. apply bind_Ok in E as ([[tb1 c1] u1] & E1 & E). rewrite (IH _ _ _ E). clear E IH.
  apply bind_Ok in E1 as (loc & _ & E1). destruct loc; [|by injection E1 as <- _ _].
  apply bind_Ok in E1 as (p & Hp & E1). apply bind_Ok in E1 as ([[p' pu] pf] & Es & E1).
  apply bind_Ok in E1 as (tb2 & E2 & [= <- _ _]). eapply set_partition_shape; [done..|].
  destruct p as [d|s]; [done|]. apply bind_Ok in Es as ([[s' u'] f'] & Es & [= <- _ _]).
  by apply bind_Ok in Es as (curr & _ & [= <- _ _]).
Qed.
Lemma ApplyUpdates_shape due tb d r : ApplyUpdates bufmsg wire_size due tb d = Ok r -> shape r.1 = shape tb.
Proof.
  intros (loc & _ & E)%bind_Ok. apply bind_Ok in E as (p & _ & E). apply bind_Ok in E as (it & _ & E).
  apply bind_Ok in E as ([tb1 ms1] & E1 & E). apply bind_Ok in E as ([tb2 ms2] & E2 & [= <-]).
  apply (for_each_shape (apply_one bufmsg wire_size)) in E1.
  - cbn [fst] in *. rewrite <- E1. destruct due; [by apply termcheck_shape in E2|by injection E2 as <- _].
  - clear. intros tb ms [k v] r E. apply bind_Ok in E as ([tb' ms'] & E & [= <-]). by apply accumulateF1_shape in E.
Qed.

(** A message that can be applied without a snapshot can be applied with one. *)
Lemma ApplyUpdates_due `{!AccumulateLaws K V D} `{!MarshalLaws K} `{!MarshalLaws V} owners w due tb d tb1 ms1 :
  ApplyUpdates bufmsg wire_size false tb d = Ok (tb1, ms1) -> GlobalTable.wf owners w tb1 ->
  exists r, ApplyUpdates bufmsg wire_size due tb d = Ok r.
Proof.
  intros (loc & Hl & E)%bind_Ok Hwf. apply bind_Ok in E as (p & Hp & E). apply bind_Ok in E as (it & Hit & E).
  apply bind_Ok in E as ([tb2 ms2] & Ea & E). apply bind_Ok in E as ([tb3 ms3] & [= <- <-] & [= <- <-]).
  unfold ApplyUpdates. rewrite Hl. run. rewrite Hp. run. rewrite Hit. run. rewrite Ea. run.
  destruct (TermCheck_returns due tb2 Hwf) as ([tb' ms'] & ->). run. by eexists.
Qed.
(** ** No operation touches the description of the shards, and every put
    request that a table makes is a batch of updates for its number, no marker *)
Definition info tb : Z * list PartitionInfo := (table_id tb, partinfo_ tb).
Definition batch (n : Z) (m : message) : Prop :=
  match m with PutRequest _ d => marker d = -1 /\ Table.table d = to_uint32 n | _ => True end.
Definition steady tb (r : GlobalTable.t * list message) : Prop :=
  info r.1 = info tb /\ Forall (batch (table_id tb)) r.2.

Lemma set_partition_info tb i p tb' : set_partition tb i p = Ok tb' -> info tb' = info tb.
Proof. by intros (ps & _ & [= <-])%bind_Ok. Qed.
Lemma set_row_info tb i p a b tb' : Maiter.set_row tb i p a b = Ok tb' -> info tb' = info tb.
Proof.
  intros (s & _ & E)%bind_Ok. apply bind_Ok in E as (x & _ & E). apply bind_Ok in E as (s' & _ & E).
  by eapply set_partition_info.
Qed.
Lemma accumulateF2_info tb k v tb' : GlobalTable.accumulateF2 tb k v = Ok tb' -> info tb' = info tb.
Proof.
  intros (loc & _ & E)%bind_Ok. destruct loc; [|by injection E as <-].
  apply bind_Ok in E as (s & _ & E). apply bind_Ok in E as (s' & _ & E). by eapply set_partition_info.
Qed.
Lemma updateF1_info tb k v tb' : GlobalTable.updateF1 tb k v = Ok tb' -> info tb' = info tb.
Proof.
  intros (loc & _ & E)%bind_Ok.
  destruct loc; apply bind_Ok in E as (s & _ & E); apply bind_Ok in E as (s' & _ & E); by eapply set_partition_info.
Qed.
Lemma terminate_info tb i tb' : terminate_shard tb i = Ok tb' -> info tb' = info tb.
Proof.
  intros (loc & _ & E)%bind_Ok. destruct loc; [|by injection E as <-].
  apply bind_Ok in E as ([d|s] & _ & E); [by injection E as <-|by eapply set_partition_info].
Qed.

(** A loop of steady steps that collects the messages. *)
Lemma for_each_steady {A} (f : GlobalTable.t * list message -> A -> outcome (GlobalTable.t * list message)) l :
  (forall tb ms a r, f (tb, ms) a = Ok r -> exists ms', r.2 = ms ++ ms' /\ steady tb (r.1, ms')) ->
  forall tb ms r, for_each f l (tb, ms) = Ok r -> exists ms', r.2 = ms ++ ms' /\ steady tb (r.1, ms').
Proof.
  intros Hf. induction l as [|a l IH]; intros tb ms r E.
  { injection E as <-. exists []. split; [by rewrite app_nil_r|]. split; [done|constructor]. }
  cbn [for_each] in E. apply bind_Ok in E as ([tb1 ms1] & E1 & E).
  destruct (Hf _ _ _ _ E1) as (m1 & Em1 & Hi1 & Hm1). destruct (IH _ _ _ E) as (m2 & Em & Hi2 & Hm2). cbn [fst snd] in *. subst ms1.
  exists (m1 ++ m2). rewrite Em, app_assoc. split; [done|]. split; cbn [fst snd]; [congruence|].
  apply Forall_app. split; [done|]. injection Hi1 as Ht _. by rewrite <- Ht.
Qed.
Lemma send_loop_steady n : forall tb i r, send_loop wire_size n tb i = Ok r -> steady tb r.
Proof.
  induction n as [|n IH]; intros tb i r E; [done|]. cbn [send_loop] in E.
  apply bind_Ok in E as (p & _ & E). apply bind_Ok in E as (h & _ & E). apply bind_Ok in E as (c & _ & E).
  apply bind_Ok in E as (p' & _ & E). apply bind_Ok in E as (o & _ & E). apply bind_Ok in E as (tb1 & E1 & E).
  apply set_partition_info in E1. change (info (set_sent tb _)) with (info tb) in E1.
  destruct (negb _); [apply bind_Ok in E as ([tb2 ms2] & E2 & [= <-])|injection E as <-].
  - destruct (IH _ _ _ E2) as [Hi Hm]. cbn [fst snd] in *. split; cbn [fst snd]; [congruence|].
    constructor; [done|]. injection E1 as Ht _. by rewrite <- Ht.
  - split; [done|]. by repeat constructor.
Qed.
Lemma SendUpdates_steady tb r : SendUpdates wire_size tb = Ok r -> steady tb r.
Proof.
  intros ([tb' ms'] & E & [= <-])%bind_Ok. apply for_each_steady in E as (ms & Em & Hi & Hm).
  { cbn [fst snd app] in *. subst ms'. by split. }
  clear. intros tb ms i r E. apply bind_Ok in E as (loc & _ & E). apply bind_Ok in E as (inf & _ & E).
  apply bind_Ok in E as (p & _ & E). destruct (_ && _).
  - apply bind_Ok in E as ([tb1 ms1] & [Hi Hm]%send_loop_steady & E). apply bind_Ok in E as (p1 & _ & E).
    apply bind_Ok in E as (p2 & _ & E). apply bind_Ok in E as (tb2 & E2%set_partition_info & [= <-]).
    exists ms1. split; [done|]. split; [cbn [fst snd] in *; congruence|done].
  - injection E as <-. exists []. split; [by rewrite app_nil_r|]. split; [done|constructor].
Qed.
Lemma accumulateF1_steady tb k v r : GlobalTable.accumulateF1 bufmsg wire_size tb k v = Ok r -> steady tb r.
Proof.
  intros (loc & _ & E)%bind_Ok. destruct loc; apply bind_Ok in E as (s & _ & E); apply bind_Ok in E as (s' & _ & E);
    apply bind_Ok in E as (tb' & E'%set_partition_info & E).
  - injection E as <-. split; [done|constructor].
  - cbn zeta in E. destruct (_ <? _); [|injection E as <-; split; [done|constructor]].
    apply SendUpdates_steady in E as [Hi Hm]. unfold info in *. cbn in *. split; [unfold info; congruence|].
    by injection E' as <- _.
Qed.
Lemma apply_one_steady tb ms a r : apply_one bufmsg wire_size (tb, ms) a = Ok r -> exists ms', r.2 = ms ++ ms' /\ steady tb (r.1, ms').
Proof. intros ([tb' ms'] & E%accumulateF1_steady & [= <-])%bind_Ok. by exists ms'. Qed.
Lemma run_iter_steady tb i p data r : Maiter.run_iter bufmsg wire_size tb i p data = Ok r -> steady tb r.
Proof.
  intros (x & _ & E)%bind_Ok. cbn zeta in E. destruct (process_delta_v _ _ _ _) as [[d1 d2] data'].
  apply bind_Ok in E as (tb1 & E1%set_row_info & E). apply bind_Ok in E as (tb2 & E2%accumulateF2_info & E).
  apply bind_Ok in E as (x2 & _ & E). apply bind_Ok in E as (tb3 & E3%updateF1_info & E).
  apply (for_each_steady _ _ apply_one_steady) in E as (ms & Em & Hi & Hm). cbn [fst snd app] in *. rewrite <- Em in Hm.
  assert (info tb3 = info tb) as E0 by congruence. split; [congruence|]. by injection E0 as <- _.
Qed.
Lemma termcheck_steady tb r : termcheck tb = Ok r -> steady tb r.
Proof.
  intros ([[tb' cur] upd] & E & [= <-])%bind_Ok. split; cbn [fst snd]; [|by destruct (helper tb'); repeat constructor].
  change (info (set_snapshot tb' _)) with (info tb').
  revert E. generalize (seqZ 0 (Z.of_nat (length (partitions_ tb)))) as l. generalize (S754_zero false), 0.
  intros c u l. revert tb c u. induction l as [|z l IH]; intros tb c u E; [by injection E as -> _ _|].
  cbn [for_each] in E. apply bind_Ok in E as ([[tb1 c1] u1] & E1 & E). rewrite (IH _ _ _ E). clear E IH.
  apply bind_Ok in E1 as (loc & _ & E1). destruct loc; [|by injection E1 as <- _ _].
  apply bind_Ok in E1 as (p & _ & E1). apply bind_Ok in E1 as ([[p' pu] pf] & _ & E1).
  apply bind_Ok in E1 as (tb2 & E2 & [= <- _ _]). by eapply set_partition_info.
Qed.
Lemma ApplyUpdates_steady due tb d r : ApplyUpdates bufmsg wire_size due tb d = Ok r -> steady tb r.
Proof.
  intros (loc & _ & E)%bind_Ok. apply bind_Ok in E as (p & _ & E). apply bind_Ok in E as (it & _ & E).
  apply bind_Ok in E as ([tb1 ms1] & E1 & E). apply bind_Ok in E as ([tb2 ms2] & E2 & [= <-]).
  apply (for_each_steady _ _ apply_one_steady) in E1 as (ms & Em & Hi & Hm). cbn [fst snd app] in *. subst ms1.
  assert (steady tb1 (tb2, ms2)) as [Hi2 Hm2].
  { destruct due; [by apply termcheck_steady|]. injection E2 as <- <-. split; [done|constructor]. }
  cbn [fst snd] in *. split; cbn [fst snd]; [congruence|]. apply Forall_app. split; [done|].
  by injection Hi as <- _.
Qed.

(** Every worker's table has number 0 and no tainted shard, and what is under
    way are updates of it: no checkpoint has begun and no shard has moved. *)
Record calm (c : Cluster.t (K := K) (V := V) (D := D)) : Prop := {
  calm_net : Forall (batch 0) (Cluster.net c);
  calm_tables : Forall (fun tb => table_id tb = 0 /\ Forall (fun i => tainted i = false) (partinfo_ tb)) (Cluster.workers c)
}.
Lemma calm_update ws ms w tb r ms' :
  calm (Cluster.mk ws ms) -> ws !! w = Some tb -> steady tb r -> (forall m, m ∈ ms' -> m ∈ ms \/ m ∈ r.2) ->
  calm (Cluster.mk (<[w := r.1]> ws) ms').
Proof.
  intros [Hn Ht] Hw [Hi Hm] Hms. cbn in *. pose proof (Forall_lookup_1 _ _ _ _ Ht Hw) as [Hid Htaint]. split; cbn.
  - rewrite Hid in Hm. rewrite Forall_forall in *. intros m [?|?]%Hms; auto.
  - apply Forall_insert; [done|]. injection Hi as -> ->. done.
Qed.
Lemma step_calm c e c' : calm c -> Cluster.step bufmsg wire_size c e c' -> calm c'.
Proof.
  intros Hc Hs. destruct Hs as [ws ms w tb k v tb' ms' Hx E|ws ms w tb tb' ms' Hx E
    |ws pre post dst d due tb tb' ms' Hx E|ws pre post m Hm|ws ms w tb i tb' Hx E|ws ms w tb tb' ms' Hx E].
  - eapply (calm_update ws ms w tb (tb', ms')); [done|done|by eapply accumulateF1_steady|set_solver].
  - eapply (calm_update ws ms w tb (tb', ms')); [done|done|by eapply SendUpdates_steady|set_solver].
  - eapply (calm_update ws _ _ tb (tb', ms')); [done|done|by eapply ApplyUpdates_steady|set_solver].
  - destruct Hc as [Hn Ht]. split; [|done]. cbn in *. rewrite Forall_app, Forall_cons in Hn. rewrite Forall_app. tauto.
  - eapply (calm_update ws ms w tb (tb', [])); [done|done| |set_solver]. split; [by eapply terminate_info|constructor].
  - eapply (calm_update ws ms w tb (tb', ms')); [done|done|by eapply termcheck_steady|set_solver].
Qed.
Lemma isteps_calm adj c c' : calm c -> Iteration.isteps bufmsg wire_size adj c c' -> calm c'.
Proof.
  intros Hc Hs. induction Hs as [|c1 c2 c3 Hs _ IH]; [done|]. apply IH. destruct Hs as [c c' Hs|ws ms w tb i p s x tb' ms' Hw _ _ _ E].
  - by eapply step_calm.
  - eapply (calm_update ws ms w tb (tb', ms')); [done|done|by eapply run_iter_steady|set_solver].
Qed.

(** A marker of a newer epoch reaches a worker that holds rows: the handler
    starts a checkpoint, which is undefined on a state table. *)
Lemma marker_undefined w due ws m pre rest new d tb j s :
  ws !! w = Some tb -> Worker.sized tb -> partitions_ tb !! j = Some (State s) -> Worker.local_shard tb (Z.of_nat j) = true ->
  marker d <> -1 -> Worker.epoch_ m < marker d ->
  put_requests bufmsg wire_size w due ws m pre (PutRequest (Z.of_nat w + 1) d :: rest) new = Undefined.
Proof.
  intros Hw Hsz Hj Hloc Hm He. cbn [put_requests]. replace (Z.of_nat w + 1 - 1) with (Z.of_nat w) by lia.
  rewrite Z.eqb_refl, Hw. run. unfold Worker.put_one. destruct (Z.eqb_spec (marker d) (-1)); [done|]. cbn [negb].
  unfold Worker.UpdateEpoch. change (Worker.epoch_ (with_table m tb)) with (Worker.epoch_ m). rewrite (proj2 (Z.ltb_lt _ _) He).
  rewrite Worker.StartCheckpoint_state; [done|done|by repeat constructor| |by exists 0%nat, 0, tb, j, s].
  intros x Hx. apply elem_of_list_to_set, list_elem_of_fmap. by exists x.
Qed.
End Shapes.

Section Run.
Context {K V D : Type} `{Countable K} `{!Hashable K}.
Context `{!ValueInit K} `{!ValueInit V} `{!ValueInit D}.
Context `{!IterateKernel K V D} `{!Sharder K} `{!Marshal K} `{!Marshal V}.
Context `{!AccumulateLaws K V D} `{!MarshalLaws K} `{!MarshalLaws V} `{!PropagationLaws K V D}.
Variable bufmsg : Z.
Variable wire_size : KVPairData -> Z.
Variable adj : K -> D.
Context (owners : list Z).
Hypothesis representable_accumulate : forall a b : V,
  representable a -> representable b -> representable (accumulate (K := K) (D := D) a b).
Hypothesis representable_default : representable (default_v (K := K) (V := V) (D := D)).
Hypothesis representable_sent : forall k d v j x,
  representable d -> representable v -> (j, x) ∈ g_func (V := V) k d v (adj k) [] -> representable j /\ representable x.
Variables (vertices : list K) (X : K -> V).
Hypothesis solution_X : Iteration.solution adj X.
Hypothesis closed : forall k d v j x,
  k ∈ vertices -> (j, x) ∈ g_func k d v (adj k) [] -> j ∈ vertices.
Variable CACHE_SIZE : nat.
Variable reader : K -> outcome D.
Variable influ : gmap K D.
Hypothesis cache_room : (0 < CACHE_SIZE)%nat.
Hypothesis reader_adj : forall k, k ∈ vertices -> SStore.stored reader influ k = Ok (adj k).
Hypothesis values_num : forall v : V, representable v -> not_nan (f32_of_f64 (v_double (K := K) (D := D) v)).

Abbreviation table := (GlobalTable.t (K := K) (V := V) (D := D)).
Abbreviation cluster := (Cluster.t (K := K) (V := V) (D := D)).
Abbreviation placed := (Iteration.placed bufmsg adj owners vertices X).
Abbreviation isteps := (Iteration.isteps bufmsg wire_size adj).
Implicit Types (c : cluster) (tb : table) (s : StateTable.t K V D).

(** The iteration is under way, and no checkpoint and no move of a shard. *)
Record ready c : Prop := { ready_placed : placed c; ready_calm : calm c }.

Variable env : environment (K := K) (V := V) (D := D).
Variables (w i : nat) (portion : spec_float) (sampling fuel : nat).

(** The worker's other fields: no checkpoint is active. *)
Variable wk : Worker.t (K := K) (V := V) (D := D).
Hypothesis wk_idle : Worker.active_checkpoint_ wk = Master.CP_NONE.
Hypothesis wk_bare : Worker.tables wk = [].

(** The worker has the shard, whose buckets are laid out as [sl], and has got
    the termination signal or not. *)
Definition at_shard c (sl : list (K * bool)) (stopped : bool) : Prop :=
  exists tb s, Cluster.workers c !! w = Some tb /\ partitions_ tb !! i = Some (State s) /\
    slots s = sl /\ StateTable.terminated_ s = stopped.

(** The other processes take steps of the iteration and leave this worker's
    table to it. *)
Hypothesis others_steps : forall r n c, ready c -> isteps c (others env r n c).
Hypothesis others_keep : forall r n c, Cluster.workers (others env r n c) !! w = Cluster.workers c !! w.

(** ** Exchanges *)
Lemma placed_step c c' : ready c -> Cluster.step bufmsg wire_size c None c' -> isteps c c' /\ ready c'.
Proof.
  intros [Hp Hc] Hs. split; [|split; [by eapply Iteration.exchange_placed|by eapply step_calm]].
  eapply Iteration.isteps_next; [by apply Iteration.istep_exchange|apply Iteration.isteps_refl].
Qed.
Lemma placed_isteps c c' : ready c -> isteps c c' -> ready c'.
Proof. intros [Hp Hc] Hs. split; [by eapply Iteration.isteps_placed|by eapply isteps_calm]. Qed.
Lemma placed_table c tb : ready c -> Cluster.workers c !! w = Some tb ->
  GlobalTable.wf owners (Z.of_nat w) tb /\ buffered_ok bufmsg tb.
Proof. intros [Hp _] Hw. by apply (Cluster.wf_workers _ _ _ (Iteration.placed_wf _ _ _ _ _ _ Hp)). Qed.

(** A table of the same shape in its place. *)
Lemma at_shard_shape ws ms ms' tb tb' sl stopped :
  ws !! w = Some tb -> shape tb' = shape tb -> at_shard (Cluster.mk ws ms) sl stopped ->
  at_shard (Cluster.mk (<[w := tb']> ws) ms') sl stopped.
Proof.
  intros Hw Hsh (tb0 & s & Hw0 & Hs & Hsl & Ht). cbn in Hw0. rewrite Hw in Hw0. injection Hw0 as <-.
  destruct (shape_state _ _ _ _ Hsh Hs) as (s' & Hs' & Hsl' & _ & Ht'). exists tb', s'.
  split_and!; [|done|congruence|congruence]. cbn. apply list_lookup_insert_eq. by eapply lookup_lt_Some.
Qed.

Lemma FlushUpdates_spec due c sl stopped : ready c -> at_shard c sl stopped ->
  exists c', FlushUpdates wire_size w due (Proc c wk) = Ok (Proc c' wk) /\ isteps c c' /\ ready c' /\ at_shard c' sl stopped.
Proof.
  intros Hp Ha. pose proof Ha as (tb & s & Hw & _). destruct (placed_table c tb Hp Hw) as [Hwf Hb].
  destruct (SendUpdates_spec wire_size tb Hwf) as (tb1 & ms & E & Hwf1 & _); [apply Hb|].
  unfold FlushUpdates, table_at. cbn [pcl]. rewrite Hw. run. rewrite E. run. destruct c as [ws net].
  cbn [Cluster.workers Cluster.net] in *.
  destruct (placed_step (Cluster.mk ws net) (Cluster.mk (<[w := tb1]> ws) (net ++ ms)) Hp) as [Hs Hp1].
  { by eapply Cluster.step_flush. }
  pose proof (at_shard_shape ws net (net ++ ms) tb tb1 sl stopped Hw) as Ha1.
  specialize (Ha1 ltac:(by apply SendUpdates_shape in E) Ha).
  destruct (TermCheck_returns due tb1 Hwf1) as ([tb2 ms'] & E2). rewrite E2. run. eexists. split; [done|].
  cbn [send pcl me Cluster.workers Cluster.net]. destruct due; cbn [TermCheck] in E2.
  2:{ injection E2 as <- <-. by rewrite app_nil_r. }
  pose proof (lookup_lt_Some _ _ _ Hw) as Hlt.
  assert (<[w := tb1]> ws !! w = Some tb1) as Hw1 by (by apply list_lookup_insert_eq).
  destruct (placed_step _ _ Hp1 (Cluster.step_termcheck bufmsg wire_size _ _ w tb1 tb2 ms' Hw1 E2)) as [Hs2 Hp2].
  pose proof (at_shard_shape _ _ ((net ++ ms) ++ ms') tb1 tb2 sl stopped Hw1 ltac:(by apply termcheck_shape in E2) Ha1) as Ha2.
  rewrite list_insert_insert_eq, <- app_assoc in Hs2, Hp2, Ha2. split_and!; [by eapply Iteration.isteps_trans|done..].
Qed.

(** Applying a put request for this worker: a batch of updates. *)
Lemma apply_spec ws pre post d due sl stopped : let c := Cluster.mk ws (pre ++ PutRequest (Z.of_nat w + 1) d :: post) in
  ready c -> at_shard c sl stopped ->
  exists tb tb' ms, ws !! w = Some tb /\ ApplyUpdates bufmsg wire_size due tb d = Ok (tb', ms) /\
    let c' := Cluster.mk (<[w := tb']> ws) (pre ++ post ++ ms) in isteps c c' /\ ready c' /\ at_shard c' sl stopped.
Proof.
  intros c Hp Ha. pose proof (Iteration.placed_wf _ _ _ _ _ _ (ready_placed _ Hp)) as Hwf.
  destruct (Cluster.put_applies bufmsg wire_size owners ws pre post (Z.of_nat w + 1) d Hwf
    (Iteration.placed_known _ _ _ _ _ _ (ready_placed _ Hp))) as (tb & tb1 & Hw & E & _).
  replace (Z.to_nat (Z.of_nat w + 1 - 1)) with w in Hw by lia.
  assert (GlobalTable.wf owners (Z.of_nat w) tb1) as Hwf1.
  { pose proof (Cluster.step_deliver bufmsg wire_size ws pre post (Z.of_nat w + 1) d false tb tb1 []) as Hs.
    replace (Z.to_nat (Z.of_nat w + 1 - 1)) with w in Hs by lia.
    destruct (placed_step _ _ Hp (Hs Hw E)) as [_ Hp1]. eapply placed_table; [exact Hp1|]. cbn.
    apply list_lookup_insert_eq. by eapply lookup_lt_Some. }
  destruct (ApplyUpdates_due bufmsg wire_size owners (Z.of_nat w) due tb d tb1 [] E Hwf1) as ([tb' ms] & E').
  exists tb, tb', ms. split; [done|]. split; [done|].
  pose proof (Cluster.step_deliver bufmsg wire_size ws pre post (Z.of_nat w + 1) d due tb tb' ms) as Hs.
  replace (Z.to_nat (Z.of_nat w + 1 - 1)) with w in Hs by lia.
  destruct (placed_step _ _ Hp (Hs Hw E')) as [Hs' Hp']. split_and!; [done..|].
  eapply at_shard_shape; [done| |done]. by apply ApplyUpdates_shape in E'.
Qed.
Lemma with_table_at (m0 : Worker.t) tb : Worker.table_at (with_table m0 tb) 0 = Ok tb.
Proof. done. Qed.
Lemma with_table_set (m0 : Worker.t) tb tb' : Worker.set_table (with_table m0 tb) 0 tb' = Ok (with_table m0 tb').
Proof. done. Qed.
(** With no checkpoint active and no tainted shard, the handler does no more
    with such a batch than to apply it. *)
Lemma put_one_batch due tb d tb' ms j :
  batch 0 (PutRequest (Z.of_nat w + 1) d) -> shard d = Z.of_nat j -> (j < length (partinfo_ tb'))%nat ->
  Forall (fun i => tainted i = false) (partinfo_ tb') -> ApplyUpdates bufmsg wire_size due tb d = Ok (tb', ms) ->
  Worker.put_one bufmsg wire_size due (with_table wk tb, []) d = Ok (with_table wk tb', Worker.Sent <$> ms).
Proof.
  intros [Hm Ht] Hj Hlt Hnt E. unfold Worker.put_one. rewrite Hm, Ht. cbn [Z.eqb negb].
  change (to_int32 (to_uint32 0)) with 0. rewrite with_table_at. run. rewrite E. run. rewrite with_table_set. run.
  change (Worker.active_checkpoint_ (with_table wk tb')) with (Worker.active_checkpoint_ wk). rewrite wk_idle. cbn [andb]. run. unfold get_partition_info. destruct (lookup_lt_is_Some_2 _ _ Hlt) as [inf Hi].
  rewrite Hj, (vec_at_Some _ _ _ Hi). run. rewrite (Forall_lookup_1 _ _ _ _ Hnt Hi), andb_false_r. run.
  by rewrite app_nil_r.
Qed.
Lemma posted_outputs_sent ms : mjoin (posted <$> (Worker.Sent <$> ms)) = ms.
Proof. induction ms as [|x ms IH]; [done|]. cbn. by f_equal. Qed.
Lemma put_requests_spec due sl stopped rest : forall ws pre new,
  let c := Cluster.mk ws (pre ++ rest ++ new) in ready c -> at_shard c sl stopped ->
  exists c', put_requests bufmsg wire_size w due ws wk pre rest new = Ok (Proc c' wk) /\
    isteps c c' /\ ready c' /\ at_shard c' sl stopped.
Proof.
  induction rest as [|x rest IH]; intros ws pre new c Hp Ha.
  { exists c. split_and!; [done|apply Iteration.isteps_refl|done..]. }
  assert (c = Cluster.mk ws ((pre ++ [x]) ++ rest ++ new)) as Ec by (subst c; by rewrite <- app_assoc).
  assert (exists c', put_requests bufmsg wire_size w due ws wk (pre ++ [x]) rest new = Ok (Proc c' wk) /\
    isteps c c' /\ ready c' /\ at_shard c' sl stopped) as Hskip.
  { rewrite Ec in Hp, Ha |- *. by apply IH. }
  cbn [put_requests]. destruct x as [dst d|x y z|x y|x]; [|exact Hskip..].
  destruct (Z.eqb_spec (dst - 1) (Z.of_nat w)) as [Hd|_]; [|exact Hskip]. clear Hskip Ec.
  assert (dst = Z.of_nat w + 1) as -> by lia. cbn [app] in c.
  destruct (apply_spec ws pre (rest ++ new) d due sl stopped Hp Ha) as (tb & tb' & ms & Hw & E & Hs & Hp' & Ha').
  assert (batch 0 (PutRequest (Z.of_nat w + 1) d)) as Hb.
  { pose proof (calm_net _ (ready_calm _ Hp)) as Hn. subst c. cbn [Cluster.net] in Hn. by apply Forall_app in Hn as [_ [Hn _]%Forall_cons]. }
  pose proof (Iteration.placed_wf _ _ _ _ _ _ (ready_placed _ Hp)) as Hwf.
  assert (exists j, shard d = Z.of_nat j /\ (j < length owners)%nat) as (j & Hj & Hlt).
  { pose proof (Cluster.wf_net _ _ _ Hwf) as Hn. subst c. cbn [Cluster.net] in Hn.
    apply Forall_app in Hn as [_ [(j & l & Hj & Ho & _) _]%Forall_cons]. exists j. split; [done|]. by eapply lookup_lt_Some. }
  assert (<[w := tb']> ws !! w = Some tb') as Hw' by (apply list_lookup_insert_eq; by eapply lookup_lt_Some).
  pose proof (Forall_lookup_1 _ _ _ _ (calm_tables _ (ready_calm _ Hp')) Hw') as [_ Hnt].
  destruct (placed_table _ tb' Hp' Hw') as [Hwf' _].
  rewrite Hw. run. rewrite (put_one_batch due tb d tb' ms j Hb Hj); [|rewrite <- (wf_owners _ _ _ Hwf'), length_fmap in Hlt; done|done|done].
  run. rewrite with_table_at. run. rewrite posted_outputs_sent.
  assert (Worker.set_tables (with_table wk tb') [] = wk) as -> by (destruct wk; cbn in *; by subst).
  rewrite <- (app_assoc rest) in Hs, Hp', Ha'.
  destruct (IH (<[w := tb']> ws) pre (new ++ ms) Hp' Ha') as (c' & E' & Hs' & Hp'' & Ha'').
  exists c'. split_and!; [done| |done..]. by eapply Iteration.isteps_trans.
Qed.
Lemma HandlePutRequest_spec due c sl stopped : ready c -> at_shard c sl stopped ->
  exists c', HandlePutRequest bufmsg wire_size w due (Proc c wk) = Ok (Proc c' wk) /\
    isteps c c' /\ ready c' /\ at_shard c' sl stopped.
Proof.
  intros Hp Ha. destruct c as [ws net]. unfold HandlePutRequest. cbn [pcl me Cluster.workers Cluster.net].
  pose proof (put_requests_spec due sl stopped net ws [] []) as Hs. cbn [app] in Hs. rewrite app_nil_r in Hs. by apply Hs.
Qed.

(** The termination signal sets the flag of every shard the worker owns. *)
Lemma terminate_step tb z : GlobalTable.wf owners (Z.of_nat w) tb -> 0 <= z < Z.of_nat (length owners) ->
  exists tb', terminate_shard tb z = Ok tb' /\
    forall j s, partitions_ tb !! j = Some (State s) -> exists s', partitions_ tb' !! j = Some (State s') /\
      slots s' = slots s /\ StateTable.terminated_ s' = StateTable.terminated_ s || (z =? Z.of_nat j).
Proof.
  intros Hwf Hz. destruct (Z_of_nat_complete z) as [j ->]; [lia|].
  destruct (lookup_lt_is_Some_2 owners j) as [o Ho]; [lia|].
  destruct (wf_lookup tb j o Hwf Ho) as (p & Hp & Ep & Hok).
  unfold terminate_shard. rewrite (wf_local tb j o Hwf Ho). run.
  assert (forall j' s, partitions_ tb !! j' = Some (State s) -> j' = j -> o = Z.of_nat w) as Hown.
  { intros j' s Hs ->. pose proof (wf_part _ _ _ Hwf _ _ Hs) as [Ho' _]. rewrite Ho in Ho'. by injection Ho'. }
  destruct (Z.eqb_spec o (Z.of_nat w)) as [->|Hne].
  - rewrite Ep. run. destruct p as [d|s]; [by destruct Hok|]. unfold set_partition.
    rewrite vec_set_lt by (by eapply lookup_lt_Some). run. eexists. split; [done|]. intros j' s' Hs'. cbn.
    destruct (decide (j = j')) as [<-|Hne'].
    + rewrite list_lookup_insert_eq by (by eapply lookup_lt_Some). eexists. split; [done|].
      rewrite Hp in Hs'. injection Hs' as <-. split; [done|]. cbn. by rewrite Z.eqb_refl, orb_true_r.
    + rewrite list_lookup_insert_ne by done. exists s'. split_and!; [done..|].
      destruct (Z.eqb_spec (Z.of_nat j) (Z.of_nat j')); [lia|]. by rewrite orb_false_r.
  - exists tb. split; [done|]. intros j' s Hs. exists s. split_and!; [done..|].
    destruct (Z.eqb_spec (Z.of_nat j) (Z.of_nat j')); [|by rewrite orb_false_r].
    exfalso. apply Hne. eapply Hown; [exact Hs|lia].
Qed.
Lemma terminate_loop zs : forall ws ms tb sl stopped,
  Forall (fun z => 0 <= z < Z.of_nat (length owners)) zs -> ws !! w = Some tb ->
  ready (Cluster.mk ws ms) -> at_shard (Cluster.mk ws ms) sl stopped ->
  exists tb', for_each terminate_shard zs tb = Ok tb' /\
    let c' := Cluster.mk (<[w := tb']> ws) ms in
    isteps (Cluster.mk ws ms) c' /\ ready c' /\ at_shard c' sl (stopped || bool_decide (Z.of_nat i ∈ zs)).
Proof.
  induction zs as [|z zs IH]; intros ws ms tb sl stopped Hzs Hw Hp Ha.
  { exists tb. cbn zeta. rewrite list_insert_id by done. split_and!; [done|apply Iteration.isteps_refl|done|].
    by rewrite orb_false_r. }
  apply Forall_cons in Hzs as [Hz Hzs]. destruct (placed_table _ tb Hp Hw) as [Hwf _].
  destruct (terminate_step tb z Hwf Hz) as (tb1 & E & Hst).
  destruct (placed_step _ _ Hp (Cluster.step_terminate bufmsg wire_size ws ms w tb z tb1 Hw E)) as [Hs1 Hp1].
  pose proof (lookup_lt_Some _ _ _ Hw) as Hlen.
  assert (<[w := tb1]> ws !! w = Some tb1) as Hw1 by (by apply list_lookup_insert_eq).
  assert (at_shard (Cluster.mk (<[w := tb1]> ws) ms) sl (stopped || (z =? Z.of_nat i))) as Ha1.
  { destruct Ha as (tb0 & s & Hw0 & Hs & <- & <-). cbn in Hw0. rewrite Hw in Hw0. injection Hw0 as <-.
    destruct (Hst i s Hs) as (s' & Hs' & Hsl & Ht). exists tb1, s'. split_and!; done. }
  destruct (IH (<[w := tb1]> ws) ms tb1 sl _ Hzs Hw1 Hp1 Ha1) as (tb' & E' & Hs' & Hp' & Ha').
  rewrite list_insert_insert_eq in Hs', Hp', Ha'. exists tb'. cbn [for_each]. rewrite E. split; [done|].
  cbn zeta. split_and!; [by eapply Iteration.isteps_trans|done|].
  assert (stopped || bool_decide (Z.of_nat i ∈ z :: zs) = stopped || (z =? Z.of_nat i) || bool_decide (Z.of_nat i ∈ zs)) as ->; [|done].
  rewrite <- orb_assoc. f_equal. apply eq_bool_prop_intro. rewrite orb_True, !bool_decide_spec, elem_of_cons. split.
  - intros [->|?]; [left|by right]. by rewrite Z.eqb_refl.
  - intros [Hz'|?]; [left|by right]. apply Is_true_true, Z.eqb_eq in Hz'. done.
Qed.
Lemma notice_spec came c sl stopped : ready c -> at_shard c sl stopped ->
  exists c', notice w came (Proc c wk) = Ok (Proc c' wk) /\ isteps c c' /\ ready c' /\ at_shard c' sl (stopped || came).
Proof.
  intros Hp Ha. destruct came; [|exists c; rewrite orb_false_r; split_and!; [done|apply Iteration.isteps_refl|done..]].
  pose proof Ha as (tb & s & Hw & Hs & _). destruct (placed_table c tb Hp Hw) as [Hwf _]. destruct c as [ws ms].
  cbn [notice]. unfold table_at. cbn [pcl]. rewrite Hw. run. rewrite (wf_shards _ _ _ Hwf).
  assert (Forall (fun z => 0 <= z < Z.of_nat (length owners)) (seqZ 0 (Z.of_nat (length owners)))) as Hzs.
  { apply Forall_forall. intros z Hz. apply elem_of_seqZ in Hz. lia. }
  destruct (terminate_loop _ ws ms tb sl stopped Hzs Hw Hp Ha) as (tb' & E & Hs' & Hp' & Ha').
  rewrite E. run. eexists. split; [done|]. cbn [pcl Cluster.workers Cluster.net]. split_and!; [done..|].
  rewrite bool_decide_eq_true_2 in Ha'; [done|]. apply elem_of_seqZ. apply lookup_lt_Some in Hs.
  rewrite (wf_length _ _ _ Hwf) in Hs. lia.
Qed.

Lemma exchange_spec r n c sl stopped : ready c -> at_shard c sl stopped ->
  exists c', exchange bufmsg wire_size env w r n (Proc c wk) = Ok (Proc c' wk) /\ isteps c c' /\ ready c' /\
    at_shard c' sl (stopped || notified env r n).
Proof.
  intros Hp Ha. unfold exchange. destruct (FlushUpdates_spec (due_flush env r n) c sl stopped Hp Ha) as (c1 & E1 & Hs1 & Hp1 & Ha1).
  rewrite E1. run. cbn [pcl me]. pose proof (others_steps r n c1 Hp1) as Hs2. pose proof (placed_isteps _ _ Hp1 Hs2) as Hp2.
  assert (at_shard (others env r n c1) sl stopped) as Ha2.
  { destruct Ha1 as (tb & s & Hw & Hrest). exists tb, s. by rewrite others_keep. }
  destruct (notice_spec (notified env r n) _ sl stopped Hp2 Ha2) as (c3 & E3 & Hs3 & Hp3 & Ha3). rewrite E3. run.
  destruct (HandlePutRequest_spec (due_put env r n) c3 sl _ Hp3 Ha3) as (c4 & E4 & Hs4 & Hp4 & Ha4).
  exists c4. split_and!; [done| |done..]. eauto using Iteration.isteps_trans.
Qed.

(** ** Iterators *)
Variable sl : list (K * bool).
(** The draws are positions of the table, and at most [sampling] of them are
    needed to meet a row. *)
Hypothesis draws_range : forall r n m, 0 <= draws env r n m < Z.of_nat (length sl).
Hypothesis draws_fair : forall r n m, exists m' k,
  (m <= m' < m + sampling)%nat /\ sl !! Z.to_nat (draws env r n m') = Some (k, true).
Hypothesis portion_ok : SFltb portion (f64_of_Z 1) = true ->
  0 <= StateTable.trunc (f64_mul (f64_of_Z StateTable.sample_size) portion) < StateTable.sample_size.

Lemma slot_at s p k u : slots s !! p = Some (k, u) -> exists x, StateTable.buckets_ s !! p = Some x /\ bk x = k /\ in_use x = u.
Proof. unfold slots. intros (x & [= -> ->] & Hx)%list_lookup_fmap_Some. by exists x. Qed.
Lemma draw_returns s r n m m' k n1 : slots s = sl -> (m <= m' < m + n1)%nat ->
  sl !! Z.to_nat (draws env r n m') = Some (k, true) -> exists p, StateTable.draw n1 s (draws env r n) m = Ok p.
Proof.
  intros Hs. revert m. induction n1 as [|n1 IH]; intros m Hm Hk; [lia|]. cbn [StateTable.draw].
  pose proof (draws_range r n m) as Hr.
  destruct (lookup_lt_is_Some_2 sl (Z.to_nat (draws env r n m))) as [[k1 u] Hu]; [lia|].
  pose proof Hu as Hx. rewrite <- Hs in Hx. apply slot_at in Hx as (x & Hx & _ & Hux).
  rewrite (vec_at_Z _ _ _ (proj1 Hr) Hx). run. rewrite Hux.
  destruct u; [by eexists|]. apply IH; [|done].
  destruct (decide (m = m')) as [<-|]; [|lia]. rewrite Hk in Hu. done.
Qed.
Lemma draw_fair s r n m : slots s = sl -> exists p, StateTable.draw sampling s (draws env r n) m = Ok p.
Proof. intros Hs. destruct (draws_fair r n m) as (m' & k & Hm & Hk). by eapply draw_returns. Qed.
Lemma drawn_bucket s r n m n1 p m' : StateTable.draw n1 s (draws env r n) m = Ok (p, m') ->
  exists x, vec_at (StateTable.buckets_ s) p = Ok x.
Proof.
  revert m. induction n1 as [|n1 IH]; intros m E; [done|]. cbn [StateTable.draw] in E.
  apply bind_Ok in E as (x & Hx & E). destruct (in_use x); [injection E as <- _; by exists x|by apply IH in E].
Qed.
Lemma sample_returns s r n count m : slots s = sl ->
  exists ps, StateTable.sample sampling count s (draws env r n) m = Ok ps /\ length ps = count.
Proof.
  intros Hs. revert m. induction count as [|count IH]; intros m; [by exists []|]. cbn [StateTable.sample].
  destruct (draw_fair s r n m Hs) as ([p m1] & ->). run. destruct (IH m1) as (ps & -> & Hl). run.
  eexists. split; [done|]. cbn. by rewrite Hl.
Qed.
Lemma Iterator_sample_returns s r n count m : slots s = sl ->
  exists b, StateTable.Iterator_sample sampling count s (draws env r n) m = Ok b.
Proof.
  intros Hs. revert m. induction count as [|count IH]; intros m; [by eexists|]. cbn [StateTable.Iterator_sample].
  destruct (draw_fair s r n m Hs) as ([p m1] & E). rewrite E. run.
  destruct (drawn_bucket s r n m sampling p m1 E) as [x ->]. run. case_match; [by eexists|]. apply IH.
Qed.
Lemma ScheduledIterator_returns s r n : slots s = sl -> StateTable.wf s -> SFltb portion (f64_of_Z 1) = true ->
  exists ps, StateTable.ScheduledIterator sampling s portion (draws env r n) false = Ok (ps, false).
Proof.
  intros Hs Hwf Hlt. unfold StateTable.ScheduledIterator. case_match.
  { rewrite StateTable.schedule_all_spec by done. run. rewrite andb_false_r. by eexists. }
  destruct (sample_returns s r n (Z.to_nat StateTable.sample_size) 0 Hs) as (sampled & -> & Hlen). run.
  rewrite andb_false_r. pose proof (portion_ok Hlt) as Hcut.
  set (cut_index := StateTable.trunc _) in *. set (sorted := StateTable.sort_pos s sampled).
  assert (length sorted = Z.to_nat StateTable.sample_size) as Hsl by (subst sorted; by rewrite StateTable.sort_pos_perm).
  assert (forall j, 0 <= j < StateTable.sample_size -> exists q, vec_at sorted j = Ok q) as Hat.
  { intros j Hj. destruct (lookup_lt_is_Some_2 sorted (Z.to_nat j)) as [q Hq]; [lia|]. exists q.
    apply vec_at_Z; [lia|done]. }
  destruct (Hat cut_index) as [cut ->]; [lia|]. run. destruct (Hat 0) as [first ->]; [done|]. run.
  case_match; rewrite StateTable.schedule_if_spec by done; run; by eexists.
Qed.

(** The iterator selects rows of the worker's shard. *)
Definition chosen c (it : StateTable.TableIterator (K := K) (V := V) (D := D)) : Prop :=
  exists tb s ks, Cluster.workers c !! w = Some tb /\ partitions_ tb !! i = Some (State s) /\
    slots s = sl /\ schedules s it ks.
Lemma placed_state c tb s : ready c -> Cluster.workers c !! w = Some tb -> partitions_ tb !! i = Some (State s) ->
  StateTable.wf s.
Proof.
  intros Hp Hw Hs. destruct (placed_table c tb Hp Hw) as [Hwf _]. by apply (wf_part _ _ _ Hwf) in Hs as (_ & ? & _).
Qed.

Abbreviation get_typed_iterator := (get_typed_iterator bufmsg wire_size env w (Z.of_nat i) portion sampling).
Abbreviation self := (fun p => tb ← table_at w p; partition tb (Z.of_nat i)).
Lemma self_at c tb s : Cluster.workers c !! w = Some tb -> partitions_ tb !! i = Some (State s) -> self (Proc c wk) = Ok s.
Proof. intros Hw Hs. cbn beta. unfold table_at. cbn [pcl]. rewrite Hw. run. unfold partition. by rewrite (vec_at_Some _ _ _ Hs). Qed.

(** With an unfiltered second iterator the wait ends after at most one trial:
    the loop of ten trials and its closing pass are never completed. *)
Lemma wait_short {set_self make pass} r c it b stopped :
  ready c -> at_shard c sl stopped ->
  (b = false -> chosen c it) ->
  (forall c', ready c' -> forall st', at_shard c' sl st' -> forall s, self (Proc c' wk) = Ok s ->
     exists it', make 1%nat s = Ok (it', false) /\ chosen c' it') ->
  exists c' it', StateTable.wait_loop self set_self (exchange bufmsg wire_size env w r) make pass 11 0 (Proc c wk) it b = Ok (Proc c' wk, it', []) /\
    isteps c c' /\ ready c' /\ exists stopped', at_shard c' sl stopped' /\ (stopped = true -> stopped' = true) /\
      ((it' = StateTable.NoIterator /\ stopped' = true) \/ chosen c' it').
Proof.
  intros Hp Ha Hit Hmake. cbn [StateTable.wait_loop]. destruct b; cbn [negb].
  2:{ exists c, it. split_and!; [done|apply Iteration.isteps_refl|done|]. exists stopped. auto. }
  destruct (exchange_spec r 1 c sl stopped Hp Ha) as (c1 & E1 & Hs1 & Hp1 & Ha1). rewrite E1. run.
  pose proof Ha1 as (tb & s & Hw & Hs & Hsl & Ht). rewrite (self_at c1 tb s Hw Hs). run. rewrite Ht.
  destruct (stopped || notified env r 1) eqn:Est.
  { exists c1, StateTable.NoIterator. split_and!; [done..|]. exists true. auto. }
  destruct (Hmake c1 Hp1 _ Ha1 s (self_at c1 tb s Hw Hs)) as (it' & Em & Hc). rewrite Em. run.
  exists c1, it'. split_and!; [done..|]. exists false. split_and!; [done| |by right].
  by apply orb_false_elim in Est as [-> _].
Qed.

Lemma get_typed_spec r c stopped : ready c -> at_shard c sl stopped ->
  exists c' it, get_typed_iterator r (Proc c wk) = Ok (Proc c' wk, it, []) /\ isteps c c' /\ ready c' /\
    if stopped then it = StateTable.NoIterator /\ at_shard c' sl true
    else exists stopped', at_shard c' sl stopped' /\ (notified env r 0 = true -> stopped' = true) /\
      ((it = StateTable.NoIterator /\ stopped' = true) \/ chosen c' it).
Proof.
  intros Hp Ha. pose proof Ha as (tb & s & Hw & Hs & Hsl & Ht). destruct (placed_table c tb Hp Hw) as [Hwf _].
  pose proof (wf_part _ _ _ Hwf _ _ Hs) as (Ho & _).
  unfold RunLoop.get_typed_iterator, GlobalTable.get_iterator.
  assert (table_at w (Proc c wk) = Ok tb) as -> by (unfold table_at; cbn [pcl]; by rewrite Hw). run.
  rewrite (wf_local tb i _ Hwf Ho), Z.eqb_refl. run.
  unfold StateTable.get_iterator, StateTable.schedule_iterator, StateTable.iterator_with.
  rewrite !(self_at c tb s Hw Hs). run. rewrite Ht. destruct stopped.
  { exists c, StateTable.NoIterator. split_and!; [by destruct (SFltb _ _)|apply Iteration.isteps_refl|done..]. }
  destruct (exchange_spec r 0 c sl false Hp Ha) as (c1 & E1 & Hs1 & Hp1 & Ha1). rewrite !E1. run.
  pose proof Ha1 as (tb1 & s1 & Hw1 & Hx1 & Hsl1 & Ht1). rewrite !(self_at c1 tb1 s1 Hw1 Hx1). run.
  assert (forall c' it' stopped', isteps c1 c' -> ready c' -> at_shard c' sl stopped' ->
    (notified env r 0 = true -> stopped' = true) -> ((it' = StateTable.NoIterator /\ stopped' = true) \/ chosen c' it') ->
    isteps c c' /\ ready c' /\ exists stopped', at_shard c' sl stopped' /\ (notified env r 0 = true -> stopped' = true) /\
      ((it' = StateTable.NoIterator /\ stopped' = true) \/ chosen c' it')) as Hend.
  { intros c' it' stopped' Hs' Hp' Ha' Hn' Hc'. split_and!; [by eapply Iteration.isteps_trans|done|]. by exists stopped'. }
  destruct (decide (SFltb portion (f64_of_Z 1) = true)) as [Hlt|Hlt%not_true_is_false]; rewrite Hlt.
  - assert (forall n c' s', ready c' -> (exists st', at_shard c' sl st') -> self (Proc c' wk) = Ok s' -> exists ps,
      StateTable.ScheduledIterator sampling s' portion (draws env r n) false = Ok (ps, false) /\
      chosen c' (StateTable.PositionIterator ps)) as Hsched.
    { intros n c' s' Hp' [st' (tb' & s2 & Hw' & Hx' & Hsl' & _)] Eself. rewrite (self_at c' tb' s2 Hw' Hx') in Eself.
      injection Eself as <-. pose proof (placed_state c' tb' s2 Hp' Hw' Hx') as Hwf'.
      destruct (ScheduledIterator_returns s2 r n Hsl' Hwf' Hlt) as (ps & E). exists ps. split; [done|].
      edestruct scheduler_schedules as [ks Hks]; [exact Hwf'|exact E|]. by exists tb', s2, ks. }
    destruct (Hsched 0%nat c1 s1 Hp1 ltac:(by eexists) (self_at c1 tb1 s1 Hw1 Hx1)) as (ps & -> & Hch). run.
    match goal with |- context [StateTable.wait_loop _ ?ss _ ?mk ?pass _ _ _ ?it ?b] =>
      destruct (wait_short (set_self := ss) (make := mk) (pass := pass) r c1 it b _ Hp1 Ha1)
        as (c' & it' & E' & Hs' & Hp' & st' & Ha' & Hst & Hc') end.
    + done.
    + intros c' Hp' st' Ha' s' Es. cbn beta.
      destruct (Hsched 1%nat c' s' Hp' ltac:(by eexists) Es) as (ps' & -> & Hch'). by eexists.
    + exists c', it'. split; [exact E'|]. apply (Hend c' it' st'); [done..| |done]. intros Hn. apply Hst. by rewrite Hn.
  - assert (forall c', (exists st', at_shard c' sl st') -> chosen c' StateTable.RowIterator) as Hrows.
    { intros c' [st' (tb' & s2 & Hw' & Hx' & Hsl' & _)]. exists tb', s2. eexists. split_and!; [done..|]. constructor. }
    destruct (Iterator_sample_returns s1 r 0 (Z.to_nat StateTable.sample_size) 0 Hsl1) as [b Eb].
    assert (StateTable.Iterator sampling s1 (draws env r 0) (if decide (0 = 0)%nat then true else false) = Ok b) as ->
      by (by rewrite decide_True). run.
    match goal with |- context [StateTable.wait_loop _ ?ss _ ?mk ?pass _ _ _ ?it ?b] =>
      destruct (wait_short (set_self := ss) (make := mk) (pass := pass) r c1 it b _ Hp1 Ha1)
        as (c' & it' & E' & Hs' & Hp' & st' & Ha' & Hst & Hc') end.
    + intros _. apply Hrows. by eexists.
    + intros c' Hp' st' Ha' s' Es. cbn. eexists. split; [done|]. apply Hrows. by eexists.
    + exists c', it'. split; [exact E'|]. apply (Hend c' it' st'); [done..| |done]. intros Hn. apply Hst. by rewrite Hn.
Qed.

(** ** Rounds *)
Hypothesis fuel_ok : (length sl < fuel)%nat.

Record good (st : state (K := K) (V := V) (D := D)) (stopped : bool) : Prop := {
  good_proc : me (proc st) = wk;
  good_ready : ready (cl st);
  good_shard : at_shard (cl st) sl stopped;
  good_cache : Cache.inv CACHE_SIZE (cache st);
  good_coherent : SStore.coherent reader influ (cache st)
}.

Lemma send_nil (p : process (K := K) (V := V) (D := D)) : send p [] = p.
Proof. destruct p as [[ws ms] mm]. unfold send. cbn. by rewrite app_nil_r. Qed.
Lemma at_worker_same c tb ca f u : Cluster.workers c !! w = Some tb ->
  at_worker c w (Maiter.LoopState tb [] ca f u) = c.
Proof. intros Hw. destruct c as [ws ms]. unfold at_worker. cbn in *. by rewrite list_insert_id, app_nil_r. Qed.

(** The pass of a round over the rows that its iterator selects. *)
Lemma round_pass c it (st : state (K := K) (V := V) (D := D)) stopped : chosen c it -> ready c -> at_shard c sl stopped ->
  Cache.inv CACHE_SIZE (cache st) -> SStore.coherent reader influ (cache st) ->
  exists tb ls, table_at w (Proc c wk) = Ok tb /\
    Maiter.run_pass bufmsg wire_size CACHE_SIZE reader fuel
      (Maiter.LoopState tb [] (cache st) (totalF2 st) (updates st)) (Z.of_nat i) it = Ok (Some ls) /\
    let st' := mk (Proc (at_worker c w ls) wk) (Maiter.ls_cache ls) (Maiter.totalF2 ls) (Maiter.updates ls) in
    isteps c (cl st') /\ good st' stopped.
Proof.
  intros (tb & s & ks & Hw & Hs & Hsl & Hks) [Hp Hcalm] Ha Hi Hc.
  set (ls0 := Maiter.LoopState tb [] (cache st) (totalF2 st) (updates st)).
  pose proof (at_worker_same c tb (cache st) (totalF2 st) (updates st) Hw) as E0. fold ls0 in E0.
  assert (running bufmsg adj owners vertices X CACHE_SIZE reader influ c w ls0) as Hr.
  { split; [by eapply lookup_lt_Some|by rewrite E0|done|done]. }
  destruct (run_pass_spec bufmsg wire_size adj owners representable_accumulate representable_default representable_sent
    vertices X solution_X closed CACHE_SIZE reader influ cache_room reader_adj values_num c w ls0 i s fuel it ks Hr Hs Hks)
    as (ls & E & Hr' & _ & Hss & Hsh & _).
  { apply (f_equal length) in Hsl. unfold slots in Hsl. rewrite length_fmap in Hsl. lia. }
  exists tb, ls. unfold table_at. cbn [pcl]. rewrite Hw. split; [done|]. split; [exact E|]. unfold cl. cbn [proc pcl].
  rewrite E0 in Hss. split; [done|]. destruct Hr' as [_ Hp' Hi' Hc'].
  split; unfold cl; cbn [proc pcl me cache]; try done; [split; [done|by eapply isteps_calm]|].
  destruct c as [ws ms]. by eapply (at_shard_shape ws ms).
Qed.

Lemma run_loop_spec rounds : forall r st stopped, good st stopped ->
  exists st' left, run_loop bufmsg wire_size CACHE_SIZE reader env w (Z.of_nat i) portion sampling fuel rounds r st = Ok (st', left) /\
    isteps (cl st) (cl st') /\ (if left : bool then good st' true else exists b, good st' b) /\
    (left = false -> (stopped = true -> rounds = 0%nat) /\
      forall r0, (r <= r0)%nat -> notified env r0 0 = true -> (r + rounds < r0 + 2)%nat).
Proof.
  induction rounds as [|rounds IH]; intros r st stopped Hg.
  { exists st, false. split_and!; [done|apply Iteration.isteps_refl|by eexists|]. intros _. split; [done|]. intros r0 Hr _. lia. }
  destruct Hg as [Hm Hp Ha Hi Hc]. destruct st as [[c0 m0] ca f2 u]. unfold cl in *. cbn [proc pcl me cache] in *. subst m0.
  cbn [run_loop proc]. destruct (get_typed_spec r c0 stopped Hp Ha) as (c & it & E & Hs & Hp' & Hit).
  rewrite E. run. rewrite send_nil. cbn [cache totalF2 updates pcl me].
  assert (at_shard c sl true -> it = StateTable.NoIterator -> exists tb, table_at w (Proc c wk) = Ok tb /\
    Maiter.run_pass bufmsg wire_size CACHE_SIZE reader fuel (Maiter.LoopState tb [] ca f2 u) (Z.of_nat i) it = Ok None /\
    good (mk (Proc c wk) ca f2 u) true) as Hnone.
  { intros Ha' ->. pose proof Ha' as (tb & s & Hw & _). exists tb.
    split; [unfold table_at; cbn [pcl]; by rewrite Hw|]. split; [done|]. by split. }
  assert (at_shard c sl true -> it = StateTable.NoIterator -> exists st' left,
    (tb ← table_at w (Proc c wk);
     res ← Maiter.run_pass bufmsg wire_size CACHE_SIZE reader fuel (Maiter.LoopState tb [] ca f2 u) (Z.of_nat i) it;
     match res with
     | None => Ok (mk (Proc c wk) ca f2 u, true)
     | Some ls => run_loop bufmsg wire_size CACHE_SIZE reader env w (Z.of_nat i) portion sampling fuel rounds (S r)
         (mk (Proc (at_worker c w ls) wk) (Maiter.ls_cache ls) (Maiter.totalF2 ls) (Maiter.updates ls))
     end) = Ok (st', left) /\ isteps c0 (cl st') /\ (if left : bool then good st' true else exists b, good st' b) /\
    (left = false -> (stopped = true -> S rounds = 0%nat) /\
      forall r0, (r <= r0)%nat -> notified env r0 0 = true -> (r + S rounds < r0 + 2)%nat)) as Hend.
  { intros Ha' Hno. destruct (Hnone Ha' Hno) as (tb & -> & Er & Hg). run. rewrite Er. run. eexists _, true. by split_and!. }
  destruct stopped; [destruct Hit as [Hno Ha']; by apply Hend|].
  destruct Hit as (stopped' & Ha' & Hn & [[Hno ->]|Hch]); [by apply Hend|]. clear Hend Hnone.
  destruct (round_pass c it (mk (Proc c wk) ca f2 u) stopped' Hch Hp' Ha' Hi Hc) as (tb & ls & -> & Er & Hs' & Hg').
  cbn [cache totalF2 updates] in Er. run. rewrite Er. run.
  destruct (IH (S r) _ stopped' Hg') as (st' & left & E' & Hs'' & Hgood & Hlt). exists st', left.
  split_and!; [done|eauto using Iteration.isteps_trans|done|]. intros Hl. destruct (Hlt Hl) as [Hz Hlt']. split; [done|].
  intros r0 Hr Hr0. destruct (decide (r = r0)) as [<-|]; [rewrite (Hz (Hn Hr0)); lia|].
  specialize (Hlt' r0 ltac:(lia) Hr0). lia.
Qed.

(** C10. The kernel loop of a worker, for any number of rounds, started in a
    good state: the iteration is under way, every put request in the network is
    a batch of updates (no epoch marker), no checkpoint is active at the worker
    and no shard is tainted.  Between its steps the other workers take any steps
    of the iteration (so none starts a checkpoint, and no shard moves) and leave
    this worker's table to it; the signal to stop may come at any pause.  Then
    the rounds never fail; all that the worker and the others do are steps of the
    asynchronous iteration; the state stays good, whether the loop was left or
    not; it is left only when the signal has come, and it has been left when the
    signal came in the first pause of a round [r0] and two more rounds were
    made.  (A marker of a newer epoch, by contrast, makes the worker undefined:
    [marker_undefined].) *)
Theorem kernel_loop st rounds : good st false ->
  exists st' left, run_loop bufmsg wire_size CACHE_SIZE reader env w (Z.of_nat i) portion sampling fuel rounds 0 st = Ok (st', left) /\
    isteps (cl st) (cl st') /\ (if left : bool then good st' true else exists stopped, good st' stopped) /\
    forall r0, notified env r0 0 = true -> (r0 + 2 <= rounds)%nat -> left = true.
Proof.
  intros Hg. destruct (run_loop_spec rounds 0 st false Hg) as (st' & left & E & Hs & Hgood & Hlt).
  exists st', left. split_and!; [done..|]. intros r0 Hr0 Hle. apply not_false_is_true. intros Hl.
  destruct (Hlt Hl) as [_ Hlt']. specialize (Hlt' r0 ltac:(lia) Hr0). lia.
Qed.
End Run.

(** ** Worker 0 of the two workers of Components.v, told to stop in its second
    round *)
Section Sample.
Import Components.
#[local] Instance sample_kernel : IterateKernel Z Z (list Z) := con_kernel parse_int parse_int (fun _ => Ok []).
#[local] Instance sample_laws : AccumulateLaws Z Z (list Z) := con_laws parse_int parse_int (fun _ => Ok []).
#[local] Existing Instance Marshal_int.
#[local] Existing Instance MarshalLaws_int.
#[local] Instance sample_sharder : Sharder Z := Sharding.Mod.
#[local] Instance sample_propagation : PropagationLaws Z Z (list Z) := con_propagation parse_int parse_int (fun _ => Ok []).

Definition alone : environment (K := Z) (V := Z) (D := list Z) :=
  {| others _ _ c := c; notified r _ := bool_decide (r = 1%nat); due_flush _ _ := true; due_put _ _ := false; draws _ _ _ := 2 |}.
Definition shard0 : list (Z * bool) := [(0, false); (0, false); (2, true)].
Definition idle0 : Worker.t (K := Z) (V := Z) (D := list Z) := Worker.mk 0 0 Master.CP_NONE ∅ [0; 0] true ∅ [] ∅.
Abbreviation first := (start two_cluster idle0 (Cache.mk [] ∅ ∅ ∅)).
Lemma first_good :
  good 10 two_adj two_owners [1; 2] two_max 1 (fun k => Ok (two_adj k)) ∅ 0 0 idle0 shard0 first false.
Proof.
  split; [done| | |apply Cache.inv_empty|apply SStore.coherent_fresh].
  - split; [exact two_placed|]. split; [constructor|]. by repeat constructor.
  - eexists _, _. split; [reflexivity|]. split; [reflexivity|]. split; reflexivity.
Qed.
(** The loop is left, and the cluster it leaves was reached by steps of the
    iteration. *)
Lemma kernel_loop_witness : exists st',
  run_loop 10 two_size 1 (fun k => Ok (two_adj k)) alone 0 0 (f64_of_Z 1) 1 4 3 0 first = Ok (st', true) /\
  Iteration.isteps 10 two_size two_adj two_cluster (cl st').
Proof.
  destruct (kernel_loop 10 two_size two_adj two_owners
    (con_representable parse_int parse_int (fun _ => Ok [])) (con_default parse_int parse_int (fun _ => Ok []))
    (con_sent parse_int parse_int (fun _ => Ok []) two_adj two_adj_int) [1; 2] two_max
    (proj1 (greatest_solution parse_int parse_int (fun _ => Ok []) two_owners two_adj two_cluster two_max two_greatest))
    two_closed 1 (fun k => Ok (two_adj k)) ∅ ltac:(lia) (fun _ _ => eq_refl) (fun v _ => f32_of_integer v)
    alone 0 0 (f64_of_Z 1) 1 4 idle0 eq_refl eq_refl (fun _ _ c _ => Iteration.isteps_refl _ _ _ c) (fun _ _ _ => eq_refl) shard0
    ltac:(intros; cbn; lia) ltac:(intros r n m; exists m, 2; split; [lia|reflexivity]) ltac:(intros E; vm_compute in E; discriminate)
    ltac:(cbn; lia) first 3 first_good) as (st' & left & E & Hs & _ & Hleft).
  pose proof (Hleft 1%nat eq_refl ltac:(lia)) as Hl. rewrite Hl in E. exists st'. split; [exact E|exact Hs].
Defined.
End Sample.
End RunLoop.
