(* ===== verification/Rpc.v ===== *)
(** * The network thread: util/rpc.h, util/rpc.cc

    Each process has a [NetworkThread]: requests to send wait in
    [pending_sends_] until its thread posts them with [Isend], arriving packets
    go to a queue for each tag and source or to a registered callback, which
    the thread answers.  The MPI library is modelled by what its standard
    promises: between two processes packets arrive in the order in which they
    were posted, and a completed request is one whose packet has left.  A
    message is a parameter [M] with its serialisation; statistics, logging and
    profiling are left out. *)
From S2P Require Import Prelude StringPiece.

Module Rpc.
Definition kMaxHosts : Z := 512.
Definition kMaxMethods : Z := 64.
(** [MPI::ANY_SOURCE]. *)
Definition ANY_SOURCE : Z := -1.

(** [Header]: one [bool]. *)
Definition header (is_reply : bool) : cstr := [char_of (if is_reply then 1 else 0)].
(** [((Header* )&data[0])->is_reply]. *)
Definition is_reply (data : cstr) : bool :=
  match data with [] => false | c :: _ => negb (uchar c =? 0) end.

Record RPCInfo := { rpc_source : Z; rpc_dest : Z; rpc_tag : Z }.
Record RPCRequest := { target : Z; rpc_type : Z; failures : Z; payload : cstr }.

Section Rpc.
(** Protocol messages, and the state of the rest of the process, which the
    callbacks read and write. *)
Context {M App : Type}.
Variable AppendToString : M -> cstr.
Variable ParseFromArray : cstr -> M.

(** The two constructors of [RPCRequest]. *)
Definition RPCRequest_msg (tgt method : Z) (ureq : M) (h : bool) : RPCRequest :=
  {| target := tgt; rpc_type := method; failures := 0; payload := header h ++ AppendToString ureq |}.
Definition RPCRequest_empty (tgt method : Z) (h : bool) : RPCRequest :=
  {| target := tgt; rpc_type := method; failures := 0; payload := header h |}.

(** A call of [Send(dst, method, msg)]. *)
Definition outgoing : Type := Z * Z * M.
Definition outgoing_request (x : outgoing) : RPCRequest := RPCRequest_msg x.1.1 x.1.2 x.2 false.

(** [CallbackInfo].  [req] and [resp] are objects that all the calls of the
    callback share; a call reads [req], may send messages of its own and leaves
    its answer in [resp]. *)
Record CallbackInfo := {
  ci_req : M; ci_resp : M;
  ci_call : App -> RPCInfo -> M -> M -> outcome (App * M * list outgoing);
  spawn_thread : bool
}.

(** [threads] are the callbacks that run in threads of their own and have not
    run yet; [app_state] is the state of the rest of the process. *)
Record NetworkThread := mk {
  id_ : Z; world_size : Z; running : bool;
  callbacks_ : list (option CallbackInfo);
  pending_sends_ : list RPCRequest;
  active_sends_ : list RPCRequest;
  requests : gmap (Z * Z) (list cstr);
  replies : gmap (Z * Z) (list cstr);
  threads : list RPCInfo;
  app_state : App
}.
Implicit Types nt : NetworkThread.

Definition set_callbacks nt cs : NetworkThread :=
  mk (id_ nt) (world_size nt) (running nt) cs (pending_sends_ nt) (active_sends_ nt) (requests nt) (replies nt)
    (threads nt) (app_state nt).
Definition set_pending nt l : NetworkThread :=
  mk (id_ nt) (world_size nt) (running nt) (callbacks_ nt) l (active_sends_ nt) (requests nt) (replies nt)
    (threads nt) (app_state nt).
Definition set_active nt l : NetworkThread :=
  mk (id_ nt) (world_size nt) (running nt) (callbacks_ nt) (pending_sends_ nt) l (requests nt) (replies nt)
    (threads nt) (app_state nt).
Definition set_requests nt q : NetworkThread :=
  mk (id_ nt) (world_size nt) (running nt) (callbacks_ nt) (pending_sends_ nt) (active_sends_ nt) q (replies nt)
    (threads nt) (app_state nt).
Definition set_replies nt q : NetworkThread :=
  mk (id_ nt) (world_size nt) (running nt) (callbacks_ nt) (pending_sends_ nt) (active_sends_ nt) (requests nt) q
    (threads nt) (app_state nt).
Definition set_threads nt l : NetworkThread :=
  mk (id_ nt) (world_size nt) (running nt) (callbacks_ nt) (pending_sends_ nt) (active_sends_ nt) (requests nt)
    (replies nt) l (app_state nt).
Definition set_app nt s : NetworkThread :=
  mk (id_ nt) (world_size nt) (running nt) (callbacks_ nt) (pending_sends_ nt) (active_sends_ nt) (requests nt)
    (replies nt) (threads nt) s.

Definition NetworkThread_new (id size : Z) (s : App) : NetworkThread :=
  mk id size true (replicate (Z.to_nat kMaxMethods) None) [] [] ∅ ∅ [] s.

Definition active nt : bool :=
  0 <? Z.of_nat (length (active_sends_ nt)) + Z.of_nat (length (pending_sends_ nt)).
Definition payload_bytes (l : list RPCRequest) : Z :=
  fold_left (fun t r => t + Z.of_nat (length (payload r))) l 0.
Definition pending_bytes nt : Z := payload_bytes (active_sends_ nt ++ pending_sends_ nt).

(** ** Sending *)
Definition Send nt (req : RPCRequest) : NetworkThread := set_pending nt (pending_sends_ nt ++ [req]).
(** [Send(dst, method, msg)] returns the size of the payload. *)
Definition Send_msg nt (dst method : Z) (msg : M) : NetworkThread * Z :=
  let r := RPCRequest_msg dst method msg false in
  (Send nt r, to_int32 (Z.of_nat (length (payload r)))).
Definition Send_all nt (rs : list RPCRequest) : NetworkThread := fold_left Send rs nt.

(** [Isend]; a target that is no rank makes the error handler stop the
    process. *)
Definition Isend nt (r : RPCRequest) : outcome NetworkThread :=
  if (0 <=? target r) && (target r <? world_size nt)
  then Ok (set_active nt (active_sends_ nt ++ [r])) else Fatal.
Definition DSend nt (dst method : Z) (msg : M) : outcome (NetworkThread * RPCRequest) :=
  let r := RPCRequest_msg dst method msg false in
  nt ← Isend nt r; Ok (nt, r).

(** One round of [while (!pending_sends_.empty())] in [Run], under the lock:
    the request at the back is posted. *)
Definition post nt : outcome (NetworkThread * option RPCRequest) :=
  match last (pending_sends_ nt) with
  | None => Ok (nt, None)
  | Some s =>
    let nt := set_pending nt (removelast (pending_sends_ nt)) in
    nt ← Isend nt s; Ok (nt, Some s)
  end.
Fixpoint post_loop (fuel : nat) nt : outcome (NetworkThread * list RPCRequest) :=
  match fuel with
  | O => OutOfFuel
  | S fuel =>
    '(nt, r) ← post nt;
    match r with
    | None => Ok (nt, [])
    | Some r => '(nt, rs) ← post_loop fuel nt; Ok (nt, r :: rs)
    end
  end.

(** [CollectActive]; [finished] is what [MPI::Request::Test] answers. *)
Definition CollectActive (finished : RPCRequest -> bool) nt : NetworkThread :=
  set_active nt (filter (fun r => finished r = false) (active_sends_ nt)).

Definition Broadcast nt (method : Z) (msg : M) : NetworkThread :=
  fold_left (fun nt i => (Send_msg nt i method msg).1) (seqZ 1 (world_size nt - 1)) nt.

(** ** Receiving *)
Definition queue_of (q : gmap (Z * Z) (list cstr)) (tag source : Z) : list cstr := default [] (q !! (tag, source)).
Definition push_back (q : gmap (Z * Z) (list cstr)) (tag source : Z) (data : cstr) : gmap (Z * Z) (list cstr) :=
  <[(tag, source) := queue_of q tag source ++ [data]]> q.

(** [callbacks_[tag]]. *)
Definition callback nt (tag : Z) : outcome (option CallbackInfo) := vec_at (callbacks_ nt) tag.
Definition set_callback nt (tag : Z) (ci : CallbackInfo) : outcome NetworkThread :=
  cs ← vec_set (callbacks_ nt) tag (Some ci); Ok (set_callbacks nt cs).

(** [ci->call(rpc)] and the reply: [InvokeCallback], and the same in [Run]. *)
Definition InvokeCallback nt (rpc : RPCInfo) : outcome (NetworkThread * list RPCRequest) :=
  c ← callback nt (rpc_tag rpc);
  ci ← deref c;
  '(s, resp, sends) ← ci_call ci (app_state nt) rpc (ci_req ci) (ci_resp ci);
  nt ← set_callback (set_app nt s) (rpc_tag rpc)
    {| ci_req := ci_req ci; ci_resp := resp; ci_call := ci_call ci; spawn_thread := spawn_thread ci |};
  let sends := (outgoing_request <$> sends) ++ [RPCRequest_msg (rpc_source rpc) (rpc_tag rpc) resp true] in
  Ok (Send_all nt sends, sends).

(** The packet that [Iprobe] found: a reply or a request without a callback is
    queued; otherwise the shared request object is overwritten and the callback
    runs, at once or in a thread.  The second result is whether the packet was
    consumed, the third what the callback sent. *)
Definition receive nt (source tag : Z) (data : cstr) : outcome (NetworkThread * bool * list RPCRequest) :=
  _ ← vec_at data 0;
  _ ← CHECK (source <? kMaxHosts);
  if (tag <? 0) || (kMaxMethods <=? tag) then Undefined
  else if is_reply data then
    Ok (set_replies nt (push_back (replies nt) tag source data), false, [])
  else
    c ← callback nt tag;
    match c with
    | None => Ok (set_requests nt (push_back (requests nt) tag source data), false, [])
    | Some ci =>
      nt ← set_callback nt tag
        {| ci_req := ParseFromArray (drop 1 data); ci_resp := ci_resp ci; ci_call := ci_call ci;
           spawn_thread := spawn_thread ci |};
      let rpc := {| rpc_source := source; rpc_dest := id_ nt; rpc_tag := tag |} in
      if spawn_thread ci then Ok (set_threads nt (threads nt ++ [rpc]), true, [])
      else '(nt, sends) ← InvokeCallback nt rpc; Ok (nt, true, sends)
    end.

(** One round of [Run]: what was probed, if anything, then all the pending
    requests, then the finished ones. *)
Definition Run_once (finished : RPCRequest -> bool) nt (probe : option (Z * Z * cstr)) :
    outcome (NetworkThread * list RPCRequest) :=
  nt ← match probe with
       | Some (source, tag, data) => '(nt, _, _) ← receive nt source tag data; Ok nt
       | None => Ok nt
       end;
  '(nt, posted) ← post_loop (S (length (pending_sends_ nt))) nt;
  Ok (CollectActive finished nt, posted).

(** [check_request_queue], [check_reply_queue]: the front of the queue. *)
Definition check_queue (q : gmap (Z * Z) (list cstr)) (src type : Z) :
    outcome (option (cstr * gmap (Z * Z) (list cstr))) :=
  _ ← CHECK (src <? kMaxHosts);
  _ ← CHECK (type <? kMaxMethods);
  if (src <? 0) || (type <? 0) then Undefined
  else match queue_of q type src with
       | [] => Ok None
       | s :: rest => Ok (Some (s, <[(type, src) := rest]> q))
       end.
Definition check_request_queue nt (src type : Z) : outcome (option (cstr * NetworkThread)) :=
  r ← check_queue (requests nt) src type;
  Ok (match r with Some (s, q) => Some (s, set_requests nt q) | None => None end).
Definition check_reply_queue nt (src type : Z) : outcome (option (cstr * NetworkThread)) :=
  r ← check_queue (replies nt) src type;
  Ok (match r with Some (s, q) => Some (s, set_replies nt q) | None => None end).

(** [TryRead]: the source that was read, the packet and the new state. *)
Fixpoint try_sources (srcs : list Z) nt (type : Z) : outcome (option (Z * cstr * NetworkThread)) :=
  match srcs with
  | [] => Ok None
  | i :: srcs =>
    r ← check_request_queue nt i type;
    match r with
    | Some (s, nt) => Ok (Some (i, s, nt))
    | None => try_sources srcs nt type
    end
  end.
Definition TryRead nt (src type : Z) : outcome (option (Z * cstr * NetworkThread)) :=
  if src =? ANY_SOURCE then try_sources (seqZ 0 (world_size nt)) nt type else try_sources [src] nt type.
(** What the caller parses out of the packet. *)
Definition message_of (s : cstr) : M := ParseFromArray (drop 1 s).

(** [WaitForSync]: rounds over the sources, each of which may have one reply;
    the replies that arrive between the rounds are not modelled here. *)
Fixpoint sync_round (srcs : list Z) nt (method count : Z) : outcome (NetworkThread * Z) :=
  match srcs with
  | [] => Ok (nt, count)
  | i :: srcs =>
    r ← check_reply_queue nt i method;
    match r with
    | Some (_, nt) => sync_round srcs nt method (count - 1)
    | None => sync_round srcs nt method count
    end
  end.
Fixpoint WaitForSync (fuel : nat) nt (method count : Z) : outcome NetworkThread :=
  if 0 <? count then
    match fuel with
    | O => OutOfFuel
    | S fuel => '(nt, count) ← sync_round (seqZ 0 (world_size nt)) nt method count; WaitForSync fuel nt method count
    end
  else Ok nt.

(** ** Callbacks *)
Definition _RegisterCallback nt (message_type : Z) (req resp : M)
    (cb : App -> RPCInfo -> M -> M -> outcome (App * M * list outgoing)) : outcome NetworkThread :=
  _ ← CHECK (message_type <? kMaxMethods);
  set_callback nt message_type {| ci_req := req; ci_resp := resp; ci_call := cb; spawn_thread := false |}.
Definition SpawnThreadFor nt (req_type : Z) : outcome NetworkThread :=
  c ← callback nt req_type;
  ci ← deref c;
  set_callback nt req_type
    {| ci_req := ci_req ci; ci_resp := ci_resp ci; ci_call := ci_call ci; spawn_thread := true |}.
(** A spawned thread runs [InvokeCallback] with what the request object holds
    by then. *)
Definition run_thread nt (i : nat) : outcome (NetworkThread * list RPCRequest) :=
  rpc ← deref (threads nt !! i);
  InvokeCallback (set_threads nt (take i (threads nt) ++ drop (S i) (threads nt))) rpc.
(** [Shutdown] after [Flush] returned. *)
Definition Shutdown nt : NetworkThread :=
  if running nt then
    mk (id_ nt) (world_size nt) false (callbacks_ nt) (pending_sends_ nt) (active_sends_ nt) (requests nt)
      (replies nt) (threads nt) (app_state nt)
  else nt.

(** ** Several processes

    A flow is what one process sends another under a tag, requests and replies
    apart. *)
Record flow := Flow { f_src : Z; f_dst : Z; f_tag : Z; f_reply : bool }.
#[local] Instance flow_eq : EqDecision flow.
Proof. solve_decision. Defined.
Definition req_flow (p : nat) (r : RPCRequest) : flow := Flow (Z.of_nat p) (target r) (rpc_type r) (is_reply (payload r)).

(** [Sent]: handed to [Send] or [DSend]; [Posted]: given to MPI; [Taken]: read
    by the program or by a callback. *)
Inductive event := Sent (f : flow) (d : cstr) | Posted (f : flow) (d : cstr) | Taken (f : flow) (d : cstr).
Definition sent (f : flow) (evs : list event) : list cstr :=
  omap (fun e => match e with Sent f' d => if decide (f' = f) then Some d else None | _ => None end) evs.
Definition posted (f : flow) (evs : list event) : list cstr :=
  omap (fun e => match e with Posted f' d => if decide (f' = f) then Some d else None | _ => None end) evs.
Definition taken (f : flow) (evs : list event) : list cstr :=
  omap (fun e => match e with Taken f' d => if decide (f' = f) then Some d else None | _ => None end) evs.
Definition sent_events (p : nat) (rs : list RPCRequest) : list event :=
  (fun r => Sent (req_flow p r) (payload r)) <$> rs.

Record world := World { procs : list NetworkThread; chan : gmap (Z * Z) (list (Z * cstr)) }.
Implicit Types w : world.
Definition chan_at w (s d : Z) : list (Z * cstr) := default [] (chan w !! (s, d)).
Definition set_proc w (p : nat) nt : world := World (<[p := nt]> (procs w)) (chan w).
Definition add_packet w (p : nat) (r : RPCRequest) : world :=
  World (procs w) (<[(Z.of_nat p, target r) := chan_at w (Z.of_nat p) (target r) ++ [(rpc_type r, payload r)]]> (chan w)).

Inductive step : world -> list event -> world -> Prop :=
  | step_send w p nt dst method msg : procs w !! p = Some nt ->
      let r := RPCRequest_msg dst method msg false in
      step w [Sent (req_flow p r) (payload r)] (set_proc w p (Send nt r))
  | step_dsend w p nt dst method msg nt' r : procs w !! p = Some nt -> DSend nt dst method msg = Ok (nt', r) ->
      step w [Sent (req_flow p r) (payload r); Posted (req_flow p r) (payload r)] (add_packet (set_proc w p nt') p r)
  | step_post w p nt nt' r : procs w !! p = Some nt -> post nt = Ok (nt', Some r) ->
      step w [Posted (req_flow p r) (payload r)] (add_packet (set_proc w p nt') p r)
  | step_receive w p nt s tag data rest nt' (consumed : bool) sends :
      procs w !! p = Some nt -> chan_at w s (Z.of_nat p) = (tag, data) :: rest ->
      receive nt s tag data = Ok (nt', consumed, sends) ->
      step w ((if consumed then [Taken (Flow s (Z.of_nat p) tag (is_reply data)) data] else []) ++ sent_events p sends)
        (World (<[p := nt']> (procs w)) (<[(s, Z.of_nat p) := rest]> (chan w)))
  | step_collect w p nt finished : procs w !! p = Some nt -> step w [] (set_proc w p (CollectActive finished nt))
  | step_read w p nt src type s d nt' : procs w !! p = Some nt -> TryRead nt src type = Ok (Some (s, d, nt')) ->
      step w [Taken (Flow s (Z.of_nat p) type false) d] (set_proc w p nt')
  | step_reply w p nt src type d nt' : procs w !! p = Some nt -> check_reply_queue nt src type = Ok (Some (d, nt')) ->
      step w [Taken (Flow src (Z.of_nat p) type true) d] (set_proc w p nt')
  | step_thread w p nt i nt' sends : procs w !! p = Some nt -> run_thread nt i = Ok (nt', sends) ->
      step w (sent_events p sends) (set_proc w p nt').
Inductive steps : world -> list event -> world -> Prop :=
  | steps_refl w : steps w [] w
  | steps_next w1 e1 w2 e2 w3 : step w1 e1 w2 -> steps w2 e2 w3 -> steps w1 (e1 ++ e2) w3.

(** What is posted and not taken, oldest first: the queue at the receiver and
    the channel. *)
Definition in_flow (f : flow) (x : Z * cstr) : option cstr :=
  if decide (x.1 = f_tag f /\ is_reply x.2 = f_reply f) then Some x.2 else None.
Definition queued nt (f : flow) : list cstr :=
  queue_of (if f_reply f then replies nt else requests nt) (f_tag f) (f_src f).
Definition transit w (f : flow) : list cstr :=
  from_option (fun nt => queued nt f) [] (procs w !! Z.to_nat (f_dst f)) ++
  omap (in_flow f) (chan_at w (f_src f) (f_dst f)).
(** What is sent and not posted. *)
Definition waiting w (f : flow) : list cstr :=
  from_option (fun nt => omap (fun r => if decide (req_flow (Z.to_nat (f_src f)) r = f) then Some (payload r) else None)
    (pending_sends_ nt)) [] (procs w !! Z.to_nat (f_src f)).

(** A tag with a callback has no requests in its queue. *)
Definition handled nt : Prop := forall tag ci s,
  callbacks_ nt !! Z.to_nat tag = Some (Some ci) -> 0 <= tag -> queue_of (requests nt) tag s = [].
Definition handled_all w : Prop := Forall handled (procs w).

(** ** What the operations keep *)
Definition shape nt : list bool := (fun c => match c with Some _ => true | None => false end) <$> callbacks_ nt.
(** The queues and which tags have a callback. *)
Definition keeps nt nt' : Prop :=
  requests nt' = requests nt /\ replies nt' = replies nt /\ shape nt' = shape nt.

Lemma set_callback_keeps nt tag ci c nt' :
  callback nt tag = Ok (Some c) -> set_callback nt tag ci = Ok nt' ->
  keeps nt nt' /\ pending_sends_ nt' = pending_sends_ nt.
Proof.
  unfold callback, set_callback, vec_at, vec_set. intros Hc E. apply bind_Ok in E as (cs & E & [= <-]).
  destruct (Z.ltb_spec tag 0); [done|]. apply deref_Ok in Hc.
  pose proof (lookup_lt_Some _ _ _ Hc). destruct (_ || _); [done|]. injection E as <-.
  split; [|done]. split_and!; try done. unfold shape. cbn [callbacks_ set_callbacks].
  rewrite list_fmap_insert, list_insert_id; [done|]. by rewrite list_lookup_fmap, Hc.
Qed.
Lemma Send_all_spec rs : forall nt, Send_all nt rs = set_pending nt (pending_sends_ nt ++ rs).
Proof.
  induction rs as [|r rs IH]; intros nt; cbn [Send_all fold_left].
  { rewrite app_nil_r. by destruct nt. }
  unfold Send_all in IH. rewrite IH. unfold Send. cbn. by rewrite <- app_assoc.
Qed.
Lemma invoke_keeps nt rpc nt' sends : InvokeCallback nt rpc = Ok (nt', sends) ->
  keeps nt nt' /\ pending_sends_ nt' = pending_sends_ nt ++ sends.
Proof.
  unfold InvokeCallback. intros E. apply bind_Ok in E as (c & Hc & E). apply bind_Ok in E as (ci & Hci & E).
  apply deref_Ok in Hci as ->. apply bind_Ok in E as ([[s resp] sd] & _ & E). apply bind_Ok in E as (nt1 & E1 & E).
  injection E as <- <-. apply set_callback_keeps with (c := ci) in E1 as [Hk Hp]; [|exact Hc].
  rewrite Send_all_spec. cbn. by rewrite Hp.
Qed.
Lemma receive_spec nt source tag data nt' consumed sends :
  receive nt source tag data = Ok (nt', consumed, sends) ->
  0 <= tag < kMaxMethods /\ shape nt' = shape nt /\ pending_sends_ nt' = pending_sends_ nt ++ sends /\
  (if is_reply data then consumed = false /\ requests nt' = requests nt /\
     replies nt' = push_back (replies nt) tag source data
   else replies nt' = replies nt /\
     if consumed then requests nt' = requests nt /\ exists ci, callback nt tag = Ok (Some ci)
     else requests nt' = push_back (requests nt) tag source data /\ callback nt tag = Ok None).
Proof.
  unfold receive. intros E. apply bind_Ok in E as (b & _ & E). apply bind_Ok in E as ([] & _ & E).
  destruct (Z.ltb_spec tag 0); [done|]. destruct (Z.leb_spec kMaxMethods tag); [done|]. cbn [orb] in E.
  split; [lia|]. destruct (is_reply data).
  { injection E as <- <- <-. by rewrite app_nil_r. }
  apply bind_Ok in E as ([ci|] & Hc & E).
  - apply bind_Ok in E as (nt1 & E1 & E). destruct (set_callback_keeps _ _ _ _ _ Hc E1) as [(R1 & R2 & R3) P1].
    destruct (spawn_thread ci).
    + injection E as <- <- <-. rewrite app_nil_r. cbn. split_and!; try done. by exists ci.
    + apply bind_Ok in E as ([nt2 sd] & E2 & E). injection E as <- <- <-.
      destruct (invoke_keeps _ _ _ _ E2) as [(Q1 & Q2 & Q3) P2].
      split_and!; [congruence|congruence|congruence|congruence|by exists ci].
  - injection E as <- <- <-. by rewrite app_nil_r.
Qed.

Lemma queue_push q tag s d tag' s' :
  queue_of (push_back q tag s d) tag' s' =
  if decide (tag = tag' /\ s = s') then queue_of q tag' s' ++ [d] else queue_of q tag' s'.
Proof.
  unfold push_back, queue_of at 1. destruct (decide (tag = tag' /\ s = s')) as [[-> ->]|Hne].
  - by rewrite lookup_insert_eq.
  - rewrite lookup_insert_ne; [done|]. intros [= -> ->]. by apply Hne.
Qed.
Lemma check_queue_spec q src type s q' : check_queue q src type = Ok (Some (s, q')) ->
  forall tag' s', queue_of q tag' s' =
    (if decide (type = tag' /\ src = s') then [s] else []) ++ queue_of q' tag' s'.
Proof.
  unfold check_queue. intros E tag' s'. apply bind_Ok in E as ([] & _ & E). apply bind_Ok in E as ([] & _ & E).
  destruct (_ || _); [done|]. destruct (queue_of q type src) as [|x rest] eqn:Eq; [done|]. injection E as <- <-.
  unfold queue_of at 2. destruct (decide (type = tag' /\ src = s')) as [[-> ->]|Hne].
  - by rewrite lookup_insert_eq, Eq.
  - rewrite lookup_insert_ne; [done|]. intros [= -> ->]. by apply Hne.
Qed.
Lemma try_sources_spec srcs type : forall nt s d nt', try_sources srcs nt type = Ok (Some (s, d, nt')) ->
  s ∈ srcs /\ check_request_queue nt s type = Ok (Some (d, nt')).
Proof.
  induction srcs as [|i srcs IH]; intros nt s d nt' E; [done|]. cbn [try_sources] in E.
  apply bind_Ok in E as ([[d' nt1]|] & E1 & E).
  - injection E as <- <- <-. split; [by left|done].
  - destruct (IH _ _ _ _ E). split; [by right|done].
Qed.
Lemma TryRead_spec nt src type s d nt' : TryRead nt src type = Ok (Some (s, d, nt')) ->
  check_request_queue nt s type = Ok (Some (d, nt')).
Proof. unfold TryRead. intros E. by destruct (src =? ANY_SOURCE); apply try_sources_spec in E as [_ ?]. Qed.

Lemma shape_true nt i : shape nt !! i = Some true <-> exists ci, callbacks_ nt !! i = Some (Some ci).
Proof.
  unfold shape. rewrite list_lookup_fmap. split.
  - intros E. apply fmap_Some in E as ([ci|] & Hc & E); [by exists ci|done].
  - by intros (ci & ->).
Qed.
Lemma handled_keeps nt nt' :
  shape nt' = shape nt -> (forall tag s, shape nt !! Z.to_nat tag = Some true -> 0 <= tag ->
    queue_of (requests nt) tag s = [] -> queue_of (requests nt') tag s = []) -> handled nt -> handled nt'.
Proof.
  intros Hs Hq Hh tag ci s Hc Htag.
  assert (shape nt !! Z.to_nat tag = Some true) as Ht by (rewrite <- Hs; apply shape_true; by exists ci).
  pose proof Ht as Ht'. apply shape_true in Ht' as (ci' & Hc'). apply Hq; [done|done|]. by apply (Hh tag ci').
Qed.
Lemma handled_set w p nt nt' :
  handled_all w -> procs w !! p = Some nt -> (handled nt -> handled nt') -> Forall handled (<[p := nt']> (procs w)).
Proof. intros Hh Hp Hk. apply Forall_insert; [done|]. apply Hk. unfold handled_all in Hh. by eapply Forall_lookup_1. Qed.

(** ** Order of delivery *)
Lemma transit_proc w p nt nt' f :
  procs w !! p = Some nt -> queued nt' f = queued nt f -> transit (set_proc w p nt') f = transit w f.
Proof.
  intros Hp Hq. unfold transit. cbn [procs set_proc chan]. f_equal.
  destruct (decide (p = Z.to_nat (f_dst f))) as [<-|Hne]; [|by rewrite list_lookup_insert_ne].
  rewrite list_lookup_insert_eq, Hp by (by eapply lookup_lt_Some). exact Hq.
Qed.
Lemma queued_keeps nt nt' f : keeps nt nt' -> queued nt' f = queued nt f.
Proof. intros (E1 & E2 & _). unfold queued. by rewrite E1, E2. Qed.

Lemma in_flow_self p r f : in_flow f (rpc_type r, payload r) =
  if decide (f_tag (req_flow p r) = f_tag f /\ f_reply (req_flow p r) = f_reply f) then Some (payload r) else None.
Proof. unfold in_flow. cbn. repeat case_decide; naive_solver. Qed.

Lemma transit_add w p r f :
  transit (add_packet w p r) f = transit w f ++ (if decide (req_flow p r = f) then [payload r] else []).
Proof.
  unfold transit, chan_at at 1. cbn [procs add_packet chan]. rewrite <- app_assoc. f_equal.
  destruct (decide ((Z.of_nat p, target r) = (f_src f, f_dst f))) as [E|Hne].
  - rewrite E, lookup_insert_eq. cbn [from_option id]. injection E as E1 E2. rewrite E1, E2, omap_app. f_equal.
    cbn [omap list_omap]. rewrite (in_flow_self p).
    destruct (decide (req_flow p r = f)) as [<-|Hne]; [by rewrite decide_True|].
    rewrite decide_False; [done|]. intros [E3 E4]. apply Hne. destruct f; cbn in *. unfold req_flow. congruence.
  - rewrite lookup_insert_ne by done. rewrite decide_False, app_nil_r; [done|]. intros <-. by destruct Hne.
Qed.

Lemma chan_at_insert ps ch s d rest s' d' :
  chan_at (World ps (<[(s, d) := rest]> ch)) s' d' =
  if decide ((s, d) = (s', d')) then rest else default [] (ch !! (s', d')).
Proof.
  unfold chan_at. cbn [chan]. case_decide as E; [by rewrite E, lookup_insert_eq|by rewrite lookup_insert_ne].
Qed.

(** Taking a packet off a channel. *)
Lemma transit_chan w p nt nt' s tag data rest f :
  procs w !! p = Some nt -> chan_at w s (Z.of_nat p) = (tag, data) :: rest ->
  let w' := World (<[p := nt']> (procs w)) (<[(s, Z.of_nat p) := rest]> (chan w)) in
  0 <= f_dst f ->
  (f_dst f = Z.of_nat p -> f <> Flow s (Z.of_nat p) tag (is_reply data) -> queued nt' f = queued nt f) ->
  exists q c, transit w f = q ++ c /\
    if decide (f = Flow s (Z.of_nat p) tag (is_reply data))
    then q = queued nt f /\ exists c', c = data :: c' /\ transit w' f = queued nt' f ++ c'
    else transit w' f = q ++ c.
Proof.
  intros Hp Hc w' Hd Hq. unfold transit. eexists _, _. split; [done|]. subst w'.
  rewrite chan_at_insert. cbn [procs]. fold (chan_at w (f_src f) (f_dst f)). case_decide as E.
  - subst f. cbn [f_src f_dst] in *. rewrite Nat2Z.id, Hp, Hc, decide_True, list_lookup_insert_eq
      by (done || by eapply lookup_lt_Some). split; [done|].
    eexists. split; [|done]. cbn [omap list_omap]. unfold in_flow at 1. cbn. by rewrite decide_True.
  - f_equal.
    + destruct (decide (p = Z.to_nat (f_dst f))) as [->|Hne]; [|by rewrite list_lookup_insert_ne].
      rewrite Hp, list_lookup_insert_eq by (by eapply lookup_lt_Some). cbn. apply Hq; [lia|done].
    + case_decide as E'; [|done]. injection E' as E3 E4. rewrite <- E3, <- E4, Hc.
      cbn [omap list_omap]. unfold in_flow at 2. cbn [fst snd]. rewrite decide_False; [done|].
      intros [E1 E2]. apply E. destruct f; cbn in *. congruence.
Qed.

Lemma posted_sent f p rs : posted f (sent_events p rs) = [] /\ taken f (sent_events p rs) = [].
Proof. induction rs as [|r rs [IH1 IH2]]; [done|]. by cbn. Qed.
Lemma picks_app f e1 e2 :
  sent f (e1 ++ e2) = sent f e1 ++ sent f e2 /\ posted f (e1 ++ e2) = posted f e1 ++ posted f e2 /\
  taken f (e1 ++ e2) = taken f e1 ++ taken f e2.
Proof. by split_and!; apply omap_app. Qed.

Lemma flow_eq_iff a b c e f : Flow a b c e = f <-> a = f_src f /\ b = f_dst f /\ c = f_tag f /\ e = f_reply f.
Proof. destruct f; cbn. split; [by intros [= -> -> -> ->]|by intros (-> & -> & -> & ->)]. Qed.

(** One packet taken from a queue. *)
Lemma read_fifo w p nt nt' s type d f (reply : bool) :
  procs w !! p = Some nt -> 0 <= f_dst f ->
  (forall g, queued nt g = (if decide (type = f_tag g /\ s = f_src g /\ reply = f_reply g) then [d] else []) ++ queued nt' g) ->
  transit w f = (if decide (Flow s (Z.of_nat p) type reply = f) then [d] else []) ++ transit (set_proc w p nt') f.
Proof.
  intros Hp Hf Hq. unfold transit. cbn [procs set_proc]. unfold chan_at. cbn [chan set_proc]. rewrite app_assoc. f_equal.
  destruct (decide (p = Z.to_nat (f_dst f))) as [Ep|Hne].
  - rewrite Ep, list_lookup_insert_eq, <- Ep, Hp by (rewrite <- Ep; by eapply lookup_lt_Some). cbn [from_option].
    rewrite Hq. f_equal. apply decide_ext. rewrite flow_eq_iff. assert (Z.of_nat p = f_dst f) by lia. naive_solver.
  - rewrite list_lookup_insert_ne by done. rewrite decide_False; [done|]. intros <-. apply Hne. cbn. lia.
Qed.
Lemma receive_fifo w p nt s tag data rest nt' (consumed : bool) sends f :
  handled_all w -> 0 <= f_dst f -> procs w !! p = Some nt -> chan_at w s (Z.of_nat p) = (tag, data) :: rest ->
  receive nt s tag data = Ok (nt', consumed, sends) ->
  let evs := (if consumed then [Taken (Flow s (Z.of_nat p) tag (is_reply data)) data] else []) ++ sent_events p sends in
  let w' := World (<[p := nt']> (procs w)) (<[(s, Z.of_nat p) := rest]> (chan w)) in
  transit w f ++ posted f evs = taken f evs ++ transit w' f /\ handled_all w'.
Proof.
  intros Hh Hf Hp Hc E evs w'. destruct (receive_spec _ _ _ _ _ _ _ E) as (Htag & Hsh & _ & Hr).
  assert (posted f evs = []) as ->.
  { subst evs. destruct (picks_app f (if consumed then [Taken (Flow s (Z.of_nat p) tag (is_reply data)) data] else [])
      (sent_events p sends)) as (_ & -> & _). destruct (posted_sent f p sends) as [-> _]. by destruct consumed. }
  assert (taken f evs = if consumed then (if decide (Flow s (Z.of_nat p) tag (is_reply data) = f) then [data] else []) else []) as ->.
  { subst evs. destruct (picks_app f (if consumed then [Taken (Flow s (Z.of_nat p) tag (is_reply data)) data] else [])
      (sent_events p sends)) as (_ & _ & ->). destruct (posted_sent f p sends) as [_ ->]. rewrite app_nil_r.
    destruct consumed; [|done]. cbn. by destruct (decide _). }
  rewrite app_nil_r.
  assert (handled nt) as Hnt by (unfold handled_all in Hh; by eapply Forall_lookup_1).
  assert (forall g, queued nt' g = queued nt g ++
    if consumed then [] else if decide (tag = f_tag g /\ s = f_src g /\ is_reply data = f_reply g) then [data] else []) as Hq.
  { intros g. unfold queued. destruct (is_reply data).
    - destruct Hr as (-> & -> & ->). destruct (f_reply g); rewrite ?queue_push; repeat case_decide; try done;
        rewrite ?app_nil_r; naive_solver.
    - destruct Hr as (-> & Hr). destruct consumed; [destruct Hr as [-> _]; by rewrite app_nil_r|].
      destruct Hr as (-> & _). destruct (f_reply g); rewrite ?queue_push; repeat case_decide; try done;
        rewrite ?app_nil_r; naive_solver. }
  split.
  - destruct (transit_chan w p nt nt' s tag data rest f Hp Hc Hf) as (q & c & -> & Hd).
    { intros Hdst Hne. rewrite Hq. destruct consumed; [by rewrite app_nil_r|].
      rewrite decide_False, app_nil_r; [done|]. intros (? & ? & ?). apply Hne. symmetry. by apply flow_eq_iff. }
    destruct (decide (f = Flow s (Z.of_nat p) tag (is_reply data))) as [->|Hne].
    + destruct Hd as (-> & c' & -> & Hd). subst w'. rewrite Hd, Hq. cbn [f_tag f_src f_reply]. rewrite !decide_True by done.
      destruct consumed; [|by rewrite <- app_assoc].
      assert (queued nt (Flow s (Z.of_nat p) tag (is_reply data)) = []) as ->; [|by rewrite app_nil_r].
      unfold queued. cbn. destruct (is_reply data); [by destruct Hr|].
      destruct Hr as (_ & _ & ci & Hci). unfold callback, vec_at in Hci.
      destruct (tag <? 0); [done|]. apply deref_Ok in Hci. apply (Hnt tag ci s Hci). lia.
    + subst w'. rewrite Hd, decide_False by done. by destruct consumed.
  - apply (handled_set w p nt nt' Hh Hp). apply handled_keeps; [done|]. intros tag' s' Hs' Htag' H0.
    destruct (is_reply data); [by destruct Hr as (_ & -> & _)|]. destruct Hr as [_ Hr].
    destruct consumed; [by destruct Hr as [-> _]|]. destruct Hr as [-> Hcb]. rewrite queue_push, decide_False; [done|].
    intros [-> _]. apply shape_true in Hs' as (ci & Hci). unfold callback, vec_at in Hcb.
    destruct (tag' <? 0); [done|]. apply deref_Ok in Hcb. congruence.
Qed.

Lemma taken_one f g d : taken f [Taken g d] = if decide (g = f) then [d] else [].
Proof. cbn. by destruct (decide (g = f)). Qed.
Lemma step_fifo w evs w' f :
  handled_all w -> 0 <= f_dst f -> step w evs w' ->
  transit w f ++ posted f evs = taken f evs ++ transit w' f /\ handled_all w'.
Proof.
  intros Hh Hf Hs. destruct Hs as [w p nt dst method msg Hp r|w p nt dst method msg nt' r Hp E|w p nt nt' r Hp E
    |w p nt s tag data rest nt' consumed sends Hp Hc E|w p nt fin Hp|w p nt src type s d nt' Hp E
    |w p nt src type d nt' Hp E|w p nt i nt' sends Hp E].
  - cbn. rewrite app_nil_r. split; [symmetry; by eapply transit_proc|]. by eapply handled_set.
  - unfold DSend in E. apply bind_Ok in E as (nt1 & E1 & E). injection E as <- <-.
    unfold Isend in E1. destruct (_ && _); [|done]. injection E1 as <-. split; [|by eapply handled_set].
    rewrite transit_add. erewrite transit_proc by done. cbn. by destruct (decide _).
  - unfold post in E. destruct (last _) as [s|]; [|done]. apply bind_Ok in E as (nt1 & E1 & E). injection E as <- <-.
    unfold Isend in E1. destruct (_ && _); [|done]. injection E1 as <-. split; [|by eapply handled_set].
    rewrite transit_add. erewrite transit_proc by done. cbn. by destruct (decide _).
  - by eapply receive_fifo.
  - split; [|by eapply handled_set]. erewrite transit_proc by done. cbn. by rewrite app_nil_r.
  - apply TryRead_spec in E. unfold check_request_queue in E. apply bind_Ok in E as ([[d' q]|] & E & Er); [|done].
    injection Er as -> <-. pose proof (check_queue_spec _ _ _ _ _ E) as Hq. split.
    + rewrite taken_one, app_nil_r. apply (read_fifo w p nt); [done..|]. intros g. unfold queued.
      destruct (f_reply g) eqn:Eg; cbn [replies requests set_requests].
      * rewrite decide_False; [done|]. by intros (_ & _ & ?).
      * rewrite Hq. f_equal. apply decide_ext. naive_solver.
    + eapply handled_set; [done..|]. apply handled_keeps; [done|]. intros tag s' _ _ H0. cbn. rewrite Hq in H0.
      by apply app_eq_nil in H0 as [_ ?].
  - unfold check_reply_queue in E. apply bind_Ok in E as ([[d' q]|] & E & Er); [|done].
    injection Er as -> <-. pose proof (check_queue_spec _ _ _ _ _ E) as Hq. split.
    + rewrite taken_one, app_nil_r. apply (read_fifo w p nt); [done..|]. intros g. unfold queued.
      destruct (f_reply g) eqn:Eg; cbn [replies requests set_replies].
      * rewrite Hq. f_equal. apply decide_ext. naive_solver.
      * rewrite decide_False; [done|]. by intros (_ & _ & ?).
    + by eapply handled_set.
  - unfold run_thread in E. apply bind_Ok in E as (rpc & _ & E). apply invoke_keeps in E as [Hk _].
    destruct (posted_sent f p sends) as [-> ->]. rewrite app_nil_r. split.
    + symmetry. eapply transit_proc; [done|]. by rewrite (queued_keeps _ _ _ Hk).
    + eapply handled_set; [done..|]. destruct Hk as (R1 & R2 & R3). apply handled_keeps; [done|].
      intros tag s _ _ H0. by rewrite R1.
Qed.
Lemma steps_fifo w evs w' f :
  handled_all w -> 0 <= f_dst f -> steps w evs w' ->
  transit w f ++ posted f evs = taken f evs ++ transit w' f.
Proof.
  intros Hh Hf Hs. induction Hs as [w|w1 e1 w2 e2 w3 Hst _ IH]; [by rewrite app_nil_r|].
  destruct (step_fifo w1 e1 w2 f Hh Hf Hst) as [E1 Hh2]. specialize (IH Hh2).
  destruct (picks_app f e1 e2) as (_ & -> & ->). by rewrite app_assoc, E1, <- !app_assoc, IH.
Qed.

(** ** Requests that wait *)
Definition pend (p : nat) (f : flow) (l : list RPCRequest) : list cstr :=
  omap (fun r => if decide (req_flow p r = f) then Some (payload r) else None) l.
Lemma sent_pend f p rs : sent f (sent_events p rs) = pend p f rs.
Proof.
  induction rs as [|r rs IH]; [done|]. unfold sent, sent_events, pend in *. cbn [fmap list_fmap omap list_omap].
  destruct (decide _); [f_equal|]; exact IH.
Qed.
Lemma pend_one p f r : pend p f [r] = if decide (req_flow p r = f) then [payload r] else [].
Proof. cbn. by destruct (decide _). Qed.
Lemma posted_one f g d : posted f [Posted g d] = if decide (g = f) then [d] else [].
Proof. cbn. by destruct (decide _). Qed.
Lemma sent_one f g d : sent f [Sent g d] = if decide (g = f) then [d] else [].
Proof. cbn. by destruct (decide _). Qed.
Lemma pend_other p f l : f_src f <> Z.of_nat p -> pend p f l = [].
Proof.
  intros Hne. induction l as [|r l IH]; [done|]. cbn. rewrite decide_False; [done|]. intros <-. by destruct Hne.
Qed.

(** A step of process [p]. *)
Lemma waiting_step w w' p nt nt' f evs :
  procs w !! p = Some nt -> procs w' = <[p := nt']> (procs w) -> 0 <= f_src f ->
  (exists l l', sent f evs = pend p f l /\ posted f evs = pend p f l' /\
     pending_sends_ nt ++ l ≡ₚ l' ++ pending_sends_ nt') ->
  waiting w f ++ sent f evs ≡ₚ posted f evs ++ waiting w' f.
Proof.
  intros Hp Hw' Hf (l & l' & -> & -> & Hperm). unfold waiting. rewrite Hw'.
  destruct (decide (p = Z.to_nat (f_src f))) as [Ep|Hne].
  - rewrite <- Ep, Hp, list_lookup_insert_eq by (by eapply lookup_lt_Some). cbn [from_option].
    change (pend p f (pending_sends_ nt) ++ pend p f l ≡ₚ pend p f l' ++ pend p f (pending_sends_ nt')).
    unfold pend. rewrite <- !omap_app. by apply omap_Permutation.
  - rewrite list_lookup_insert_ne by done. rewrite !(pend_other p f) by lia. by rewrite app_nil_r.
Qed.
Lemma removelast_last {A} (l : list A) x : last l = Some x -> l = removelast l ++ [x].
Proof.
  intros E. apply last_Some in E as (l' & ->). by rewrite removelast_last.
Qed.
Lemma check_queue_pending nt src type s d nt' : TryRead nt src type = Ok (Some (s, d, nt')) ->
  pending_sends_ nt' = pending_sends_ nt.
Proof.
  intros E. apply TryRead_spec in E. unfold check_request_queue in E.
  apply bind_Ok in E as ([[d' q]|] & _ & Er); [|done]. by injection Er as -> <-.
Qed.

Lemma step_waiting w evs w' f : 0 <= f_src f -> step w evs w' ->
  waiting w f ++ sent f evs ≡ₚ posted f evs ++ waiting w' f.
Proof.
  intros Hf Hs. destruct Hs as [w p nt dst method msg Hp r|w p nt dst method msg nt' r Hp E|w p nt nt' r Hp E
    |w p nt s tag data rest nt' consumed sends Hp Hc E|w p nt fin Hp|w p nt src type s d nt' Hp E
    |w p nt src type d nt' Hp E|w p nt i nt' sends Hp E]; (eapply waiting_step; [exact Hp|reflexivity|done|]).
  - exists [r], []. split_and!; [|done|done]. by rewrite sent_one, pend_one.
  - unfold DSend in E. apply bind_Ok in E as (nt1 & E1 & E). injection E as <- <-.
    unfold Isend in E1. destruct (_ && _); [|done]. injection E1 as <-.
    set (r := RPCRequest_msg dst method msg false). exists [r], [r].
    split_and!; [| |apply Permutation_app_comm]; rewrite pend_one; unfold sent, posted; cbn [omap list_omap];
      by destruct (decide _).
  - unfold post in E. destruct (last _) as [s|] eqn:El; [|done]. apply bind_Ok in E as (nt1 & E1 & E). injection E as <- <-.
    unfold Isend in E1. destruct (_ && _); [|done]. injection E1 as <-. exists [], [s].
    split_and!; [done|by rewrite posted_one, pend_one|]. rewrite app_nil_r. cbn [pending_sends_ set_pending set_active].
    rewrite (removelast_last _ _ El) at 1. apply Permutation_app_comm.
  - destruct (receive_spec _ _ _ _ _ _ _ E) as (_ & _ & Hpend & _). exists sends, [].
    destruct (picks_app f (if consumed then [Taken (Flow s (Z.of_nat p) tag (is_reply data)) data] else [])
      (sent_events p sends)) as (-> & -> & _). destruct (posted_sent f p sends) as [-> _]. rewrite sent_pend, Hpend.
    by destruct consumed.
  - exists [], []. by rewrite app_nil_r.
  - exists [], []. by rewrite (check_queue_pending _ _ _ _ _ _ E), app_nil_r.
  - exists [], []. unfold check_reply_queue in E. apply bind_Ok in E as ([[d' q]|] & _ & Er); [|done].
    injection Er as -> <-. by rewrite app_nil_r.
  - unfold run_thread in E. apply bind_Ok in E as (rpc & _ & E). apply invoke_keeps in E as [_ Hpend].
    exists sends, []. destruct (posted_sent f p sends) as [-> _]. rewrite sent_pend, Hpend. done.
Qed.
Lemma steps_waiting w evs w' f : 0 <= f_src f -> steps w evs w' ->
  waiting w f ++ sent f evs ≡ₚ posted f evs ++ waiting w' f.
Proof.
  intros Hf Hs. induction Hs as [w|w1 e1 w2 e2 w3 Hst _ IH]; [by rewrite app_nil_r|].
  pose proof (step_waiting w1 e1 w2 f Hf Hst) as E1. destruct (picks_app f e1 e2) as (-> & -> & _).
  by rewrite app_assoc, E1, <- !app_assoc, IH.
Qed.

(** C13. The network thread gives every flow first-in first-out delivery: for
    each sender, receiver and tag, requests and replies apart, the packets that
    the receiver takes, by reading or by a callback, are those that the sender
    posted, in that order; those not taken yet are in the receiver's queue and
    in the channel. *)
Theorem rpc_fifo w evs w' f :
  handled_all w -> 0 <= f_dst f -> steps w evs w' ->
  transit w f ++ posted f evs = taken f evs ++ transit w' f.
Proof. apply steps_fifo. Qed.

Lemma steps_conserve w evs w' f :
  handled_all w -> 0 <= f_src f -> 0 <= f_dst f -> steps w evs w' ->
  waiting w f ++ transit w f ++ sent f evs ≡ₚ taken f evs ++ waiting w' f ++ transit w' f.
Proof.
  intros Hh Hs Hd Hst. pose proof (steps_fifo w evs w' f Hh Hd Hst) as E.
  pose proof (steps_waiting w evs w' f Hs Hst) as P.
  rewrite (Permutation_app_comm (transit w f)), app_assoc, P.
  rewrite (Permutation_app_comm (posted f evs)), <- app_assoc, (Permutation_app_comm (posted f evs)), E.
  rewrite (Permutation_app_comm (waiting w' f)), <- app_assoc. by rewrite (Permutation_app_comm (transit w' f)).
Qed.

(** C14. No packet is lost, duplicated or misrouted: in every run the packets
    handed to [Send] and [DSend] for a flow, with those that were on their way
    before, are those taken and those that still wait at the sender, are in the
    channel or in the receiver's queue. *)
Theorem rpc_conserves w evs w' f :
  handled_all w -> 0 <= f_src f -> 0 <= f_dst f -> steps w evs w' ->
  waiting w f ++ transit w f ++ sent f evs ≡ₚ taken f evs ++ waiting w' f ++ transit w' f.
Proof. apply steps_conserve. Qed.

(** ** Rounds of the network thread *)
Definition valid_target nt (r : RPCRequest) : Prop := 0 <= target r < world_size nt.

Lemma post_loop_spec l : forall nt fuel, pending_sends_ nt = l -> (length l < fuel)%nat -> Forall (valid_target nt) l ->
  post_loop fuel nt = Ok (set_active (set_pending nt []) (active_sends_ nt ++ rev l), rev l).
Proof.
  induction l as [|r l IH] using rev_ind; intros nt fuel Hp Hf Hv; (destruct fuel as [|fuel]; [lia|]); cbn [post_loop];
    unfold post; rewrite Hp.
  - cbn. rewrite app_nil_r. destruct nt; cbn in *. by subst.
  - rewrite last_snoc, List.removelast_last. apply Forall_app in Hv as [Hv [Hr _]%Forall_cons].
    unfold Isend. cbn [world_size set_pending]. destruct Hr.
    destruct (Z.leb_spec 0 (target r)); [|lia]. destruct (Z.ltb_spec (target r) (world_size nt)); [|lia]. cbn [andb]. run.
    rewrite length_app in Hf. cbn in Hf. rewrite IH; [|done|lia|done]. run. rewrite rev_app_distr. cbn.
    by rewrite <- app_assoc.
Qed.

(** Requests that were sent between two rounds of the network thread are
    posted in the opposite order: a round takes [pending_sends_] from the back,
    so the request sent last arrives first. *)
Theorem round_reverses finished nt :
  Forall (valid_target nt) (pending_sends_ nt) ->
  exists nt', Run_once finished nt None = Ok (nt', rev (pending_sends_ nt)) /\ pending_sends_ nt' = [] /\
    active_sends_ nt' = filter (fun r => finished r = false) (active_sends_ nt ++ rev (pending_sends_ nt)).
Proof.
  intros Hv. unfold Run_once. run. rewrite (post_loop_spec (pending_sends_ nt)) by (done || lia). run. by eexists.
Qed.

(** ** Reading *)
Lemma check_queue_some q src type : 0 <= src < kMaxHosts -> 0 <= type < kMaxMethods ->
  check_queue q src type =
  Ok (match queue_of q type src with [] => None | s :: rest => Some (s, <[(type, src) := rest]> q) end).
Proof.
  intros Hs Ht. unfold check_queue, CHECK. destruct (Z.ltb_spec src kMaxHosts); [|lia]. run.
  destruct (Z.ltb_spec type kMaxMethods); [|lia]. run.
  destruct (Z.ltb_spec src 0); [lia|]. destruct (Z.ltb_spec type 0); [lia|]. cbn. by destruct (queue_of q type src).
Qed.

(** [TryRead] from any source takes the oldest request of the lowest source
    that has one and changes no other queue; it reports nothing exactly when
    every source's queue for the tag is empty. *)
Theorem try_read_any nt type :
  0 <= type < kMaxMethods -> world_size nt <= kMaxHosts ->
  match TryRead nt ANY_SOURCE type with
  | Ok None => forall s, 0 <= s < world_size nt -> queue_of (requests nt) type s = []
  | Ok (Some (s, d, nt')) =>
      0 <= s < world_size nt /\ (forall s', 0 <= s' < s -> queue_of (requests nt) type s' = []) /\
      queue_of (requests nt) type s = d :: queue_of (requests nt') type s /\
      forall tag s', (tag, s') <> (type, s) -> queue_of (requests nt') tag s' = queue_of (requests nt) tag s'
  | _ => False
  end.
Proof.
  intros Ht Hn. unfold TryRead. rewrite Z.eqb_refl.
  assert (forall srcs done0, seqZ 0 (world_size nt) = done0 ++ srcs ->
    (forall s', s' ∈ done0 -> queue_of (requests nt) type s' = []) ->
    match try_sources srcs nt type with
    | Ok None => forall s, 0 <= s < world_size nt -> queue_of (requests nt) type s = []
    | Ok (Some (s, d, nt')) =>
        0 <= s < world_size nt /\ (forall s', 0 <= s' < s -> queue_of (requests nt) type s' = []) /\
        queue_of (requests nt) type s = d :: queue_of (requests nt') type s /\
        forall tag s', (tag, s') <> (type, s) -> queue_of (requests nt') tag s' = queue_of (requests nt) tag s'
    | _ => False
    end) as Hgen; [|by apply (Hgen _ []); [|by intros ? ?%not_elem_of_nil]].
  induction srcs as [|i srcs IH]; intros done0 Hsplit Hdone; cbn [try_sources].
  { rewrite app_nil_r in Hsplit. intros s Hs. apply Hdone. rewrite <- Hsplit. apply elem_of_seqZ. lia. }
  assert (0 <= i < world_size nt /\ i = Z.of_nat (length done0)) as [Hi Hlen].
  { assert (seqZ 0 (world_size nt) !! length done0 = Some i) as El.
    { rewrite Hsplit, lookup_app_r, Nat.sub_diag by lia. done. }
    apply lookup_seqZ in El. lia. }
  unfold check_request_queue. rewrite check_queue_some by lia. run.
  destruct (queue_of (requests nt) type i) as [|d rest] eqn:Eq; run.
  - apply (IH (done0 ++ [i])); [by rewrite <- app_assoc|]. intros s' [Hin|Hin%list_elem_of_singleton]%elem_of_app;
      [by apply Hdone|by subst s'].
  - split; [done|]. split_and!.
    + intros s' Hs'. apply Hdone. assert (done0 = seqZ 0 i) as ->; [|apply elem_of_seqZ; lia].
      apply (app_inj_1 _ _ (i :: srcs) (drop (Z.to_nat i) (seqZ 0 (world_size nt)))).
      * rewrite length_seqZ. lia.
      * rewrite <- Hsplit. replace (seqZ 0 i) with (take (Z.to_nat i) (seqZ 0 (world_size nt))); [by rewrite take_drop|].
        replace (world_size nt) with (i + (world_size nt - i)) by lia. rewrite seqZ_app by lia. rewrite take_app_length'; [done|]. rewrite length_seqZ. lia.
    + rewrite Eq. unfold queue_of. cbn [requests set_requests]. by rewrite lookup_insert_eq.
    + intros tag s' Hne. unfold queue_of at 1. cbn [requests set_requests]. by rewrite lookup_insert_ne.
Qed.

Lemma queue_insert (q : gmap (Z * Z) (list cstr)) tag0 s0 rest tag s :
  queue_of (<[(tag0, s0) := rest]> q) tag s = if decide (tag = tag0 /\ s = s0) then rest else queue_of q tag s.
Proof.
  unfold queue_of. case_decide as Ed; [destruct Ed as [-> ->]; by rewrite lookup_insert_eq|].
  rewrite lookup_insert_ne; [done|]. intros [= -> ->]. by apply Ed.
Qed.
(** One round over sources that the round has not touched. *)
Lemma sync_round_spec (q0 : gmap (Z * Z) (list cstr)) method srcs : forall nt count,
  0 <= method < kMaxMethods -> NoDup srcs -> Forall (fun i => 0 <= i < kMaxHosts) srcs ->
  (forall i, i ∈ srcs -> queue_of (replies nt) method i = queue_of q0 method i) ->
  exists nt', sync_round srcs nt method count =
      Ok (nt', count - Z.of_nat (length (filter (fun i => queue_of q0 method i <> []) srcs))) /\
    forall tag s, queue_of (replies nt') tag s =
      if decide (tag = method /\ s ∈ srcs) then tail (queue_of q0 tag s) else queue_of (replies nt) tag s.
Proof.
  induction srcs as [|i srcs IH]; intros nt count Hm Hnd Hs H0; cbn [sync_round].
  { exists nt. split; [f_equal; f_equal; cbn; lia|]. intros tag s. rewrite decide_False; [done|]. by intros [_ ?%not_elem_of_nil]. }
  apply NoDup_cons in Hnd as [Hni Hnd]. apply Forall_cons in Hs as [Hi Hs].
  unfold check_reply_queue. rewrite check_queue_some by lia. run. rewrite filter_cons.
  pose proof (H0 i ltac:(by left)) as Hq0. rewrite Hq0. destruct (queue_of q0 method i) as [|d rest] eqn:Eq; run.
  - destruct (IH nt count Hm Hnd Hs) as (nt' & E & Hq); [by intros j Hj; apply H0; right|].
    exists nt'. rewrite decide_False by naive_solver. split; [done|]. intros tag s. rewrite Hq.
    destruct (decide (tag = method /\ s = i)) as [[-> ->]|Hne].
    + rewrite decide_False, decide_True by (rewrite ?elem_of_cons; naive_solver). by rewrite Eq.
    + apply decide_ext. rewrite elem_of_cons. naive_solver.
  - destruct (IH (set_replies nt (<[(method, i) := rest]> (replies nt))) (count - 1) Hm Hnd Hs) as (nt' & E & Hq).
    { intros j Hj. cbn [replies set_replies]. rewrite queue_insert, decide_False; [by apply H0; right|].
      intros [_ ->]. done. }
    exists nt'. rewrite decide_True by naive_solver. split.
    + rewrite E. f_equal. f_equal. cbn [length]. lia.
    + intros tag s. rewrite Hq. cbn [replies set_replies]. rewrite queue_insert.
      destruct (decide (tag = method /\ s = i)) as [[-> ->]|Hne].
      * rewrite decide_False, decide_True by (rewrite ?elem_of_cons; naive_solver). by rewrite Eq.
      * apply decide_ext. rewrite elem_of_cons. naive_solver.
Qed.

(** [WaitForSync] returns after one round when enough sources have a reply
    for the method, and that round takes one reply from every source that has
    one, also when these are more than it waits for. *)
Theorem sync_collects fuel nt method count :
  0 <= method < kMaxMethods -> world_size nt <= kMaxHosts ->
  count <= Z.of_nat (length (filter (fun i => queue_of (replies nt) method i <> []) (seqZ 0 (world_size nt)))) ->
  0 < count ->
  exists nt', WaitForSync (S fuel) nt method count = Ok nt' /\
    forall tag s, queue_of (replies nt') tag s =
      if decide (tag = method /\ 0 <= s < world_size nt) then tail (queue_of (replies nt) tag s)
      else queue_of (replies nt) tag s.
Proof.
  intros Hm Hn Hc Hpos. cbn [WaitForSync]. destruct (Z.ltb_spec 0 count); [|lia].
  destruct (sync_round_spec (replies nt) method (seqZ 0 (world_size nt)) nt count) as (nt' & E & Hq);
    [done|apply NoDup_seqZ| |done|].
  { apply Forall_forall. intros i Hi%elem_of_seqZ. lia. }
  rewrite E. run. exists nt'. split.
  - destruct fuel; cbn [WaitForSync]; (destruct (Z.ltb_spec 0 (count - Z.of_nat (length (filter
      (fun i => queue_of (replies nt) method i <> []) (seqZ 0 (world_size nt)))))); [lia|done]).
  - intros tag s. rewrite Hq. apply decide_ext. rewrite elem_of_seqZ. naive_solver lia.
Qed.

(** ** Callbacks in threads *)

Definition with_req (ci : CallbackInfo) (m : M) : CallbackInfo :=
  {| ci_req := m; ci_resp := ci_resp ci; ci_call := ci_call ci; spawn_thread := spawn_thread ci |}.
Lemma callback_set nt tag ci ci' nt' :
  callback nt tag = Ok ci -> set_callback nt tag ci' = Ok nt' -> callback nt' tag = Ok (Some ci').
Proof.
  unfold callback, set_callback, vec_at, vec_set. intros Hc E. apply bind_Ok in E as (cs & E & [= <-]).
  destruct (Z.ltb_spec tag 0); [done|]. apply deref_Ok, lookup_lt_Some in Hc. destruct (_ || _); [done|].
  injection E as <-. cbn [callbacks_ set_callbacks]. by rewrite list_lookup_insert_eq.
Qed.
Lemma receive_spawned nt s tag d ci nt' c e :
  callback nt tag = Ok (Some ci) -> spawn_thread ci = true -> is_reply d = false ->
  receive nt s tag d = Ok (nt', c, e) ->
  callback nt' tag = Ok (Some (with_req ci (ParseFromArray (drop 1 d)))) /\ app_state nt' = app_state nt /\ id_ nt' = id_ nt /\
  threads nt' = threads nt ++ [{| rpc_source := s; rpc_dest := id_ nt; rpc_tag := tag |}].
Proof.
  intros Hc Hsp Hd E. unfold receive in E. apply bind_Ok in E as (b & _ & E). apply bind_Ok in E as ([] & _ & E).
  destruct (_ || _); [done|]. rewrite Hd, Hc in E. cbn [mbind outcome_bind] in E.
  apply bind_Ok in E as (nt1 & E1 & E). rewrite Hsp in E. injection E as <- _ _.
  pose proof (callback_set _ _ _ _ _ Hc E1) as Hc1. unfold set_callback in E1.
  apply bind_Ok in E1 as (cs & _ & [= <-]). done.
Qed.

(** A callback that runs in a thread of its own may see another process's
    request: all its calls share one request object, so that when a second
    request for the tag arrives before the first call ran, that call is made
    for the first sender with the second sender's request. *)
Theorem spawned_request_overwritten nt tag ci s1 d1 s2 d2 nt1 c1 e1 nt2 c2 e2 :
  threads nt = [] -> callback nt tag = Ok (Some ci) -> spawn_thread ci = true ->
  is_reply d1 = false -> is_reply d2 = false ->
  receive nt s1 tag d1 = Ok (nt1, c1, e1) -> receive nt1 s2 tag d2 = Ok (nt2, c2, e2) ->
  forall nt3 sends, run_thread nt2 0 = Ok (nt3, sends) ->
  exists s resp more, ci_call ci (app_state nt2) {| rpc_source := s1; rpc_dest := id_ nt; rpc_tag := tag |}
    (ParseFromArray (drop 1 d2)) (ci_resp ci) = Ok (s, resp, more) /\ app_state nt3 = s /\
    sends = (outgoing_request <$> more) ++ [RPCRequest_msg s1 tag resp true].
Proof.
  intros Ht Hc Hsp Hd1 Hd2 E1 E2 nt3 sends E3.
  destruct (receive_spawned _ _ _ _ _ _ _ _ Hc Hsp Hd1 E1) as (Hc1 & A1 & I1 & T1).
  destruct (receive_spawned _ _ _ _ _ _ _ _ Hc1 Hsp Hd2 E2) as (Hc2 & A2 & I2 & T2).
  unfold run_thread in E3. rewrite T2, T1, Ht in E3. cbn [app lookup list_lookup deref mbind outcome_bind] in E3.
  unfold InvokeCallback in E3. cbn [rpc_tag rpc_source] in E3.
  change (callback (set_threads nt2 _) tag) with (callback nt2 tag) in E3. rewrite Hc2 in E3.
  cbn [mbind outcome_bind deref] in E3. apply bind_Ok in E3 as ([[s resp] more] & Ecall & E3).
  apply bind_Ok in E3 as (nt4 & E4 & E3). injection E3 as <- <-. exists s, resp, more. split_and!; [exact Ecall| |done].
  rewrite Send_all_spec. unfold set_callback in E4. by apply bind_Ok in E4 as (cs & _ & [= <-]).
Qed.
End Rpc.

(** ** Two processes whose messages are strings *)
Section Sample.
#[local] Abbreviation thread := (NetworkThread (M := cstr) (App := cstr)).
Definition echo (s : cstr) (rpc : RPCInfo) (req resp : cstr) : outcome (cstr * cstr * list (outgoing (M := cstr))) :=
  Ok (s ++ req, req, []).
Definition idle (i : Z) : thread := NetworkThread_new i 2 [].
Definition hello : RPCRequest := RPCRequest_msg (fun m => m) 1 7 (lit "a") false.
Definition again : RPCRequest := RPCRequest_msg (fun m => m) 1 7 (lit "b") false.
Definition to_1 : flow := Flow 0 1 7 false.
Definition get_ok {A} (m : outcome A) (d : A) : A := match m with Ok a => a | _ => d end.

Definition w0 : world := World [idle 0; idle 1] ∅.
Definition n1 : thread := Send (idle 0) hello.
Definition n2 : thread := (get_ok (post n1) (idle 0, None)).1.
Definition w2 : world := add_packet (set_proc (set_proc w0 0 n1) 0 n2) 0 hello.
Definition m1 : thread := (get_ok (receive (fun m => m) (fun m => m) (idle 1) 0 7 (payload hello)) (idle 1, false, [])).1.1.
Definition w3 : world := World (<[1%nat := m1]> (procs w2)) (<[(0, 1) := []]> (chan w2)).
Definition sample_events : list event :=
  [Sent to_1 (payload hello); Posted to_1 (payload hello)].

Lemma rpc_sample_run : steps (fun m => m) (fun m => m) w0 sample_events w3.
Proof.
  apply (steps_next _ _ w0 [Sent to_1 (payload hello)] (set_proc w0 0 n1)).
  { exact (step_send _ _ w0 0 (idle 0) 1 7 (lit "a") eq_refl). }
  apply (steps_next _ _ _ [Posted to_1 (payload hello)] w2).
  { exact (step_post _ _ (set_proc w0 0 n1) 0 n1 n2 hello eq_refl eq_refl). }
  apply (steps_next _ _ _ [] w3 []); [|apply steps_refl].
  exact (step_receive _ _ w2 1 (idle 1) 0 7 (payload hello) [] m1 false [] eq_refl eq_refl eq_refl).
Qed.
Lemma sample_handled : handled_all w0.
Proof.
  repeat constructor; intros tag ci s Hc _; cbn [callbacks_ idle NetworkThread_new] in Hc;
    apply lookup_replicate in Hc as [Hc _]; discriminate Hc.
Qed.
Lemma rpc_fifo_witness : transit w3 to_1 = [payload hello].
Proof.
  pose proof (rpc_fifo (fun m => m) (fun m => m) w0 sample_events w3 to_1 sample_handled ltac:(by vm_compute) rpc_sample_run) as E.
  rewrite <- (app_nil_l (transit w3 to_1)). symmetry. exact E.
Defined.
Lemma rpc_conserves_witness : waiting w3 to_1 ++ transit w3 to_1 ≡ₚ [payload hello].
Proof.
  pose proof (rpc_conserves (fun m => m) (fun m => m) w0 sample_events w3 to_1 sample_handled
    ltac:(by vm_compute) ltac:(by vm_compute) rpc_sample_run) as E.
  symmetry. exact E.
Defined.
Lemma round_reverses_witness :
  exists nt', Run_once (fun m => m) (fun m => m) (fun _ => false) (Send (Send (idle 0) hello) again) None = Ok (nt', [again; hello]).
Proof.
  destruct (round_reverses (fun m => m) (fun m => m) (fun _ => false) (Send (Send (idle 0) hello) again)) as (nt' & E & _).
  - by repeat constructor.
  - exists nt'. exact E.
Defined.
Lemma try_read_any_witness :
  match TryRead m1 ANY_SOURCE 7 with
  | Ok (Some (s, d, _)) => queue_of (requests m1) 7 s <> [] /\ d = payload hello
  | _ => False
  end.
Proof.
  pose proof (try_read_any m1 7 ltac:(split; by vm_compute) ltac:(by vm_compute)) as E.
  destruct (TryRead m1 ANY_SOURCE 7) as [[[[s d] nt']|]| | | |] eqn:Er; try done.
  destruct E as (_ & _ & E & _). split; [by rewrite E|]. vm_compute in Er. by injection Er as _ <- _.
Defined.

(** Both workers answered. *)
Definition answered : thread :=
  set_replies (NetworkThread_new 0 3 []) (push_back (push_back ∅ 5 1 (header true)) 5 2 (header true)).
Lemma sync_collects_witness : exists nt', WaitForSync 1 answered 5 2 = Ok nt' /\ queue_of (replies nt') 5 2 = [].
Proof.
  destruct (sync_collects (fun m => m) (fun m => m) 0 answered 5 2 ltac:(split; by vm_compute) ltac:(by vm_compute)) as (nt' & E & Hq).
  - by vm_compute.
  - lia.
  - exists nt'. split; [exact E|]. by rewrite Hq.
Defined.

(** A callback for tag 3 that runs in a thread. *)
Definition serving : thread :=
  get_ok (nt ← _RegisterCallback (idle 1) 3 [] [] echo; SpawnThreadFor nt 3) (idle 1).
Definition echo_info : CallbackInfo :=
  {| ci_req := []; ci_resp := []; ci_call := echo; spawn_thread := true |}.
Definition got (nt : thread) (s : Z) (m : cstr) : thread :=
  (get_ok (receive (fun m => m) (fun m => m) nt s 3 (header false ++ m)) (idle 1, false, [])).1.1.
Definition ran : thread * list RPCRequest :=
  get_ok (run_thread (fun m => m) (got (got serving 0 (lit "x")) 1 (lit "y")) 0) (idle 1, []).
Lemma spawned_request_overwritten_witness :
  app_state ran.1 = lit "y" /\ ran.2 = [RPCRequest_msg (fun m => m) 0 3 (lit "y") true].
Proof.
  destruct (spawned_request_overwritten (fun m => m) (fun m => m) serving 3 echo_info 0 (header false ++ lit "x")
    1 (header false ++ lit "y") (got serving 0 (lit "x")) true [] (got (got serving 0 (lit "x")) 1 (lit "y")) true []
    eq_refl eq_refl eq_refl eq_refl eq_refl eq_refl eq_refl ran.1 ran.2 eq_refl) as (s & resp & more & E & -> & ->).
  injection E as <- <- <-. split; reflexivity.
Defined.
End Sample.
End Rpc.
