(* ===== verification/RpcSync.v ===== *)
(** * Blocking calls of the network thread

    [Read], [Call], [Flush], [WaitForSync] and [SyncBroadcast] of util/rpc.cc
    poll the queues of the network thread while the threads of all processes
    go on.  What these do between two polls is a function of the poll, any run
    of the world of Rpc.v.  [SyncBroadcast] is the barrier by which the master
    makes sure that every worker has handled a request. *)
From S2P Require Import Prelude StringPiece Rpc.

Module RpcSync.
Import Rpc.
Section RpcSync.
Context {M App : Type}.
Variable AppendToString : M -> cstr.
Variable ParseFromArray : cstr -> M.
Abbreviation thread := (NetworkThread (M := M) (App := App)).
Abbreviation world := (world (M := M) (App := App)).
Abbreviation steps := (steps (M := M) (App := App) AppendToString ParseFromArray).
Abbreviation step := (step (M := M) (App := App) AppendToString ParseFromArray).
Implicit Types (w : world) (nt : thread).

(** What happens during the [k]-th [Sleep]. *)
Variable during : nat -> world -> world.

(** Polls of process [p] until one succeeds. *)
Fixpoint await {A} (fuel k : nat) (p : nat) (poll : thread -> outcome (option (A * thread))) w : outcome (A * world) :=
  match fuel with
  | O => OutOfFuel
  | S fuel =>
    nt ← deref (procs w !! p);
    r ← poll nt;
    match r with
    | Some (a, nt) => Ok (a, set_proc w p nt)
    | None => await fuel (S k) p poll (during k w)
    end
  end.
Definition read_poll (src type : Z) nt : outcome (option (Z * cstr * thread)) := TryRead nt src type.
Definition Read (fuel : nat) (p : nat) w (desired_src type : Z) : outcome (Z * cstr * world) :=
  await fuel 0 p (read_poll desired_src type) w.
Definition Call (fuel : nat) (p : nat) w (dst method : Z) (msg : M) : outcome (cstr * world) :=
  nt ← deref (procs w !! p);
  await fuel 0 p (fun nt => check_reply_queue nt dst method)
    (set_proc w p (Send_msg AppendToString nt dst method msg).1).
Fixpoint Flush (fuel k : nat) (p : nat) w : outcome world :=
  match fuel with
  | O => OutOfFuel
  | S fuel =>
    nt ← deref (procs w !! p);
    if active nt then Flush fuel (S k) p (during k w) else Ok w
  end.

(** [WaitForSync] with the replies that arrive between its rounds. *)
Fixpoint wait_sync (fuel k : nat) (p : nat) w (method count : Z) : outcome world :=
  if 0 <? count then
    match fuel with
    | O => OutOfFuel
    | S fuel =>
      nt ← deref (procs w !! p);
      '(nt, count) ← sync_round (seqZ 0 (world_size nt)) nt method count;
      wait_sync fuel (S k) p (during k (set_proc w p nt)) method count
    end
  else Ok w.
Definition SyncBroadcast (fuel : nat) (p : nat) w (method : Z) (msg : M) : outcome world :=
  nt ← deref (procs w !! p);
  let nt := Broadcast AppendToString nt method msg in
  wait_sync fuel 0 p (set_proc w p nt) method (world_size nt - 1).

(** ** Requests and their replies *)
Lemma is_reply_header b m : is_reply (header b ++ m) = b.
Proof. by destruct b. Qed.
Abbreviation reply_to := (fun rpc resp => RPCRequest_msg AppendToString (rpc_source rpc) (rpc_tag rpc) resp true).

Lemma invoke_replies nt rpc nt' sends :
  InvokeCallback AppendToString nt rpc = Ok (nt', sends) ->
  threads nt' = threads nt /\
  exists os resp, sends = (outgoing_request AppendToString <$> os) ++ [reply_to rpc resp].
Proof.
  intros (c & Hc & E)%bind_Ok. apply bind_Ok in E as (ci & _ & E). apply bind_Ok in E as ([[a resp] os] & _ & E).
  apply bind_Ok in E as (nt1 & E1 & [= <- <-]). apply bind_Ok in E1 as (cs & _ & [= <-]).
  rewrite Send_all_spec. split; [done|]. by exists os, resp.
Qed.
Lemma receive_replies nt s tag data nt' consumed sends :
  receive AppendToString ParseFromArray nt s tag data = Ok (nt', consumed, sends) ->
  let rpc := {| rpc_source := s; rpc_dest := id_ nt; rpc_tag := tag |} in
  (consumed = false /\ threads nt' = threads nt /\ sends = []) \/
  (consumed = true /\ is_reply data = false /\ threads nt' = threads nt ++ [rpc] /\ sends = []) \/
  (consumed = true /\ is_reply data = false /\ threads nt' = threads nt /\
   exists os resp, sends = (outgoing_request AppendToString <$> os) ++ [reply_to rpc resp]).
Proof.
  unfold receive. intros (b & _ & E)%bind_Ok. apply bind_Ok in E as ([] & _ & E). destruct (_ || _); [done|].
  destruct (is_reply data); [injection E as <- <- <-; by left|].
  apply bind_Ok in E as ([ci|] & _ & E); [|injection E as <- <- <-; by left]. right.
  apply bind_Ok in E as (nt1 & E1 & E). apply bind_Ok in E1 as (cs & _ & [= <-]).
  destruct (spawn_thread ci); [injection E as <- <- <-; by left|]. right.
  apply bind_Ok in E as ([nt2 sd] & E2 & [= <- <- <-]). by apply invoke_replies in E2 as [? ?].
Qed.

(** ** What no step changes *)
Definition frame nt nt' : Prop := world_size nt' = world_size nt /\ shape nt' = shape nt.
Lemma frame_refl nt : frame nt nt.
Proof. done. Qed.
Lemma set_callback_size nt tag ci nt' : set_callback nt tag ci = Ok nt' -> world_size nt' = world_size nt.
Proof. by intros (cs & _ & [= <-])%bind_Ok. Qed.
Lemma invoke_frame nt rpc nt' sends : InvokeCallback AppendToString nt rpc = Ok (nt', sends) -> frame nt nt'.
Proof.
  intros E. split; [|by apply invoke_keeps in E as [(_ & _ & ?) _]].
  apply bind_Ok in E as (c & _ & E). apply bind_Ok in E as (ci & _ & E). apply bind_Ok in E as ([[a resp] os] & _ & E).
  apply bind_Ok in E as (nt1 & E1%set_callback_size & [= <- <-]). by rewrite Send_all_spec.
Qed.
Lemma receive_frame nt s tag data nt' consumed sends :
  receive AppendToString ParseFromArray nt s tag data = Ok (nt', consumed, sends) -> frame nt nt'.
Proof.
  intros E. split; [|by apply receive_spec in E as (_ & ? & _)].
  apply bind_Ok in E as (b & _ & E). apply bind_Ok in E as ([] & _ & E). destruct (_ || _); [done|].
  destruct (is_reply data); [by injection E as <- _ _|]. apply bind_Ok in E as ([ci|] & _ & E); [|by injection E as <- _ _].
  apply bind_Ok in E as (nt1 & E1%set_callback_size & E). destruct (spawn_thread ci); [by injection E as <- _ _|].
  apply bind_Ok in E as ([nt2 sd] & [E2 _]%invoke_frame & [= <- _ _]). congruence.
Qed.
Lemma post_frame nt nt' r : post nt = Ok (nt', Some r) -> frame nt nt'.
Proof.
  unfold post. destruct (last _) as [s|]; [|done]. intros (nt1 & E1 & [= <- <-])%bind_Ok.
  unfold Isend in E1. destruct (_ && _); [|done]. by injection E1 as <-.
Qed.
Lemma set_frame w r nt nt' i x : procs w !! r = Some nt -> frame nt nt' -> procs w !! i = Some x ->
  exists x', <[r := nt']> (procs w) !! i = Some x' /\ frame x x'.
Proof.
  intros Hr Hf Hi. destruct (decide (r = i)) as [->|Hne].
  - exists nt'. rewrite list_lookup_insert_eq by (by eapply lookup_lt_Some). rewrite Hr in Hi. by injection Hi as <-.
  - exists x. by rewrite list_lookup_insert_ne.
Qed.
Lemma step_frame w evs w' i x : step w evs w' -> procs w !! i = Some x ->
  exists x', procs w' !! i = Some x' /\ frame x x'.
Proof.
  intros Hs Hi. destruct Hs as [w r nt dst m msg Hp rq|w r nt dst m msg nt' rq Hp E|w r nt nt' rq Hp E
    |w r nt s tag data rest nt' consumed sends Hp Hc E|w r nt fin Hp|w r nt src type s d nt' Hp E
    |w r nt src type d nt' Hp E|w r nt k nt' sends Hp E]; cbn [procs set_proc add_packet]; apply (set_frame w r nt); try done.
  - apply bind_Ok in E as (nt1 & E1 & [= <- <-]). unfold Isend in E1. destruct (_ && _); [|done]. by injection E1 as <-.
  - by eapply post_frame.
  - by eapply receive_frame.
  - apply TryRead_spec in E. by apply bind_Ok in E as ([[d' q']|] & _ & [= -> <-]).
  - by apply bind_Ok in E as ([[d' q']|] & _ & [= -> <-]).
  - by apply bind_Ok in E as (rpc & _ & E%invoke_frame).
Qed.
Lemma steps_frame w evs w' i x : steps w evs w' -> procs w !! i = Some x ->
  exists x', procs w' !! i = Some x' /\ frame x x'.
Proof.
  intros Hs. revert x. induction Hs as [w|w1 e1 w2 e2 w3 Hst _ IH]; intros x Hi; [by exists x|].
  destruct (step_frame _ _ _ _ _ Hst Hi) as (y & Hy & F1 & F2). destruct (IH _ Hy) as (z & Hz & F3 & F4).
  exists z. split; [done|]. split; congruence.
Qed.

(** The requests that process [p] makes to process [q] under [method], and the
    replies. *)
Section Pair.
Variables (p q : nat) (method : Z).
Definition req : flow := Flow (Z.of_nat p) (Z.of_nat q) method false.
Definition rep : flow := Flow (Z.of_nat q) (Z.of_nat p) method true.
Definition waits_for (rpc : RPCInfo) : Prop := rpc_source rpc = Z.of_nat p /\ rpc_tag rpc = method.
#[local] Instance waits_dec rpc : Decision (waits_for rpc).
Proof. unfold waits_for. apply _. Defined.
(** The calls for [p] in threads of [q] that have not run. *)
Definition spawned w : nat :=
  from_option (fun nt => length (filter waits_for (threads nt))) 0%nat (procs w !! q).

Lemma pend_outgoing r os : pend r rep (outgoing_request AppendToString <$> os) = [].
Proof.
  induction os as [|o os IH]; [done|]. unfold pend in *. cbn [fmap list_fmap omap list_omap].
  rewrite decide_False; [exact IH|]. unfold req_flow, rep. cbn [payload outgoing_request RPCRequest_msg].
  by rewrite is_reply_header.
Qed.
(** A callback's reply counts when it answers [p]. *)
Lemma sent_reply r rpc os resp :
  length (sent rep (sent_events r ((outgoing_request AppendToString <$> os) ++ [reply_to rpc resp]))) =
  if decide (r = q /\ waits_for rpc) then 1%nat else 0%nat.
Proof.
  rewrite sent_pend. unfold pend. rewrite omap_app. change (omap _ (outgoing_request _ <$> os)) with (pend r rep (outgoing_request AppendToString <$> os)).
  rewrite pend_outgoing. cbn [app omap list_omap]. unfold req_flow, rep, waits_for.
  cbn [payload RPCRequest_msg target rpc_type]. rewrite is_reply_header.
  destruct (decide (r = q /\ rpc_source rpc = Z.of_nat p /\ rpc_tag rpc = method)) as [(-> & Hs & Ht)|Hne].
  - rewrite decide_True by (by rewrite Hs, Ht). done.
  - rewrite decide_False; [done|]. intros [= Hr Hs Ht]. apply Hne. split_and!; [lia|done..].
Qed.
Lemma spawned_set w r nt nt' : procs w !! r = Some nt ->
  (r = q -> spawned (set_proc w r nt') = length (filter waits_for (threads nt')) /\
            spawned w = length (filter waits_for (threads nt))) /\
  (r <> q -> spawned (set_proc w r nt') = spawned w).
Proof.
  intros Hr. unfold spawned, set_proc. cbn [procs]. split.
  - intros <-. by rewrite list_lookup_insert_eq, Hr by (by eapply lookup_lt_Some).
  - intros Hne. by rewrite list_lookup_insert_ne.
Qed.
Lemma spawned_same w r nt nt' : procs w !! r = Some nt -> threads nt' = threads nt ->
  spawned (set_proc w r nt') = spawned w.
Proof.
  intros Hr Ht. destruct (spawned_set w r nt nt' Hr) as [H1 H2]. destruct (decide (r = q)) as [Hq|Hq]; [|by apply H2].
  destruct (H1 Hq) as [-> ->]. by rewrite Ht.
Qed.
Lemma spawned_world ps ch ch' : spawned (World ps ch) = spawned (World ps ch').
Proof. done. Qed.

(** Replies and waiting calls are covered by the requests taken. *)
Lemma step_replies w evs w' : step w evs w' ->
  (length (sent rep evs) + spawned w' <= length (taken req evs) + spawned w)%nat.
Proof.
  intros Hs. destruct Hs as [w r nt dst m msg Hp rq|w r nt dst m msg nt' rq Hp E|w r nt nt' rq Hp E
    |w r nt s tag data rest nt' consumed sends Hp Hc E|w r nt fin Hp|w r nt src type s d nt' Hp E
    |w r nt src type d nt' Hp E|w r nt i nt' sends Hp E].
  - rewrite (spawned_same _ _ nt) by done. rewrite sent_one, decide_False; [cbn; lia|].
    subst rq. unfold req_flow, rep. cbn [payload RPCRequest_msg]. by rewrite is_reply_header.
  - apply bind_Ok in E as (nt1 & E1 & [= <- <-]). unfold Isend in E1. destruct (_ && _); [|done]. injection E1 as <-.
    change (spawned (add_packet ?w' _ _)) with (spawned w'). rewrite (spawned_same _ _ nt) by done.
    unfold sent. cbn [omap list_omap]. rewrite decide_False; [cbn; lia|].
    unfold req_flow, rep. cbn [payload RPCRequest_msg]. by rewrite is_reply_header.
  - unfold post in E. destruct (last _) as [s|]; [|done]. apply bind_Ok in E as (nt1 & E1 & [= <- <-]).
    unfold Isend in E1. destruct (_ && _); [|done]. injection E1 as <-.
    change (spawned (add_packet ?w' _ _)) with (spawned w'). rewrite (spawned_same _ _ nt) by done. cbn. lia.
  - change (spawned (World (<[r := nt']> (procs w)) _)) with (spawned (set_proc w r nt')).
    destruct (picks_app rep (if consumed then [Taken (Flow s (Z.of_nat r) tag (is_reply data)) data] else []) (sent_events r sends)) as (-> & _ & _).
    destruct (picks_app req (if consumed then [Taken (Flow s (Z.of_nat r) tag (is_reply data)) data] else []) (sent_events r sends)) as (_ & _ & ->).
    rewrite length_app. destruct (posted_sent req r sends) as [_ ->].
    destruct (receive_replies _ _ _ _ _ _ _ E) as [(-> & Ht & ->)|[(-> & Hd & Ht & ->)|(-> & Hd & Ht & os & resp & ->)]].
    + rewrite (spawned_same _ _ nt) by done. cbn. lia.
    + rewrite app_nil_r, taken_one, Hd. cbn [sent omap list_omap length].
      destruct (spawned_set w r nt nt' Hp) as [H1 H2]. destruct (decide (r = q)) as [Hq|Hq].
      * destruct (H1 Hq) as [-> ->]. rewrite Ht, filter_app, length_app, filter_cons, filter_nil.
        unfold req, waits_for. cbn [rpc_source rpc_tag]. repeat case_decide; cbn; try lia. naive_solver.
      * rewrite (H2 Hq). repeat case_decide; cbn; lia.
    + rewrite app_nil_r, taken_one, Hd, (spawned_same _ _ nt), sent_reply by done.
      cbn [sent omap list_omap length]. unfold req, waits_for. cbn [rpc_source rpc_tag].
      repeat case_decide; cbn; try lia. naive_solver.
  - rewrite (spawned_same _ _ nt) by done. cbn. lia.
  - apply TryRead_spec in E. apply bind_Ok in E as ([[d' q']|] & _ & [= -> <-]).
    rewrite (spawned_same _ _ nt) by done. cbn [sent omap list_omap length]. lia.
  - apply bind_Ok in E as ([[d' q']|] & _ & [= -> <-]).
    rewrite (spawned_same _ _ nt) by done. cbn [sent omap list_omap length]. lia.
  - destruct (posted_sent req r sends) as [_ ->]. apply bind_Ok in E as (rpc & Hr%deref_Ok & E).
    apply invoke_replies in E as (Ht & os & resp & ->). rewrite sent_reply. cbn [length].
    destruct (spawned_set w r nt nt' Hp) as [H1 H2]. destruct (decide (r = q)) as [Hq|Hq].
    + destruct (H1 Hq) as [-> ->]. rewrite Ht. cbn [threads set_threads].
      rewrite <- (take_drop_middle (threads nt) i rpc Hr) at 3. rewrite !filter_app, !length_app, filter_cons.
      repeat case_decide; cbn; try lia. naive_solver.
    + rewrite (H2 Hq). rewrite decide_False by naive_solver. lia.
Qed.
Lemma steps_replies w evs w' : steps w evs w' ->
  (length (sent rep evs) + spawned w' <= length (taken req evs) + spawned w)%nat.
Proof.
  induction 1 as [w|w1 e1 w2 e2 w3 Hst _ IH]; [done|]. apply step_replies in Hst.
  destruct (picks_app rep e1 e2) as (-> & _ & _). destruct (picks_app req e1 e2) as (_ & _ & ->).
  rewrite !length_app. lia.
Qed.
(** What a process without a callback for [method] answers. *)
Definition unhandled w : Prop :=
  exists nt, procs w !! q = Some nt /\ shape nt !! Z.to_nat method = Some false.
Lemma unhandled_invoke nt rpc nt' sends : shape nt !! Z.to_nat method = Some false ->
  InvokeCallback AppendToString nt rpc = Ok (nt', sends) -> rpc_tag rpc <> method.
Proof.
  intros Hsh (c & Hc & E)%bind_Ok Ht. apply bind_Ok in E as (ci & ->%deref_Ok & _).
  rewrite Ht in Hc. unfold callback, vec_at in Hc. destruct (method <? 0); [done|]. apply deref_Ok in Hc.
  unfold shape in Hsh. by rewrite list_lookup_fmap, Hc in Hsh.
Qed.
Lemma reply_flow r rpc os resp : rpc_tag rpc <> method ->
  sent rep (sent_events r ((outgoing_request AppendToString <$> os) ++ [reply_to rpc resp])) = [].
Proof.
  intros Hne. apply length_zero_iff_nil. rewrite sent_reply, decide_False; [done|]. unfold waits_for. naive_solver.
Qed.
Lemma reply_from_other r sends : r <> q -> sent rep (sent_events r sends) = [].
Proof. intros Hne. rewrite sent_pend. apply pend_other. cbn. lia. Qed.
Lemma step_unhandled w evs w' : unhandled w -> step w evs w' -> sent rep evs = [].
Proof.
  intros (x & Hq & Hsh) Hs. destruct Hs as [w r nt dst m msg Hp rq|w r nt dst m msg nt' rq Hp E|w r nt nt' rq Hp E
    |w r nt s tag data rest nt' consumed sends Hp Hc E|w r nt fin Hp|w r nt src type s d nt' Hp E
    |w r nt src type d nt' Hp E|w r nt i nt' sends Hp E]; try done.
  - rewrite sent_one, decide_False; [done|]. subst rq. unfold req_flow, rep. cbn [payload RPCRequest_msg].
    by rewrite is_reply_header.
  - apply bind_Ok in E as (nt1 & _ & [= <- <-]). unfold sent. cbn [omap list_omap]. rewrite decide_False; [done|].
    unfold req_flow, rep. cbn [payload RPCRequest_msg]. by rewrite is_reply_header.
  - destruct (picks_app rep (if consumed then [Taken (Flow s (Z.of_nat r) tag (is_reply data)) data] else []) (sent_events r sends)) as (-> & _ & _).
    replace (sent rep (if consumed then _ else _)) with (@nil cstr) by (by destruct consumed). cbn [app].
    destruct (decide (r = q)) as [->|Hne]; [|by apply reply_from_other]. rewrite Hq in Hp. injection Hp as <-.
    destruct (receive_replies _ _ _ _ _ _ _ E) as [(_ & _ & ->)|[(_ & _ & _ & ->)|(-> & Hd & _ & os & resp & ->)]]; [done..|].
    apply reply_flow. cbn [rpc_tag]. intros ->.
    apply receive_spec in E as (Ht & _ & _ & E). rewrite Hd in E. destruct E as (_ & _ & ci & Hci).
    unfold callback, vec_at in Hci. destruct (method <? 0); [done|]. apply deref_Ok in Hci.
    unfold shape in Hsh. by rewrite list_lookup_fmap, Hci in Hsh.
  - destruct (decide (r = q)) as [->|Hne]; [|by apply reply_from_other]. rewrite Hq in Hp. injection Hp as <-.
    apply bind_Ok in E as (rpc & _ & E). pose proof (unhandled_invoke (set_threads x (take i (threads x) ++ drop (S i) (threads x))) _ _ _ Hsh E).
    apply invoke_replies in E as (_ & os & resp & ->). by apply reply_flow.
Qed.
Lemma steps_unhandled w evs w' : unhandled w -> steps w evs w' -> sent rep evs = [].
Proof.
  intros Hu Hs. induction Hs as [w|w1 e1 w2 e2 w3 Hst _ IH]; [done|].
  destruct (picks_app rep e1 e2) as (-> & _ & _). rewrite (step_unhandled _ _ _ Hu Hst). apply IH.
  destruct Hu as (x & Hq & Hsh). destruct (step_frame _ _ _ _ _ Hst Hq) as (y & Hy & _ & Hf). exists y. by rewrite Hf.
Qed.
End Pair.

(** ** The rounds of [WaitForSync] *)
Section Wait.
Variables (p : nat) (method : Z).
Abbreviation req := (fun q => req p q method).
Abbreviation rep := (fun q => rep p q method).

(** The replies taken from the first [n] processes. *)
Definition answers (n : nat) (evs : list event) : nat :=
  sum_list_with (fun q => length (taken (rep q) evs)) (seq 0 n).
(** Events that neither make a request under [method] nor take a reply. *)
Definition quiet (evs : list event) : Prop :=
  forall q, sent (req q) evs = [] /\ taken (rep q) evs = [].

Lemma answers_app n e1 e2 : answers n (e1 ++ e2) = (answers n e1 + answers n e2)%nat.
Proof.
  apply sum_with_add. intros q. destruct (picks_app (rep q) e1 e2) as (_ & _ & ->). apply length_app.
Qed.
Lemma answers_quiet n evs : quiet evs -> answers n evs = 0%nat.
Proof. intros H. apply sum_with_zero. intros q. by destruct (H q) as [_ ->]. Qed.
Lemma answers_one n i d : (i < n)%nat -> answers n [Taken (rep i) d] = 1%nat.
Proof.
  intros Hi. unfold answers. transitivity (sum_list_with (fun q => if decide (q = i) then 1 else 0)%nat (seq 0 n)).
  - induction (seq 0 n) as [|x l IH]; cbn [sum_list_with]; [done|]. rewrite IH, taken_one. f_equal.
    unfold RpcSync.rep. destruct (decide (x = i)) as [->|Hne]; [by rewrite decide_True|].
    rewrite decide_False; [done|]. intros [=]. lia.
  - rewrite sum_with_single by apply NoDup_seq. rewrite decide_True; [done|]. apply elem_of_seq. lia.
Qed.

Lemma steps_app w1 e1 w2 e2 w3 : steps w1 e1 w2 -> steps w2 e2 w3 -> steps w1 (e1 ++ e2) w3.
Proof.
  induction 1 as [w|w1 e1 w2 e2' w4 Hst _ IH]; intros H2; [done|]. rewrite <- app_assoc.
  eapply steps_next; [exact Hst|]. by apply IH.
Qed.
Lemma steps_one w e w' : step w e w' -> steps w e w'.
Proof. intros H. rewrite <- (app_nil_r e). eapply steps_next; [exact H|]. constructor. Qed.
Lemma set_proc_twice w nt nt' : set_proc (set_proc w p nt) p nt' = set_proc w p nt'.
Proof. unfold set_proc. cbn [procs chan]. by rewrite list_insert_insert_eq. Qed.
Lemma set_proc_same w nt : procs w !! p = Some nt -> set_proc w p nt = w.
Proof. intros H. unfold set_proc. rewrite list_insert_id by done. by destruct w. Qed.
Lemma procs_set w nt nt' : procs w !! p = Some nt -> procs (set_proc w p nt') !! p = Some nt'.
Proof. intros H. cbn. apply list_lookup_insert_eq. by eapply lookup_lt_Some. Qed.

(** A round is a run that takes the replies by which the count goes down. *)
Lemma sync_round_steps n srcs : forall w nt count nt' count',
  Forall (fun i => 0 <= i < Z.of_nat n) srcs -> procs w !! p = Some nt ->
  sync_round srcs nt method count = Ok (nt', count') ->
  exists evs, steps w evs (set_proc w p nt') /\ (forall f, sent f evs = []) /\
    count' = count - Z.of_nat (answers n evs) /\ world_size nt' = world_size nt.
Proof.
  induction srcs as [|i srcs IH]; intros w nt count nt' count' Hs Hp E.
  { injection E as <- <-. exists []. rewrite set_proc_same by done. split_and!; [constructor|done| |done].
    rewrite answers_quiet by done. lia. }
  apply Forall_cons in Hs as [Hi Hs]. cbn [sync_round] in E. apply bind_Ok in E as ([[d nt1]|] & E1 & E).
  - destruct (IH (set_proc w p nt1) nt1 _ _ _ Hs (procs_set _ _ _ Hp) E) as (evs & Hst & Hsent & -> & Hw).
    exists ([Taken (Flow i (Z.of_nat p) method true) d] ++ evs). rewrite set_proc_twice in Hst. split_and!.
    + eapply steps_next; [|exact Hst]. by eapply step_reply.
    + intros f. destruct (picks_app f [Taken (Flow i (Z.of_nat p) method true) d] evs) as (-> & _ & _). by rewrite Hsent.
    + rewrite answers_app. replace (Flow i (Z.of_nat p) method true) with (rep (Z.to_nat i)).
      * rewrite answers_one by lia. lia.
      * unfold RpcSync.rep. f_equal. lia.
    + rewrite Hw. apply bind_Ok in E1 as ([[d' q']|] & _ & [= -> <-]). done.
  - by apply IH.
Qed.

(** ** The barrier

    Between two rounds the processes do what they like, except that process
    [p] makes no other request under [method] and takes no reply to one. *)
Hypothesis during_runs : forall k w, exists evs, steps w evs (during k w) /\ quiet evs.

Lemma wait_sync_steps n fuel : forall k w nt count w',
  procs w !! p = Some nt -> world_size nt = Z.of_nat n ->
  wait_sync fuel k p w method count = Ok w' ->
  exists evs, steps w evs w' /\ (forall q, sent (req q) evs = []) /\ count <= Z.of_nat (answers n evs).
Proof.
  induction fuel as [|fuel IH]; intros k w nt count w' Hp Hn E; cbn [wait_sync] in E;
    (destruct (Z.ltb_spec 0 count); [|injection E as <-; exists []; split_and!; [constructor|done|lia]]); [done|].
  rewrite Hp in E. cbn [deref mbind outcome_bind] in E. apply bind_Ok in E as ([nt1 count1] & E1 & E).
  apply (sync_round_steps n _ w) in E1 as (e1 & Hs1 & Hq1 & -> & Hw1); [| |done].
  2:{ apply Forall_forall. intros i Hi%elem_of_seqZ. lia. }
  destruct (during_runs k (set_proc w p nt1)) as (e2 & Hs2 & Hq2).
  destruct (steps_frame _ _ _ _ _ Hs2 (procs_set _ _ nt1 Hp)) as (nt2 & Hp2 & Hf2 & _).
  destruct (IH _ _ _ _ _ Hp2 ltac:(congruence) E) as (e3 & Hs3 & Hq3 & Hc).
  exists (e1 ++ e2 ++ e3). split_and!; [by repeat eapply steps_app| |].
  - intros q. destruct (picks_app (req q) e1 (e2 ++ e3)) as (-> & _ & _).
    destruct (picks_app (req q) e2 e3) as (-> & _ & _). rewrite Hq1, Hq3. by destruct (Hq2 q) as [-> _].
  - rewrite !answers_app, (answers_quiet _ e2) by done. lia.
Qed.

Definition request (msg : M) : cstr := header false ++ AppendToString msg.
Lemma send_each_steps msg dsts : forall w nt, procs w !! p = Some nt -> NoDup dsts ->
  exists evs nt', fold_left (fun nt i => (Send_msg AppendToString nt i method msg).1) dsts nt = nt' /\
    steps w evs (set_proc w p nt') /\ frame nt nt' /\ (forall q, taken (rep q) evs = []) /\
    forall q, sent (req q) evs = if decide (Z.of_nat q ∈ dsts) then [request msg] else [].
Proof.
  induction dsts as [|i dsts IH]; intros w nt Hp Hnd; cbn [fold_left].
  { exists [], nt. rewrite set_proc_same by done. split_and!; try done. constructor. }
  apply NoDup_cons in Hnd as [Hi Hnd]. set (nt1 := (Send_msg AppendToString nt i method msg).1).
  destruct (IH (set_proc w p nt1) nt1 (procs_set _ _ _ Hp) Hnd) as (evs & nt' & E & Hst & [Hf1 Hf2] & Ht & Hq).
  rewrite set_proc_twice in Hst. set (r := RPCRequest_msg AppendToString i method msg false) in *.
  exists ([Sent (req_flow p r) (payload r)] ++ evs), nt'. split; [done|]. split_and!; [|by split| |].
  - eapply steps_next; [|exact Hst]. by apply (step_send _ _ w p nt i method msg).
  - intros q. destruct (picks_app (rep q) [Sent (req_flow p r) (payload r)] evs) as (_ & _ & ->). by rewrite Ht.
  - intros q. destruct (picks_app (req q) [Sent (req_flow p r) (payload r)] evs) as (-> & _ & _).
    rewrite Hq, sent_one. subst r. unfold req_flow. cbn [payload RPCRequest_msg target rpc_type].
    rewrite is_reply_header. unfold RpcSync.req. destruct (decide (i = Z.of_nat q)) as [->|Hne].
    + rewrite decide_True, decide_False, decide_True by (done || by left). done.
    + rewrite decide_False by (by intros [=]). cbn [app]. apply decide_ext. rewrite elem_of_cons. naive_solver.
Qed.

Lemma sync_broadcast_steps n fuel w nt msg w' :
  procs w !! p = Some nt -> world_size nt = Z.of_nat n ->
  SyncBroadcast fuel p w method msg = Ok w' ->
  exists evs, steps w evs w' /\ (n - 1 <= answers n evs)%nat /\
    forall q, (q < n)%nat -> sent (req q) evs = if decide (q = 0%nat) then [] else [request msg].
Proof.
  intros Hp Hn E. unfold SyncBroadcast in E. rewrite Hp in E. cbn [deref mbind outcome_bind] in E. unfold Broadcast in E.
  destruct (send_each_steps msg (seqZ 1 (world_size nt - 1)) w nt Hp) as (e1 & nt' & E1 & Hs1 & [Hf _] & Ht1 & Hq1);
    [apply NoDup_seqZ|].
  rewrite E1 in E. apply (wait_sync_steps n _ _ _ nt') in E as (e2 & Hs2 & Hq2 & Hc); [|by eapply procs_set|congruence].
  exists (e1 ++ e2). split_and!; [by eapply steps_app|rewrite answers_app; lia|].
  intros q Hqn. destruct (picks_app (req q) e1 e2) as (-> & _ & _). rewrite Hq1, Hq2, app_nil_r.
  destruct (decide (q = 0%nat)) as [->|Hne].
  - apply decide_False. rewrite elem_of_seqZ. lia.
  - apply decide_True, elem_of_seqZ. lia.
Qed.

(** Nothing under [method] is on its way between [p] and the first [n]
    processes. *)
Definition idle_method (n : nat) w : Prop := forall q, (q < n)%nat ->
  waiting w (req q) = [] /\ transit w (req q) = [] /\ waiting w (rep q) = [] /\ transit w (rep q) = [] /\
  spawned p q method w = 0%nat.

Lemma replies_bound n w evs w' q : handled_all w -> idle_method n w -> (q < n)%nat -> steps w evs w' ->
  (length (taken (rep q) evs) <= length (sent (rep q) evs) <= length (taken (req q) evs))%nat /\
  (length (taken (req q) evs) <= length (sent (req q) evs))%nat.
Proof.
  intros Hh Hi Hq Hs. destruct (Hi q Hq) as (W1 & T1 & W2 & T2 & S0).
  pose proof (steps_replies p q method _ _ _ Hs) as Hr. rewrite S0 in Hr.
  assert (forall x y : nat, 0 <= Z.of_nat x /\ 0 <= Z.of_nat y) as Hpos by lia.
  pose proof (steps_conserve _ _ w evs w' (req q) Hh ltac:(cbn; lia) ltac:(cbn; lia) Hs) as C1%Permutation_length.
  pose proof (steps_conserve _ _ w evs w' (rep q) Hh ltac:(cbn; lia) ltac:(cbn; lia) Hs) as C2%Permutation_length.
  rewrite W1, T1 in C1. rewrite W2, T2 in C2. rewrite !length_app in C1, C2. cbn [length] in C1, C2. lia.
Qed.

(** Enough replies are one from every process but the first. *)
Definition due (q : nat) : nat := match q with O => 0%nat | S _ => 1%nat end.
Lemma sum_due n : sum_list_with due (seq 0 n) = (n - 1)%nat.
Proof.
  assert (forall m k, sum_list_with due (seq (S k) m) = m) as H.
  { induction m as [|m IH]; intros k; cbn [seq sum_list_with due]; [done|]. by rewrite IH. }
  destruct n as [|n]; [done|]. cbn [seq sum_list_with due]. rewrite H. lia.
Qed.
Lemma all_answered n w evs w' msg : handled_all w -> idle_method n w -> steps w evs w' -> (n - 1 <= answers n evs)%nat ->
  (forall q, (q < n)%nat -> sent (req q) evs = if decide (q = 0%nat) then [] else [request msg]) ->
  forall q, (1 <= q < n)%nat -> length (taken (rep q) evs) = 1%nat.
Proof.
  intros Hh Hi Hs Ha Hreq q Hq. replace 1%nat with (due q) by (destruct q; [lia|done]).
  apply (sum_with_tight (fun q => length (taken (rep q) evs)) due (seq 0 n)).
  - intros r Hr%elem_of_seq. destruct (replies_bound n w evs w' r Hh Hi ltac:(lia) Hs) as [B1 B2].
    rewrite (Hreq r) in B2 by lia. unfold due. destruct r; [rewrite decide_True in B2 by done|rewrite decide_False in B2 by done];
      cbn [length] in B2; lia.
  - rewrite sum_due. exact Ha.
  - apply elem_of_seq. lia.
Qed.

(** C15. [SyncBroadcast] is a barrier: when it returns, every process but the
    master has taken the request, exactly once and as it was sent, has answered
    it once, and the answer has been taken.  Whatever the threads of the
    processes do meanwhile, also callbacks in threads of their own, it never
    returns on the strength of another process's answer. *)
Theorem sync_broadcast n fuel w nt msg w' :
  procs w !! p = Some nt -> world_size nt = Z.of_nat n -> handled_all w -> idle_method n w ->
  SyncBroadcast fuel p w method msg = Ok w' ->
  exists evs, steps w evs w' /\ forall q, (1 <= q < n)%nat ->
    taken (req q) evs = [request msg] /\ length (sent (rep q) evs) = 1%nat /\ length (taken (rep q) evs) = 1%nat.
Proof.
  intros Hp Hn Hh Hi E. destruct (sync_broadcast_steps n fuel w nt msg w' Hp Hn E) as (evs & Hs & Ha & Hreq).
  exists evs. split; [done|]. intros q Hq. pose proof (all_answered n w evs w' msg Hh Hi Hs Ha Hreq q Hq) as E1.
  destruct (replies_bound n w evs w' q Hh Hi ltac:(lia) Hs) as [B1 B2].
  rewrite (Hreq q), decide_False in B2 by lia. cbn [length] in B2. split_and!; [|lia|done].
  destruct (Hi q ltac:(lia)) as (W1 & T1 & _).
  pose proof (steps_conserve _ _ w evs w' (req q) Hh ltac:(cbn; lia) ltac:(cbn; lia) Hs) as C.
  cbn beta in C. rewrite W1, T1, (Hreq q), decide_False in C by lia. cbn [app] in C. set (rest := waiting w' _ ++ _) in C. clearbody rest.
  pose proof (Permutation_length C) as L. rewrite length_app in L. cbn [length] in L.
  destruct rest; [|cbn in L; lia]. rewrite app_nil_r in C. by apply Permutation_singleton_l in C.
Qed.

(** Without a callback at [q] there is no answer. *)
Lemma unhandled_blocks n fuel w nt msg w' q :
  procs w !! p = Some nt -> world_size nt = Z.of_nat n -> handled_all w -> idle_method n w ->
  (1 <= q < n)%nat -> unhandled q method w -> SyncBroadcast fuel p w method msg <> Ok w'.
Proof.
  intros Hp Hn Hh Hi Hq Hu E. destruct (sync_broadcast_steps n fuel w nt msg w' Hp Hn E) as (evs & Hs & Ha & Hreq).
  pose proof (all_answered n w evs w' msg Hh Hi Hs Ha Hreq q Hq) as E1.
  destruct (replies_bound n w evs w' q Hh Hi ltac:(lia) Hs) as [B1 _].
  rewrite (steps_unhandled p q method _ _ _ Hu Hs), E1 in B1. cbn [length] in B1. lia.
Qed.
End Wait.

(** ** The worker's callbacks *)
Definition MTYPE_RESTORE : Z := 13.
Definition MTYPE_WORKER_FLUSH : Z := 15.
Definition MTYPE_SHARD_ASSIGNMENT : Z := 17.
Definition MTYPE_ITERATOR : Z := 20.
Definition MTYPE_TERMINATION : Z := 22.
Definition MTYPE_WORKER_APPLY : Z := 33.
Definition MTYPE_SWAP_TABLE : Z := 35.
Definition MTYPE_CLEAR_TABLE : Z := 37.
Definition MTYPE_ENABLE_TRIGGER : Z := 38.
(** A callback with the request and response objects made for it. *)
Record registration := {
  reg_req : M; reg_resp : M; reg_call : App -> RPCInfo -> M -> M -> outcome (App * M * list (outgoing (M := M))) }.
Record worker_callbacks := {
  HandleShardAssignment : registration; HandleIteratorRequest : registration; HandleClearRequest : registration;
  HandleSwapRequest : registration; HandleFlush : registration; HandleApply : registration;
  HandleEnableTrigger : registration; HandleTermNotification : registration }.
Definition RegisterCallback nt (type : Z) (r : registration) : outcome thread :=
  _RegisterCallback nt type (reg_req r) (reg_resp r) (reg_call r).
(** The end of the [Worker] constructor. *)
Definition register_worker nt (h : worker_callbacks) : outcome thread :=
  nt ← RegisterCallback nt MTYPE_SHARD_ASSIGNMENT (HandleShardAssignment h);
  nt ← RegisterCallback nt MTYPE_ITERATOR (HandleIteratorRequest h);
  nt ← RegisterCallback nt MTYPE_CLEAR_TABLE (HandleClearRequest h);
  nt ← RegisterCallback nt MTYPE_SWAP_TABLE (HandleSwapRequest h);
  nt ← RegisterCallback nt MTYPE_WORKER_FLUSH (HandleFlush h);
  nt ← RegisterCallback nt MTYPE_WORKER_APPLY (HandleApply h);
  nt ← RegisterCallback nt MTYPE_ENABLE_TRIGGER (HandleEnableTrigger h);
  nt ← RegisterCallback nt MTYPE_TERMINATION (HandleTermNotification h);
  SpawnThreadFor nt MTYPE_WORKER_FLUSH.
(** The message types that the worker answers. *)
Definition answered : list Z :=
  [MTYPE_SHARD_ASSIGNMENT; MTYPE_ITERATOR; MTYPE_CLEAR_TABLE; MTYPE_SWAP_TABLE; MTYPE_WORKER_FLUSH;
   MTYPE_WORKER_APPLY; MTYPE_ENABLE_TRIGGER; MTYPE_TERMINATION].

Lemma register_worker_shape id size s h : exists nt, register_worker (NetworkThread_new id size s) h = Ok nt /\
  shape nt = (fun k => bool_decide (Z.of_nat k ∈ answered)) <$> seq 0 (Z.to_nat kMaxMethods).
Proof. eexists. split; [vm_compute; reflexivity|]. vm_compute. reflexivity. Qed.
Lemma register_worker_answers id size s h nt tag : register_worker (NetworkThread_new id size s) h = Ok nt ->
  0 <= tag < kMaxMethods -> shape nt !! Z.to_nat tag = Some (bool_decide (tag ∈ answered)).
Proof.
  intros E Ht. destruct (register_worker_shape id size s h) as (x & Ex & Es). rewrite E in Ex. injection Ex as <-.
  rewrite Es, list_lookup_fmap, lookup_seq_lt by lia. cbn [fmap option_fmap option_map Nat.add]. by rewrite Z2Nat.id by lia.
Qed.
Lemma steps_handled w evs w' : handled_all w -> steps w evs w' -> handled_all w'.
Proof.
  intros Hh Hs. induction Hs as [w|w1 e1 w2 e2 w3 Hst _ IH]; [done|]. apply IH.
  by destruct (step_fifo _ _ w1 e1 w2 (Flow 0 0 0 false) Hh ltac:(done) Hst).
Qed.

(** C16. [Master::restore] cannot finish: it broadcasts [MTYPE_RESTORE] with
    [SyncBroadcast], which waits for a reply of every worker; the worker's
    constructor registers no callback for that type, so that whatever happens
    after it no worker ever replies, and the broadcast does not return. *)
Theorem restore_blocks p q n id size s h w0 ntq evs0 w nt fuel msg w' :
  register_worker (NetworkThread_new id size s) h = Ok ntq ->
  handled_all w0 -> procs w0 !! q = Some ntq -> steps w0 evs0 w ->
  procs w !! p = Some nt -> world_size nt = Z.of_nat n -> (1 <= q < n)%nat ->
  idle_method p MTYPE_RESTORE n w ->
  (forall k w, exists evs, steps w evs (during k w) /\ quiet p MTYPE_RESTORE evs) ->
  SyncBroadcast fuel p w MTYPE_RESTORE msg <> Ok w'.
Proof.
  intros Hreg Hh0 Hq Hs Hp Hn Hqn Hi Hd. apply (unhandled_blocks p MTYPE_RESTORE Hd n fuel w nt msg w' q); try done.
  - by eapply steps_handled.
  - destruct (steps_frame _ _ _ _ _ Hs Hq) as (y & Hy & _ & Hf). exists y. split; [done|].
    by rewrite Hf, (register_worker_answers _ _ _ _ _ _ Hreg).
Qed.
End RpcSync.

(** ** A master and a worker whose messages are strings *)
Section Sample.
#[local] Abbreviation thread := (NetworkThread (M := cstr) (App := cstr)).
#[local] Abbreviation world := (Rpc.world (M := cstr) (App := cstr)).
#[local] Abbreviation str := (fun m : cstr => m).

(** What the network threads do, when nothing but replies is sent. *)
Definition try_post (r : nat) (w : world) : world :=
  match procs w !! r with
  | Some nt => match post nt with Ok (nt', Some x) => add_packet (set_proc w r nt') r x | _ => w end
  | None => w
  end.
Definition try_receive (s r : nat) (w : world) : world :=
  match procs w !! r, chan_at w (Z.of_nat s) (Z.of_nat r) with
  | Some nt, (tag, data) :: rest =>
    match receive str str nt (Z.of_nat s) tag data with
    | Ok (nt', _, sends) =>
      if forallb (fun x => is_reply (payload x)) sends
      then World (<[r := nt']> (procs w)) (<[(Z.of_nat s, Z.of_nat r) := rest]> (chan w)) else w
    | _ => w
    end
  | _, _ => w
  end.
Lemma try_post_runs p m r w : exists evs, steps str str w evs (try_post r w) /\ quiet p m evs.
Proof.
  unfold try_post. destruct (procs w !! r) as [nt|] eqn:Hr; [|by exists []; split; [constructor|]].
  destruct (post nt) as [[nt' [x|]]| | | |] eqn:E; try by exists []; split; [constructor|].
  eexists. split; [eapply steps_one, step_post; [exact Hr|exact E]|]. done.
Qed.
Lemma quiet_replies p m r sends : forallb (fun x => is_reply (payload x)) sends = true ->
  forall q, sent (req p q m) (sent_events r sends) = [].
Proof.
  intros H q. induction sends as [|x l IH]; [done|]. cbn [forallb] in H. apply andb_true_iff in H as [Hx H].
  unfold sent, sent_events in *. cbn [fmap list_fmap omap list_omap]. rewrite decide_False; [by apply IH|].
  unfold req_flow, req. rewrite Hx. by intros [=].
Qed.
Lemma try_receive_runs p m s r w : exists evs, steps str str w evs (try_receive s r w) /\ quiet p m evs.
Proof.
  unfold try_receive. destruct (procs w !! r) as [nt|] eqn:Hr; [|by exists []; split; [constructor|]].
  destruct (chan_at w _ _) as [|[tag data] rest] eqn:Hc; [by exists []; split; [constructor|]|].
  destruct (receive _ _ _ _ _ _) as [[[nt' c] sends]| | | |] eqn:E; try by exists []; split; [constructor|].
  destruct (forallb _ sends) eqn:Hall; [|by exists []; split; [constructor|]].
  eexists. split; [eapply steps_one, step_receive; [exact Hr|exact Hc|exact E]|]. intros q. split.
  - match goal with |- sent ?f (?a ++ ?b) = _ => destruct (picks_app f a b) as (-> & _ & _) end.
    rewrite quiet_replies, app_nil_r by done. by destruct c.
  - match goal with |- taken ?f (?a ++ ?b) = _ => destruct (picks_app f a b) as (_ & _ & ->) end.
    destruct (posted_sent (rep p q m) r sends) as [_ ->]. rewrite app_nil_r. destruct c; [|done].
    rewrite taken_one, decide_False; [done|]. apply receive_spec in E as (_ & _ & _ & E).
    destruct (is_reply data); [by destruct E|]. by intros [=].
Qed.
Lemma quiet_app p m e1 e2 : quiet p m e1 -> quiet p m e2 -> quiet p m (e1 ++ e2).
Proof.
  intros H1 H2 q. destruct (picks_app (req p q m) e1 e2) as (-> & _ & _).
  destruct (picks_app (rep p q m) e1 e2) as (_ & _ & ->). destruct (H1 q) as [-> ->]. by destruct (H2 q) as [-> ->].
Qed.
(** The request goes out and is answered, and the answer comes in. *)
Definition exchange (_ : nat) (w : world) : world :=
  try_receive 1 0 (try_post 1 (try_receive 0 1 (try_post 0 w))).
Lemma exchange_runs p m k w : exists evs, steps str str w evs (exchange k w) /\ quiet p m evs.
Proof.
  unfold exchange. destruct (try_post_runs p m 0 w) as (e1 & S1 & Q1).
  destruct (try_receive_runs p m 0 1 (try_post 0 w)) as (e2 & S2 & Q2).
  destruct (try_post_runs p m 1 (try_receive 0 1 (try_post 0 w))) as (e3 & S3 & Q3).
  destruct (try_receive_runs p m 1 0 (try_post 1 (try_receive 0 1 (try_post 0 w)))) as (e4 & S4 & Q4).
  exists (e1 ++ e2 ++ e3 ++ e4). split; [by repeat eapply steps_app|by repeat apply quiet_app].
Qed.

Definition echo_all : worker_callbacks (M := cstr) (App := cstr) :=
  let r := {| reg_req := []; reg_resp := []; reg_call := echo |} in Build_worker_callbacks r r r r r r r r.
Definition worker1 : thread := get_ok (register_worker (NetworkThread_new 1 2 []) echo_all) (idle 1).
Definition start : world := World [NetworkThread_new 0 2 []; worker1] ∅.
Definition finish : world := get_ok (SyncBroadcast str exchange 3 0 start MTYPE_SWAP_TABLE (lit "t")) start.
Lemma start_handled : handled_all start.
Proof. repeat constructor; intros tag ci s _ _; reflexivity. Qed.
Lemma start_idle m : idle_method 0 m 2 start.
Proof. intros q Hq. destruct q as [|[|q]]; [by split_and!..|lia]. Qed.
Lemma sync_broadcast_witness :
  exists evs, steps str str start evs finish /\ taken (req 0 1 MTYPE_SWAP_TABLE) evs = [request str (lit "t")].
Proof.
  destruct (sync_broadcast str str exchange 0 MTYPE_SWAP_TABLE (exchange_runs 0 MTYPE_SWAP_TABLE) 2 3 start
    (NetworkThread_new 0 2 []) (lit "t") finish eq_refl eq_refl start_handled (start_idle _)) as (evs & Hs & H).
  - vm_compute. reflexivity.
  - exists evs. split; [exact Hs|]. exact (proj1 (H 1%nat ltac:(lia))).
Defined.
Lemma restore_blocks_witness : SyncBroadcast str exchange 5 0 start MTYPE_RESTORE (lit "t") <> Ok start.
Proof.
  apply (restore_blocks str str exchange 0 1 2 1 2 [] echo_all start worker1 [] start (NetworkThread_new 0 2 [])).
  - vm_compute. reflexivity.
  - exact start_handled.
  - reflexivity.
  - apply steps_refl.
  - reflexivity.
  - reflexivity.
  - lia.
  - apply start_idle.
  - apply exchange_runs.
Defined.
End Sample.
End RpcSync.
