(* ===== verification/Startup.v ===== *)
(** * Registration of the workers

    The constructor of the master (master/master.cc) waits for one
    registration per worker before it starts; a worker (worker/worker.cc)
    sends its registration at the start of [KernelLoop].  The messages travel
    through the network threads of Rpc.v while everything else goes on. *)
From S2P Require Import Prelude StringPiece Rpc RpcSync.

Module Startup.
Import Rpc RpcSync.
Section Startup.
Context {M App : Type}.
Variable AppendToString : M -> cstr.
Variable ParseFromArray : cstr -> M.
Abbreviation thread := (NetworkThread (M := M) (App := App)).
Abbreviation world := (Rpc.world (M := M) (App := App)).
Abbreviation steps := (Rpc.steps (M := M) (App := App) AppendToString ParseFromArray).
Implicit Types (w : world) (nt : thread).

Definition MTYPE_REGISTER_WORKER : Z := 9.
(** [KernelLoop]: the first lines. *)
Definition register nt (msg : M) : thread := (Send_msg AppendToString nt 0 MTYPE_REGISTER_WORKER msg).1.

(** What happens during the [k]-th [Sleep] of the [i]-th [Read]. *)
Variable during : nat -> nat -> world -> world.
(** The loop of the constructor, with the sources that registered. *)
Fixpoint wait_registered (n i fuel : nat) w : outcome (list Z * world) :=
  match n with
  | O => Ok ([], w)
  | S n =>
    '(src, _, w) ← Read (during i) fuel 0 w ANY_SOURCE MTYPE_REGISTER_WORKER;
    '(srcs, w) ← wait_registered n (S i) fuel w;
    Ok (src :: srcs, w)
  end.

(** ** Every worker is counted once *)
Definition reg (q : nat) : flow := Flow (Z.of_nat q) 0 MTYPE_REGISTER_WORKER false.
(** Nobody but the master's constructor takes a registration; [late i k q] are
    the registrations that process [q] sends during a [Sleep]. *)
Variable late : nat -> nat -> nat -> nat.
Hypothesis during_runs : forall i k w, exists evs, steps w evs (during i k w) /\
  forall q, taken (reg q) evs = [] /\ (length (sent (reg q) evs) <= late i k q)%nat.
Definition late_read (i k fuel q : nat) : nat := sum_list_with (fun k => late i k q) (seq k fuel).
Definition late_all (i n fuel q : nat) : nat := sum_list_with (fun i => late_read i 0 fuel q) (seq i n).

Lemma read_registered i fuel : forall k w nt s d w', procs w !! 0%nat = Some nt ->
  await (during i) fuel k 0 (read_poll ANY_SOURCE MTYPE_REGISTER_WORKER) w = Ok (s, d, w') ->
  exists evs nt', steps w evs w' /\ procs w' !! 0%nat = Some nt' /\ world_size nt' = world_size nt /\ 0 <= s < world_size nt /\
    forall q, length (taken (reg q) evs) = (if decide (Z.of_nat q = s) then 1%nat else 0%nat) /\
      (length (sent (reg q) evs) <= late_read i k fuel q)%nat.
Proof.
  induction fuel as [|fuel IH]; intros k w nt s d w' Hp E; [done|]. cbn [await] in E. rewrite Hp in E. cbn [deref mbind outcome_bind] in E.
  apply bind_Ok in E as ([[[s' d'] nt1]|] & E1 & E).
  - injection E as -> -> <-. unfold read_poll in E1. pose proof (TryRead_spec _ _ _ _ _ _ E1) as Hq. pose proof E1 as Hs.
    unfold TryRead in Hs. change (ANY_SOURCE =? ANY_SOURCE) with true in Hs. apply try_sources_spec in Hs as [Hs%elem_of_seqZ _].
    exists [Taken (Flow s 0 MTYPE_REGISTER_WORKER false) d], nt1. split_and!; try lia.
    + apply steps_one. by apply (step_read _ _ w 0 nt ANY_SOURCE MTYPE_REGISTER_WORKER s d nt1).
    + cbn. apply list_lookup_insert_eq. by eapply lookup_lt_Some.
    + by apply bind_Ok in Hq as ([[d1 q1]|] & _ & [= -> <-]).
    + intros q. split; [|cbn; lia]. rewrite taken_one. unfold reg. destruct (decide (Z.of_nat q = s)) as [<-|Hne]; [by rewrite decide_True|].
      rewrite decide_False; [done|]. by intros [= ?].
  - destruct (during_runs i k w) as (e1 & Hs1 & Hq1). destruct (steps_frame _ _ _ _ _ _ _ Hs1 Hp) as (nt1 & Hp1 & Hw1 & _).
    destruct (IH _ _ _ _ _ _ Hp1 E) as (e2 & nt2 & Hs2 & Hp2 & Hw2 & Hr & Hq2).
    exists (e1 ++ e2), nt2. split_and!; [by eapply steps_app|done|congruence|lia|lia|].
    intros q. destruct (picks_app (reg q) e1 e2) as (-> & _ & ->). destruct (Hq1 q) as [-> Hl1], (Hq2 q) as [Ht2 Hl2]. cbn [app]. split; [done|].
    rewrite length_app. unfold late_read in *. cbn [seq sum_list_with]. lia.
Qed.
Definition times (q : nat) (srcs : list Z) : nat := sum_list_with (fun s => if decide (Z.of_nat q = s) then 1 else 0)%nat srcs.
Lemma wait_steps fuel n : forall i w nt srcs w', procs w !! 0%nat = Some nt -> wait_registered n i fuel w = Ok (srcs, w') ->
  exists evs, steps w evs w' /\ length srcs = n /\ Forall (fun s => 0 <= s < world_size nt) srcs /\
    forall q, length (taken (reg q) evs) = times q srcs /\ (length (sent (reg q) evs) <= late_all i n fuel q)%nat.
Proof.
  induction n as [|n IH]; intros i w nt srcs w' Hp E; cbn [wait_registered] in E.
  { injection E as <- <-. exists []. split_and!; [constructor|done|constructor|]. intros q. split; [done|cbn; lia]. }
  apply bind_Ok in E as ([[s d] w1] & E1 & E). apply bind_Ok in E as ([srcs1 w2] & E2 & [= <- <-]).
  destruct (read_registered i fuel 0 w nt s d w1 Hp E1) as (e1 & nt1 & Hs1 & Hp1 & Hw1 & Hr & Hq1).
  destruct (IH _ _ _ _ _ Hp1 E2) as (e2 & Hs2 & Hl & Hall & Hq2). rewrite Hw1 in Hall.
  exists (e1 ++ e2). split_and!; [by eapply steps_app|cbn; lia|by constructor|].
  intros q. destruct (picks_app (reg q) e1 e2) as (-> & _ & ->). destruct (Hq1 q) as [E3 L3], (Hq2 q) as [E4 L4].
  rewrite !length_app, E3, E4. split; [done|]. unfold late_all in *. cbn [seq sum_list_with]. lia.
Qed.

(** Every source is one of the processes. *)
Lemma times_total (size : nat) srcs : Forall (fun s => 0 <= s < Z.of_nat size) srcs ->
  sum_list_with (fun q => times q srcs) (seq 0 size) = length srcs.
Proof.
  induction 1 as [|s srcs Hs _ IH]; [by apply sum_with_zero|]. cbn [length].
  rewrite (sum_with_add (fun q => if decide (q = Z.to_nat s) then 1 else 0)%nat (fun q => times q srcs)).
  - rewrite IH, sum_with_single by apply NoDup_seq. rewrite decide_True; [done|]. apply elem_of_seq. lia.
  - intros q. unfold times. cbn [sum_list_with]. f_equal. apply decide_ext. lia.
Qed.
Lemma times_elem q srcs : (0 < times q srcs)%nat <-> Z.of_nat q ∈ srcs.
Proof.
  unfold times. induction srcs as [|s srcs IH]; cbn [sum_list_with]; [split; [lia|by intros ?%not_elem_of_nil]|].
  rewrite elem_of_cons, <- IH. destruct (decide (Z.of_nat q = s)); naive_solver lia.
Qed.
Lemma times_once srcs : Forall (fun s => 0 <= s) srcs -> (forall q, times q srcs <= 1)%nat -> NoDup srcs.
Proof.
  induction 1 as [|s srcs Hs _ IH]; intros H; constructor.
  - intros Hin. specialize (H (Z.to_nat s)). pose proof (proj2 (times_elem (Z.to_nat s) srcs)) as Ht. rewrite Z2Nat.id in Ht by lia.
    specialize (Ht Hin). unfold times in *. cbn [sum_list_with] in H. rewrite decide_True in H by lia. lia.
  - apply IH. intros q. specialize (H q). unfold times in *. cbn [sum_list_with] in H. lia.
Qed.

Definition expected (n q : nat) : nat := if decide (1 <= q <= n)%nat then 1%nat else 0%nat.
Lemma sum_expected n size : (n < size)%nat -> sum_list_with (expected n) (seq 0 size) = n.
Proof.
  intros Hn. replace size with (1 + (n + (size - S n)))%nat by lia. rewrite !seq_app, !sum_list_with_app. cbn [seq sum_list_with Nat.add].
  assert (forall m a, 1 <= a -> a + m <= S n -> sum_list_with (expected n) (seq a m) = m)%nat as H1.
  { induction m as [|m IH]; intros a Ha Hm; [done|]. cbn [seq sum_list_with]. rewrite IH by lia. unfold expected. rewrite decide_True; lia. }
  assert (forall m a, n < a -> sum_list_with (expected n) (seq a m) = 0)%nat as H2.
  { induction m as [|m IH]; intros a Ha; [done|]. cbn [seq sum_list_with]. rewrite IH by lia. unfold expected. rewrite decide_False; lia. }
  rewrite H1, H2 by lia. unfold expected. rewrite decide_False; lia.
Qed.

Lemma sources_all n srcs (size : nat) : Forall (fun s => 0 <= s < Z.of_nat size) srcs ->
  (forall q, times q srcs = expected n q) -> srcs ≡ₚ seqZ 1 (Z.of_nat n).
Proof.
  intros Hall Heq. apply NoDup_Permutation; [|apply NoDup_seqZ|].
  - apply times_once; [eapply Forall_impl; [exact Hall|cbn; lia]|]. intros q. rewrite Heq. unfold expected. by case_decide; lia.
  - intros s. rewrite elem_of_seqZ. destruct (decide (0 <= s)) as [Hs0|Hs0].
    + rewrite <- (Z2Nat.id s) at 1 by done. rewrite <- times_elem, Heq. unfold expected. case_decide; lia.
    + split; [|lia]. intros Hin. rewrite Forall_forall in Hall. specialize (Hall s Hin). lia.
Qed.

(** C17. When the wait of the master's constructor returns, after [n] reads from
    any source, the registrations it took are those of the [n] workers, each
    exactly once, also of workers that register during the wait, and whatever
    else is sent and received meanwhile: no worker is missing because another
    was counted twice, and no registration is left. *)
Theorem workers_registered n size fuel w nt srcs w' :
  procs w !! 0%nat = Some nt -> world_size nt = Z.of_nat size -> (n < size)%nat -> handled_all w ->
  (forall q, length (waiting w (reg q)) + length (transit w (reg q)) + late_all 0 n fuel q <= expected n q)%nat ->
  wait_registered n 0 fuel w = Ok (srcs, w') ->
  srcs ≡ₚ seqZ 1 (Z.of_nat n) /\
  exists evs, steps w evs w' /\ forall q,
    waiting w (reg q) ++ transit w (reg q) ++ sent (reg q) evs ≡ₚ taken (reg q) evs /\
    length (taken (reg q) evs) = expected n q.
Proof.
  intros Hp Hsize Hn Hh H0 E. destruct (wait_steps fuel n 0 w nt srcs w' Hp E) as (evs & Hs & Hl & Hall & Ht). rewrite Hsize in Hall.
  assert (forall q, waiting w (reg q) ++ transit w (reg q) ++ sent (reg q) evs ≡ₚ
    taken (reg q) evs ++ waiting w' (reg q) ++ transit w' (reg q)) as Hc.
  { intros q. by apply (steps_conserve AppendToString ParseFromArray w evs w' (reg q) Hh ltac:(cbn; lia) ltac:(cbn; lia)). }
  assert (forall q, times q srcs <= expected n q /\ (times q srcs = expected n q -> waiting w' (reg q) ++ transit w' (reg q) = []))%nat as Hle.
  { intros q. pose proof (Permutation_length (Hc q)) as L. rewrite !length_app in L. destruct (Ht q) as [Et Lt]. specialize (H0 q).
    split; [lia|]. intros Eq. apply length_zero_iff_nil. rewrite length_app. lia. }
  assert (forall q, times q srcs = expected n q) as Heq.
  { intros q. destruct (decide (q < size)%nat) as [Hq|Hq].
    - apply (sum_with_tight (fun q => times q srcs) (expected n) (seq 0 size)); [by intros; apply Hle| |apply elem_of_seq; lia].
      by rewrite sum_expected, times_total, Hl by done.
    - destruct (Hle q) as [L _]. unfold expected in *. rewrite decide_False in * by lia. lia. }
  split; [by apply (sources_all n srcs size)|]. exists evs. split; [done|]. intros q. destruct (Hle q) as [_ Hnil], (Ht q) as [Et _].
  rewrite Hc, Hnil, app_nil_r by done. split; [done|]. by rewrite Et.
Qed.
End Startup.

(** ** Two workers, one of which registers late *)
Section Sample.
#[local] Abbreviation thread := (NetworkThread (M := cstr) (App := cstr)).
#[local] Abbreviation world := (Rpc.world (M := cstr) (App := cstr)).
#[local] Abbreviation str := (fun m : cstr => m).
Implicit Types w : world.

(** Worker 1 has sent its registration, worker 2 sends it in the first sleep;
    in every sleep the network threads of the workers post and the one of the
    master receives. *)
Definition begin : world :=
  World [NetworkThread_new 0 3 []; register str (NetworkThread_new 1 3 []) (lit "0"); NetworkThread_new 2 3 []] ∅.
Definition late2 (i k q : nat) : nat := if decide (i = 0 /\ k = 0 /\ q = 2)%nat then 1%nat else 0%nat.
Definition worker2_registers (i k : nat) w : world :=
  match i, k, procs w !! 2%nat with
  | O, O, Some nt => set_proc w 2 (register str nt (lit "1"))
  | _, _, _ => w
  end.
Definition deliver (s : Z) w : world :=
  match procs w !! 0%nat, chan_at w s 0 with
  | Some nt, (tag, data) :: rest =>
    match receive str str nt s tag data with
    | Ok (nt', false, []) => World (<[0%nat := nt']> (procs w)) (<[(s, 0) := rest]> (chan w))
    | _ => w
    end
  | _, _ => w
  end.
Definition pause (i k : nat) w : world :=
  deliver 2 (deliver 1 (try_post 2 (try_post 1 (worker2_registers i k w)))).

(** A step that sends no registration and takes none. *)
Definition still (evs : list event) : Prop := forall q, taken (reg q) evs = [] /\ sent (reg q) evs = [].
Lemma still_app e1 e2 : still e1 -> still e2 -> still (e1 ++ e2).
Proof.
  intros H1 H2 q. destruct (picks_app (reg q) e1 e2) as (-> & _ & ->). destruct (H1 q) as [-> ->]. by destruct (H2 q) as [-> ->].
Qed.
Lemma try_post_still r w : exists evs, steps str str w evs (try_post r w) /\ still evs.
Proof.
  unfold try_post. destruct (procs w !! r) as [nt|] eqn:Hr; [|by exists []; split; [constructor|]].
  destruct (post nt) as [[nt' [x|]]| | | |] eqn:E; try by exists []; split; [constructor|].
  eexists. split; [eapply steps_one, step_post; [exact Hr|exact E]|]. done.
Qed.
Lemma deliver_still s w : exists evs, steps str str w evs (deliver s w) /\ still evs.
Proof.
  unfold deliver. destruct (procs w !! 0%nat) as [nt|] eqn:Hr; [|by exists []; split; [constructor|]].
  destruct (chan_at w _ _) as [|[tag data] rest] eqn:Hc; [by exists []; split; [constructor|]|].
  destruct (receive _ _ _ _ _ _) as [[[nt' [|]] [|x l]]| | | |] eqn:E; try by exists []; split; [constructor|].
  eexists. split; [eapply steps_one; eapply (step_receive _ _ _ 0); [exact Hr|exact Hc|exact E]|]. done.
Qed.
Lemma pause_runs i k w : exists evs, steps str str w evs (pause i k w) /\
  forall q, taken (reg q) evs = [] /\ (length (sent (reg q) evs) <= late2 i k q)%nat.
Proof.
  assert (exists e0, steps str str w e0 (worker2_registers i k w) /\
    forall q, taken (reg q) e0 = [] /\ (length (sent (reg q) e0) <= late2 i k q)%nat) as (e0 & S0 & Q0).
  { unfold worker2_registers. destruct i, k, (procs w !! 2%nat) as [nt|] eqn:Hr;
      try by exists []; split; [constructor|]; intros q; split; [done|cbn; lia].
    eexists. split; [eapply steps_one; by apply (step_send str str w 2 nt 0 MTYPE_REGISTER_WORKER (lit "1"))|].
    intros q. split; [done|]. rewrite sent_one. unfold late2, reg, req_flow. cbn. case_decide as Hd; [|cbn; lia].
    injection Hd as Hd. rewrite decide_True by lia. cbn. lia. }
  unfold pause. set (w0 := worker2_registers i k w) in *. destruct (try_post_still 1 w0) as (e1 & S1 & Q1).
  destruct (try_post_still 2 (try_post 1 w0)) as (e2 & S2 & Q2).
  destruct (deliver_still 1 (try_post 2 (try_post 1 w0))) as (e3 & S3 & Q3).
  destruct (deliver_still 2 (deliver 1 (try_post 2 (try_post 1 w0)))) as (e4 & S4 & Q4).
  exists (e0 ++ e1 ++ e2 ++ e3 ++ e4). split; [by repeat eapply steps_app|].
  assert (still (e1 ++ e2 ++ e3 ++ e4)) as Q by (by repeat apply still_app).
  intros q. destruct (picks_app (reg q) e0 (e1 ++ e2 ++ e3 ++ e4)) as (-> & _ & ->). destruct (Q q) as [-> ->], (Q0 q) as [-> L].
  split; [done|]. by rewrite app_nil_r.
Qed.
Definition registered : list Z * world := get_ok (wait_registered pause 2 0 3 begin) ([], begin).
Lemma workers_registered_witness : registered.1 ≡ₚ [1; 2] /\
  exists evs, steps str str begin evs registered.2 /\ length (taken (reg 1) evs) = 1%nat /\ length (taken (reg 2) evs) = 1%nat.
Proof.
  destruct (workers_registered str str pause late2 pause_runs 2 3 3 begin (NetworkThread_new 0 3 []) registered.1 registered.2)
    as (Hsrc & evs & Hs & Ht).
  - reflexivity.
  - reflexivity.
  - lia.
  - repeat constructor; intros tag ci s _ _; reflexivity.
  - intros q. destruct q as [|[|[|q]]]; [vm_compute; lia..|].
    assert (forall i k, late2 i k (S (S (S q))) = 0%nat) as Hl by (intros i k; apply decide_False; lia).
    unfold late_all, late_read. cbn [seq sum_list_with]. rewrite !Hl.
    assert (waiting begin (reg (S (S (S q)))) = []) as -> by (unfold waiting; cbn [f_src reg]; by rewrite Nat2Z.id). done.
  - vm_compute. reflexivity.
  - split; [exact Hsrc|]. exists evs. split; [exact Hs|]. exact (conj (proj2 (Ht 1%nat)) (proj2 (Ht 2%nat))).
Defined.
End Sample.
End Startup.
