(* ===== verification/Transport.v ===== *)
(** * The cluster over its network threads

    Cluster.v and Iteration.v let the network keep the put requests and deliver
    them in any order.  Here the workers hand their messages to the network
    threads of util/rpc.cc (Rpc.v) and read them with [TryRead], as
    [SendUpdates] (kernel/global-table.cc), [SendTermcheck] and
    [HandlePutRequest] (worker/worker.cc) do; worker [w] is process [w + 1] and
    the master is process 0.  The serialisation of the messages by protocol
    buffers is a parameter, of which it is only used that parsing returns what
    was serialised. *)
From S2P Require Import Prelude Float StringPiece Decimal Probe Table SampleKernel DeltaTable StateTable GlobalTable Cluster Cache FlatStore Maiter Worker Loading Examples Iteration Components Rpc RpcSync.

Module Transport.
Import GlobalTable.
Section Transport.
Context {K V D : Type} `{Countable K} `{!Hashable K}.
Context `{!ValueInit K} `{!ValueInit V} `{!ValueInit D}.
Context `{!IterateKernel K V D} `{!Sharder K} `{!Marshal K} `{!Marshal V}.
Context {M App : Type}.
Variable bufmsg : Z.
Variable wire_size : KVPairData -> Z.
Variable adj : K -> D.
Variable AppendToString : M -> cstr.
Variable ParseFromArray : cstr -> M.
(** The messages of worker.proto that are sent here, and [put]'s parser. *)
Variable put_msg : KVPairData -> M.
Variable report_msg : Z -> Z -> spec_float -> M.
Variable parse_put : cstr -> KVPairData.
Hypothesis parse_serialised : forall d, parse_put (AppendToString (put_msg d)) = d.

Abbreviation table := (GlobalTable.t (K := K) (V := V) (D := D)).
Abbreviation thread := (Rpc.NetworkThread (M := M) (App := App)).
Abbreviation world := (Rpc.world (M := M) (App := App)).
Abbreviation net_steps := (Rpc.steps (M := M) (App := App) AppendToString ParseFromArray).
Implicit Types (tb : table) (nt : thread).

Definition MTYPE_PUT_REQUEST : Z := 4.
Definition MTYPE_TERMCHECK_DONE : Z := 21.
(** [config_.master_id()]. *)
Definition master_id : Z := 0.

(** The calls of [Send] for what an operation of the table sends. *)
Definition send_of (m : message) : option (Rpc.outgoing (M := M)) :=
  match m with
  | PutRequest dst d => Some (dst, MTYPE_PUT_REQUEST, put_msg d)
  | TermcheckDelta index updates delta => Some (master_id, MTYPE_TERMCHECK_DONE, report_msg index updates delta)
  | _ => None
  end.
Definition requests_of (ms : list message) : list Rpc.RPCRequest :=
  Rpc.outgoing_request AppendToString <$> omap send_of ms.

Record sys := mk { tables : list table; net : world }.
Implicit Types s : sys.

(** What a worker does by itself: an iteration of a row, a flush, a
    termination check, the termination signal. *)
Inductive local : table -> table -> list message -> Prop :=
  | local_iterate tb i p st x tb' ms :
      partitions_ tb !! i = Some (State st) -> StateTable.buckets_ st !! p = Some x -> in_use x = true ->
      Maiter.run_iter bufmsg wire_size tb (Z.of_nat i) (Z.of_nat p) (adj (bk x)) = Ok (tb', ms) -> local tb tb' ms
  | local_flush tb tb' ms : SendUpdates wire_size tb = Ok (tb', ms) -> local tb tb' ms
  | local_termcheck tb tb' ms : termcheck tb = Ok (tb', ms) -> local tb tb' ms
  | local_terminate tb i tb' : terminate_shard tb i = Ok tb' -> local tb tb' [].
(** Neither sends put requests nor takes them. *)
Definition no_puts (evs : list Rpc.event) : Prop := forall a b,
  let f := Rpc.Flow a b MTYPE_PUT_REQUEST false in Rpc.sent f evs = [] /\ Rpc.taken f evs = [].

(** A step of a worker, a turn of the loop of [HandlePutRequest], or a step of
    the network threads and of whatever else uses them.  No checkpoint is
    active and no shard changes hands, so that a put request is no epoch marker,
    is not logged and clears no taint (Worker.v has these). *)
Inductive sys_step : sys -> sys -> Prop :=
  | sys_local ts w i tb nt tb' ms :
      ts !! i = Some tb -> Rpc.procs w !! S i = Some nt -> local tb tb' ms ->
      sys_step (mk ts w) (mk (<[i := tb']> ts) (Rpc.set_proc w (S i) (Rpc.Send_all nt (requests_of ms))))
  | sys_read ts w i tb nt src data nt' due tb' ms :
      ts !! i = Some tb -> Rpc.procs w !! S i = Some nt ->
      Rpc.TryRead nt Rpc.ANY_SOURCE MTYPE_PUT_REQUEST = Ok (Some (src, data, nt')) ->
      marker (parse_put (drop 1 data)) = -1 ->
      ApplyUpdates bufmsg wire_size due tb (parse_put (drop 1 data)) = Ok (tb', ms) ->
      sys_step (mk ts w) (mk (<[i := tb']> ts) (Rpc.set_proc w (S i) (Rpc.Send_all nt' (requests_of ms))))
  | sys_net ts w evs w' :
      Rpc.step AppendToString ParseFromArray w evs w' -> no_puts evs -> sys_step (mk ts w) (mk ts w').
Inductive sys_steps : sys -> sys -> Prop :=
  | sys_refl s : sys_steps s s
  | sys_next s1 s2 s3 : sys_step s1 s2 -> sys_steps s2 s3 -> sys_steps s1 s3.

(** ** What is in the network

    The put requests that wait at their sender, are in a channel or in a queue
    of their receiver. *)
Definition flows (n : nat) : list Rpc.flow :=
  a ← seq 0 n; (fun b => Rpc.Flow (Z.of_nat a) (Z.of_nat b) MTYPE_PUT_REQUEST false) <$> seq 0 n.
Definition decode (f : Rpc.flow) (data : cstr) : message := PutRequest (Rpc.f_dst f) (parse_put (drop 1 data)).
Definition decoded (n : nat) (X : Rpc.flow -> list cstr) : list message := flows n ≫= (fun f => decode f <$> X f).
Definition in_flight (w : world) : list message :=
  decoded (length (Rpc.procs w)) (fun f => Rpc.waiting w f ++ Rpc.transit w f).
Definition is_put (m : message) : bool := match m with PutRequest _ _ => true | _ => false end.
Definition puts (ms : list message) : list message := filter (fun m => is_put m = true) ms.

Lemma bind_split {A B} (l : list A) (f g h : A -> list B) : (forall x, x ∈ l -> h x ≡ₚ f x ++ g x) ->
  l ≫= h ≡ₚ (l ≫= f) ++ (l ≫= g).
Proof.
  induction l as [|x l IH]; intros Hh; [done|]. cbn [mbind list_bind]. rewrite (Hh x) by (by left).
  rewrite IH by (intros y Hy; apply Hh; by right). rewrite <- !app_assoc. apply Permutation_app_head.
  rewrite !app_assoc. apply Permutation_app_tail, Permutation_app_comm.
Qed.
Lemma bind_nil {A B} (l : list A) (f : A -> list B) : (forall x, x ∈ l -> f x = []) -> l ≫= f = [].
Proof. induction l as [|x l IH]; intros Hf; [done|]. cbn [mbind list_bind]. rewrite Hf by (by left). apply IH. intros y Hy. apply Hf. by right. Qed.
Lemma decoded_split n X Y Z0 : (forall f, f ∈ flows n -> Z0 f ≡ₚ X f ++ Y f) -> decoded n Z0 ≡ₚ decoded n X ++ decoded n Y.
Proof. intros Hz. apply bind_split. intros f Hf. rewrite (Hz f Hf). by rewrite fmap_app. Qed.
Lemma decoded_nil n X : (forall f, f ∈ flows n -> X f = []) -> decoded n X = [].
Proof. intros Hx. apply bind_nil. intros f Hf. by rewrite Hx. Qed.
Lemma elem_of_flows n a b : (a < n)%nat -> (b < n)%nat -> Rpc.Flow (Z.of_nat a) (Z.of_nat b) MTYPE_PUT_REQUEST false ∈ flows n.
Proof.
  intros Ha Hb. apply list_elem_of_bind. exists a. split; [|apply elem_of_seq; lia].
  apply list_elem_of_fmap. exists b. split; [done|]. apply elem_of_seq. lia.
Qed.
Lemma flows_inv n f : f ∈ flows n -> exists a b, (a < n)%nat /\ (b < n)%nat /\ f = Rpc.Flow (Z.of_nat a) (Z.of_nat b) MTYPE_PUT_REQUEST false.
Proof.
  intros Hf. apply list_elem_of_bind in Hf as (a & Hf & Ha%elem_of_seq). apply list_elem_of_fmap in Hf as (b & -> & Hb%elem_of_seq).
  exists a, b. split_and!; [lia|lia|done].
Qed.
Lemma flows_nodup n : NoDup (flows n).
Proof.
  unfold flows. cut (forall l, NoDup l -> NoDup (a ← l; (fun b => Rpc.Flow (Z.of_nat a) (Z.of_nat b) MTYPE_PUT_REQUEST false) <$> seq 0 n)).
  { intros Hc. apply Hc, NoDup_seq. }
  induction l as [|a l IH]; intros Hnd; [constructor|].
  apply NoDup_cons in Hnd as [Ha Hnd]. cbn [mbind list_bind]. apply NoDup_app. split_and!.
  - apply NoDup_fmap; [|apply NoDup_seq]. intros x y [= ?]. lia.
  - intros f Hf Hin. apply list_elem_of_fmap in Hf as (b & -> & _). apply list_elem_of_bind in Hin as (a' & Hin & Ha').
    apply list_elem_of_fmap in Hin as (b' & [= E _] & _). apply Nat2Z.inj in E as ->. done.
  - by apply IH.
Qed.
Lemma bind_single {A B} (l : list A) x (f : A -> list B) : NoDup l -> x ∈ l -> (forall y, y ∈ l -> y <> x -> f y = []) -> l ≫= f = f x.
Proof.
  induction 1 as [|y l Hy Hnd IH]; intros Hx Hf; [by apply not_elem_of_nil in Hx|]. cbn [mbind list_bind].
  apply elem_of_cons in Hx as [->|Hx].
  - change (list_bind _ _ f l) with (l ≫= f). rewrite bind_nil; [by rewrite app_nil_r|]. intros z Hz. apply Hf; [by right|]. by intros ->.
  - rewrite (Hf y); [|by left|by intros ->]. cbn [app]. apply IH; [done|]. intros z Hz. apply Hf. by right.
Qed.
Lemma decoded_one n f X x : f ∈ flows n -> X f = [x] -> (forall g, g <> f -> X g = []) -> decoded n X = [decode f x].
Proof.
  intros Hf Ex Hother. unfold decoded. rewrite (bind_single (flows n) f); [by rewrite Ex|apply flows_nodup|done|].
  intros g _ Hg. by rewrite Hother.
Qed.
Lemma sent_self f x : Rpc.sent f [Rpc.Sent f x] = [x].
Proof. rewrite Rpc.sent_one. by rewrite decide_True. Qed.
Lemma sent_other f g x : g <> f -> Rpc.sent g [Rpc.Sent f x] = [].
Proof. intros Hne. rewrite Rpc.sent_one. by rewrite decide_False. Qed.
Lemma taken_self f x : Rpc.taken f [Rpc.Taken f x] = [x].
Proof. rewrite Rpc.taken_one. by rewrite decide_True. Qed.
Lemma taken_other f g x : g <> f -> Rpc.taken g [Rpc.Taken f x] = [].
Proof. intros Hne. rewrite Rpc.taken_one. by rewrite decide_False. Qed.

(** ** Sending and reading as runs of the network *)
Lemma send_steps os : forall p (w : world) nt, Rpc.procs w !! p = Some nt ->
  net_steps w (Rpc.sent_events p (Rpc.outgoing_request AppendToString <$> os))
    (Rpc.set_proc w p (Rpc.Send_all nt (Rpc.outgoing_request AppendToString <$> os))).
Proof.
  induction os as [|[[dst m] msg] os IH]; intros p w nt Hp; cbn [fmap list_fmap Rpc.sent_events Rpc.Send_all fold_left].
  { rewrite RpcSync.set_proc_same by done. apply Rpc.steps_refl. }
  set (nt1 := Rpc.Send nt (Rpc.outgoing_request AppendToString (dst, m, msg))).
  specialize (IH p (Rpc.set_proc w p nt1) nt1 (RpcSync.procs_set p w nt nt1 Hp)). rewrite RpcSync.set_proc_twice in IH.
  change (Rpc.Sent ?f ?d :: ?l) with ([Rpc.Sent f d] ++ l). eapply Rpc.steps_next; [|exact IH]. by apply Rpc.step_send.
Qed.
(** The put requests among what is sent. *)
Lemma sent_puts n p ms : (p < n)%nat -> (forall dst d, PutRequest dst d ∈ ms -> 0 <= dst < Z.of_nat n) ->
  decoded n (fun f => Rpc.sent f (Rpc.sent_events p (requests_of ms))) ≡ₚ puts ms.
Proof.
  intros Hp. induction ms as [|m ms IH]; intros Hr; [by rewrite decoded_nil|].
  assert (decoded n (fun f => Rpc.sent f (Rpc.sent_events p (requests_of ms))) ≡ₚ puts ms) as IH'
    by (apply IH; intros dst d Hin; apply (Hr dst d); by right). clear IH.
  destruct m as [dst d|idx u delta|ta tbb|tc]; try exact IH'.
  - set (r := Rpc.outgoing_request AppendToString (dst, MTYPE_PUT_REQUEST, put_msg d)).
    set (f0 := Rpc.Flow (Z.of_nat p) (Z.of_nat (Z.to_nat dst)) MTYPE_PUT_REQUEST false).
    specialize (Hr dst d ltac:(by left)).
    assert (Rpc.req_flow p r = f0) as Ef by (unfold Rpc.req_flow, f0, r; cbn; by rewrite Z2Nat.id by lia).
    assert (decode f0 (Rpc.payload r) = PutRequest dst d) as Ed.
    { unfold decode, f0, r. cbn. rewrite drop_0, parse_serialised, Z2Nat.id by lia. done. }
    rewrite (decoded_split n (fun f => Rpc.sent f [Rpc.Sent f0 (Rpc.payload r)]) (fun f => Rpc.sent f (Rpc.sent_events p (requests_of ms)))).
    + rewrite IH', (decoded_one n f0 _ (Rpc.payload r)); [by rewrite Ed|apply elem_of_flows; lia|apply sent_self|].
      intros g Hg. by apply sent_other.
    + intros f _. rewrite <- Ef. by destruct (Rpc.picks_app f [Rpc.Sent (Rpc.req_flow p r) (Rpc.payload r)] (Rpc.sent_events p (requests_of ms))) as (<- & _).
  - rewrite (decoded_split n (fun _ => []) (fun f => Rpc.sent f (Rpc.sent_events p (requests_of ms)))).
    + by rewrite decoded_nil.
    + intros f (a & b & _ & _ & ->)%flows_inv. set (r := Rpc.outgoing_request AppendToString (master_id, MTYPE_TERMCHECK_DONE, report_msg idx u delta)).
      change (Rpc.sent_events p (requests_of (TermcheckDelta idx u delta :: ms))) with
        ([Rpc.Sent (Rpc.req_flow p r) (Rpc.payload r)] ++ Rpc.sent_events p (requests_of ms)).
      set (f := Rpc.Flow _ _ _ _).
      destruct (Rpc.picks_app f [Rpc.Sent (Rpc.req_flow p r) (Rpc.payload r)] (Rpc.sent_events p (requests_of ms))) as (-> & _).
      rewrite sent_other; [done|]. unfold f, r. by intros [=].
Qed.

Lemma step_procs (w w' : world) evs : Rpc.step AppendToString ParseFromArray w evs w' -> length (Rpc.procs w') = length (Rpc.procs w).
Proof. intros Hs. destruct Hs; cbn; by rewrite length_insert. Qed.
Lemma steps_procs (w w' : world) evs : net_steps w evs w' -> length (Rpc.procs w') = length (Rpc.procs w).
Proof. induction 1 as [|w1 e1 w2 e2 w3 Hs _ IH]; [done|]. rewrite IH. by eapply step_procs. Qed.
Lemma in_flight_steps (w w' : world) evs : Rpc.handled_all w -> net_steps w evs w' ->
  let n := length (Rpc.procs w) in
  in_flight w ++ decoded n (fun f => Rpc.sent f evs) ≡ₚ decoded n (fun f => Rpc.taken f evs) ++ in_flight w'.
Proof.
  intros Hh Hs n. unfold in_flight. rewrite (steps_procs _ _ _ Hs). fold n.
  rewrite <- (decoded_split n _ _ (fun f => (Rpc.waiting w f ++ Rpc.transit w f) ++ Rpc.sent f evs)) by done.
  rewrite <- (decoded_split n _ _ (fun f => (Rpc.waiting w f ++ Rpc.transit w f) ++ Rpc.sent f evs)); [done|].
  intros f (a & b & _ & _ & ->)%flows_inv. rewrite <- app_assoc. apply (Rpc.steps_conserve AppendToString ParseFromArray w evs w' _ Hh); [cbn; lia|cbn; lia|done].
Qed.

(** ** The network refines the one of Cluster.v *)
Section Runs.
Context `{!AccumulateLaws K V D} `{!MarshalLaws K} `{!MarshalLaws V} `{!PropagationLaws K V D}.
Context (owners : list Z).
Hypothesis representable_accumulate : forall a b : V,
  representable a -> representable b -> representable (accumulate (K := K) (D := D) a b).
Hypothesis representable_default : representable (default_v (K := K) (V := V) (D := D)).
Hypothesis representable_sent : forall k d v j x,
  representable d -> representable v -> (j, x) ∈ g_func (V := V) k d v (adj k) [] -> representable j /\ representable x.
Abbreviation cluster := (Cluster.t (K := K) (V := V) (D := D)).
Abbreviation istep := (Iteration.istep bufmsg wire_size adj).
Abbreviation isteps := (Iteration.isteps bufmsg wire_size adj).
Implicit Types c : cluster.

(** The processes know their number and every tag with a callback is handled by it. *)
Record ready s : Prop := {
  ready_handled : Rpc.handled_all (net s);
  ready_procs : length (Rpc.procs (net s)) = S (length (tables s));
  ready_size : forall p nt, Rpc.procs (net s) !! p = Some nt -> Rpc.world_size nt = Z.of_nat (length (Rpc.procs (net s)));
  ready_owners : Forall (fun o => 0 <= o < Z.of_nat (length (tables s))) owners
}.
Record related (init : K -> V) s c : Prop := {
  rel_tables : Cluster.workers c = tables s;
  rel_net : puts (Cluster.net c) ≡ₚ in_flight (net s);
  rel_inv : Iteration.inv bufmsg adj owners init c
}.

Lemma ready_steps s ts' w' evs : ready s -> length ts' = length (tables s) -> net_steps (net s) evs w' -> ready (mk ts' w').
Proof.
  intros [Hh Hp Hsz Ho] Ht Hs. split; cbn [net tables].
  - by eapply RpcSync.steps_handled.
  - rewrite (steps_procs _ _ _ Hs). congruence.
  - intros p nt' Hnt'. rewrite (steps_procs _ _ _ Hs). pose proof (lookup_lt_Some _ _ _ Hnt') as Hlt. rewrite (steps_procs _ _ _ Hs) in Hlt.
    apply lookup_lt_is_Some_2 in Hlt as [nt Hnt]. destruct (RpcSync.steps_frame _ _ _ _ _ _ _ Hs Hnt) as (nt1 & Hnt1 & Hf & _).
    rewrite Hnt1 in Hnt'. injection Hnt' as <-. rewrite Hf. by eapply Hsz.
  - by rewrite Ht.
Qed.
Lemma puts_app ms ms' : puts (ms ++ ms') = puts ms ++ puts ms'.
Proof. apply filter_app. Qed.
Lemma put_range init s c dst d : ready s -> length (Cluster.workers c) = length (tables s) -> Iteration.inv bufmsg adj owners init c ->
  PutRequest dst d ∈ Cluster.net c -> 0 <= dst < Z.of_nat (length (Rpc.procs (net s))).
Proof.
  intros Hr Hl Hinv Hin. pose proof (Cluster.wf_net _ _ _ (Iteration.inv_wf _ _ _ _ _ Hinv)) as Hn.
  rewrite Forall_forall in Hn. destruct (Hn _ Hin) as (i & l & _ & Ho & _).
  pose proof (ready_owners _ Hr) as Hown. rewrite Forall_forall in Hown. specialize (Hown (dst - 1) ltac:(by eapply list_elem_of_lookup_2)).
  rewrite (ready_procs _ Hr). lia.
Qed.
Lemma local_istep ws ms i tb tb' ms' : ws !! i = Some tb -> local tb tb' ms' ->
  istep (Cluster.mk ws ms) (Cluster.mk (<[i := tb']> ws) (ms ++ ms')).
Proof.
  intros Hi Hl. destruct Hl as [tb j p st x tb' ms' Hp Hx Hu E|tb tb' ms' E|tb tb' ms' E|tb j tb' E].
  - by eapply Iteration.istep_iterate.
  - apply Iteration.istep_exchange. by eapply Cluster.step_flush.
  - apply Iteration.istep_exchange. by eapply Cluster.step_termcheck.
  - rewrite app_nil_r. apply Iteration.istep_exchange. by eapply Cluster.step_terminate.
Qed.

(** Sending what an operation of worker [i] returned. *)
Lemma send_related init s (ts' : list table) i nt ms c : ready s -> Rpc.procs (net s) !! S i = Some nt ->
  length ts' = length (tables s) -> Cluster.workers c = ts' ->
  Iteration.inv bufmsg adj owners init c -> (exists ms0, Cluster.net c = ms0 ++ ms /\ puts ms0 ≡ₚ in_flight (net s)) ->
  let s' := mk ts' (Rpc.set_proc (net s) (S i) (Rpc.Send_all nt (requests_of ms))) in
  related init s' c /\ ready s'.
Proof.
  intros Hr Hp Hl Hw Hinv (ms0 & En & Hms0) s'.
  pose proof (send_steps (omap send_of ms) (S i) (net s) nt Hp) as Hs. fold (requests_of ms) in Hs.
  split; [|by eapply ready_steps]. split; [done| |done]. cbn [net]. rewrite En, puts_app, Hms0.
  pose proof (in_flight_steps _ _ _ (ready_handled _ Hr) Hs) as C. cbn zeta in C.
  rewrite sent_puts in C.
  - rewrite C, decoded_nil; [done|]. intros f _. by destruct (Rpc.posted_sent f (S i) (requests_of ms)) as [_ ->].
  - by eapply lookup_lt_Some.
  - intros dst d Hin. eapply put_range; try done; [congruence|]. rewrite En. apply elem_of_app. by right.
Qed.

Lemma istep_related init c c' : Iteration.inv bufmsg adj owners init c -> istep c c' -> Iteration.inv bufmsg adj owners init c'.
Proof.
  intros Hinv Hs.
  by apply (Iteration.istep_inv bufmsg wire_size adj owners representable_accumulate representable_default representable_sent init c c').
Qed.
Lemma step_sends init ts w i nt tb' ms msn : ready (mk ts w) -> related init (mk ts w) (Cluster.mk ts msn) ->
  Rpc.procs w !! S i = Some nt -> istep (Cluster.mk ts msn) (Cluster.mk (<[i := tb']> ts) (msn ++ ms)) ->
  let s' := mk (<[i := tb']> ts) (Rpc.set_proc w (S i) (Rpc.Send_all nt (requests_of ms))) in
  related init s' (Cluster.mk (<[i := tb']> ts) (msn ++ ms)) /\ ready s'.
Proof.
  intros Hr [_ Hn Hinv] Hp Hs s'.
  apply (send_related init (mk ts w)); try done; [by rewrite length_insert|by eapply istep_related|]. by exists msn.
Qed.
(** A put request that is read was in the network of Cluster.v. *)
Lemma read_in_flight s i nt src data nt' : ready s -> Rpc.procs (net s) !! S i = Some nt ->
  Rpc.TryRead nt Rpc.ANY_SOURCE MTYPE_PUT_REQUEST = Ok (Some (src, data, nt')) ->
  let w1 := Rpc.set_proc (net s) (S i) nt' in
  in_flight (net s) ≡ₚ PutRequest (Z.of_nat (S i)) (parse_put (drop 1 data)) :: in_flight w1 /\ ready (mk (tables s) w1).
Proof.
  intros Hr Hp E w1. set (f := Rpc.Flow src (Z.of_nat (S i)) MTYPE_PUT_REQUEST false).
  assert (net_steps (net s) [Rpc.Taken f data] w1) as Hs
    by (apply RpcSync.steps_one; by apply (Rpc.step_read _ _ (net s) (S i) nt Rpc.ANY_SOURCE MTYPE_PUT_REQUEST src data nt')).
  split; [|by eapply ready_steps].
  pose proof E as Hsrc. unfold Rpc.TryRead in Hsrc. change (Rpc.ANY_SOURCE =? Rpc.ANY_SOURCE) with true in Hsrc.
  apply Rpc.try_sources_spec in Hsrc as [Hsrc%elem_of_seqZ _]. rewrite (ready_size _ Hr _ _ Hp) in Hsrc.
  pose proof (in_flight_steps _ _ _ (ready_handled _ Hr) Hs) as C. cbn zeta in C. rewrite decoded_nil, app_nil_r in C by done.
  rewrite C, (decoded_one _ f _ data); [done| |apply taken_self|intros g Hg; by apply taken_other].
  unfold f. rewrite <- (Z2Nat.id src) by lia. apply elem_of_flows; [lia|]. by eapply lookup_lt_Some.
Qed.
Lemma step_read init ts w i tb nt src data nt' due tb' ms c : ready (mk ts w) -> related init (mk ts w) c ->
  ts !! i = Some tb -> Rpc.procs w !! S i = Some nt ->
  Rpc.TryRead nt Rpc.ANY_SOURCE MTYPE_PUT_REQUEST = Ok (Some (src, data, nt')) ->
  ApplyUpdates bufmsg wire_size due tb (parse_put (drop 1 data)) = Ok (tb', ms) ->
  let s' := mk (<[i := tb']> ts) (Rpc.set_proc w (S i) (Rpc.Send_all nt' (requests_of ms))) in
  exists c', Cluster.step bufmsg wire_size c None c' /\ related init s' c' /\ ready s'.
Proof.
  intros Hr [Ht Hn Hinv] Hi Hp Er Ea s'. destruct c as [ws msn]. cbn in Ht, Hn. subst ws.
  destruct (read_in_flight (mk ts w) i nt src data nt' Hr Hp Er) as [Hin Hr1]. cbn [net tables] in Hin, Hr1.
  set (m := PutRequest (Z.of_nat (S i)) (parse_put (drop 1 data))) in *. set (w1 := Rpc.set_proc w (S i) nt') in *.
  assert (m ∈ msn) as (pre & post & ->)%list_elem_of_split.
  { assert (m ∈ puts msn) as Hm by (rewrite Hn, Hin; by left). by apply list_elem_of_filter in Hm as [_ ?]. }
  assert (puts (pre ++ post) ≡ₚ in_flight w1) as Hrest.
  { rewrite puts_app in *. unfold puts at 2 in Hn. rewrite filter_cons_True in Hn by done. fold (puts post) in Hn.
    apply (Permutation_cons_inv (a := m)). by rewrite <- Hin, <- Hn, Permutation_middle. }
  assert (Cluster.step bufmsg wire_size (Cluster.mk ts (pre ++ m :: post)) None (Cluster.mk (<[i := tb']> ts) (pre ++ post ++ ms))) as Hs.
  { pose proof (Cluster.step_deliver bufmsg wire_size ts pre post (Z.of_nat (S i)) (parse_put (drop 1 data)) due tb tb' ms) as Hd.
    replace (Z.to_nat (Z.of_nat (S i) - 1)) with i in Hd by lia. by apply Hd. }
  exists (Cluster.mk (<[i := tb']> ts) (pre ++ post ++ ms)). split; [exact Hs|].
  subst s'. replace (Rpc.set_proc w (S i) (Rpc.Send_all nt' (requests_of ms)))
    with (Rpc.set_proc w1 (S i) (Rpc.Send_all nt' (requests_of ms))) by (unfold w1; apply RpcSync.set_proc_twice).
  apply (send_related init (mk ts w1)); [done|by eapply RpcSync.procs_set|by rewrite length_insert|done|by eapply istep_related, Iteration.istep_exchange|].
  exists (pre ++ post). by rewrite <- app_assoc.
Qed.
Lemma net_related init ts w evs w' c : ready (mk ts w) -> related init (mk ts w) c -> net_steps w evs w' -> no_puts evs ->
  related init (mk ts w') c /\ ready (mk ts w').
Proof.
  intros Hr [Ht Hn Hinv] Hs Hq. split; [|by eapply (ready_steps (mk ts w))]. split; [done| |done]. rewrite Hn. cbn [net].
  pose proof (in_flight_steps _ _ _ (ready_handled _ Hr) Hs) as C. cbn zeta in C.
  rewrite !decoded_nil, app_nil_r in C; [done|intros f (a & b & _ & _ & ->)%flows_inv; by destruct (Hq (Z.of_nat a) (Z.of_nat b))..].
Qed.
Lemma step_simulates init s s' c : ready s -> related init s c -> sys_step s s' ->
  exists c', isteps c c' /\ related init s' c' /\ ready s'.
Proof.
  intros Hr Hrel Hs. destruct Hs as [ts w i tb nt tb' ms Hi Hp Hl|ts w i tb nt src data nt' due tb' ms Hi Hp Er _ Ea|ts w evs w' Hs Hq].
  - destruct c as [ws msn]. pose proof (rel_tables _ _ _ Hrel) as Ht. cbn in Ht. subst ws.
    pose proof (local_istep ts msn i tb tb' ms Hi Hl) as Hs. eexists. split; [eapply Iteration.isteps_next; [exact Hs|constructor]|].
    by apply step_sends.
  - destruct (step_read init ts w i tb nt src data nt' due tb' ms c Hr Hrel Hi Hp Er Ea) as (c' & Hs & Hrest). exists c'. split; [|done].
    eapply Iteration.isteps_next; [by apply Iteration.istep_exchange|constructor].
  - exists c. split; [constructor|]. apply RpcSync.steps_one in Hs. by eapply net_related.
Qed.
Lemma steps_simulate init s s' : sys_steps s s' -> forall c, ready s -> related init s c ->
  exists c', isteps c c' /\ related init s' c' /\ ready s'.
Proof.
  induction 1 as [s|s1 s2 s3 Hs _ IH]; intros c Hr Hrel; [exists c; split_and!; [constructor|done|done]|].
  destruct (step_simulates init s1 s2 c Hr Hrel Hs) as (c2 & Hi2 & Hrel2 & Hr2). destruct (IH c2 Hr2 Hrel2) as (c3 & Hi3 & Hrel3 & Hr3).
  exists c3. split_and!; [by eapply Iteration.isteps_trans|done|done].
Qed.

(** No update is buffered or in the network, and no delta would change a value. *)
Definition quiet s : Prop := in_flight (net s) = [] /\
  (forall w tb i d, tables s !! w = Some tb -> partitions_ tb !! i = Some (Delta d) -> DeltaTable.entries_ d = 0) /\
  forall w tb k cell, tables s !! w = Some tb -> row tb k = Some cell ->
    Iteration.below (K := K) (D := D) (Some (StateTable.v1 cell)) (Some (StateTable.v2 cell)).
Hypothesis edge_start : forall k j, j ∈ targets (adj k) ->
  Iteration.below (K := K) (D := D) (Some (edge k (adj k) j (StateTable.v2 (Iteration.start (D := D) k))))
    (Some (StateTable.v2 (Iteration.start (D := D) j))).

(** C11. The network threads implement the network of the asynchronous
    iteration: from loaded tables and a network without put requests, whatever
    the network threads, the workers and everything else that uses the network
    do and in whatever order, the run is one of the asynchronous iteration; its
    workers' tables are the same, and the updates under way are, as often as
    they were sent, those that wait at a sender, in a channel or in a queue.
    When no update is left anywhere, that run has settled.  The put requests are
    those of the iteration: nobody sends epoch markers or other put requests,
    and the owners of the shards stay the same ([sys_step]). *)
Theorem network_refines s0 s :
  ready s0 -> in_flight (net s0) = [] -> Iteration.initial bufmsg owners (Cluster.mk (tables s0) []) ->
  sys_steps s0 s ->
  exists c, isteps (Cluster.mk (tables s0) []) c /\ Cluster.workers c = tables s /\
    puts (Cluster.net c) ≡ₚ in_flight (net s) /\ (quiet s -> Iteration.settled c).
Proof.
  intros Hr H0 Hi Hs. destruct (Iteration.initial_inv bufmsg adj owners edge_start _ Hi) as [Hinv _].
  edestruct (fun init => steps_simulate init s0 s Hs (Cluster.mk (tables s0) []) Hr) as (c & Hc & [Ht Hn _] & _);
    [split; [done|by rewrite H0|exact Hinv]|].
  exists c. split_and!; [done|done|done|]. intros (Q1 & Q2 & Q3). rewrite Q1 in Hn. apply Permutation_nil_r in Hn.
  split; [split|]; rewrite ?Ht; try done. intros m Hm dst d ->.
  assert (PutRequest dst d ∈ puts (Cluster.net c)) as Hp by (by apply list_elem_of_filter). rewrite Hn in Hp. by apply not_elem_of_nil in Hp.
Qed.
End Runs.
End Transport.

(** ** An update on its way between two workers *)
Section Sample.
Import Components.
#[local] Instance sample_kernel : IterateKernel Z Z (list Z) := con_kernel parse_int parse_int (fun _ => Ok []).
#[local] Instance sample_laws : AccumulateLaws Z Z (list Z) := con_laws parse_int parse_int (fun _ => Ok []).
#[local] Existing Instance Marshal_int.
#[local] Existing Instance MarshalLaws_int.
#[local] Instance sample_sharder : Sharder Z := Sharding.Mod.
#[local] Instance sample_propagation : PropagationLaws Z Z (list Z) := con_propagation parse_int parse_int (fun _ => Ok []).

(** A serialisation: the bits of a number that stands for the message. *)
#[local] Instance Arg_eq : EqDecision Arg.
Proof. solve_decision. Defined.
#[local] Instance Arg_countable : Countable Arg.
Proof. by refine (inj_countable' (fun a => (arg_key a, arg_value a)) (fun p => {| arg_key := p.1; arg_value := p.2 |}) _); intros []. Defined.
#[local] Instance KVPairData_eq : EqDecision KVPairData.
Proof. solve_decision. Defined.
#[local] Instance KVPairData_countable : Countable KVPairData.
Proof.
  by refine (inj_countable' (fun d => (source d, Table.table d, shard d, done_ d, kv_data d, epoch d, marker d))
    (fun '(a, b, c, d, e, f, g) => {| source := a; Table.table := b; shard := c; done_ := d; kv_data := e; epoch := f; marker := g |}) _);
    intros [].
Defined.
Fixpoint to_bits (p : positive) : cstr :=
  match p with xH => [] | xO p => "0"%char :: to_bits p | xI p => "1"%char :: to_bits p end.
Fixpoint of_bits (s : cstr) : positive :=
  match s with [] => xH | c :: s => if bool_decide (c = "0"%char) then xO (of_bits s) else xI (of_bits s) end.
Lemma of_to_bits p : of_bits (to_bits p) = p.
Proof. induction p as [p IH|p IH|]; cbn; by rewrite ?IH. Qed.
Abbreviation msg := (KVPairData + unit)%type.
Definition serialise (m : msg) : cstr := match m with inl d => to_bits (encode d) | inr _ => [] end.
Definition parse (s : cstr) : KVPairData := default KVPairData_Clear (countable.decode (of_bits s)).
Lemma parse_serialise d : parse (serialise (inl d)) = d.
Proof. unfold parse, serialise. by rewrite of_to_bits, decode_encode. Qed.

Abbreviation thread := (Rpc.NetworkThread (M := msg) (App := unit)).
Definition anyone : cstr -> msg := fun s => inl (parse s).
Definition idle_net : Rpc.world (M := msg) (App := unit) :=
  Rpc.World [Rpc.NetworkThread_new 0 3 tt; Rpc.NetworkThread_new 1 3 tt; Rpc.NetworkThread_new 2 3 tt] ∅.
Definition begin : sys (K := Z) (V := Z) (D := list Z) := mk (Cluster.workers two_cluster) idle_net.
Definition no_proc : thread := Rpc.NetworkThread_new 0 3 tt.
Definition proc (w : Rpc.world (M := msg) (App := unit)) (p : nat) : thread := default no_proc (Rpc.procs w !! p).
(** Worker 0 iterates its row, flushes the update; it is posted, received and
    read by worker 1. *)
Abbreviation reqs := (requests_of serialise inl (fun _ _ _ => inr tt)).
Abbreviation run := (sys_steps (K := Z) (V := Z) (D := list Z) 10 two_size two_adj serialise anyone inl (fun _ _ _ => inr tt) parse).
Abbreviation send := (fun w p ms => Rpc.set_proc w p (Rpc.Send_all (proc w p) (reqs ms))).
Definition iterated := get_ok (Maiter.run_iter 10 two_size worker0 0 2 (two_adj 2)) (no_table, []).
Definition flushed := get_ok (SendUpdates two_size iterated.1) (no_table, []).
Definition net2 := send (send idle_net 1%nat iterated.2) 1%nat flushed.2.
Definition posted := get_ok (Rpc.post (proc net2 1)) (no_proc, None).
Definition packet := default (Rpc.RPCRequest_empty 0 0 false) posted.2.
Definition net3 := Rpc.add_packet (Rpc.set_proc net2 1 posted.1) 1 packet.
Definition received := get_ok (Rpc.receive serialise anyone (proc net3 2) 1 (Rpc.rpc_type packet) (Rpc.payload packet)) (no_proc, false, []).
Definition net4 := Rpc.World (<[2%nat := received.1.1]> (Rpc.procs net3)) (<[(1, 2) := []]> (Rpc.chan net3)).
Definition taken := default (0, [], no_proc) (get_ok (Rpc.TryRead (proc net4 2) Rpc.ANY_SOURCE MTYPE_PUT_REQUEST) None).
Definition applied := get_ok (ApplyUpdates 10 two_size false worker1 (parse (drop 1 taken.1.2))) (no_table, []).
Definition finish : sys (K := Z) (V := Z) (D := list Z) :=
  mk [flushed.1; applied.1] (Rpc.set_proc net4 2 (Rpc.Send_all taken.2 (reqs applied.2))).

Lemma network_run : run begin finish.
Proof.
  eapply sys_next; [apply (sys_local _ _ _ _ _ _ _ _ _ _ 0 worker0 (proc idle_net 1) iterated.1 iterated.2);
    [reflexivity|reflexivity|eapply (local_iterate _ _ _ _ 0 2); [reflexivity|reflexivity|reflexivity|vm_compute; reflexivity]]|].
  eapply sys_next; [apply (sys_local _ _ _ _ _ _ _ _ _ _ 0 iterated.1 (proc (send idle_net 1%nat iterated.2) 1) flushed.1 flushed.2);
    [reflexivity|vm_compute; reflexivity|apply local_flush; vm_compute; reflexivity]|].
  eapply sys_next; [eapply sys_net; [apply (Rpc.step_post _ _ net2 1 (proc net2 1) posted.1 packet); vm_compute; reflexivity|by intros a b]|].
  eapply sys_next; [eapply sys_net; [apply (Rpc.step_receive _ _ net3 2 (proc net3 2) 1 (Rpc.rpc_type packet) (Rpc.payload packet) []
    received.1.1 received.1.2 received.2); vm_compute; reflexivity|intros a b; split; vm_compute; reflexivity]|].
  eapply sys_next; [apply (sys_read _ _ _ _ _ _ _ _ _ net4 1 worker1 (proc net4 2) taken.1.1 taken.1.2 taken.2 false applied.1 applied.2);
    vm_compute; reflexivity|].
  apply sys_refl.
Qed.
Lemma network_refines_witness : exists c,
  Iteration.isteps 10 two_size two_adj two_cluster c /\ Cluster.workers c = [flushed.1; applied.1] /\
  puts (Cluster.net c) = [] /\ getF1 applied.1 1 = Ok 2.
Proof.
  destruct (network_refines 10 two_size two_adj serialise anyone inl (fun _ _ _ => inr tt) parse parse_serialise two_owners
    (con_representable parse_int parse_int (fun _ => Ok [])) (con_default parse_int parse_int (fun _ => Ok []))
    (con_sent parse_int parse_int (fun _ => Ok []) two_adj two_adj_int) (con_edge_start parse_int parse_int (fun _ => Ok []) two_adj)
    begin finish) as (c & Hs & Ht & Hn & _).
  - split; [repeat constructor; intros tag ci s _ _; reflexivity|reflexivity| |by repeat constructor].
    intros p nt Hp. destruct p as [|[|[|p]]]; cbn in Hp; try done; by injection Hp as <-.
  - vm_compute. reflexivity.
  - exact two_initial.
  - exact network_run.
  - exists c. split_and!; [exact Hs|exact Ht| |vm_compute; reflexivity].
    assert (in_flight parse (net finish) = []) as E by (vm_compute; reflexivity). rewrite E in Hn. by apply Permutation_nil_r in Hn.
Defined.
End Sample.
End Transport.
