(* ===== verification/Progress.v ===== *)
(** * Progress of the network threads

    Transport.v shows that the network threads do nothing but what the
    asynchronous iteration allows.  Here they get it done: as long as the
    network carries only put requests and termination reports, the threads can
    post, receive and read everything that is under way, and the computation
    can be brought to its end. *)
From S2P Require Import Prelude Float StringPiece Decimal Probe Table SampleKernel DeltaTable StateTable GlobalTable Cluster Cache FlatStore Maiter Worker Loading Examples Iteration Components Rpc RpcSync Transport.

(** ** Sums and loops *)
Lemma sum_with_insert {A} (f : A -> nat) l p (x y : A) : l !! p = Some x ->
  (sum_list_with f (<[p := y]> l) + f x = sum_list_with f l + f y)%nat.
Proof.
  revert p. induction l as [|z l IH]; intros p Hp; [done|]. destruct p as [|p]; cbn in Hp.
  - injection Hp as ->. change (f y + sum_list_with f l + f x = f x + sum_list_with f l + f y)%nat. lia.
  - specialize (IH p Hp). change (f z + sum_list_with f (<[p := y]> l) + f x = f z + sum_list_with f l + f y)%nat. lia.
Qed.
Lemma sum_with_less {A} (f g : A -> nat) l x : (forall y, y ∈ l -> f y <= g y)%nat -> x ∈ l -> (f x < g x)%nat ->
  (sum_list_with f l < sum_list_with g l)%nat.
Proof.
  assert (forall l, (forall y, y ∈ l -> f y <= g y)%nat -> (sum_list_with f l <= sum_list_with g l)%nat) as Hle.
  { clear. induction l as [|y l IH]; intros Hl; [done|]. cbn. pose proof (Hl y ltac:(by left)). specialize (IH ltac:(intros; apply Hl; by right)). lia. }
  induction l as [|y l IH]; intros Hl Hx Hlt; [by apply not_elem_of_nil in Hx|]. cbn. pose proof (Hl y ltac:(by left)).
  assert (forall z, z ∈ l -> f z <= g z)%nat as Hl' by (intros; apply Hl; by right).
  apply elem_of_cons in Hx as [->|Hx]; [pose proof (Hle l Hl')|pose proof (IH Hl' Hx Hlt)]; lia.
Qed.
Lemma sum_with_pos {A} (f : A -> nat) l : (0 < sum_list_with f l)%nat -> exists x, x ∈ l /\ (0 < f x)%nat.
Proof.
  induction l as [|x l IH]; cbn; [lia|]. intros Hs. destruct (decide (0 < f x)%nat) as [|Hz]; [exists x; split; [by left|done]|].
  destruct IH as (y & Hy & Hp); [lia|]. exists y. split; [by right|done].
Qed.

(** What every turn of a loop keeps. *)
Lemma for_each_keeps {A S} (f : S -> A -> outcome S) (P : S -> Prop) l : (forall s x s', f s x = Ok s' -> P s -> P s') ->
  forall s s', for_each f l s = Ok s' -> P s -> P s'.
Proof.
  intros Hf. induction l as [|x l IH]; intros s s' E Hs; cbn [for_each] in E; [by injection E as <-|].
  apply bind_Ok in E as (s1 & E1 & E). eauto.
Qed.

Module Progress.
Import GlobalTable Transport.
Section Network.
Context {M App : Type}.
Variable AppendToString : M -> cstr.
Variable ParseFromArray : cstr -> M.
Variable parse_put : cstr -> KVPairData.
Abbreviation thread := (Rpc.NetworkThread (M := M) (App := App)).
Abbreviation world := (Rpc.world (M := M) (App := App)).
Abbreviation step := (Rpc.step (M := M) (App := App) AppendToString ParseFromArray).
Abbreviation steps := (Rpc.steps (M := M) (App := App) AppendToString ParseFromArray).
Implicit Types (w : world) (nt : thread).

(** A packet that carries a put request, no epoch marker, or a report. *)
Definition packet_ok (tag : Z) (data : cstr) : Prop :=
  data <> [] /\ Rpc.is_reply data = false /\
  ((tag = MTYPE_PUT_REQUEST /\ marker (parse_put (drop 1 data)) = -1) \/ tag = MTYPE_TERMCHECK_DONE).
Record clean w : Prop := {
  clean_hosts : Z.of_nat (length (Rpc.procs w)) <= Rpc.kMaxHosts;
  clean_size : forall p nt, Rpc.procs w !! p = Some nt -> Rpc.world_size nt = Z.of_nat (length (Rpc.procs w));
  clean_pending : forall p nt r, Rpc.procs w !! p = Some nt -> r ∈ Rpc.pending_sends_ nt ->
    0 <= Rpc.target r < Z.of_nat (length (Rpc.procs w)) /\ packet_ok (Rpc.rpc_type r) (Rpc.payload r);
  clean_chan : forall a b tag data, (tag, data) ∈ Rpc.chan_at w a b ->
    0 <= a < Z.of_nat (length (Rpc.procs w)) /\ 0 <= b < Z.of_nat (length (Rpc.procs w)) /\ packet_ok tag data;
  clean_queue : forall p nt a data, Rpc.procs w !! p = Some nt -> data ∈ Rpc.queue_of (Rpc.requests nt) MTYPE_PUT_REQUEST a ->
    marker (parse_put (drop 1 data)) = -1;
  clean_callbacks : forall p nt tag, Rpc.procs w !! p = Some nt -> tag = MTYPE_PUT_REQUEST \/ tag = MTYPE_TERMCHECK_DONE ->
    Rpc.callbacks_ nt !! Z.to_nat tag = Some None
}.

(** What waits at the senders, and what is in the channels. *)
Definition unposted w : nat := sum_list_with (fun nt => length (Rpc.pending_sends_ nt)) (Rpc.procs w).
Definition posted w : nat :=
  sum_list_with (fun f => length (Rpc.chan_at w (Rpc.f_src f) (Rpc.f_dst f))) (flows (length (Rpc.procs w))).

(** A process changes: its part of [clean]. *)
Lemma clean_set w p nt nt' : clean w -> Rpc.procs w !! p = Some nt ->
  Rpc.world_size nt' = Rpc.world_size nt -> Rpc.callbacks_ nt' = Rpc.callbacks_ nt ->
  (forall r, r ∈ Rpc.pending_sends_ nt' -> r ∈ Rpc.pending_sends_ nt \/
     0 <= Rpc.target r < Z.of_nat (length (Rpc.procs w)) /\ packet_ok (Rpc.rpc_type r) (Rpc.payload r)) ->
  (forall a data, data ∈ Rpc.queue_of (Rpc.requests nt') MTYPE_PUT_REQUEST a ->
     data ∈ Rpc.queue_of (Rpc.requests nt) MTYPE_PUT_REQUEST a \/ marker (parse_put (drop 1 data)) = -1) ->
  clean (Rpc.set_proc w p nt').
Proof.
  intros [Hh Hs Hp Hc Hq Hcb] Hnt Ew Ecb Hpend Hqueue.
  assert (forall q x, <[p := nt']> (Rpc.procs w) !! q = Some x -> (q = p /\ x = nt') \/ (q <> p /\ Rpc.procs w !! q = Some x)) as Hins.
  { intros q x Hx. apply list_lookup_insert_Some in Hx as [(<- & <- & _)|[? ?]]; [by left|right; split; congruence]. }
  split; cbn [Rpc.procs Rpc.set_proc]; rewrite ?length_insert; [done| | | |..].
  - intros q x [[-> ->]|[_ Hx]]%Hins; [rewrite Ew|]; by eapply Hs.
  - intros q x r [[-> ->]|[_ Hx]]%Hins Hr; [|by eapply Hp]. destruct (Hpend r Hr) as [?|?]; [by eapply Hp|done].
  - intros a b tag data Hin. by apply Hc.
  - intros q x a data [[-> ->]|[_ Hx]]%Hins Hd; [|by eapply Hq]. destruct (Hqueue a data Hd) as [?|?]; [by eapply Hq|done].
  - intros q x tag [[-> ->]|[_ Hx]]%Hins Ht; [rewrite Ecb|]; by eapply Hcb.
Qed.
Lemma chan_set (ch : gmap (Z * Z) (list (Z * cstr))) ps a b l a' b' :
  Rpc.chan_at (M := M) (App := App) (Rpc.World ps (<[(a, b) := l]> ch)) a' b' =
  if decide ((a, b) = (a', b')) then l else Rpc.chan_at (Rpc.World (M := M) (App := App) ps ch) a' b'.
Proof.
  unfold Rpc.chan_at. cbn [Rpc.chan]. case_decide as E; [by injection E as -> ->; rewrite lookup_insert_eq|by rewrite lookup_insert_ne].
Qed.

Lemma post_one w : clean w -> (0 < unposted w)%nat -> exists evs w', step w evs w' /\ no_puts evs /\ clean w' /\ (unposted w' < unposted w)%nat.
Proof.
  intros Hc Hpos. apply sum_with_pos in Hpos as (nt & (p & Hp)%list_elem_of_lookup_1 & Hl).
  destruct (last (Rpc.pending_sends_ nt)) as [r|] eqn:El; [|by apply last_None in El; rewrite El in Hl; cbn in Hl; lia].
  pose proof El as Ep. apply last_Some in Ep as [l Ep].
  destruct (clean_pending _ Hc p nt r Hp ltac:(rewrite Ep; apply elem_of_app; right; by left)) as [Ht Hok].
  assert (Rpc.post nt = Ok (Rpc.set_active (Rpc.set_pending nt l) (Rpc.active_sends_ nt ++ [r]), Some r)) as E.
  { unfold Rpc.post. rewrite El. unfold Rpc.Isend. cbn [Rpc.world_size Rpc.set_pending]. rewrite (clean_size _ Hc p nt Hp).
    destruct (Z.leb_spec 0 (Rpc.target r)), (Z.ltb_spec (Rpc.target r) (Z.of_nat (length (Rpc.procs w)))); try lia. cbn [andb]. run.
    by rewrite Ep, List.removelast_last. }
  set (nt' := Rpc.set_active _ _) in E.
  eexists _, _. split; [eapply Rpc.step_post; [exact Hp|exact E]|]. split; [done|].
  assert (clean (Rpc.set_proc w p nt')) as Hc'.
  { apply (clean_set w p nt); try done; [|by left]. intros r' Hr'. left. rewrite Ep. apply elem_of_app. by left. }
  split.
  - destruct Hc' as [Hh Hs Hpd Hch Hq Hcb]. split; try done. intros a b tag data Hin. unfold Rpc.add_packet in Hin. rewrite chan_set in Hin.
    case_decide as Eab; [|by apply (Hch a b tag data)]. injection Eab as <- <-. apply elem_of_app in Hin as [Hin|Hin]; [by apply (Hch _ _ tag data)|].
    apply list_elem_of_singleton in Hin as [= -> ->]. cbn [Rpc.add_packet Rpc.procs Rpc.set_proc]. rewrite length_insert.
    split_and!; try done; try lia. apply inj_lt. by eapply lookup_lt_Some.
  - unfold unposted. cbn [Rpc.add_packet Rpc.procs Rpc.set_proc].
    pose proof (sum_with_insert (fun nt => length (Rpc.pending_sends_ nt)) _ p nt nt' Hp) as Hsum. cbn beta in Hsum.
    change (Rpc.pending_sends_ nt') with l in Hsum. rewrite Ep, length_app in Hsum. cbn [length] in Hsum. lia.
Qed.

Lemma queue_pushed q tag src data tag' src' : Rpc.queue_of (Rpc.push_back q tag src data) tag' src' =
  if decide ((tag, src) = (tag', src')) then Rpc.queue_of q tag src ++ [data] else Rpc.queue_of q tag' src'.
Proof.
  unfold Rpc.push_back. unfold Rpc.queue_of at 1. case_decide as E; [by injection E as <- <-; rewrite lookup_insert_eq|].
  by rewrite lookup_insert_ne.
Qed.
Lemma receive_ok w p nt a tag data : clean w -> Rpc.procs w !! p = Some nt -> 0 <= a < Z.of_nat (length (Rpc.procs w)) -> packet_ok tag data ->
  Rpc.receive AppendToString ParseFromArray nt a tag data = Ok (Rpc.set_requests nt (Rpc.push_back (Rpc.requests nt) tag a data), false, []).
Proof.
  intros Hc Hp Ha (Hne & Hr & Ht). unfold Rpc.receive. destruct data as [|c data]; [done|]. change (vec_at (c :: data) 0) with (Ok c). run.
  pose proof (clean_hosts _ Hc). destruct (Z.ltb_spec a Rpc.kMaxHosts); [|lia]. run. rewrite Hr.
  assert (0 <= tag < 64) as Htag by (destruct Ht as [[-> _]| ->]; unfold MTYPE_PUT_REQUEST, MTYPE_TERMCHECK_DONE; lia).
  destruct (Z.ltb_spec tag 0), (Z.leb_spec Rpc.kMaxMethods tag); unfold Rpc.kMaxMethods in *; try lia. cbn [orb].
  assert (Rpc.callback nt tag = Ok None) as ->; [|done]. unfold Rpc.callback. rewrite <- (Z2Nat.id tag) by lia. apply vec_at_Some.
  apply (clean_callbacks _ Hc p nt tag Hp). tauto.
Qed.
Lemma receive_one w : clean w -> (0 < posted w)%nat ->
  exists w', step w [] w' /\ clean w' /\ unposted w' = unposted w /\ (posted w' < posted w)%nat.
Proof.
  intros Hc Hpos. apply sum_with_pos in Hpos as (f & Hf & Hl). destruct (flows_inv _ _ Hf) as (a & b & Ha & Hb & ->). cbn [Rpc.f_src Rpc.f_dst] in Hl.
  destruct (Rpc.chan_at w (Z.of_nat a) (Z.of_nat b)) as [|[tag data] rest] eqn:Ech; [cbn in Hl; lia|].
  destruct (clean_chan _ Hc (Z.of_nat a) (Z.of_nat b) tag data ltac:(rewrite Ech; by left)) as (_ & _ & Hok).
  apply lookup_lt_is_Some_2 in Hb as [nt Hp]. pose proof (receive_ok w b nt (Z.of_nat a) tag data Hc Hp ltac:(lia) Hok) as E.
  set (nt' := Rpc.set_requests _ _) in E. set (w' := Rpc.World (<[b := nt']> (Rpc.procs w)) (<[(Z.of_nat a, Z.of_nat b) := rest]> (Rpc.chan w))).
  exists w'. split; [by apply (Rpc.step_receive AppendToString ParseFromArray w b nt (Z.of_nat a) tag data rest nt' false [])|].
  assert (forall a' b', (a', b') <> (Z.of_nat a, Z.of_nat b) -> Rpc.chan_at w' a' b' = Rpc.chan_at w a' b') as Hother.
  { intros a' b' Hne. unfold w'. rewrite chan_set, decide_False by congruence. done. }
  assert (Rpc.chan_at w' (Z.of_nat a) (Z.of_nat b) = rest) as Hsame by (unfold w'; by rewrite chan_set, decide_True).
  assert (clean (Rpc.set_proc w b nt')) as Hc'.
  { apply (clean_set w b nt); try done; [by left|]. intros a' d Hd. cbn [Rpc.requests nt' Rpc.set_requests] in Hd. rewrite queue_pushed in Hd.
    case_decide as Et; [|by left]. injection Et as -> <-. apply elem_of_app in Hd as [Hd|Hd%list_elem_of_singleton]; [by left|subst d; right].
    destruct Hok as (_ & _ & [[_ Hm]|Ht]); [done|]. by unfold MTYPE_PUT_REQUEST, MTYPE_TERMCHECK_DONE in Ht. }
  split; [|split].
  - destruct Hc' as [Hh Hs Hpd Hch Hq Hcb]. split; try done. intros a' b' tag' data' Hin. apply Hch.
    destruct (decide ((a', b') = (Z.of_nat a, Z.of_nat b))) as [[= -> ->]|Hne]; [|by rewrite Hother in Hin].
    rewrite Hsame in Hin. change (Rpc.chan_at (Rpc.set_proc w b nt') ?x ?y) with (Rpc.chan_at w x y). rewrite Ech. by right.
  - unfold unposted. pose proof (sum_with_insert (fun nt => length (Rpc.pending_sends_ nt)) _ b nt nt' Hp) as Hsum. cbn beta in Hsum.
    cbn [w' Rpc.procs]. change (Rpc.pending_sends_ nt') with (Rpc.pending_sends_ nt) in Hsum. lia.
  - unfold posted. cbn [w' Rpc.procs]. rewrite length_insert. fold w'. eapply sum_with_less; [|exact Hf|]; cbn [Rpc.f_src Rpc.f_dst].
    + intros g (a' & b' & _ & _ & ->)%flows_inv. cbn [Rpc.f_src Rpc.f_dst].
      destruct (decide ((Z.of_nat a', Z.of_nat b') = (Z.of_nat a, Z.of_nat b))) as [[= -> ->]|Hne]; [|by rewrite Hother].
      rewrite Hsame, Ech. cbn. lia.
    + rewrite Hsame, Ech. cbn. lia.
Qed.
End Network.

(** ** The system *)
Section System.
Context {K V D : Type} `{Countable K} `{!Hashable K}.
Context `{!ValueInit K} `{!ValueInit V} `{!ValueInit D}.
Context `{!IterateKernel K V D} `{!Sharder K} `{!Marshal K} `{!Marshal V}.
Context {M App : Type}.
Variable bufmsg : Z.
Variable wire_size : KVPairData -> Z.
Variable adj : K -> D.
Variable AppendToString : M -> cstr.
Variable ParseFromArray : cstr -> M.
Variable put_msg : KVPairData -> M.
Variable report_msg : Z -> Z -> spec_float -> M.
Variable parse_put : cstr -> KVPairData.
Hypothesis parse_serialised : forall d, parse_put (AppendToString (put_msg d)) = d.
Abbreviation table := (GlobalTable.t (K := K) (V := V) (D := D)).
Abbreviation system := (sys (K := K) (V := V) (D := D) (M := M) (App := App)).
Abbreviation clean := (clean parse_put (M := M) (App := App)).
Abbreviation in_flight := (in_flight parse_put (M := M) (App := App)).
Abbreviation requests_of := (requests_of AppendToString put_msg report_msg).
Abbreviation sys_step := (sys_step (K := K) (V := V) (D := D) (M := M) (App := App) bufmsg wire_size adj AppendToString ParseFromArray put_msg report_msg parse_put).
Abbreviation sys_steps := (sys_steps (K := K) (V := V) (D := D) (M := M) (App := App) bufmsg wire_size adj AppendToString ParseFromArray put_msg report_msg parse_put).
Implicit Types (s : system) (tb : table).

Lemma sys_trans s1 s2 s3 : sys_steps s1 s2 -> sys_steps s2 s3 -> sys_steps s1 s3.
Proof. induction 1; intros; [done|]. eapply sys_next; [done|]. auto. Qed.
Lemma sys_one s1 s2 : sys_step s1 s2 -> sys_steps s1 s2.
Proof. intros Hs. eapply sys_next; [done|]. apply sys_refl. Qed.

(** Everything under way gets into the queues of the receivers. *)
Lemma no_puts_app e1 e2 : no_puts e1 -> no_puts e2 -> no_puts (e1 ++ e2).
Proof.
  intros H1 H2 a b. cbn zeta. destruct (Rpc.picks_app (Rpc.Flow a b MTYPE_PUT_REQUEST false) e1 e2) as (-> & _ & ->).
  destruct (H1 a b) as [-> ->]. by destruct (H2 a b) as [-> ->].
Qed.
Definition net_run ts (w w' : Rpc.world (M := M) (App := App)) : Prop := exists evs,
  Rpc.steps AppendToString ParseFromArray w evs w' /\ no_puts evs /\ sys_steps (mk ts w) (mk ts w').
Lemma net_run_refl ts w : net_run ts w w.
Proof. exists []. split_and!; [apply Rpc.steps_refl|done|apply sys_refl]. Qed.
Lemma net_run_next ts w1 evs w2 w3 : Rpc.step AppendToString ParseFromArray w1 evs w2 -> no_puts evs -> net_run ts w2 w3 -> net_run ts w1 w3.
Proof.
  intros Hs Hq (e & Hs2 & Hq2 & Hsys). exists (evs ++ e). split_and!; [by eapply Rpc.steps_next|by apply no_puts_app|].
  eapply sys_next; [by eapply sys_net|done].
Qed.
Lemma deliver_net ts (w : Rpc.world (M := M) (App := App)) : clean w ->
  exists w', net_run ts w w' /\ clean w' /\ unposted w' = 0%nat /\ posted w' = 0%nat.
Proof.
  remember (unposted w) as u eqn:Eu. remember (posted w) as n eqn:En. revert n w Eu En.
  induction u as [u IHu] using lt_wf_ind. intros n. induction n as [n IHn] using lt_wf_ind. intros w -> -> Hc.
  destruct (decide (0 < unposted w)%nat) as [Hu|Hu]; [|destruct (decide (0 < posted w)%nat) as [Hp|Hp]].
  - destruct (post_one AppendToString ParseFromArray parse_put w Hc Hu) as (evs & w1 & Hs & Hq & Hc1 & Hlt).
    destruct (IHu _ Hlt _ w1 eq_refl eq_refl Hc1) as (w2 & Hr & ?). exists w2. split; [by eapply net_run_next|done].
  - destruct (receive_one AppendToString ParseFromArray parse_put w Hc Hp) as (w1 & Hs & Hc1 & Hu1 & Hlt).
    destruct (IHn _ Hlt w1) as (w2 & Hr & ?); [done|done|done|]. exists w2. split; [by eapply net_run_next|done].
  - exists w. split_and!; [apply net_run_refl|done|lia|lia].
Qed.

(** *** What the tables send *)
Definition ordinary (m : message) : Prop := match m with PutRequest _ d => marker d = -1 | _ => True end.
Lemma send_loop_ordinary fuel : forall tb i tb' ms, send_loop wire_size fuel tb i = Ok (tb', ms) -> Forall ordinary ms.
Proof.
  induction fuel as [|fuel IH]; intros tb i tb' ms E; [done|]. cbn [send_loop] in E.
  apply bind_Ok in E as (p & _ & E). apply bind_Ok in E as (h & _ & E). apply bind_Ok in E as (c & _ & E).
  apply bind_Ok in E as (p' & _ & E). apply bind_Ok in E as (o & _ & E). apply bind_Ok in E as (tb1 & _ & E).
  destruct (negb _); [apply bind_Ok in E as ([tb2 ms2] & E2 & E)|]; injection E as <- <-; (constructor; [done|]); [by eapply IH|constructor].
Qed.
Lemma SendUpdates_ordinary tb tb' ms : SendUpdates wire_size tb = Ok (tb', ms) -> Forall ordinary ms.
Proof.
  intros E. apply bind_Ok in E as ([tb1 ms1] & E & [= <- <-]).
  apply (for_each_keeps (send_shard wire_size) (fun r => Forall ordinary r.2)) in E; [done| |constructor].
  intros [tb2 ms2] i [tb3 ms3] Es Hms. unfold send_shard in Es. apply bind_Ok in Es as (loc & _ & Es). apply bind_Ok in Es as (info & _ & Es).
  apply bind_Ok in Es as (p & _ & Es). destruct (negb loc && _); [|by injection Es as <- <-].
  apply bind_Ok in Es as ([tb4 ms4] & E4%send_loop_ordinary & Es). apply bind_Ok in Es as (p4 & _ & Es). apply bind_Ok in Es as (p5 & _ & Es).
  apply bind_Ok in Es as (tb5 & _ & [= <- <-]). by apply Forall_app.
Qed.
Lemma accumulate_ordinary tb k v tb' ms : accumulateF1 bufmsg wire_size tb k v = Ok (tb', ms) -> Forall ordinary ms.
Proof.
  unfold accumulateF1. intros E. apply bind_Ok in E as (loc & _ & E). destruct loc.
  - apply bind_Ok in E as (st & _ & E). apply bind_Ok in E as (st' & _ & E). apply bind_Ok in E as (tb1 & _ & [= <- <-]). constructor.
  - apply bind_Ok in E as (d & _ & E). apply bind_Ok in E as (d' & _ & E). apply bind_Ok in E as (tb1 & _ & E).
    destruct (_ <? _); [by eapply SendUpdates_ordinary|]. injection E as <- <-. constructor.
Qed.
Lemma run_iter_ordinary tb i p data tb' ms : Maiter.run_iter bufmsg wire_size tb i p data = Ok (tb', ms) -> Forall ordinary ms.
Proof.
  unfold Maiter.run_iter. intros E. apply bind_Ok in E as (x & _ & E). destruct (process_delta_v _ _ _ _) as [[d1 d2] dt].
  apply bind_Ok in E as (tb1 & _ & E). apply bind_Ok in E as (tb2 & _ & E). apply bind_Ok in E as (x' & _ & E). apply bind_Ok in E as (tb3 & _ & E).
  apply (for_each_keeps _ (fun r => Forall ordinary r.2)) in E; [done| |constructor].
  intros [tb4 ms4] r [tb5 ms5] Ea Hms. apply bind_Ok in Ea as ([tb6 ms6] & Ea%accumulate_ordinary & [= <- <-]). by apply Forall_app.
Qed.
Lemma send_clean (w : Rpc.world (M := M) (App := App)) p nt ms : clean w -> Rpc.procs w !! p = Some nt -> Forall ordinary ms ->
  (forall dst d, PutRequest dst d ∈ ms -> 0 <= dst < Z.of_nat (length (Rpc.procs w))) ->
  clean (Rpc.set_proc w p (Rpc.Send_all nt (requests_of ms))).
Proof.
  intros Hc Hp Hord Hr. pose proof (lookup_lt_Some _ _ _ Hp). apply (clean_set parse_put w p nt); try done; rewrite Rpc.Send_all_spec; try done; [|by left].
  cbn [Rpc.pending_sends_ Rpc.set_pending]. intros r [?|Hin]%elem_of_app; [by left|right].
  apply list_elem_of_fmap in Hin as (o & -> & Ho). apply list_elem_of_omap in Ho as (m & Hm & Eo). rewrite Forall_forall in Hord.
  destruct m as [dst d|idx u x|ta tbb|tc]; [| |done|done]; injection Eo as <-; cbn [Rpc.outgoing_request Rpc.RPCRequest_msg Rpc.target Rpc.rpc_type fst snd].
  - split; [by eapply Hr|]. split_and!; [done|done|]. left. split; [done|]. cbn. rewrite drop_0, parse_serialised. by apply (Hord _ Hm).
  - split; [unfold master_id; lia|]. split_and!; [done|done|by right].
Qed.

(** *** Reading what is queued *)
Lemma try_finds nt srcs a : Forall (fun x => 0 <= x < Rpc.kMaxHosts) srcs -> a ∈ srcs ->
  Rpc.queue_of (Rpc.requests nt) MTYPE_PUT_REQUEST a <> [] ->
  exists src d nt', Rpc.try_sources (M := M) (App := App) srcs nt MTYPE_PUT_REQUEST = Ok (Some (src, d, nt')).
Proof.
  induction 1 as [|x srcs Hx Hall IH]; intros Ha Hq; [by apply not_elem_of_nil in Ha|]. cbn [Rpc.try_sources].
  unfold Rpc.check_request_queue, Rpc.check_queue. destruct (Z.ltb_spec x Rpc.kMaxHosts); [|lia]. run.
  change (MTYPE_PUT_REQUEST <? Rpc.kMaxMethods) with true. run. destruct (Z.ltb_spec x 0); [lia|].
  change ((false || (MTYPE_PUT_REQUEST <? 0))) with false. cbv iota.
  destruct (Rpc.queue_of (Rpc.requests nt) MTYPE_PUT_REQUEST x) as [|d rest] eqn:Eq; run; [|by eexists _, _, _].
  apply IH; [|done]. apply elem_of_cons in Ha as [->|Ha]; [done|exact Ha].
Qed.
Lemma drained_queue (w : Rpc.world (M := M) (App := App)) m : unposted w = 0%nat -> posted w = 0%nat -> m ∈ in_flight w ->
  exists a b nt d, (a < length (Rpc.procs w))%nat /\ Rpc.procs w !! b = Some nt /\
    d ∈ Rpc.queue_of (Rpc.requests nt) MTYPE_PUT_REQUEST (Z.of_nat a) /\ m = PutRequest (Z.of_nat b) (parse_put (drop 1 d)).
Proof.
  intros Hu Hp Hm. apply list_elem_of_bind in Hm as (f & Hm & Hf). apply list_elem_of_fmap in Hm as (d & -> & Hd).
  pose proof Hf as (a & b & Ha & Hb & ->)%flows_inv. apply lookup_lt_is_Some_2 in Hb as [nt Hnt].
  assert (Rpc.pending_sends_ (default nt (Rpc.procs w !! a)) = [] /\ Rpc.chan_at w (Z.of_nat a) (Z.of_nat b) = []) as [E1 E2].
  { split; apply length_zero_iff_nil.
    - apply lookup_lt_is_Some_2 in Ha as [na Hna]. rewrite Hna. cbn [default from_option].
      destruct (decide (length (Rpc.pending_sends_ na) = 0%nat)) as [|Hne]; [done|]. exfalso.
      assert (unposted (M := M) (App := App) w <> 0%nat); [|done]. unfold unposted.
      pose proof (sum_with_less (fun _ => 0%nat) (fun nt => length (Rpc.pending_sends_ nt)) (Rpc.procs w) na
        ltac:(intros; cbn; lia) ltac:(by eapply list_elem_of_lookup_2) ltac:(cbn; lia)). lia.
    - destruct (decide (length (Rpc.chan_at w (Z.of_nat a) (Z.of_nat b)) = 0%nat)) as [|Hne]; [done|]. exfalso.
      assert (posted (M := M) (App := App) w <> 0%nat); [|done]. unfold posted.
      pose proof (sum_with_less (fun _ => 0%nat) (fun f => length (Rpc.chan_at w (Rpc.f_src f) (Rpc.f_dst f))) _ _
        ltac:(intros; cbn; lia) Hf ltac:(cbn [Rpc.f_src Rpc.f_dst]; lia)). lia. }
  exists a, b, nt, d. split_and!; try done. unfold Rpc.waiting, Rpc.transit in Hd. cbn [Rpc.f_src Rpc.f_dst Rpc.f_tag Rpc.f_reply] in Hd.
  rewrite !Nat2Z.id in Hd. rewrite Hnt, E2, app_nil_r in Hd. apply elem_of_app in Hd as [Hd|Hd]; [|done].
  destruct (Rpc.procs w !! a) as [na|]; cbn in *; [rewrite E1 in Hd|]; by apply not_elem_of_nil in Hd.
Qed.

(** ** Bringing the computation to its end *)
Section Runs.
Context `{!AccumulateLaws K V D} `{!MarshalLaws K} `{!MarshalLaws V} `{!PropagationLaws K V D} `{!EqDecision V}.
Context (owners : list Z).
Hypothesis representable_accumulate : forall a b : V,
  representable a -> representable b -> representable (accumulate (K := K) (D := D) a b).
Hypothesis representable_default : representable (default_v (K := K) (V := V) (D := D)).
Hypothesis representable_sent : forall k d v j x,
  representable d -> representable v -> (j, x) ∈ g_func (V := V) k d v (adj k) [] -> representable j /\ representable x.
Variables (vertices : list K) (X : K -> V) (height : K -> V -> nat).
Hypothesis solution_X : Iteration.solution adj X.
Hypothesis height_lt : forall k a b,
  Iteration.below (K := K) (D := D) (Some a) (Some b) -> a <> b ->
  Iteration.below (K := K) (D := D) (Some b) (Some (X k)) -> (height k b < height k a)%nat.
Hypothesis closed : forall k d v j x,
  k ∈ vertices -> (j, x) ∈ g_func k d v (adj k) [] -> j ∈ vertices.
Abbreviation cluster := (Cluster.t (K := K) (V := V) (D := D)).
Abbreviation placed := (Iteration.placed bufmsg adj owners vertices X).
Abbreviation value := (Iteration.value owners).
Implicit Types c : cluster.

Record live s c : Prop := {
  live_ready : ready owners s;
  live_clean : clean (net s);
  live_related : exists init, related bufmsg adj parse_put owners init s c;
  live_placed : placed c
}.
(** The delta tables of [s'] are delta tables of [s]. *)
Definition same_deltas s s' : Prop := forall w tb' i d, tables s' !! w = Some tb' -> partitions_ tb' !! i = Some (Delta d) ->
  exists tb, tables s !! w = Some tb /\ partitions_ tb !! i = Some (Delta d).
Definition no_deltas s : Prop := forall w tb i d, tables s !! w = Some tb -> partitions_ tb !! i = Some (Delta d) ->
  DeltaTable.entries_ d = 0.

Lemma exchange_live c c' : placed c -> Cluster.step bufmsg wire_size c None c' -> placed c' /\ forall k, value c' k = value c k.
Proof.
  by apply (Iteration.exchange_placed bufmsg wire_size adj owners representable_accumulate representable_default representable_sent vertices X solution_X).
Qed.
Lemma read_keeps nt src type sr d nt' : Rpc.TryRead (M := M) (App := App) nt src type = Ok (Some (sr, d, nt')) ->
  (d ∈ Rpc.queue_of (Rpc.requests nt) type sr /\
   forall tag a x, x ∈ Rpc.queue_of (Rpc.requests nt') tag a -> x ∈ Rpc.queue_of (Rpc.requests nt) tag a) /\
  Rpc.pending_sends_ nt' = Rpc.pending_sends_ nt /\ Rpc.callbacks_ nt' = Rpc.callbacks_ nt /\ Rpc.world_size nt' = Rpc.world_size nt.
Proof.
  intros E%Rpc.TryRead_spec. apply bind_Ok in E as ([[x q]|] & E & [= -> <-]). pose proof (Rpc.check_queue_spec _ _ _ _ _ E) as Hq.
  split; [|done]. split; [rewrite Hq, decide_True by done; by left|]. intros tag a x Hx. rewrite Hq. apply elem_of_app. by right.
Qed.
Lemma set_counts (w : Rpc.world (M := M) (App := App)) p nt nt' : Rpc.procs w !! p = Some nt ->
  Rpc.pending_sends_ nt' = Rpc.pending_sends_ nt ->
  unposted (Rpc.set_proc w p nt') = unposted w /\ posted (Rpc.set_proc w p nt') = posted w.
Proof.
  intros Hp E. unfold unposted, posted. cbn [Rpc.procs Rpc.set_proc]. rewrite length_insert. split; [|done].
  pose proof (sum_with_insert (fun nt => length (Rpc.pending_sends_ nt)) _ p nt nt' Hp) as Hs. cbn beta in Hs. rewrite E in Hs. lia.
Qed.

Lemma read_one s c : live s c -> unposted (net s) = 0%nat -> posted (net s) = 0%nat -> in_flight (net s) <> [] ->
  exists s' c', sys_step s s' /\ live s' c' /\ (forall k, value c' k = value c k) /\
    unposted (net s') = 0%nat /\ posted (net s') = 0%nat /\
    (length (in_flight (net s')) < length (in_flight (net s)))%nat /\ same_deltas s s'.
Proof.
  intros [Hr Hc [init Hrel] Hpl] Hu Hpo Hne. destruct s as [ts w]. cbn [net] in *. pose proof Hrel as [Ht Hn Hinv]. cbn [tables net] in Ht, Hn.
  destruct (in_flight w) as [|m rest] eqn:Ein; [done|]. clear Hne.
  destruct (drained_queue w m Hu Hpo ltac:(rewrite Ein; by left)) as (a & b & nt & d0 & Ha & Hb & Hd0 & ->).
  assert (0 <= Z.of_nat b - 1 < Z.of_nat (length ts)) as Hbr.
  { assert (PutRequest (Z.of_nat b) (parse_put (drop 1 d0)) ∈ Cluster.net c) as Hin.
    { assert (PutRequest (Z.of_nat b) (parse_put (drop 1 d0)) ∈ puts (Cluster.net c)) as Hm by (rewrite Hn; by left).
      by apply list_elem_of_filter in Hm as [_ ?]. }
    pose proof (Cluster.wf_net _ _ _ (Iteration.inv_wf _ _ _ _ _ Hinv)) as Hnet. rewrite Forall_forall in Hnet.
    destruct (Hnet _ Hin) as (j & l & _ & Ho & _). pose proof (ready_owners _ _ Hr) as Hown. rewrite Forall_forall in Hown.
    apply (Hown (Z.of_nat b - 1)). by eapply list_elem_of_lookup_2. }
  destruct b as [|i]; [lia|]. destruct (lookup_lt_is_Some_2 ts i) as [tb Htb]; [lia|].
  pose proof (clean_size _ _ Hc _ _ Hb) as Hsz. pose proof (clean_hosts _ _ Hc) as Hh.
  destruct (try_finds nt (seqZ 0 (Rpc.world_size nt)) (Z.of_nat a)) as (src & d & nt' & E0).
  { apply Forall_forall. intros x Hx%elem_of_seqZ. lia. }
  { apply elem_of_seqZ. lia. }
  { intros E0. rewrite E0 in Hd0. by apply not_elem_of_nil in Hd0. }
  assert (Rpc.TryRead nt Rpc.ANY_SOURCE MTYPE_PUT_REQUEST = Ok (Some (src, d, nt'))) as Er by exact E0.
  destruct (read_in_flight AppendToString ParseFromArray parse_put owners (mk ts w) i nt src d nt' Hr Hb Er) as [Hin _]. cbn [net] in Hin.
  destruct (read_keeps _ _ _ _ _ _ Er) as ((Hd & Hq) & Ep & Ecb & Ew).
  assert (exists tb', ApplyUpdates bufmsg wire_size false tb (parse_put (drop 1 d)) = Ok (tb', []) /\
    forall i d, partitions_ tb' !! i = Some (Delta d) -> partitions_ tb !! i = Some (Delta d)) as (tb' & Ea & Hdel).
  { destruct c as [ws msn]. cbn in Ht, Hn. subst ws. set (m := PutRequest (Z.of_nat (S i)) (parse_put (drop 1 d))) in *.
    assert (m ∈ msn) as (pre & post & ->)%list_elem_of_split.
    { assert (m ∈ puts msn) as Hm by (rewrite Hn, <- Ein, Hin; by left). by apply list_elem_of_filter in Hm as [_ ?]. }
    destruct (Cluster.put_applies bufmsg wire_size owners ts pre post (Z.of_nat (S i)) (parse_put (drop 1 d))
      (Iteration.placed_wf _ _ _ _ _ _ Hpl) (Iteration.placed_known _ _ _ _ _ _ Hpl)) as (tb0 & tb' & Htb0 & Ea & Hdel & _).
    replace (Z.to_nat (Z.of_nat (S i) - 1)) with i in Htb0 by lia. rewrite Htb in Htb0. injection Htb0 as <-. by exists tb'. }
  destruct (step_read bufmsg wire_size adj AppendToString ParseFromArray put_msg report_msg parse_put parse_serialised owners
    representable_accumulate representable_default representable_sent init ts w i tb nt src d nt' false tb' [] c Hr Hrel Htb Hb Er Ea)
    as (c' & Hs & Hrel' & Hr').
  destruct (exchange_live c c' Hpl Hs) as [Hpl' Hv].
  destruct (set_counts w (S i) nt nt' Hb Ep) as [Hu' Hp'].
  exists (mk (<[i := tb']> ts) (Rpc.set_proc w (S i) nt')), c'. split_and!.
  - apply (sys_read bufmsg wire_size adj AppendToString ParseFromArray put_msg report_msg parse_put ts w i tb nt src d nt' false tb' []); try done.
    by apply (clean_queue _ _ Hc _ _ _ _ Hb Hd).
  - split; [done| |by exists init|done]. cbn [net]. apply (clean_set parse_put w (S i) nt); try done; [rewrite Ep; by left|].
    intros a' x Hx. left. by apply Hq.
  - exact Hv.
  - cbn [net]. lia.
  - cbn [net]. lia.
  - cbn [net]. rewrite <- Ein, Hin. cbn. lia.
  - intros w0 tb0 j dd Hw0 Hdd. cbn [tables] in *. apply list_lookup_insert_Some in Hw0 as [(<- & <- & _)|[_ Hw0]]; [|by exists tb0].
    exists tb. split; [done|]. by apply Hdel.
Qed.

(** The network threads alone. *)
Lemma net_live ts w evs w' c : live (mk ts w) c -> Rpc.steps AppendToString ParseFromArray w evs w' -> no_puts evs -> clean w' -> live (mk ts w') c.
Proof.
  intros [Hr _ [init Hrel] Hpl] Hs Hq Hc'.
  destruct (net_related bufmsg adj AppendToString ParseFromArray parse_put owners init ts w evs w' c Hr Hrel Hs Hq) as [? ?].
  split; [done|done|by exists init|done].
Qed.
Lemma read_queues s c : live s c -> unposted (net s) = 0%nat -> posted (net s) = 0%nat ->
  exists s' c', sys_steps s s' /\ live s' c' /\ (forall k, value c' k = value c k) /\ in_flight (net s') = [] /\ same_deltas s s'.
Proof.
  remember (length (in_flight (net s))) as n eqn:En. revert s c En. induction n as [n IH] using lt_wf_ind. intros s c -> Hl Hu Hp.
  destruct (decide (length (in_flight (net s)) = 0)%nat) as [Hz|Hz].
  { exists s, c. split_and!; [apply sys_refl|done|done|by apply length_zero_iff_nil|]. intros w tb i d Hw Hd. by exists tb. }
  destruct (read_one s c Hl Hu Hp) as (s1 & c1 & Hs1 & Hl1 & Hv1 & Hu1 & Hp1 & Hlt & Hd1); [by intros E; rewrite E in Hz|].
  destruct (IH _ Hlt s1 c1 eq_refl Hl1 Hu1 Hp1) as (s2 & c2 & Hs2 & Hl2 & Hv2 & Hi2 & Hd2).
  exists s2, c2. split_and!; [by eapply sys_next|done|intros k; by rewrite Hv2|done|].
  intros w tb i d Hw Hd. destruct (Hd2 w tb i d Hw Hd) as (tb1 & Hw1 & Hdd). by apply (Hd1 w tb1).
Qed.

(** An operation of worker [i] that is a step of the cluster, and what it sends. *)
Lemma send_live s c i tb' ms c' : live s c -> Cluster.net c' = Cluster.net c ++ ms -> (i < length (tables s))%nat ->
  Cluster.workers c' = <[i := tb']> (Cluster.workers c) -> Iteration.istep bufmsg wire_size adj c c' -> placed c' -> Forall ordinary ms ->
  exists nt, Rpc.procs (net s) !! S i = Some nt /\
    live (mk (<[i := tb']> (tables s)) (Rpc.set_proc (net s) (S i) (Rpc.Send_all nt (requests_of ms)))) c'.
Proof.
  intros [Hr Hc [init Hrel] Hpl] En Hi Ew Hs Hpl' Hord. destruct s as [ts w], c as [ws msn], c' as [ws' msn']. cbn [net tables Cluster.net Cluster.workers] in *.
  pose proof (rel_tables _ _ _ _ _ _ _ Hrel) as Ht. cbn in Ht. subst ws ws' msn'.
  destruct (lookup_lt_is_Some_2 (Rpc.procs w) (S i)) as [nt Hnt]; [pose proof (ready_procs _ _ Hr) as Hl; cbn in Hl; lia|]. exists nt. split; [done|].
  destruct (step_sends bufmsg wire_size adj AppendToString ParseFromArray put_msg report_msg parse_put parse_serialised owners
    representable_accumulate representable_default representable_sent init ts w i nt tb' ms msn Hr Hrel Hnt Hs) as [Hrel' Hr'].
  split; [done| |by exists init|done]. cbn [net]. apply send_clean; try done. intros dst d Hin.
  apply (put_range bufmsg adj owners init (mk ts w) (Cluster.mk (<[i := tb']> ts) (msn ++ ms)) dst d Hr); [cbn; by rewrite length_insert| |].
  - apply (rel_inv _ _ _ _ _ _ _ Hrel').
  - cbn. apply elem_of_app. by right.
Qed.
Definition flushed_below (n : nat) s : Prop := forall w tb i d, (w < n)%nat -> tables s !! w = Some tb -> partitions_ tb !! i = Some (Delta d) ->
  DeltaTable.entries_ d = 0.
Lemma flush_tables s c n : live s c -> (n <= length (tables s))%nat ->
  exists s' c', sys_steps s s' /\ live s' c' /\ (forall k, value c' k = value c k) /\ flushed_below n s' /\
    length (tables s') = length (tables s).
Proof.
  intros Hl. induction n as [|n IH]; intros Hn.
  { exists s, c. split_and!; [apply sys_refl|done|done|intros w tb i d Hw; lia|done]. }
  destruct IH as (s1 & c1 & Hs1 & Hl1 & Hv1 & Hf1 & Hlen1); [lia|]. pose proof Hl1 as [Hr1 _ [init Hrel1] Hpl1].
  pose proof (rel_tables _ _ _ _ _ _ _ Hrel1) as Ht1. destruct (lookup_lt_is_Some_2 (tables s1) n) as [tb Htb]; [lia|].
  assert (Cluster.workers c1 !! n = Some tb) as Htc by (by rewrite Ht1).
  destruct (Cluster.wf_workers _ _ _ (Iteration.placed_wf _ _ _ _ _ _ Hpl1) n tb Htc) as [Hw Hb].
  destruct (SendUpdates_spec wire_size tb Hw) as (tb' & ms & E & _ & _ & _ & _ & He & _); [apply Hb|].
  assert (Cluster.step bufmsg wire_size c1 None (Cluster.mk (<[n := tb']> (Cluster.workers c1)) (Cluster.net c1 ++ ms))) as Hst
    by (destruct c1 as [ws msn]; by eapply Cluster.step_flush).
  destruct (exchange_live _ _ Hpl1 Hst) as [Hpl2 Hv2].
  destruct (send_live s1 c1 n tb' ms (Cluster.mk (<[n := tb']> (Cluster.workers c1)) (Cluster.net c1 ++ ms)) Hl1 eq_refl ltac:(lia) eq_refl (Iteration.istep_exchange _ _ _ _ _ Hst) Hpl2 (SendUpdates_ordinary _ _ _ E))
    as (nt & Hnt & Hl2).
  eexists _, _. split_and!; [|exact Hl2|intros k; by rewrite Hv2| |cbn [tables]; by rewrite length_insert].
  - eapply sys_trans; [exact Hs1|]. apply sys_one. destruct s1 as [ts w]. eapply sys_local; [exact Htb|exact Hnt|by apply local_flush].
  - intros w0 tb0 j d Hlt Hw0 Hd. cbn [tables] in Hw0. apply list_lookup_insert_Some in Hw0 as [(<- & <- & _)|[Hne Hw0]]; [by eapply He|].
    apply (Hf1 w0 tb0 j d); [lia|done..].
Qed.
Lemma drain s c : live s c ->
  exists s' c', sys_steps s s' /\ live s' c' /\ (forall k, value c' k = value c k) /\ in_flight (net s') = [] /\ no_deltas s'.
Proof.
  intros Hl. destruct (flush_tables s c (length (tables s)) Hl) as (s1 & c1 & Hs1 & Hl1 & Hv1 & Hf1 & Hlen1); [done|]. destruct s1 as [ts w1].
  destruct (deliver_net ts w1 (live_clean _ _ Hl1)) as (w2 & (evs & Hn & Hq & Hs2) & Hc2 & Hu2 & Hp2).
  pose proof (net_live ts w1 evs w2 c1 Hl1 Hn Hq Hc2) as Hl2.
  destruct (read_queues (mk ts w2) c1 Hl2 Hu2 Hp2) as (s3 & c3 & Hs3 & Hl3 & Hv3 & Hi3 & Hd3).
  exists s3, c3. split_and!; [|done|intros k; by rewrite Hv3|done|].
  - eapply sys_trans; [exact Hs1|]. by eapply sys_trans.
  - intros w tb i d Hw Hd. destruct (Hd3 w tb i d Hw Hd) as (tb0 & Hw0 & Hd0). apply (Hf1 w tb0 i d); try done.
    rewrite <- Hlen1. by eapply lookup_lt_Some.
Qed.

(** The row with key [k] of worker [w] is iterated. *)
Lemma iterate_live s c w tb k cell : live s c -> tables s !! w = Some tb -> row tb k = Some cell ->
  exists s' c', sys_step s s' /\ live s' c' /\ Iteration.iterated adj owners c c' k (StateTable.v1 cell) (StateTable.v2 cell).
Proof.
  intros Hl Hw Hr. pose proof Hl as [Hrd _ [init Hrel] Hpl]. pose proof (rel_tables _ _ _ _ _ _ _ Hrel) as Ht.
  assert (Cluster.workers c !! w = Some tb) as Hwc by (by rewrite Ht).
  destruct (Cluster.wf_workers _ _ _ (Iteration.placed_wf _ _ _ _ _ _ Hpl) w tb Hwc) as [Hwt _].
  unfold row in Hr. destruct (partitions_ tb !! _) as [[d|st]|] eqn:Hpi; try done.
  pose proof (wf_part _ _ _ Hwt _ _ Hpi) as (_ & Hst & _).
  apply lookup_to_map in Hr as (p & x & Hx & Hu & <- & <-); [|apply Hst].
  destruct (Iteration.iterate_returns bufmsg wire_size adj owners representable_accumulate representable_default representable_sent
    vertices X solution_X closed c w tb _ p st x Hpl Hwc Hpi Hx Hu) as (tb' & ms & E & Hs & Hpl' & Hit).
  destruct (send_live s c w tb' ms (Cluster.mk (<[w := tb']> (Cluster.workers c)) (Cluster.net c ++ ms)) Hl eq_refl ltac:(by eapply lookup_lt_Some) eq_refl Hs Hpl' (run_iter_ordinary _ _ _ _ _ _ E))
    as (nt & Hnt & Hl').
  eexists _, _. split_and!; [|exact Hl'|exact Hit]. destruct s as [ts wd]. eapply sys_local; [exact Hw|exact Hnt|]. by eapply local_iterate.
Qed.
Lemma settle s c : live s c -> exists s', sys_steps s s' /\ quiet parse_put s'.
Proof.
  remember (Iteration.room owners vertices height c) as n eqn:En. revert s c En.
  induction n as [n IH] using lt_wf_ind. intros s c -> Hl.
  destruct (drain s c Hl) as (s1 & c1 & Hs1 & Hl1 & Hv1 & Hi1 & Hd1). pose proof Hl1 as [_ _ [init Hrel1] Hpl1].
  pose proof (rel_tables _ _ _ _ _ _ _ Hrel1) as Ht1.
  destruct (Iteration.work_or_settled bufmsg adj owners vertices X c1 Hpl1) as [(w & tb & k & cell & Hw & Hr & Hn)|Hset].
  2:{ exists s1. split; [done|]. split_and!; [done|exact Hd1|]. by rewrite <- Ht1. }
  rewrite Ht1 in Hw. destruct (iterate_live s1 c1 w tb k cell Hl1 Hw Hr) as (s2 & c2 & Hs2 & Hl2 & Hv0 & Hv & _).
  destruct (IH (Iteration.room owners vertices height c2)) with (s := s2) (c := c2) as (s3 & Hs3 & Hq); [|done|done|].
  - assert (Iteration.room owners vertices height c1 = Iteration.room owners vertices height c) as <-.
    { unfold Iteration.room. apply Iteration.sum_list_ext. intros j. unfold Iteration.level. by rewrite Hv1. }
    eapply Iteration.room_decreases; [apply (Iteration.placed_rows _ _ _ _ _ _ Hpl1); by rewrite Hv0|done|done|]. apply height_lt.
    + apply (Iteration.below_l (Some (StateTable.v2 cell)) (Some (StateTable.v1 cell))).
    + intros E. apply Hn. unfold Iteration.below. rewrite oadd_comm. cbn. by rewrite <- E.
    + pose proof (Iteration.placed_bound _ _ _ _ _ _ (live_placed _ _ Hl2) k) as Hb. rewrite Hv, decide_True in Hb by done.
      eapply Iteration.below_trans; [|exact Hb]. apply Iteration.below_l.
  - exists s3. split; [|done]. eapply sys_trans; [exact Hs1|]. by eapply sys_next.
Qed.

Hypothesis edge_start : forall k j, j ∈ targets (adj k) ->
  Iteration.below (K := K) (D := D) (Some (edge k (adj k) j (StateTable.v2 (Iteration.start (D := D) k))))
    (Some (StateTable.v2 (Iteration.start (D := D) j))).

(** C12. The computation over the network threads can always be brought to its
    end: from every state that a run from loaded tables reaches, in which the
    network carries nothing but put requests and termination reports, further
    steps of the workers and of the network threads lead to a state in which
    no update is buffered, waits to be posted, is in a channel or in a queue,
    and no delta would change a value. *)
Theorem network_settles s0 s :
  ready owners s0 -> in_flight (net s0) = [] -> Iteration.initial bufmsg owners (Cluster.mk (tables s0) []) ->
  Iteration.starts_below owners (Cluster.mk (tables s0) []) X ->
  (forall k, is_Some (value (Cluster.mk (tables s0) []) k) <-> k ∈ vertices) ->
  sys_steps s0 s -> clean (net s) ->
  exists s', sys_steps s s' /\ quiet parse_put s'.
Proof.
  intros Hr H0 Hi HX Hv Hs Hc. destruct (Iteration.initial_inv bufmsg adj owners edge_start _ Hi) as [Hinv _].
  edestruct (fun init => steps_simulate bufmsg wire_size adj AppendToString ParseFromArray put_msg report_msg parse_put parse_serialised owners
    representable_accumulate representable_default representable_sent init s0 s Hs (Cluster.mk (tables s0) []) Hr) as (c & Hcs & Hrel & Hrs);
    [split; [done|by rewrite H0|exact Hinv]|].
  apply (settle s c). split; [done|done|by eexists|].
  eapply (Iteration.isteps_placed bufmsg wire_size adj owners representable_accumulate representable_default representable_sent
    vertices X solution_X closed); [exact Hcs|].
  apply (Iteration.initial_placed bufmsg adj owners edge_start); try done. by apply Hr.
Qed.
End Runs.
End System.

(** ** Two workers *)
Section Sample.
Import Components.
#[local] Instance sample_kernel : IterateKernel Z Z (list Z) := con_kernel parse_int parse_int (fun _ => Ok []).
#[local] Instance sample_laws : AccumulateLaws Z Z (list Z) := con_laws parse_int parse_int (fun _ => Ok []).
#[local] Existing Instance Marshal_int.
#[local] Existing Instance MarshalLaws_int.
#[local] Instance sample_sharder : Sharder Z := Sharding.Mod.
#[local] Instance sample_propagation : PropagationLaws Z Z (list Z) := con_propagation parse_int parse_int (fun _ => Ok []).
#[local] Abbreviation two_sol := (greatest_solution parse_int parse_int (fun _ => Ok []) two_owners two_adj two_cluster two_max two_greatest).
#[local] Abbreviation run := (sys_steps (K := Z) (V := Z) (D := list Z) 10 two_size two_adj serialise anyone inl (fun _ _ _ => inr tt) parse).

Lemma begin_clean : clean parse idle_net.
Proof.
  assert (forall p nt, Rpc.procs idle_net !! p = Some nt -> exists id, nt = Rpc.NetworkThread_new id 3 tt) as Hnew.
  { intros p nt Hp. destruct p as [|[|[|p]]]; cbn in Hp; try done; injection Hp as <-; by eexists. }
  split; [done|by intros p nt (id & ->)%Hnew| | |..].
  - intros p nt r (id & ->)%Hnew Hr. by apply not_elem_of_nil in Hr.
  - intros a b tag data Hin. by apply not_elem_of_nil in Hin.
  - intros p nt a data (id & ->)%Hnew Hin. by apply not_elem_of_nil in Hin.
  - intros p nt tag (id & ->)%Hnew [-> | ->]; reflexivity.
Qed.
Lemma begin_ready : ready two_owners begin.
Proof.
  split; [repeat constructor; intros tag ci s _ _; reflexivity|reflexivity|apply (clean_size _ _ begin_clean)|by repeat constructor].
Qed.
Lemma network_settles_witness : exists s', run begin s' /\ quiet parse s'.
Proof.
  apply (network_settles 10 two_size two_adj serialise anyone inl (fun _ _ _ => inr tt) parse parse_serialise two_owners
    (con_representable parse_int parse_int (fun _ => Ok [])) (con_default parse_int parse_int (fun _ => Ok []))
    (con_sent parse_int parse_int (fun _ => Ok []) two_adj two_adj_int) [1; 2] two_max two_height (proj1 two_sol) two_height_lt two_closed
    (con_edge_start parse_int parse_int (fun _ => Ok []) two_adj) begin begin).
  - exact begin_ready.
  - vm_compute. reflexivity.
  - exact two_initial.
  - exact (proj2 two_sol).
  - exact two_vertices.
  - apply sys_refl.
  - exact begin_clean.
Defined.
End Sample.
End Progress.
