(* ===== verification/RecordFile.v ===== *)
(** * Files and records: util/file.h, util/file.cc

    [LocalFile] (a C stream), [LZOFile] (the same, compressed in blocks),
    [RecordFile] (length-prefixed chunks on either) and the byte encoders.
    What [RecordFile] relies on is stated as a class of files with its laws;
    both kinds of file satisfy it.  The LZO library is a pair of parameters:
    compression and decompression of one block. *)
From S2P Require Import Prelude StringPiece Probe Table.

(** ** The interface

    A writer takes bytes, a reader returns a count and the bytes it copied.
    [fw_close] gives the bytes on disk after the file object was deleted. *)
Class FileOps (W R : Type) := {
  fw_write : W -> cstr -> outcome W;
  fw_close : W -> outcome cstr;
  fr_open : cstr -> outcome R;
  fr_read : R -> nat -> outcome (R * Z * cstr);
  fr_tell : R -> Z
}.
(** [written w s]: the writer has taken the bytes [s]; [readable r s]: the
    bytes [s] are left to read; [write_max]: how many bytes one call of [write]
    may be given. *)
Class FileLaws (W R : Type) `{!FileOps W R} := {
  written : W -> cstr -> Prop;
  readable : R -> cstr -> Prop;
  write_max : Z;
  write_max_range : 4 <= write_max < 2 ^ 31;
  write_law : forall w s d, written w s -> Z.of_nat (length d) <= write_max ->
    exists w', fw_write w d = Ok w' /\ written w' (s ++ d);
  read_law : forall r d rest, readable r (d ++ rest) ->
    exists r', fr_read r (length d) = Ok (r', Z.of_nat (length d), d) /\ readable r' rest;
  read_end : forall r n, readable r [] -> (0 < n)%nat -> exists r', fr_read r n = Ok (r', 0, []) /\ readable r' [];
  close_open : forall w s, written w s -> exists bytes r, fw_close w = Ok bytes /\ fr_open bytes = Ok r /\ readable r s
}.

(** ** [LocalFile]: a stream with its position and end-of-file flag *)
Module LocalFile.
Record t := mk { data : cstr; fpos : nat; feof : bool }.
Implicit Types f : t.

(** [fopen] with mode "r" and with mode "w". *)
Definition open_r (bytes : cstr) : t := mk bytes 0 false.
Definition open_w : t := mk [] 0 false.
(** [fread(buffer, 1, len, fp)]. *)
Definition read f (len : nat) : t * Z * cstr :=
  let d := take len (drop (fpos f) (data f)) in
  (mk (data f) (fpos f + length d) (feof f || (length d <? len)%nat), Z.of_nat (length d), d).
(** [fwrite(buffer, 1, len, fp)]. *)
Definition write f (buffer : cstr) : t :=
  mk (take (fpos f) (data f) ++ buffer ++ drop (fpos f + length buffer) (data f)) (fpos f + length buffer) (feof f).
Definition seek f (pos : nat) : t := mk (data f) pos false.
Definition tell f : Z := Z.of_nat (fpos f).
Definition eof f : bool := feof f.

(** [fgets] into 8192 bytes: at most 8191 characters, up to a newline, which
    is kept; [None] is the null result at the end of the file. *)
Fixpoint fgets (n : nat) (s : cstr) : cstr :=
  match n, s with
  | O, _ | _, [] => []
  | S n, c :: s => if decide (c = "010"%char) then [c] else c :: fgets n s
  end.
(** [resize(strlen(...))]: the line ends at the first zero byte. *)
Fixpoint until_zero (s : cstr) : cstr :=
  match s with
  | [] => []
  | c :: s => if decide (c = "000"%char) then [] else c :: until_zero s
  end.
Definition read_line f : t * bool * cstr :=
  let line := fgets (Z.to_nat 8191) (drop (fpos f) (data f)) in
  let at_end := (length (drop (fpos f) (data f)) <=? length line)%nat && negb (bool_decide (last line = Some "010"%char))
                && negb (length line =? Z.to_nat 8191)%nat in
  (mk (data f) (fpos f + length line) (feof f || at_end), negb (bool_decide (line = [])), until_zero line).
End LocalFile.

(** The length is an [int]: a longer buffer has a negative one. *)
#[export] Instance LocalFile_ops : FileOps LocalFile.t LocalFile.t := {
  fw_write w d := if 2 ^ 31 <=? Z.of_nat (length d) then Undefined else Ok (LocalFile.write w d);
  fw_close w := Ok (LocalFile.data w);
  fr_open bytes := Ok (LocalFile.open_r bytes);
  fr_read r n := Ok (LocalFile.read r n);
  fr_tell := LocalFile.tell
}.

(** ** [LZOFile] *)
Module LZOFile.
Section LZOFile.
(** [kBlockSize] is 512000 in the program; the size of the buffer for
    compressed blocks depends on it. *)
Variable kBlockSize : nat.
Definition kCompressedBlockSize : nat := kBlockSize + kBlockSize / 16 + 64 + 3.
(** [lzo1x_1_15_compress] and [lzo1x_decompress_safe]; [None] is a result
    other than 0. *)
Variable compress : cstr -> option cstr.
Variable decompress : cstr -> option cstr.

(** [raw] is [block.raw], of which [len] bytes are in use. *)
Record t := mk { f_ : LocalFile.t; pos_ : Z; raw : cstr; pos : nat; len : nat }.
Implicit Types z : t.

Definition write_block z : outcome t :=
  if (len z =? 0)%nat then Ok z
  else
    match compress (take (len z) (raw z)) with
    | None => Fatal
    | Some comp =>
      let f := LocalFile.write (f_ z) (le_bytes 4 (to_uint32 (Z.of_nat (length comp)))) in
      let f := LocalFile.write f comp in
      Ok (mk f (pos_ z) (raw z) (pos z) 0)
    end.

(** Without a whole size field there is no further block.  The number of bytes
    that [fread] is asked for is the size as a [size_t].  The library takes the
    room for its output from eight bytes at [&block.len], an [int] set to
    [kBlockSize] that is followed by four bytes nobody sets: the room is at
    least [kBlockSize], so a block that fits is decompressed, and one that does
    not may be written past the end of [block.raw]. *)
Definition read_block z : outcome (t * bool) :=
  let '(f, n, d) := LocalFile.read (f_ z) 4 in
  if negb (n =? 4) then Ok (mk f (pos_ z) (raw z) 0 0, false)
  else
    let comp_size := to_int32 (le_value d) in
    let '(f, n, comp) :=
      LocalFile.read f (if comp_size <? 0 then length (LocalFile.data f) else Z.to_nat comp_size) in
    if (kCompressedBlockSize <? length comp)%nat then Undefined
    else
      _ ← CHECK (n =? comp_size);
      _ ← CHECK (0 <? comp_size);
      match decompress comp with
      | None => Fatal
      | Some out =>
        if (kBlockSize <? length out)%nat then Undefined
        else Ok (mk f (pos_ z) out 0 (length out), true)
      end.

(** The loop of [write].  [block.len + left] is a sum of [int]s: it overflows
    when a buffer of nearly 2 GB meets a block in use. *)
Fixpoint write_loop (fuel : nat) z (data : cstr) : outcome t :=
  match fuel with
  | O => OutOfFuel
  | S fuel =>
    if 2 ^ 31 <=? Z.of_nat (len z + length data) then Undefined
    else
    z ← (if (kBlockSize <? len z + length data)%nat then write_block z else Ok z);
    let bytes_to_write := Nat.min (kBlockSize - len z) (length data) in
    let z := mk (f_ z) (pos_ z) (take (len z) (raw z) ++ take bytes_to_write data) (pos z) (len z + bytes_to_write) in
    let data := drop bytes_to_write data in
    if (0 <? length data)%nat then write_loop fuel z data else Ok z
  end.
Definition write z (data : cstr) : outcome t := write_loop (S (S (length data))) z data.

(** The loop of [read]; [acc] is what was copied before.  At the end of the
    file the result is 0 whatever was copied. *)
Fixpoint read_loop (fuel : nat) z (left total : nat) (acc : cstr) : outcome (t * Z * cstr) :=
  match fuel with
  | O => OutOfFuel
  | S fuel =>
    '(z, more) ← (if (pos z =? len z)%nat then read_block z else Ok (z, true));
    if negb more then Ok (z, 0, acc)
    else
      let bytes_to_read := Nat.min left (len z - pos z) in
      let acc := acc ++ take bytes_to_read (drop (pos z) (raw z)) in
      let z := mk (f_ z) (pos_ z + Z.of_nat bytes_to_read) (raw z) (pos z + bytes_to_read) (len z) in
      let left := (left - bytes_to_read)%nat in
      if (0 <? left)%nat then read_loop fuel z left total acc else Ok (z, Z.of_nat total, acc)
  end.
Definition read z (n : nat) : outcome (t * Z * cstr) :=
  read_loop (S (n + length (LocalFile.data (f_ z)))) z n n [].

(** [init], and the destructor's [write_block]. *)
Definition init_w : t := mk LocalFile.open_w 0 [] 0 0.
Definition init_r (bytes : cstr) : outcome t :=
  '(z, _) ← read_block (mk (LocalFile.open_r bytes) 0 [] 0 0); Ok z.
Definition close z : outcome cstr := z ← write_block z; Ok (LocalFile.data (f_ z)).
Definition eof z : bool := LocalFile.eof (f_ z) && (pos z =? len z)%nat.
Definition tell z : Z := pos_ z.

Definition ops : FileOps t t := {|
  fw_write := write;
  fw_close := close;
  fr_open := init_r;
  fr_read := read;
  fr_tell := tell
|}.
End LZOFile.
End LZOFile.

(** ** [RecordFile] *)
Module RecordFile.
Section RecordFile.
Context {W R : Type} `{!FileOps W R}.

Definition writeChunk (fp : W) (data : cstr) : outcome W :=
  fp ← fw_write fp (le_bytes 4 (to_uint32 (Z.of_nat (length data))));
  fw_write fp data.
(** [s->resize(len)] and the bytes that were read into it. *)
Definition fill (len : nat) (d : cstr) : cstr := take len (d ++ replicate len "000"%char).
Definition readChunk (fp : R) : outcome (R * option cstr) :=
  '(fp, bytes_read, d) ← fr_read fp 4;
  if bytes_read <? 4 then Ok (fp, None)
  else
    let len := to_int32 (le_value d) in
    if len <? 0 then Throw
    else '(fp, _, d) ← fr_read fp (Z.to_nat len); Ok (fp, Some (fill (Z.to_nat len) d)).

(** [write] and [read] of messages; [SerializeAsString] and [ParseFromString]
    are parameters, [None] a failed parse.  Reading into a null message only
    skips a chunk. *)
Section Messages.
Context {M : Type}.
Variable SerializeAsString : M -> cstr.
Variable ParseFromString : cstr -> option M.
Definition write (fp : W) (m : M) : outcome W := writeChunk fp (SerializeAsString m).
Definition read (fp : R) : outcome (R * option M) :=
  '(fp, c) ← readChunk fp;
  match c with
  | None => Ok (fp, None)
  | Some buf_ => match ParseFromString buf_ with Some m => Ok (fp, Some m) | None => Fatal end
  end.
End Messages.
Definition skip (fp : R) : outcome (R * bool) :=
  '(fp, c) ← readChunk fp; Ok (fp, bool_decide (is_Some c)).
Fixpoint seek (fuel : nat) (fp : R) (pos : Z) : outcome R :=
  match fuel with
  | O => OutOfFuel
  | S fuel =>
    if fr_tell fp <? pos then '(fp, ok) ← skip fp; if ok : bool then seek fuel fp pos else Ok fp
    else Ok fp
  end.
(** Reading all the chunks, as the users of the class do. *)
Fixpoint read_all (fuel : nat) (fp : R) : outcome (R * list cstr) :=
  match fuel with
  | O => OutOfFuel
  | S fuel =>
    '(fp, c) ← readChunk fp;
    match c with
    | None => Ok (fp, [])
    | Some s => '(fp, l) ← read_all fuel fp; Ok (fp, s :: l)
    end
  end.
End RecordFile.
End RecordFile.

(** ** Both kinds of file satisfy the interface *)
Lemma size_field n : (Z.of_nat n < 2 ^ 31)%Z -> to_int32 (le_value (le_bytes 4 (to_uint32 (Z.of_nat n)))) = Z.of_nat n.
Proof.
  intros Hn. rewrite to_uint32_small by lia. rewrite le_value_le_bytes by lia.
  rewrite Z.mod_small by (cbn; lia). apply to_int32_small. lia.
Qed.

Lemma local_read (f : LocalFile.t) d rest : drop (LocalFile.fpos f) (LocalFile.data f) = d ++ rest ->
  exists f', LocalFile.read f (length d) = (f', Z.of_nat (length d), d) /\
    LocalFile.data f' = LocalFile.data f /\ drop (LocalFile.fpos f') (LocalFile.data f') = rest.
Proof.
  intros Hd. unfold LocalFile.read. rewrite Hd, take_app_length. eexists. split; [done|]. cbn. split; [done|].
  by rewrite <- drop_drop, Hd, drop_app_length.
Qed.
Lemma local_read_end (f : LocalFile.t) n : drop (LocalFile.fpos f) (LocalFile.data f) = [] ->
  exists f', LocalFile.read f n = (f', 0, []) /\ LocalFile.data f' = LocalFile.data f /\
    drop (LocalFile.fpos f') (LocalFile.data f') = [].
Proof.
  intros Hd. unfold LocalFile.read. rewrite Hd, take_nil. eexists. split; [done|]. cbn. by rewrite Nat.add_0_r.
Qed.
Lemma local_append (f : LocalFile.t) d : LocalFile.fpos f = length (LocalFile.data f) ->
  LocalFile.data (LocalFile.write f d) = LocalFile.data f ++ d /\
  LocalFile.fpos (LocalFile.write f d) = length (LocalFile.data f ++ d).
Proof.
  intros Hp. unfold LocalFile.write. cbn. rewrite Hp, firstn_all, drop_ge, app_nil_r by lia. by rewrite length_app.
Qed.

#[export] Instance LocalFile_laws : FileLaws LocalFile.t LocalFile.t.
Proof.
  refine {| written w s := LocalFile.data w = s /\ LocalFile.fpos w = length s;
            readable r s := drop (LocalFile.fpos r) (LocalFile.data r) = s;
            write_max := 2 ^ 31 - 1 |}.
  - lia.
  - intros w s d [<- Hp] Hd. cbn [fw_write LocalFile_ops].
    destruct (Z.leb_spec (2 ^ 31) (Z.of_nat (length d))); [lia|]. eexists. split; [done|]. by apply local_append.
  - intros r d rest Hd. destruct (local_read r d rest Hd) as (r' & E & _ & Hr). exists r'. cbn. by rewrite E.
  - intros r n Hd _. destruct (local_read_end r n Hd) as (r' & E & _ & Hr). exists r'. cbn. by rewrite E.
  - intros w s [<- _]. by eexists _, _.
Defined.

Module LZOLaws.
Section LZOLaws.
Import LZOFile.
Variable kBlockSize : nat.
Variable compress : cstr -> option cstr.
Variable decompress : cstr -> option cstr.
Hypothesis block_pos : (0 < kBlockSize)%nat.
Hypothesis block_small : Z.of_nat (kCompressedBlockSize kBlockSize) < 2 ^ 31.
(** The library's contract: a block of at most [kBlockSize] bytes compresses
    into the buffer that [kCompressedBlockSize] reserves, and decompresses to
    itself. *)
Hypothesis compress_block : forall s, (0 < length s <= kBlockSize)%nat ->
  exists c, compress s = Some c /\ (0 < length c <= kCompressedBlockSize kBlockSize)%nat /\ decompress c = Some s.

Definition block_ok (b : cstr) : Prop := (0 < length b <= kBlockSize)%nat.
Definition encode (b : cstr) : cstr :=
  match compress b with
  | Some c => le_bytes 4 (to_uint32 (Z.of_nat (length c))) ++ c
  | None => []
  end.
Definition lz_written (z : t) (s : cstr) : Prop :=
  (len z <= kBlockSize)%nat /\ (len z <= length (raw z))%nat /\
  LocalFile.fpos (f_ z) = length (LocalFile.data (f_ z)) /\
  exists bs, Forall block_ok bs /\ LocalFile.data (f_ z) = mjoin (encode <$> bs) /\
    s = mjoin bs ++ take (len z) (raw z).
Definition lz_readable (z : t) (s : cstr) : Prop :=
  (pos z <= len z)%nat /\ (len z <= length (raw z))%nat /\
  exists bs, Forall block_ok bs /\ drop (LocalFile.fpos (f_ z)) (LocalFile.data (f_ z)) = mjoin (encode <$> bs) /\
    s = drop (pos z) (take (len z) (raw z)) ++ mjoin bs.

Lemma write_block_spec z s : lz_written z s ->
  exists z', write_block compress z = Ok z' /\ len z' = 0%nat /\ lz_written z' s.
Proof.
  intros (Hl & Hr & Hp & bs & Hbs & Hd & ->). unfold write_block. destruct (Nat.eqb_spec (len z) 0) as [E|Hne].
  { exists z. split_and!; [done|done|]. split_and!; try done. by exists bs. }
  assert (block_ok (take (len z) (raw z))) as Hok by (unfold block_ok; rewrite length_take; lia).
  destruct (compress_block _ Hok) as (c & Hc & Hlc & _). rewrite Hc. eexists. split; [done|]. split; [done|].
  set (n := le_bytes 4 (to_uint32 (Z.of_nat (length c)))).
  destruct (local_append (f_ z) n Hp) as [D1 P1].
  destruct (local_append (LocalFile.write (f_ z) n) c) as [D2 P2]; [by rewrite D1|].
  split_and!; cbn [len raw f_]; [lia|lia|by rewrite P2, D2|].
  exists (bs ++ [take (len z) (raw z)]). split; [by apply Forall_app; split; [|constructor]|].
  split; [|by rewrite join_app, take_0; cbn; rewrite !app_nil_r].
  assert (encode (take (len z) (raw z)) = n ++ c) as En by (unfold encode; by rewrite Hc).
  rewrite D2, D1, Hd, fmap_app, join_app, <- app_assoc. f_equal. cbn [fmap list_fmap mjoin list_join].
  by rewrite En, app_nil_r.
Qed.

(** What one call may write beside a full block without overflow. *)
Definition lz_max : Z := 2 ^ 31 - 1 - Z.of_nat kBlockSize.
Lemma lz_max_range : 4 <= lz_max < 2 ^ 31.
Proof. unfold lz_max. unfold kCompressedBlockSize in block_small. lia. Qed.
Lemma write_loop_spec fuel : forall z s data, lz_written z s -> (length data < fuel)%nat ->
  Z.of_nat (length data) <= lz_max ->
  exists z', write_loop kBlockSize compress fuel z data = Ok z' /\ lz_written z' (s ++ data).
Proof.
  induction fuel as [|fuel IH]; intros z s data Hz Hf Hmax; [lia|]. cbn [write_loop].
  destruct (Z.leb_spec (2 ^ 31) (Z.of_nat (len z + length data))) as [Hover|_].
  { destruct Hz as [Hl _]. unfold lz_max in Hmax. lia. }
  assert (exists z1, (if (kBlockSize <? len z + length data)%nat then write_block compress z else Ok z) = Ok z1 /\
    lz_written z1 s /\ (len z1 = 0 \/ len z1 + length data <= kBlockSize)%nat) as (z1 & -> & Hz1 & Hroom).
  { destruct (Nat.ltb_spec kBlockSize (len z + length data)); [|exists z; split; [done|]; split; [done|by right]].
    destruct (write_block_spec z s Hz) as (z1 & -> & E & Hz1). exists z1. split; [done|]. split; [done|by left]. }
  run. set (n := Nat.min (kBlockSize - len z1) (length data)).
  destruct Hz1 as (Hl & Hr & Hp & bs & Hbs & Hd & ->).
  assert (lz_written (mk (f_ z1) (pos_ z1) (take (len z1) (raw z1) ++ take n data) (pos z1) (len z1 + n))
    ((mjoin bs ++ take (len z1) (raw z1)) ++ take n data)) as Hz2.
  { split_and!; cbn [len raw f_]; [lia|rewrite length_app, !length_take; lia|done|].
    exists bs. split_and!; [done..|]. rewrite <- app_assoc. f_equal. symmetry. apply take_ge.
    rewrite length_app, !length_take. lia. }
  rewrite length_drop. destruct (Nat.ltb_spec 0 (length data - n)).
  - destruct (IH _ _ (drop n data) Hz2) as (z' & -> & Hz'); [rewrite length_drop; lia..|].
    exists z'. split; [done|]. by rewrite <- (app_assoc _ (take n data)), take_drop in Hz'.
  - eexists. split; [done|]. rewrite (take_ge data) in Hz2 |- * by lia. done.
Qed.

Lemma read_block_spec z bs : Forall block_ok bs ->
  drop (LocalFile.fpos (f_ z)) (LocalFile.data (f_ z)) = mjoin (encode <$> bs) ->
  exists z', read_block kBlockSize decompress z = Ok (z', bool_decide (bs <> [])) /\ lz_readable z' (mjoin bs) /\
    (bs <> [] -> (pos z' < len z')%nat) /\ LocalFile.data (f_ z') = LocalFile.data (f_ z).
Proof.
  intros Hbs Hd. unfold read_block. destruct Hbs as [|b bs Hb Hbs].
  - destruct (local_read_end (f_ z) 4 Hd) as (f & E & Hdata & Hf). rewrite E. cbn. eexists. split; [done|].
    split; [|by split]. split_and!; cbn; [lia|lia|]. exists []. by rewrite Hf.
  - destruct (compress_block b Hb) as (c & Hc & Hlc & Hdec).
    cbn [fmap list_fmap] in Hd. rewrite mjoin_cons in Hd. unfold encode at 1 in Hd. rewrite Hc, <- app_assoc in Hd.
    destruct (local_read (f_ z) _ _ Hd) as (f & E & Hdata & Hf). rewrite length_le_bytes in E. rewrite E. cbn [negb Z.eqb].
    rewrite Z.eqb_refl. cbn [negb]. rewrite size_field by lia. destruct (Z.ltb_spec (Z.of_nat (length c)) 0); [lia|].
    rewrite Nat2Z.id. destruct (local_read f c _ Hf) as (f' & E' & Hdata' & Hf'). rewrite E'.
    destruct (Nat.ltb_spec (kCompressedBlockSize kBlockSize) (length c)); [lia|].
    rewrite Z.eqb_refl. run. destruct (Z.ltb_spec 0 (Z.of_nat (length c))); [|lia]. run. rewrite Hdec.
    destruct Hb. destruct (Nat.ltb_spec kBlockSize (length b)); [lia|]. eexists. split; [done|].
    split; [|split; [cbn; lia|cbn; congruence]]. split_and!; cbn [pos len raw f_]; [lia|lia|].
    exists bs. split_and!; [done|done|]. by rewrite drop_0, firstn_all, mjoin_cons.
Qed.

Lemma read_loop_spec fuel : forall z d rest total acc, lz_readable z (d ++ rest) -> (length d < fuel)%nat ->
  (d = [] -> total = 0%nat) ->
  exists z', read_loop kBlockSize decompress fuel z (length d) total acc = Ok (z', Z.of_nat total, acc ++ d) /\
    lz_readable z' rest.
Proof.
  induction fuel as [|fuel IH]; intros z d rest total acc Hz Hf Ht; [lia|]. cbn [read_loop].
  assert (exists z1 more, (if (pos z =? len z)%nat then read_block kBlockSize decompress z else Ok (z, true)) = Ok (z1, more) /\
    lz_readable z1 (d ++ rest) /\ (more = false -> d ++ rest = []) /\ (more = true -> d <> [] -> (pos z1 < len z1)%nat))
    as (z1 & more & -> & Hz1 & Hmore & Hlt).
  { destruct Hz as (Hp & Hr & bs & Hbs & Hd & E). destruct (Nat.eqb_spec (pos z) (len z)) as [Epos|Hne].
    - destruct (read_block_spec z bs Hbs Hd) as (z1 & -> & Hz1 & Hlt & _).
      rewrite Epos, drop_ge in E by (rewrite length_take; lia). cbn [app] in E. rewrite E.
      exists z1, (bool_decide (bs <> [])). split_and!; [done|done| |].
      + intros Hb. apply bool_decide_eq_false in Hb. by destruct bs; [|destruct Hb].
      + intros Hb _. by apply bool_decide_eq_true in Hb; auto.
    - exists z, true. split_and!; [done| |done|lia]. split_and!; [done..|]. by exists bs. }
  run. destruct more; cbn [negb].
  2:{ destruct (app_eq_nil _ _ (Hmore eq_refl)) as [-> ->]. rewrite (Ht eq_refl), app_nil_r. by exists z1. }
  destruct Hz1 as (Hp & Hr & bs & Hbs & Hd & E). set (n := Nat.min (length d) (len z1 - pos z1)).
  assert (take n (drop (pos z1) (raw z1)) = take n d /\
    lz_readable (mk (f_ z1) (pos_ z1 + Z.of_nat n) (raw z1) (pos z1 + n) (len z1)) (drop n d ++ rest)) as [Etake Hz2].
  { assert (length (drop (pos z1) (take (len z1) (raw z1))) = len z1 - pos z1)%nat as Hlen
      by (rewrite length_drop, length_take; lia).
    assert (take n (drop (pos z1) (take (len z1) (raw z1))) = take n (drop (pos z1) (raw z1))) as E1.
    { rewrite skipn_firstn_comm, take_take. f_equal. lia. }
    split.
    - rewrite <- E1, <- (take_app_le _ (mjoin bs)), <- E, take_app_le by lia. done.
    - split_and!; cbn [pos len raw f_]; [lia|lia|]. exists bs. split_and!; [done..|].
      rewrite <- drop_drop, <- !drop_app_le by lia. by rewrite E. }
  rewrite Etake. destruct (Nat.ltb_spec 0 (length d - n)).
  - assert (d <> []) as Hne by (intros ->; cbn in *; lia). specialize (Hlt eq_refl Hne).
    replace (length d - n)%nat with (length (drop n d)) by (by rewrite length_drop).
    destruct (IH _ (drop n d) rest total (acc ++ take n d) Hz2) as (z' & -> & Hz'); [rewrite length_drop; lia| |].
    + intros Hnil. apply (f_equal length) in Hnil. rewrite length_drop in Hnil. cbn in Hnil. lia.
    + exists z'. by rewrite <- app_assoc, take_drop.
  - eexists. split; [|by rewrite (drop_ge d) in Hz2 by lia]. by rewrite take_ge by lia.
Qed.

Lemma lz_write z s d : lz_written z s -> Z.of_nat (length d) <= lz_max -> exists z', write kBlockSize compress z d = Ok z' /\ lz_written z' (s ++ d).
Proof. intros Hz Hd. apply write_loop_spec; [done|lia|done]. Qed.
(** A buffer that is too long for the block's use is an overflow. *)
Lemma lz_write_overflow z d : 2 ^ 31 <= Z.of_nat (len z + length d) -> write kBlockSize compress z d = Undefined.
Proof.
  intros Hd. unfold write. cbn [write_loop].
  by destruct (Z.leb_spec (2 ^ 31) (Z.of_nat (len z + length d))); [|lia].
Qed.
Lemma lz_read z d rest : lz_readable z (d ++ rest) ->
  exists z', read kBlockSize decompress z (length d) = Ok (z', Z.of_nat (length d), d) /\ lz_readable z' rest.
Proof.
  intros Hz. unfold read.
  destruct (read_loop_spec (S (length d + length (LocalFile.data (f_ z)))) z d rest (length d) [] Hz)
    as (z' & E & Hz'); [lia|by intros ->|by exists z'].
Qed.
Lemma lz_read_end z n : lz_readable z [] -> (0 < n)%nat ->
  exists z', read kBlockSize decompress z n = Ok (z', 0, []) /\ lz_readable z' [].
Proof.
  intros (Hp & Hr & bs & Hbs & Hd & E) Hn. symmetry in E. apply app_eq_nil in E as [E1 E2].
  apply (f_equal length) in E1. rewrite length_drop, length_take in E1. cbn in E1.
  unfold read. cbn [read_loop]. destruct (Nat.eqb_spec (pos z) (len z)); [|lia].
  destruct (read_block_spec z bs Hbs Hd) as (z' & -> & Hz' & _). run. rewrite E2 in Hz'.
  destruct Hbs as [|b bs Hb Hbs]; [by exists z'|]. rewrite mjoin_cons in E2. apply app_eq_nil in E2 as [-> _].
  destruct Hb. cbn in *. lia.
Qed.
Lemma lz_close_open z s : lz_written z s ->
  exists bytes z', close compress z = Ok bytes /\ init_r kBlockSize decompress bytes = Ok z' /\ lz_readable z' s.
Proof.
  intros Hz. destruct (write_block_spec z s Hz) as (z1 & E & Hl & (_ & _ & _ & bs & Hbs & Hd & ->)).
  unfold close. rewrite E. run. rewrite Hl, take_0, app_nil_r. unfold init_r.
  destruct (read_block_spec (mk (LocalFile.open_r (LocalFile.data (f_ z1))) 0 [] 0 0) bs Hbs) as (z' & E' & Hz' & _).
  { cbn. by rewrite drop_0. }
  eexists _, z'. split; [done|]. rewrite E'. by run.
Qed.

Definition laws : @FileLaws t t (ops kBlockSize compress decompress) :=
  @Build_FileLaws t t (ops kBlockSize compress decompress) lz_written lz_readable
    lz_max lz_max_range (fun w s d => lz_write w s d) (fun r d rest => lz_read r d rest) (fun r n => lz_read_end r n)
    (fun w s => lz_close_open w s).
End LZOLaws.
End LZOLaws.

(** ** Records *)
Section Records.
Context {W R : Type} `{!FileOps W R} `{!FileLaws W R}.
Import RecordFile.

Definition chunk_ok (d : cstr) : Prop := Z.of_nat (length d) <= write_max.
Definition chunk_bytes (d : cstr) : cstr := le_bytes 4 (to_uint32 (Z.of_nat (length d))) ++ d.

Lemma writeChunk_spec (w : W) s d : written w s -> chunk_ok d ->
  exists w', writeChunk w d = Ok w' /\ written w' (s ++ chunk_bytes d).
Proof.
  intros Hw Hd. pose proof write_max_range as Hmax. unfold writeChunk.
  destruct (write_law w s (le_bytes 4 (to_uint32 (Z.of_nat (length d)))) Hw) as (w1 & -> & H1).
  { rewrite length_le_bytes. lia. }
  run. destruct (write_law w1 _ d H1 Hd) as (w2 & -> & H2). exists w2. split; [done|]. by rewrite <- app_assoc in H2.
Qed.
Lemma writeChunks_spec ds : forall (w : W) s, written w s -> Forall chunk_ok ds ->
  exists w', for_each writeChunk ds w = Ok w' /\ written w' (s ++ mjoin (chunk_bytes <$> ds)).
Proof.
  induction ds as [|d ds IH]; intros w s Hw Hok; [exists w; by rewrite app_nil_r|]. cbn [for_each].
  apply Forall_cons in Hok as [Hd Hok].
  destruct (writeChunk_spec w s d Hw Hd) as (w1 & -> & H1). run. destruct (IH w1 _ H1 Hok) as (w2 & -> & H2).
  exists w2. split; [done|]. rewrite fmap_cons, mjoin_cons. by rewrite <- app_assoc in H2.
Qed.
Lemma fill_all d : fill (length d) d = d.
Proof. unfold fill. by rewrite take_app_length. Qed.
Lemma readChunk_spec (r : R) d rest : chunk_ok d -> readable r (chunk_bytes d ++ rest) ->
  exists r', readChunk r = Ok (r', Some d) /\ readable r' rest.
Proof.
  intros Hd Hr. unfold chunk_bytes in Hr. rewrite <- app_assoc in Hr. destruct (read_law r _ _ Hr) as (r1 & E & H1).
  rewrite length_le_bytes in E. unfold readChunk. rewrite E. run. cbn [Z.of_nat Z.ltb]. change (Z.of_nat 4 <? 4) with false.
  cbn [negb]. pose proof write_max_range. rewrite size_field by (unfold chunk_ok in Hd; lia). destruct (Z.ltb_spec (Z.of_nat (length d)) 0); [lia|]. rewrite Nat2Z.id.
  destruct (read_law r1 d rest H1) as (r2 & -> & H2). run. exists r2. by rewrite fill_all.
Qed.
Lemma readChunk_end (r : R) : readable r [] -> exists r', readChunk r = Ok (r', None) /\ readable r' [].
Proof.
  intros Hr. unfold readChunk. destruct (read_end r 4 Hr) as (r' & -> & H'); [lia|]. run. by exists r'.
Qed.
Lemma read_all_spec ds : forall (r : R) fuel, Forall chunk_ok ds -> (length ds < fuel)%nat ->
  readable r (mjoin (chunk_bytes <$> ds)) -> exists r', read_all fuel r = Ok (r', ds).
Proof.
  induction ds as [|d ds IH]; intros r fuel Hok Hf Hr; (destruct fuel as [|fuel]; [lia|]); cbn [read_all].
  - destruct (readChunk_end r Hr) as (r' & -> & _). run. by exists r'.
  - apply Forall_cons in Hok as [Hd Hds]. rewrite fmap_cons, mjoin_cons in Hr.
    destruct (readChunk_spec r d _ Hd Hr) as (r1 & -> & H1). run. cbn [length] in Hf.
    destruct (IH r1 fuel Hds ltac:(lia) H1) as (r2 & ->). run. by exists r2.
Qed.

(** C34. Records survive a file, plain or compressed: whatever chunks of at
    most [write_max] bytes are written to a new record file are returned, in
    order and no others, when the closed file is opened and read to its end.
    [write_max] is 2^31 - 1 for a plain file and [kBlockSize] less for a
    compressed one, where a longer chunk may overflow the sum
    [block.len + left] ([lz_write_overflow]). *)
Theorem records_roundtrip (w : W) ds :
  written w [] -> Forall chunk_ok ds ->
  exists w' bytes r r', for_each writeChunk ds w = Ok w' /\ fw_close w' = Ok bytes /\ fr_open bytes = Ok r /\
    read_all (S (length ds)) r = Ok (r', ds).
Proof.
  intros Hw Hok. destruct (writeChunks_spec ds w [] Hw Hok) as (w' & E & Hw').
  destruct (close_open w' _ Hw') as (bytes & r & Ec & Eo & Hr).
  destruct (read_all_spec ds r (S (length ds)) Hok ltac:(lia) Hr) as (r' & Er). by exists w', bytes, r, r'.
Qed.
End Records.

(** Blocks of three bytes, with a compression that adds a byte. *)
Section Sample.
Definition add_byte (s : cstr) : option cstr := Some ("z"%char :: s).
Definition drop_byte (s : cstr) : option cstr := match s with [] => None | _ :: s => Some s end.
Lemma add_byte_block s : (0 < length s <= 3)%nat ->
  exists c, add_byte s = Some c /\ (0 < length c <= LZOFile.kCompressedBlockSize 3)%nat /\ drop_byte c = Some s.
Proof. intros Hs. eexists. split; [done|]. split; [|done]. cbn [length]. vm_compute (LZOFile.kCompressedBlockSize 3). lia. Qed.
#[local] Instance sample_ops : FileOps LZOFile.t LZOFile.t := LZOFile.ops 3 add_byte drop_byte.
#[local] Instance sample_laws : FileLaws LZOFile.t LZOFile.t :=
  LZOLaws.laws 3 add_byte drop_byte ltac:(lia) ltac:(by vm_compute) add_byte_block.
Lemma init_written : written LZOFile.init_w [].
Proof. split_and!; cbn; [lia|lia|done|]. by exists []. Qed.
Lemma records_roundtrip_witness :
  exists w' bytes r r', for_each RecordFile.writeChunk [lit "hello"; []; lit "ab"] LZOFile.init_w = Ok w' /\
    fw_close w' = Ok bytes /\ fr_open bytes = Ok r /\
    RecordFile.read_all 4 r = Ok (r', [lit "hello"; []; lit "ab"]).
Proof.
  apply (records_roundtrip LZOFile.init_w [lit "hello"; []; lit "ab"] init_written).
  by repeat constructor.
Defined.
End Sample.

(** ** Closing a record file

    [~RecordFile] of a file opened for writing: [sync], [rename] and then
    [delete fp].  [sync] is [fsync] of the descriptor: it flushes neither the
    stream's buffer nor the current LZO block, so the bytes on disk are those
    that the stream has flushed by itself, the first [flushed] of them. *)
Module Closing.
Section Closing.
Variable kBlockSize : nat.
Variable compress : cstr -> option cstr.
Abbreviation disk := (gmap cstr cstr).

Definition on_disk (flushed : nat) (z : LZOFile.t) : cstr := take flushed (LocalFile.data (LZOFile.f_ z)).
(** [File::Move]: [rename] of a path that does not exist fails the check. *)
Definition Move (src dst : cstr) (d : disk) : outcome disk :=
  match d !! src with Some c => Ok (<[dst := c]> (delete src d)) | None => Fatal end.
Definition tmp_path (path : cstr) : cstr := path ++ lit ".tmp".
Definition close_sync (path : cstr) (flushed : nat) (z : LZOFile.t) (d : disk) : disk :=
  <[tmp_path path := on_disk flushed z]> d.
Definition close_rename (path : cstr) (d : disk) : outcome disk := Move (tmp_path path) path d.
(** [delete fp]: the last block is written and the stream closed; the open
    file is by now the one called [path]. *)
Definition close_delete (path : cstr) (z : LZOFile.t) (d : disk) : outcome disk :=
  bytes ← LZOFile.close compress z; Ok (<[path := bytes]> d).
(** The disks after each of the three steps. *)
Definition RecordFile_close (path : cstr) (flushed : nat) (z : LZOFile.t) (d : disk) : outcome (disk * disk * disk) :=
  let d1 := close_sync path flushed z d in
  d2 ← close_rename path d1;
  d3 ← close_delete path z d2;
  Ok (d1, d2, d3).

Hypothesis compress_some : forall s, (0 < length s <= kBlockSize)%nat -> exists c, compress s = Some c /\ (0 < length c)%nat.

(** A record file gets its final name before it is complete: after the
    rename and until the stream is closed, the file at its final path is a
    strict prefix of what was written, so that a process that stops in between
    leaves a truncated checkpoint under the name that says it is whole; after
    the last step it is complete. *)
Theorem rename_before_complete path flushed z d :
  (0 < LZOFile.len z <= kBlockSize)%nat -> (LZOFile.len z <= length (LZOFile.raw z))%nat ->
  LocalFile.fpos (LZOFile.f_ z) = length (LocalFile.data (LZOFile.f_ z)) ->
  exists d1 d2 d3 bytes, RecordFile_close path flushed z d = Ok (d1, d2, d3) /\
    LZOFile.close compress z = Ok bytes /\ d3 !! path = Some bytes /\
    exists part missing, d2 !! path = Some part /\ missing <> [] /\ bytes = part ++ missing.
Proof.
  intros Hl Hr Hp. unfold RecordFile_close, close_rename, Move, close_sync, close_delete.
  rewrite lookup_insert_eq. run.
  destruct (compress_some (take (LZOFile.len z) (LZOFile.raw z))) as (c & Hc & Hlc); [rewrite length_take; lia|].
  unfold LZOFile.close, LZOFile.write_block. destruct (Nat.eqb_spec (LZOFile.len z) 0); [lia|]. rewrite Hc. run.
  cbn [LZOFile.f_].
  set (sz := le_bytes 4 (to_uint32 (Z.of_nat (length c)))).
  destruct (local_append (LZOFile.f_ z) sz Hp) as [D1 P1].
  destruct (local_append (LocalFile.write (LZOFile.f_ z) sz) c) as [D2 _]; [by rewrite D1|]. rewrite D2, D1.
  eexists _, _, _, _. split; [done|]. split; [done|]. split; [by rewrite lookup_insert_eq|].
  exists (on_disk flushed z), (drop flushed (LocalFile.data (LZOFile.f_ z)) ++ sz ++ c).
  split; [by rewrite lookup_insert_eq|]. split.
  - intros E. apply app_eq_nil in E as [_ E]. apply app_eq_nil in E as [_ ->]. cbn in Hlc. lia.
  - unfold on_disk. by rewrite (app_assoc (take _ _)), take_drop, <- app_assoc.
Qed.
End Closing.

Definition half_block : LZOFile.t := LZOFile.mk LocalFile.open_w 0 (lit "ab") 0 2.
Lemma rename_before_complete_witness :
  exists d1 d2 d3 bytes, RecordFile_close add_byte (lit "cp") 0 half_block ∅ = Ok (d1, d2, d3) /\
    LZOFile.close add_byte half_block = Ok bytes /\ d3 !! lit "cp" = Some bytes /\
    exists part missing, d2 !! lit "cp" = Some part /\ missing <> [] /\ bytes = part ++ missing.
Proof.
  apply (rename_before_complete 3 add_byte).
  - intros s _. eexists. split; [reflexivity|]. cbn. lia.
  - cbn. lia.
  - cbn. lia.
  - reflexivity.
Defined.
End Closing.

(** ** [Encoder] and [Decoder] *)
Module Coder.
(** On a string: a value is its bytes, a string its length and its bytes. *)
Definition write_u32 (out : cstr) (v : Z) : cstr := out ++ le_bytes 4 (to_uint32 v).
Definition write_u64 (out : cstr) (v : Z) : cstr := out ++ le_bytes 8 (to_uint64 v).
Definition write_bytes (out s : cstr) : cstr := out ++ s.
Definition write_string (out v : cstr) : cstr := write_bytes (write_u32 out (Z.of_nat (length v))) v.

Record Decoder := mk { src : cstr; dpos : nat }.
Implicit Types d : Decoder.
(** [memcpy] past the end of the source is undefined. *)
Definition read_bytes d (n : nat) : outcome (Decoder * cstr) :=
  if decide (dpos d + n <= length (src d))%nat
  then Ok (mk (src d) (dpos d + n), take n (drop (dpos d) (src d))) else Undefined.
Definition read_u32 d : outcome (Decoder * Z) := '(d, s) ← read_bytes d 4; Ok (d, le_value s).
Definition read_string d : outcome (Decoder * cstr) :=
  '(d, n) ← read_u32 d; read_bytes d (Z.to_nat n).
Definition ddone d : bool := (dpos d =? length (src d))%nat.
(** [read<V>] from a file asks for [sizeof(t)] bytes, the size of the pointer
    [t], whatever the [size] of the value it points to; bytes beyond that
    overwrite what follows the value. *)
Definition read_from_file (f : LocalFile.t) (size : nat) : outcome (LocalFile.t * cstr) :=
  let '(f, _, d) := LocalFile.read f 8 in
  if (size <? length d)%nat then Undefined else Ok (f, d).

Lemma read_bytes_spec s0 s rest : read_bytes (mk (s0 ++ s ++ rest) (length s0)) (length s) =
  Ok (mk (s0 ++ s ++ rest) (length s0 + length s), s).
Proof.
  unfold read_bytes. cbn [src dpos]. rewrite decide_True by (rewrite !length_app; lia).
  by rewrite drop_app_length, take_app_length.
Qed.
Lemma read_string_spec s0 v rest : Z.of_nat (length v) < 2 ^ 32 ->
  let n := le_bytes 4 (to_uint32 (Z.of_nat (length v))) in
  read_string (mk (s0 ++ n ++ v ++ rest) (length s0)) = Ok (mk (s0 ++ n ++ v ++ rest) (length s0 + 4 + length v), v).
Proof.
  intros Hv n. unfold read_string, read_u32.
  assert (length n = 4%nat) as Hn by apply length_le_bytes.
  pose proof (read_bytes_spec s0 n (v ++ rest)) as E. rewrite Hn in E. rewrite E. run.
  subst n. rewrite to_uint32_small in * by lia. rewrite le_value_le_bytes, Z.mod_small by (cbn; lia). rewrite Nat2Z.id.
  pose proof (read_bytes_spec (s0 ++ le_bytes 4 (Z.of_nat (length v))) v rest) as E2.
  rewrite length_app, Hn, <- app_assoc in E2. exact E2.
Qed.

Fixpoint read_strings (n : nat) d : outcome (Decoder * list cstr) :=
  match n with
  | O => Ok (d, [])
  | S n => '(d, v) ← read_string d; '(d, vs) ← read_strings n d; Ok (d, v :: vs)
  end.

Lemma strings_roundtrip vs : forall s0, Forall (fun v => Z.of_nat (length v) < 2 ^ 32) vs ->
  let out := fold_left write_string vs s0 in
  read_strings (length vs) (mk out (length s0)) = Ok (mk out (length out), vs).
Proof.
  induction vs as [|v vs IH]; intros s0 Hv; cbn zeta; [done|]. apply Forall_cons in Hv as [Hv Hvs].
  cbn [fold_left length read_strings].
  assert (exists rest, fold_left write_string vs (write_string s0 v) = write_string s0 v ++ rest) as [rest Er].
  { generalize (write_string s0 v). clear. induction vs as [|v vs IH]; intros s; [exists []; by rewrite app_nil_r|].
    cbn [fold_left]. destruct (IH (write_string s v)) as [rest ->]. unfold write_string, write_bytes, write_u32.
    eexists. by rewrite <- !app_assoc. }
  specialize (IH (write_string s0 v) Hvs). cbn zeta in IH. rewrite Er in *.
  assert (write_string s0 v ++ rest = s0 ++ le_bytes 4 (to_uint32 (Z.of_nat (length v))) ++ v ++ rest) as E.
  { unfold write_string, write_bytes, write_u32. by rewrite <- !app_assoc. }
  pose proof (read_string_spec s0 v rest Hv) as E1. cbn zeta in E1. rewrite <- E in E1. rewrite E1. run.
  assert (length (write_string s0 v) = length s0 + 4 + length v)%nat as El.
  { unfold write_string, write_bytes, write_u32. rewrite !length_app, length_le_bytes. done. }
  rewrite El in IH. rewrite IH. by run.
Qed.

(** A decoder that reads a 32-bit value from a file with at least five
    bytes left writes past the value. *)
Theorem decoder_overruns f : (5 <= length (drop (LocalFile.fpos f) (LocalFile.data f)))%nat ->
  read_from_file f 4 = Undefined.
Proof.
  intros Hl. unfold read_from_file, LocalFile.read.
  destruct (Nat.ltb_spec 4 (length (take 8 (drop (LocalFile.fpos f) (LocalFile.data f))))) as [|Hge]; [done|].
  rewrite length_take in Hge. lia.
Qed.
Lemma decoder_overruns_witness : read_from_file (LocalFile.open_r (lit "12345678")) 4 = Undefined.
Proof. apply decoder_overruns. cbn. lia. Defined.
End Coder.
