(* ===== verification/Checkpoint.v ===== *)
(** * Checkpoint files: kernel/local-table.cc, and restoring in
    kernel/global-table.cc, worker/worker.cc and master/master.cc

    A checkpoint of a shard is a record file with four chunks per row and a
    second one, the delta log, with the updates that arrived while the
    checkpoint was taken.  [restore] reads both into a table.  The master marks
    a finished checkpoint with a file of its own and looks for the newest mark
    when it restores.

    The local tables are used through the class [Checkpointed], which both of
    them implement; the files through [FileOps]. *)
From stdpp Require Import sorting.
From S2P Require Import Prelude Float StringPiece Decimal Probe Table SampleKernel DeltaTable StateTable GlobalTable Cluster Master Worker RecordFile.

Abbreviation disk := (gmap cstr cstr).

(** ** What [LocalTable] asks of a table

    The virtual functions it calls: [serializeToFile], with the entries the
    coder is given in order, and [update_str]. *)
Record entry := Entry { e_k : cstr; e_v1 : cstr; e_v2 : cstr; e_v3 : cstr }.
Class Checkpointed (T : Type) := {
  serializeToFile : T -> outcome (list entry);
  update_str : T -> entry -> outcome T
}.

(** ** [LocalTable]'s files *)
Module LocalTable.
Section LocalTable.
Context {W R : Type} `{!FileOps W R}.
Context {T : Type} `{!Checkpointed T}.
(** A file just opened for writing. *)
Variable new_file : W.

(** [LocalTableCoder]. *)
Definition WriteEntryToFile (f : W) (e : entry) : outcome W :=
  f ← RecordFile.writeChunk f (e_k e);
  f ← RecordFile.writeChunk f (e_v1 e);
  f ← RecordFile.writeChunk f (e_v2 e);
  RecordFile.writeChunk f (e_v3 e).
(** The results of the last three [readChunk]s are not looked at; a failed one
    leaves its string empty. *)
Definition ReadEntryFromFile (f : R) : outcome (R * option entry) :=
  '(f, k) ← RecordFile.readChunk f;
  match k with
  | None => Ok (f, None)
  | Some k =>
    '(f, v1) ← RecordFile.readChunk f;
    '(f, v2) ← RecordFile.readChunk f;
    '(f, v3) ← RecordFile.readChunk f;
    Ok (f, Some (Entry k (default [] v1) (default [] v2) (default [] v3)))
  end.

(** A record file is written under a temporary name. *)
Definition open_file (path : cstr) (d : disk) : disk := <[Closing.tmp_path path := []]> d.
Definition close_file (path : cstr) (f : W) (d : disk) : outcome disk :=
  bytes ← fw_close f; Ok (<[path := bytes]> (delete (Closing.tmp_path path) d)).
Definition delta_path (f : cstr) : cstr := f ++ lit ".delta".

(** [delta_file_], with its path. *)
Abbreviation delta_file := (option (cstr * W)).

(** The coder [c] is destroyed, and its file closed, when the function ends. *)
Definition start_checkpoint (f : cstr) (tb : T) (d : disk) : outcome (delta_file * disk) :=
  let d := open_file f d in
  es ← serializeToFile tb;
  c ← for_each WriteEntryToFile es new_file;
  let d := open_file (delta_path f) d in
  d ← close_file f c d;
  Ok (Some (delta_path f, new_file), d).
Definition finish_checkpoint (df : delta_file) (d : disk) : outcome (delta_file * disk) :=
  match df with
  | Some (path, w) => d ← close_file path w d; Ok (None, d)
  | None => Ok (None, d)
  end.
(** Updates that arrive during the checkpoint: a null [delta_file_] is
    dereferenced only if there is an update. *)
Definition log_entry (p : cstr * cstr) : entry := Entry p.1 p.2 (lit "0") (lit "0").
Definition write_delta (df : delta_file) (put : list (cstr * cstr)) : outcome delta_file :=
  for_each (fun df p =>
    '(path, w) ← deref df;
    w ← WriteEntryToFile w (log_entry p);
    Ok (Some (path, w))) put df.

Fixpoint replay (fuel : nat) (f : R) (tb : T) : outcome T :=
  match fuel with
  | O => OutOfFuel
  | S fuel =>
    '(f, e) ← ReadEntryFromFile f;
    match e with
    | None => Ok tb
    | Some e => tb ← update_str tb e; replay fuel f tb
    end
  end.
(** Opening a file that does not exist fails the check of [LocalFile]. *)
Definition open_existing (path : cstr) (d : disk) : outcome R :=
  match d !! path with Some bytes => fr_open bytes | None => Fatal end.
(** [fuel] bounds the number of entries of each file. *)
Definition restore (fuel : nat) (f : cstr) (d : disk) (tb : T) : outcome T :=
  match d !! f with
  | None => Ok tb
  | Some _ =>
    rf ← open_existing f d;
    tb ← replay fuel rf tb;
    df ← open_existing (delta_path f) d;
    replay fuel df tb
  end.
End LocalTable.
End LocalTable.

(** ** Both local tables *)
Section Tables.
Context {K V D : Type} `{Countable K} `{!Hashable K}.
Context `{!ValueInit K} `{!ValueInit V} `{!ValueInit D}.
Context `{!IterateKernel K V D} `{!Marshal K} `{!Marshal V} `{!Marshal D}.
(** The depth of nested calls of [put] and [resize]. *)
Abbreviation depth := 2%nat.

(** [DeltaTable::serializeToFile]: two of the four fields are empty;
    [PTypedTable::update_str] ignores them. *)
Fixpoint delta_entries (fuel : nat) (tb : DeltaTable.t K V) (pos : Z) (out : list entry) : outcome (list entry) :=
  match fuel with
  | O => OutOfFuel
  | S fuel =>
    if DeltaTable.iter_done tb pos then Ok out
    else
      x ← vec_at (DeltaTable.buckets_ tb) pos;
      let out := out ++ [Entry (marshal (bk x)) (marshal (bval x)) [] []] in
      pos ← DeltaTable.Next tb pos;
      delta_entries fuel tb pos out
  end.
#[export] Instance Delta_checkpointed : Checkpointed (DeltaTable.t K V) := {
  serializeToFile tb :=
    pos ← DeltaTable.iter_begin tb;
    delta_entries (S (length (DeltaTable.buckets_ tb))) tb pos [];
  update_str tb e :=
    k ← unmarshal (e_k e);
    v1 ← unmarshal (e_v1 e);
    DeltaTable.put depth tb k v1
}.
(** [StateTable::serializeToFile] asks for an iterator with a null helper,
    which [get_iterator] calls. *)
#[export] Instance State_checkpointed : Checkpointed (StateTable.t K V D) := {
  serializeToFile tb := Undefined;
  update_str tb e :=
    k ← unmarshal (e_k e);
    v1 ← unmarshal (e_v1 e);
    v2 ← unmarshal (e_v2 e);
    v3 ← unmarshal (e_v3 e);
    StateTable.put depth tb k v1 v2 v3
}.
#[export] Instance Local_checkpointed : Checkpointed (GlobalTable.LocalTable (K := K) (V := V) (D := D)) := {
  serializeToFile tb :=
    match tb with GlobalTable.Delta d => serializeToFile d | GlobalTable.State s => serializeToFile s end;
  update_str tb e :=
    match tb with
    | GlobalTable.Delta d => d ← update_str d e; Ok (GlobalTable.Delta d)
    | GlobalTable.State s => s ← update_str s e; Ok (GlobalTable.State s)
    end
}.
End Tables.

(** ** Restoring a worker *)
Module Restore.
Section Restore.
Context {K V D : Type} `{Countable K} `{!Hashable K}.
Context `{!ValueInit K} `{!ValueInit V} `{!ValueInit D}.
Context `{!IterateKernel K V D} `{!Marshal K} `{!Marshal V} `{!Marshal D}.
Context {W R : Type} `{!FileOps W R}.
#[local] Abbreviation table := (GlobalTable.t (K := K) (V := V) (D := D)).
#[local] Abbreviation worker := (Worker.t (K := K) (V := V) (D := D)).

(** [MutableGlobalTableBase::restore]: local shards are restored, the others
    cleared. *)
Definition shard_path (f : cstr) (i n : Z) : cstr :=
  f ++ "."%char :: show_05d i ++ lit "-of-" ++ show_05d n.
Definition restore_shard (fuel : nat) (f : cstr) (d : disk) (tb : table) (i : Z) : outcome table :=
  p ← vec_at (GlobalTable.partitions_ tb) i;
  local ← GlobalTable.is_local_shard tb i;
  p ← (if local : bool
       then LocalTable.restore (W := W) fuel (shard_path f i (Z.of_nat (length (GlobalTable.partitions_ tb)))) d p
       else GlobalTable.clear p);
  ps ← vec_set (GlobalTable.partitions_ tb) i p;
  Ok (GlobalTable.set_partitions tb ps).
Definition restore (fuel : nat) (f : cstr) (d : disk) (tb : table) : outcome table :=
  for_each (restore_shard fuel f d) (seqZ 0 (Z.of_nat (length (GlobalTable.partitions_ tb)))) tb.

(** [Worker::Restore]; it ends with a message to the master. *)
Inductive reply := RestoreDone.
Definition epoch_path (dir : cstr) (epoch : Z) : cstr := dir ++ lit "/epoch_" ++ show_05d epoch.
Definition table_path (dir : cstr) (epoch tbl : Z) : cstr :=
  epoch_path dir epoch ++ lit "/checkpoint.table-" ++ show_int tbl.
Definition restore_table (fuel : nat) (read_dir : cstr) (d : disk) (w : worker) (n : nat) : outcome worker :=
  x ← deref (Worker.tables w !! n);
  tb ← restore fuel (table_path read_dir (Worker.epoch_ w) x.1) d x.2;
  Worker.set_table w x.1 tb.
Definition Restore (fuel : nat) (read_dir : cstr) (d : disk) (epoch : Z) (w : worker) : outcome (worker * list reply) :=
  let w := Worker.set_epoch w epoch in
  w ← for_each (restore_table fuel read_dir d) (seq 0 (length (Worker.tables w))) w;
  Ok (w, [RestoreDone]).
End Restore.
End Restore.

(** ** The master's mark of a finished checkpoint *)
Module Finished.
(** [CheckpointInfo], and the two argument maps as messages. *)
Record CheckpointInfo := { checkpoint_epoch : Z; kernel_epoch : Z }.
Section Finished.
Context {Args : Type}.
(** The protocol buffers. *)
Variable info_bytes : CheckpointInfo -> cstr.
Variable info_parse : cstr -> option CheckpointInfo.
Variable args_bytes : Args -> cstr.
Variable args_parse : cstr -> option Args.

(** The end of [Master::finish_checkpoint]. *)
Definition finished_path (dir : cstr) (epoch : Z) : cstr :=
  Restore.epoch_path dir epoch ++ lit "/checkpoint.finished".
Definition write_finished (write_dir : cstr) (info : CheckpointInfo) (params cp_vars : Args) (d : disk) : outcome disk :=
  let path := finished_path write_dir (checkpoint_epoch info) in
  let d := LocalTable.open_file path d in
  rf ← RecordFile.write info_bytes LocalFile.open_w info;
  rf ← RecordFile.write args_bytes rf params;
  rf ← RecordFile.write args_bytes rf cp_vars;
  LocalTable.close_file path rf d.

(** [File::MatchingFilenames(dir + "/*/checkpoint.finished")]: [glob], whose
    star matches one path component that does not begin with a dot.  [dir], which
    is part of the pattern here and of the format of [sscanf] below, stands for
    itself: it has none of the characters that these interpret. *)
Definition strip_prefix (p s : cstr) : option cstr :=
  if decide (take (length p) s = p) then Some (drop (length p) s) else None.
Definition matches_finished (dir path : cstr) : bool :=
  match strip_prefix (dir ++ lit "/") path with
  | None => false
  | Some rest =>
    match find_char "/" rest with
    | None => false
    | Some n => bool_decide (drop n rest = lit "/checkpoint.finished") &&
                negb (bool_decide (head rest = Some "."%char))
    end
  end.
Definition MatchingFilenames (dir : cstr) (d : disk) : list cstr :=
  merge_sort bytes_le (filter (fun p => matches_finished dir p = true) (map_to_list d).*1).

(** [sscanf] with [dir/epoch_%05d/checkpoint.finished]: the literal part, then
    a number of at most five characters. *)
Fixpoint take_while (f : ascii -> bool) (s : cstr) : cstr :=
  match s with
  | [] => []
  | c :: s => if f c then c :: take_while f s else []
  end.
Definition scan_epoch (dir fname : cstr) : option Z :=
  rest ← strip_prefix (dir ++ lit "/epoch_") fname;
  let rest := drop_while isspace rest in
  let neg := bool_decide (head rest = Some "-"%char) in
  let sign := neg || bool_decide (head rest = Some "+"%char) in
  let ds := take_while isdigit (if sign then take 4 (drop 1 rest) else take 5 rest) in
  if decide (ds = []) then None else Some (if neg then - parse_digits ds 0 else parse_digits ds 0).

(** [Master::restore].  [tables] are the tables with their numbers of shards,
    [dead] the workers that are not alive.
    The result is [None] when there is nothing to restore, or the epoch that is
    sent to the workers in [StartRestore], and what the master takes over; the
    wait for the workers' replies that follows is not part of the function. *)
Variable tables : list (Z * Z).
Variable dead : gset Z.
Definition ensure_assigned (m : Master.t) : outcome (Master.t * list Master.message) :=
  if Master.shards_assigned_ m then Ok (m, [])
  else
    ws ← Master.assign_tables tables dead (Master.shard_size (Master.entries m)) (Master.workers_ m);
    Ok (Master.mk ws (Master.run_table m) (Master.run_shards m) (Master.dispatched_ m) (Master.finished_ m) true
          (Master.kernel_epoch_ m) (Master.entries m), [Master.ShardAssignment (Master.send_table_assignments ws)]).
Definition with_kernel_epoch (m : Master.t) (e : Z) : Master.t :=
  Master.mk (Master.workers_ m) (Master.run_table m) (Master.run_shards m) (Master.dispatched_ m) (Master.finished_ m)
    (Master.shards_assigned_ m) e (Master.entries m).
Definition CHECK_some {A} (o : option A) : outcome A := match o with Some a => Ok a | None => Fatal end.
Record restored_state := Restored { r_epoch : Z; r_checkpoint_epoch : Z; r_params : Args; r_cp_vars : Args }.
Definition restore (FLAGS_restore : bool) (read_dir : cstr) (d : disk) (m : Master.t) :
    outcome (Master.t * list Master.message * option restored_state) :=
  if negb FLAGS_restore then Ok (m, [], None)
  else
    '(m, ms) ← ensure_assigned m;
    match last (MatchingFilenames read_dir d) with
    | None => Ok (m, ms, None)
    | Some fname =>
      epoch ← CHECK_some (scan_epoch read_dir fname);
      rf ← LocalTable.open_existing (R := LocalFile.t) fname d;
      '(rf, info) ← RecordFile.read info_parse rf;
      info ← CHECK_some info;
      '(rf, params) ← RecordFile.read args_parse rf;
      params ← CHECK_some params;
      '(rf, cp_vars) ← RecordFile.read args_parse rf;
      cp_vars ← CHECK_some cp_vars;
      Ok (with_kernel_epoch m (kernel_epoch info), ms, Some (Restored epoch (checkpoint_epoch info) params cp_vars))
    end.
End Finished.
End Finished.

(** ** Entries in files *)
Section Entries.
Context {W R : Type} `{!FileOps W R} `{!FileLaws W R}.
Context {T : Type} `{!Checkpointed T}.
Variable new_file : W.
Hypothesis new_file_empty : written new_file [].
Import LocalTable.

Definition fields (e : entry) : list cstr := [e_k e; e_v1 e; e_v2 e; e_v3 e].
Definition entry_ok (e : entry) : Prop := Forall chunk_ok (fields e).
Definition entry_bytes (e : entry) : cstr := mjoin (chunk_bytes <$> fields e).

Lemma empty_ok : chunk_ok [].
Proof. unfold chunk_ok. pose proof write_max_range. cbn. lia. Qed.
Lemma zero_ok : chunk_ok (lit "0").
Proof. unfold chunk_ok. pose proof write_max_range. cbn. lia. Qed.

Lemma WriteEntry_spec (w : W) s e : written w s -> entry_ok e ->
  exists w', WriteEntryToFile w e = Ok w' /\ written w' (s ++ entry_bytes e).
Proof.
  intros Hw Hok. unfold WriteEntryToFile.
  unfold entry_ok, fields in Hok. rewrite !Forall_cons in Hok. destruct Hok as (Ok0 & Ok1 & Ok2 & Ok3 & _).
  destruct (writeChunk_spec w s (e_k e) Hw Ok0) as (w1 & -> & H1). run.
  destruct (writeChunk_spec w1 _ (e_v1 e) H1 Ok1) as (w2 & -> & H2). run.
  destruct (writeChunk_spec w2 _ (e_v2 e) H2 Ok2) as (w3 & -> & H3). run.
  destruct (writeChunk_spec w3 _ (e_v3 e) H3 Ok3) as (w4 & -> & H4). exists w4. split; [done|].
  unfold entry_bytes, fields. rewrite !fmap_cons, !mjoin_cons. cbn [fmap list_fmap mjoin list_join].
  by rewrite app_nil_r; rewrite <- !app_assoc in H4.
Qed.
Lemma WriteEntries_spec es : forall (w : W) s, written w s -> Forall entry_ok es ->
  exists w', for_each WriteEntryToFile es w = Ok w' /\ written w' (s ++ mjoin (entry_bytes <$> es)).
Proof.
  induction es as [|e es IH]; intros w s Hw Hok; [exists w; by rewrite app_nil_r|]. cbn [for_each].
  apply Forall_cons in Hok as [He Hok].
  destruct (WriteEntry_spec w s e Hw He) as (w1 & -> & H1). run. destruct (IH w1 _ H1 Hok) as (w2 & -> & H2).
  exists w2. split; [done|]. rewrite fmap_cons, mjoin_cons. by rewrite <- app_assoc in H2.
Qed.
Lemma ReadEntry_spec (r : R) e rest : entry_ok e -> readable r (entry_bytes e ++ rest) ->
  exists r', ReadEntryFromFile r = Ok (r', Some e) /\ readable r' rest.
Proof.
  intros Hok Hr. destruct e as [k v1 v2 v3]. unfold entry_bytes, fields in Hr. cbn [e_k e_v1 e_v2 e_v3] in *.
  rewrite !fmap_cons, !mjoin_cons in Hr. cbn [fmap list_fmap mjoin list_join] in Hr. rewrite app_nil_r, <- !app_assoc in Hr.
  unfold entry_ok, fields in Hok. cbn [e_k e_v1 e_v2 e_v3] in Hok. rewrite !Forall_cons in Hok. destruct Hok as (H0 & H1 & H2 & H3 & _).
  unfold ReadEntryFromFile.
  destruct (readChunk_spec r k _ H0 Hr) as (r1 & -> & R1). run.
  destruct (readChunk_spec r1 v1 _ H1 R1) as (r2 & -> & R2). run.
  destruct (readChunk_spec r2 v2 _ H2 R2) as (r3 & -> & R3). run.
  destruct (readChunk_spec r3 v3 _ H3 R3) as (r4 & -> & R4). run. by exists r4.
Qed.
Lemma replay_spec es : forall (r : R) fuel (tb : T), Forall entry_ok es -> (length es < fuel)%nat ->
  readable r (mjoin (entry_bytes <$> es)) -> replay fuel r tb = for_each update_str es tb.
Proof.
  induction es as [|e es IH]; intros r fuel tb Hok Hf Hr; (destruct fuel as [|fuel]; [lia|]); cbn [replay].
  - unfold ReadEntryFromFile. destruct (readChunk_end r Hr) as (r' & -> & _). by run.
  - apply Forall_cons in Hok as [He Hes]. rewrite fmap_cons, mjoin_cons in Hr.
    destruct (ReadEntry_spec r e _ He Hr) as (r1 & -> & H1). run. cbn [for_each].
    destruct (update_str tb e); run; try done. cbn [length] in Hf. apply IH; [done|lia|done].
Qed.

(** A closed file of entries on the disk. *)
Definition holds (d : disk) (path : cstr) (es : list entry) : Prop :=
  exists bytes r, d !! path = Some bytes /\ fr_open bytes = Ok r /\ readable r (mjoin (entry_bytes <$> es)).

Lemma restore_spec fuel f d es ls (tb : T) :
  holds d f es -> holds d (delta_path f) ls -> Forall entry_ok (es ++ ls) ->
  (length es < fuel)%nat -> (length ls < fuel)%nat ->
  restore fuel f d tb = for_each update_str (es ++ ls) tb.
Proof.
  intros (b & r & Hb & Ho & Hr) (b' & r' & Hb' & Ho' & Hr') [Hes Hls]%Forall_app Hf Hf'.
  unfold restore, open_existing. rewrite Hb, Ho. run. rewrite (replay_spec es) by done. rewrite for_each_app.
  destruct (for_each update_str es tb); run; try done. rewrite Hb', Ho'. run. by rewrite (replay_spec ls).
Qed.

Lemma close_file_holds path w d es : written w (mjoin (entry_bytes <$> es)) ->
  exists d', close_file path w d = Ok d' /\ holds d' path es /\
    (forall p, p <> path -> p <> Closing.tmp_path path -> d' !! p = d !! p).
Proof.
  intros Hw. destruct (close_open w _ Hw) as (bytes & r & Ec & Eo & Hr). unfold close_file. rewrite Ec. run.
  eexists. split; [done|]. split; [exists bytes, r; by rewrite lookup_insert_eq|].
  intros p H1 H2. by rewrite lookup_insert_ne, lookup_delete_ne.
Qed.
Lemma write_delta_spec puts : forall path w s, written w s -> Forall entry_ok (log_entry <$> puts) ->
  exists w', write_delta (Some (path, w)) puts = Ok (Some (path, w')) /\
    written w' (s ++ mjoin (entry_bytes <$> (log_entry <$> puts))).
Proof.
  unfold write_delta. induction puts as [|p puts IH]; intros path w s Hw Hok; [exists w; by rewrite app_nil_r|].
  rewrite fmap_cons in Hok. apply Forall_cons in Hok as [Hp Hok].
  cbn [for_each deref]. run. destruct (WriteEntry_spec w s (log_entry p) Hw Hp) as (w1 & -> & H1). run.
  destruct (IH path w1 _ H1 Hok) as (w2 & -> & H2). exists w2. split; [done|].
  rewrite !fmap_cons, mjoin_cons. by rewrite <- app_assoc in H2.
Qed.
Lemma longer_ne (p s : cstr) : (0 < length s)%nat -> p <> p ++ s.
Proof. intros Hs E. apply (f_equal length) in E. rewrite length_app in E. lia. Qed.

(** A checkpoint leaves the entries of the table and the log of the updates. *)
Lemma checkpoint_files f (tb : T) d es puts : serializeToFile tb = Ok es ->
  Forall entry_ok (es ++ (log_entry <$> puts)) ->
  exists d', ('(df, d) ← start_checkpoint new_file f tb d; df ← write_delta df puts; finish_checkpoint df d) =
      Ok (None, d') /\ holds d' f es /\ holds d' (delta_path f) (log_entry <$> puts).
Proof.
  intros Es [Hes Hls]%Forall_app. unfold start_checkpoint. rewrite Es. run.
  destruct (WriteEntries_spec es new_file [] new_file_empty Hes) as (w & -> & Hw). run.
  destruct (close_file_holds f w (open_file (delta_path f) (open_file f d)) es Hw) as (d1 & -> & Hd1 & _). run.
  destruct (write_delta_spec puts (delta_path f) new_file [] new_file_empty Hls) as (w' & -> & Hw'). run.
  cbn [finish_checkpoint].
  destruct (close_file_holds (delta_path f) w' d1 (log_entry <$> puts) Hw') as (d2 & -> & Hd2 & Hsame). run.
  exists d2. split; [done|]. split; [|done]. destruct Hd1 as (b & r & Hb & Hr). exists b, r. split; [|done].
  rewrite Hsame; [done| |]; unfold delta_path, Closing.tmp_path; rewrite <- ?app_assoc; apply longer_ne; cbn; lia.
Qed.
End Entries.

(** ** Restored tables *)
Section Tables.
Context {K V D : Type} `{Countable K} `{!Hashable K}.
Context `{!ValueInit K} `{!ValueInit V} `{!ValueInit D}.
Context `{!IterateKernel K V D} `{!Marshal K} `{!Marshal V} `{!Marshal D}.
Context `{!MarshalLaws K} `{!MarshalLaws V} `{!MarshalLaws D} `{!PriorityLaws K V D}.
Context {W R : Type} `{!FileOps W R} `{!FileLaws W R}.
Import LocalTable.

Ltac entry_ok_done :=
  pose proof empty_ok; pose proof zero_ok; unfold entry_ok, fields; repeat first [assumption | apply Forall_nil_2 | apply Forall_cons_2].

(** Inserting rows in order: the last one for a key stays. *)
Definition insert_rows {A} (m : gmap K A) (l : list (K * A)) : gmap K A := foldl (fun m x => <[x.1 := x.2]> m) m l.
Lemma insert_rows_app {A} (m : gmap K A) l1 l2 : insert_rows m (l1 ++ l2) = insert_rows (insert_rows m l1) l2.
Proof. apply foldl_app. Qed.
Lemma insert_rows_NoDup {A} (l : list (K * A)) : forall m, NoDup l.*1 -> insert_rows m l = list_to_map l ∪ m.
Proof.
  induction l as [|[k a] l IH]; intros m Hnd; [by rewrite list_to_map_nil, (left_id_L ∅ (∪))|]. rewrite fmap_cons in Hnd.
  apply NoDup_cons in Hnd as [Hk Hnd]. cbn [insert_rows foldl fst snd]. fold (insert_rows (<[k := a]> m) l).
  rewrite IH, list_to_map_cons by done. rewrite <- insert_union_r by (by apply not_elem_of_list_to_map).
  by rewrite insert_union_l.
Qed.

(** *** Delta tables *)
Definition delta_entry (x : K * V) : entry := Entry (marshal x.1) (marshal x.2) [] [].
Lemma delta_entries_spec tb fuel q out :
  DeltaTable.wf tb -> (q <= length (DeltaTable.buckets_ tb))%nat -> (length (DeltaTable.buckets_ tb) - q < fuel)%nat ->
  (q = length (DeltaTable.buckets_ tb) \/ exists x, DeltaTable.buckets_ tb !! q = Some x /\ in_use x = true /\
     rows (drop q (DeltaTable.buckets_ tb)) = (bk x, bval x) :: rows (drop (S q) (DeltaTable.buckets_ tb))) ->
  delta_entries fuel tb (Z.of_nat q) out = Ok (out ++ (delta_entry <$> rows (drop q (DeltaTable.buckets_ tb)))).
Proof.
  intros Hwf. revert q out. induction fuel as [|fuel IH]; intros q out Hq Hf Hc; [lia|].
  cbn [delta_entries]. unfold DeltaTable.iter_done. rewrite (DeltaTable.wf_size _ Hwf).
  destruct Hc as [->|(x & Hx & Hu & Hr)].
  - rewrite Z.eqb_refl, drop_ge by done. by rewrite app_nil_r.
  - pose proof (lookup_lt_Some _ _ _ Hx) as Hlt.
    destruct (Z.eqb_spec (Z.of_nat q) (Z.of_nat (length (DeltaTable.buckets_ tb)))); [lia|].
    rewrite (vec_at_Some _ _ _ Hx). run.
    destruct (DeltaTable.Next_spec tb (S q) Hwf Hlt) as (q' & E & Hq' & Hr' & Hc').
    replace (Z.of_nat (S q) - 1) with (Z.of_nat q) in E by lia. rewrite E. run.
    rewrite IH by (done || lia). rewrite Hr, Hr'. by rewrite <- app_assoc.
Qed.
Lemma delta_serialize tb : DeltaTable.wf tb ->
  serializeToFile tb = Ok (delta_entry <$> rows (DeltaTable.buckets_ tb)).
Proof.
  intros Hwf. cbn [serializeToFile Delta_checkpointed]. unfold DeltaTable.iter_begin.
  destruct (DeltaTable.Next_spec tb 0 Hwf) as (q & E & Hq & Hr & Hc); [lia|].
  replace (Z.of_nat 0 - 1) with (-1) in E by lia. rewrite E. run.
  rewrite delta_entries_spec by (done || lia). by rewrite <- Hr.
Qed.

(** Entries that carry a row in their first two fields. *)
Definition carries (e : entry) (x : K * V) : Prop :=
  e_k e = marshal x.1 /\ e_v1 e = marshal x.2 /\ row_representable x.
Lemma delta_put_rows es : forall l tb,
  Forall2 carries es l -> DeltaTable.wf tb -> GlobalTable.compact tb ->
  DeltaTable.entries_ tb + Z.of_nat (length l) < 2 ^ 28 ->
  exists tb', for_each update_str es tb = Ok tb' /\ DeltaTable.wf tb' /\
    DeltaTable.contents tb' = insert_rows (DeltaTable.contents tb) l.
Proof.
  induction es as [|e es IH]; intros l tb Hl Hwf Hcp Hn; inversion Hl as [|? [k v] ? l' (Hk & Hv & Hrk & Hrv) Hl']; subst.
  { by exists tb. }
  cbn [fst snd] in *. unfold GlobalTable.compact in Hcp. cbn [length] in Hn.
  destruct (DeltaTable.put_spec 0 tb k v Hwf ltac:(lia)) as (tb1 & E & Hw1 & Hc1 & Hg).
  assert (update_str tb e = Ok tb1) as Eu.
  { cbn [update_str Delta_checkpointed]. rewrite Hk, Hv, !unmarshal_marshal by done. by run. }
  cbn [for_each]. rewrite Eu. run.
  assert (DeltaTable.entries_ tb <= DeltaTable.entries_ tb1 <= DeltaTable.entries_ tb + 1) as He.
  { rewrite (DeltaTable.wf_entries_size _ Hwf), (DeltaTable.wf_entries_size _ Hw1), Hc1.
    rewrite map_size_insert. destruct (DeltaTable.contents tb !! k); cbn; lia. }
  destruct (IH l' tb1 Hl' Hw1) as (tb' & -> & Hw' & Hc'); [|lia|].
  - unfold GlobalTable.compact. destruct Hg as [->|[Ho ->]]; [lia|]. unfold DeltaTable.over_loaded in Ho. lia.
  - exists tb'. split_and!; [done..|]. by rewrite Hc', Hc1.
Qed.

Definition row_fits (x : K * V) : Prop := row_representable x /\ chunk_ok (marshal x.1) /\ chunk_ok (marshal x.2).

(** C37. A delta table survives a checkpoint: after the checkpoint was started,
    the updates [puts] logged and the checkpoint finished, restoring an empty
    table gives the rows of the table with the logged updates put over them.
    A logged update replaces the value, where applying it had accumulated.
    Keys and values are short enough for one record of the file. *)
Theorem delta_checkpoint_restores (new_file : W) f tb tb0 d puts fuel :
  written new_file [] ->
  DeltaTable.wf tb -> map_Forall (fun k v => row_fits (k, v)) (DeltaTable.contents tb) -> Forall row_fits puts ->
  DeltaTable.wf tb0 -> DeltaTable.contents tb0 = ∅ -> DeltaTable.size_ tb0 = 1 ->
  DeltaTable.entries_ tb + Z.of_nat (length puts) < 2 ^ 28 ->
  (Z.to_nat (DeltaTable.entries_ tb) + length puts < fuel)%nat ->
  exists d' tb', ('(df, d) ← start_checkpoint new_file f tb d;
                  df ← write_delta df ((fun x => (marshal x.1, marshal x.2)) <$> puts);
                  finish_checkpoint df d) = Ok (None, d') /\
    restore (W := W) fuel f d' tb0 = Ok tb' /\ DeltaTable.wf tb' /\
    DeltaTable.contents tb' = insert_rows (DeltaTable.contents tb) puts.
Proof.
  intros Hnew Hwf Hrows Hputs Hwf0 Hc0 Hs0 Hn Hf.
  assert (Forall row_fits (rows (DeltaTable.buckets_ tb))) as Hfit.
  { pose proof (rows_keys_NoDup _ (inv_unique _ (DeltaTable.wf_inv _ Hwf))) as Hnd.
    apply Forall_forall. intros [k v] Hin. apply Hrows. by apply elem_of_list_to_map. }
  assert (length (rows (DeltaTable.buckets_ tb)) = Z.to_nat (DeltaTable.entries_ tb)) as Hlen
    by (rewrite (DeltaTable.wf_entries _ Hwf); lia).
  assert (Forall entry_ok ((delta_entry <$> rows (DeltaTable.buckets_ tb)) ++
      (log_entry <$> ((fun x : K * V => (marshal x.1, marshal x.2)) <$> puts)))) as Hok.
  { apply Forall_app. split; rewrite !Forall_fmap.
    - eapply Forall_impl; [exact Hfit|]. intros x (_ & ? & ?). entry_ok_done.
    - eapply Forall_impl; [exact Hputs|]. intros x (_ & ? & ?). entry_ok_done. }
  destruct (checkpoint_files new_file Hnew f tb d _ ((fun x : K * V => (marshal x.1, marshal x.2)) <$> puts)
    (delta_serialize tb Hwf) Hok) as (d' & Ed & Hes & Hls).
  destruct (delta_put_rows ((delta_entry <$> rows (DeltaTable.buckets_ tb)) ++
      (log_entry <$> ((fun x : K * V => (marshal x.1, marshal x.2)) <$> puts)))
      (rows (DeltaTable.buckets_ tb) ++ puts) tb0) as (tb' & Er & Hw' & Hc').
  - apply Forall2_app; rewrite ?Forall2_fmap_l; apply Forall_Forall2_diag.
    + eapply Forall_impl; [exact Hfit|]. intros x (Hx & _). by split_and!.
    + eapply Forall_impl; [exact Hputs|]. intros x (Hx & _). by split_and!.
  - done.
  - unfold GlobalTable.compact. rewrite Hs0. pose proof (DeltaTable.wf_entries_size _ Hwf0). lia.
  - rewrite (DeltaTable.wf_entries_size _ Hwf0), Hc0, map_size_empty, length_app. pose proof (DeltaTable.wf_entries _ Hwf). lia.
  - exists d', tb'. split; [exact Ed|]. split_and!; [|done|].
    + rewrite (restore_spec fuel f d' _ _ tb0 Hes Hls); [exact Er|exact Hok|rewrite length_fmap; lia|rewrite !length_fmap; lia].
    + rewrite Hc', Hc0, insert_rows_app. f_equal. rewrite insert_rows_NoDup; [by rewrite (right_id_L ∅ (∪))|].
      apply rows_keys_NoDup, (inv_unique _ (DeltaTable.wf_inv _ Hwf)).
Qed.

(** *** State tables *)
Abbreviation record := (ClutterRecord K V D).
Definition state_entry (r : record) : entry :=
  Entry (marshal (rec_k r)) (marshal (rec_v1 r)) (marshal (rec_v2 r)) (marshal (rec_v3 r)).
Definition record_fits (r : record) : Prop :=
  (representable (rec_k r) /\ representable (rec_v1 r) /\ representable (rec_v2 r) /\ representable (rec_v3 r)) /\
  (chunk_ok (marshal (rec_k r)) /\ chunk_ok (marshal (rec_v1 r)) /\ chunk_ok (marshal (rec_v2 r)) /\ chunk_ok (marshal (rec_v3 r))).
Definition cell_row (r : record) : K * StateTable.cell V D := (rec_k r, StateTable.fresh_cell (K := K) (rec_v1 r) (rec_v2 r) (rec_v3 r)).

Lemma state_put_rows l : forall (tb : StateTable.t K V D),
  Forall record_fits l -> StateTable.wf tb ->
  StateTable.entries_ tb + Z.of_nat (length l) <= StateTable.size_ tb ->
  exists tb', for_each update_str (state_entry <$> l) tb = Ok tb' /\ StateTable.wf tb' /\
    StateTable.contents tb' = insert_rows (StateTable.contents tb) (cell_row <$> l).
Proof.
  induction l as [|r l IH]; intros tb Hl Hwf Hn; [by exists tb|].
  apply Forall_cons in Hl as [((Hk & H1 & H2 & H3) & _) Hl]. cbn [length] in Hn.
  destruct (StateTable.put_room 1 tb (rec_k r) (rec_v1 r) (rec_v2 r) (rec_v3 r) Hwf ltac:(right; lia))
    as (tb1 & E & Hw1 & Hc1 & Hs1).
  assert (update_str tb (state_entry r) = Ok tb1) as Eu.
  { cbn [update_str State_checkpointed state_entry e_k e_v1 e_v2 e_v3]. rewrite !unmarshal_marshal by done. by run. }
  rewrite fmap_cons. cbn [for_each]. rewrite Eu. run.
  destruct (IH tb1 Hl Hw1) as (tb' & -> & Hw' & Hc').
  - rewrite Hs1, (StateTable.state_wf_entries_size _ Hw1), Hc1, map_size_insert.
    pose proof (StateTable.state_wf_entries_size _ Hwf). destruct (StateTable.contents tb !! rec_k r); cbn; lia.
  - exists tb'. split_and!; [done..|]. rewrite Hc', Hc1. by rewrite fmap_cons.
Qed.
Lemma state_entries_ok l : Forall record_fits l -> Forall entry_ok (state_entry <$> l).
Proof.
  intros Hl. apply Forall_fmap. eapply Forall_impl; [exact Hl|]. intros r (_ & ? & ? & ? & ?). by repeat constructor.
Qed.

(** Restoring a state table with room: the rows of the checkpoint and then
    those of the log are put into the table, the last one for a key wins and
    its priority is recomputed; rows of the table that neither file mentions
    stay. *)
Theorem state_restores fuel f d (tb : StateTable.t K V D) l ls :
  holds (W := W) d f (state_entry <$> l) -> holds (W := W) d (delta_path f) (state_entry <$> ls) ->
  Forall record_fits (l ++ ls) -> StateTable.wf tb ->
  StateTable.entries_ tb + Z.of_nat (length (l ++ ls)) <= StateTable.size_ tb ->
  (length l < fuel)%nat -> (length ls < fuel)%nat ->
  exists tb', restore (W := W) fuel f d tb = Ok tb' /\ StateTable.wf tb' /\
    StateTable.contents tb' = insert_rows (StateTable.contents tb) (cell_row <$> l ++ ls).
Proof.
  intros Hes Hls Hok Hwf Hn Hf Hf'. destruct (state_put_rows (l ++ ls) tb Hok Hwf Hn) as (tb' & E & Hw' & Hc').
  exists tb'. split; [|done]. rewrite (restore_spec fuel f d _ _ tb Hes Hls); [by rewrite <- fmap_app| |by rewrite length_fmap..].
  rewrite <- fmap_app. by apply state_entries_ok.
Qed.

(** The delta log of a state table cannot be replayed: [write_delta] logs
    the text "0" for the second and third value, which is not a value of a
    type wider than a byte, so that restoring a checkpoint during which an
    update arrived reads past the end of the string. *)
Theorem delta_log_undefined fuel f d (tb : StateTable.t K V D) l k v puts :
  unmarshal (T := V) (lit "0") = Undefined ->
  holds (W := W) d f (state_entry <$> l) ->
  holds (W := W) d (delta_path f) (log_entry <$> (marshal k, marshal v) :: ((fun x : K * V => (marshal x.1, marshal x.2)) <$> puts)) ->
  Forall record_fits l -> Forall row_fits ((k, v) :: puts) -> StateTable.wf tb ->
  StateTable.entries_ tb + Z.of_nat (length l) <= StateTable.size_ tb ->
  (length l < fuel)%nat -> (S (length puts) < fuel)%nat ->
  restore (W := W) fuel f d tb = Undefined.
Proof.
  intros Hz Hes Hls Hl Hputs Hwf Hn Hf Hf'. destruct (state_put_rows l tb Hl Hwf Hn) as (tb' & E & _ & _).
  rewrite (restore_spec fuel f d _ _ tb Hes Hls); [|apply Forall_app; split; [by apply state_entries_ok|]
    |by rewrite length_fmap|cbn; rewrite !length_fmap; lia].
  - rewrite for_each_app, E. run. rewrite fmap_cons. cbn [for_each].
    apply Forall_cons in Hputs as [((Hk & Hv) & _) _].
    cbn [update_str State_checkpointed log_entry e_k e_v1 e_v2 fst snd]. rewrite !unmarshal_marshal by done. run.
    rewrite Hz. by run.
  - change ((marshal k, marshal v) :: ((fun x : K * V => (marshal x.1, marshal x.2)) <$> puts))
      with ((fun x : K * V => (marshal x.1, marshal x.2)) <$> (k, v) :: puts).
    rewrite !Forall_fmap. eapply Forall_impl; [exact Hputs|]. intros x (_ & ? & ?). entry_ok_done.
Qed.
End Tables.

(** ** A restored worker table *)
Section TableRestored.
Context {K V D : Type} `{Countable K} `{!Hashable K}.
Context `{!ValueInit K} `{!ValueInit V} `{!ValueInit D}.
Context `{!IterateKernel K V D} `{!Sharder K} `{!Marshal K} `{!Marshal V} `{!Marshal D}.
Context `{!MarshalLaws K} `{!MarshalLaws V} `{!MarshalLaws D} `{!PriorityLaws K V D}.
Context {W R : Type} `{!FileOps W R} `{!FileLaws W R}.
Import LocalTable.
Variables (f : cstr) (d : disk) (fuel : nat) (recs : nat -> list (ClutterRecord K V D)) (n : Z).
#[local] Abbreviation local := (GlobalTable.LocalTable (K := K) (V := V) (D := D)).
#[local] Abbreviation table := (GlobalTable.t (K := K) (V := V) (D := D)).

(** The checkpoint of shard [i] holds the records [recs i], its log nothing,
    and the table has room for them. *)
Definition restorable (i : nat) (p : local) : Prop :=
  match p with
  | GlobalTable.State s =>
    let path := Restore.shard_path f (Z.of_nat i) n in
    holds (W := W) d path (state_entry <$> recs i) /\ holds (W := W) d (delta_path path) [] /\
    Forall record_fits (recs i) /\ (length (recs i) < fuel)%nat /\
    StateTable.entries_ s + Z.of_nat (length (recs i)) <= StateTable.size_ s
  | GlobalTable.Delta _ => True
  end.
Definition restored (i : nat) (p p' : local) : Prop :=
  match p, p' with
  | GlobalTable.State s, GlobalTable.State s' =>
    StateTable.wf s' /\ StateTable.contents s' = insert_rows (StateTable.contents s) (cell_row <$> recs i)
  | GlobalTable.Delta _, GlobalTable.Delta d' => DeltaTable.wf d' /\ DeltaTable.contents d' = ∅
  | _, _ => False
  end.

Lemma restore_state path (s : StateTable.t K V D) s' :
  LocalTable.restore (W := W) fuel path d s = Ok s' ->
  LocalTable.restore (W := W) fuel path d (GlobalTable.State s : local) = Ok (GlobalTable.State s').
Proof.
  assert (forall n r (s s' : StateTable.t K V D), replay (W := W) n r s = Ok s' ->
    replay (W := W) n r (GlobalTable.State s : local) = Ok (GlobalTable.State s')) as Hreplay.
  { clear. induction n as [|n IH]; intros r s s'; cbn [replay]; [done|].
    destruct (ReadEntryFromFile r) as [[r' [e|]]| | | |]; run; try done; [|by intros [= ->]].
    cbn [update_str Local_checkpointed]. destruct (update_str s e) as [s1| | | |]; run; try done. apply IH. }
  unfold LocalTable.restore. destruct (d !! path); [|by intros [= ->]].
  destruct (open_existing path d) as [r| | | |]; run; try done.
  destruct (replay fuel r s) as [s1| | | |] eqn:E1; run; try done. rewrite (Hreplay _ _ _ _ E1). run.
  destruct (open_existing (delta_path path) d) as [r'| | | |]; run; try done. apply Hreplay.
Qed.
Lemma shard_restored owners w (tb : table) ps i p :
  GlobalTable.wf owners w tb -> n = Z.of_nat (length (GlobalTable.partitions_ tb)) ->
  length ps = length (GlobalTable.partitions_ tb) ->
  GlobalTable.partitions_ tb !! i = Some p -> ps !! i = Some p -> restorable i p ->
  exists p', Restore.restore_shard (W := W) fuel f d (GlobalTable.set_partitions tb ps) (Z.of_nat i) =
      Ok (GlobalTable.set_partitions tb (<[i := p']> ps)) /\ restored i p p'.
Proof.
  intros Hwf Hn Hlen Hp0 Hp Hres. pose proof (lookup_lt_Some _ _ _ Hp) as Hi.
  pose proof (GlobalTable.wf_part _ _ _ Hwf i p Hp0) as Hok.
  destruct (lookup_lt_is_Some_2 owners i) as [o Ho].
  { rewrite <- (GlobalTable.wf_length _ _ _ Hwf). lia. }
  unfold Restore.restore_shard. cbn [GlobalTable.partitions_ GlobalTable.set_partitions].
  rewrite (vec_at_Some _ _ _ Hp), Hlen, <- Hn. run.
  change (GlobalTable.is_local_shard (GlobalTable.set_partitions tb ps) (Z.of_nat i)) with (GlobalTable.is_local_shard tb (Z.of_nat i)).
  rewrite (GlobalTable.wf_local tb i o Hwf Ho). run. destruct p as [dt|s]; cbn [GlobalTable.part_ok restorable] in *.
  - destruct Hok as (How & Hd & _). destruct (Z.eqb_spec o w); [congruence|]. cbn [GlobalTable.clear].
    destruct (DeltaTable.clear_wf dt Hd) as (d' & E & Hwd & Hcd & _). rewrite E. run.
    rewrite vec_set_lt by done. run. exists (GlobalTable.Delta d'). by split_and!.
  - destruct Hok as (How & Hs & _). destruct (Z.eqb_spec o w); [|congruence].
    destruct Hres as (Hh & Hl & Hfit & Hfu & Hroom).
    destruct (state_put_rows (recs i) s Hfit Hs Hroom) as (s' & E & Hws & Hcs).
    rewrite (restore_state _ s s').
    + run. rewrite vec_set_lt by done. run. exists (GlobalTable.State s'). by split_and!.
    + rewrite (restore_spec fuel _ d _ [] s Hh Hl); [by rewrite app_nil_r| |by rewrite length_fmap|cbn; lia].
      rewrite app_nil_r. by apply state_entries_ok.
Qed.

(** C38. Restoring a table when, for every local shard, the checkpoint file
    is there and holds records that can be read, its delta log holds nothing,
    and the shard's table has free buckets for all the records
    ([restorable]): every local shard gets the rows of its checkpoint file over
    those it has, every delta table of a remote shard is emptied, and the
    ownership of the shards is unchanged.  The conditions are needed: replaying
    a logged update into a state table is undefined ([delta_log_undefined]),
    and [put] of a new key into a full table overwrites a row. *)
Theorem table_restored owners w (tb : table) :
  GlobalTable.wf owners w tb -> n = Z.of_nat (length (GlobalTable.partitions_ tb)) ->
  (forall i p, GlobalTable.partitions_ tb !! i = Some p -> restorable i p) ->
  exists ps, Restore.restore (W := W) fuel f d tb = Ok (GlobalTable.set_partitions tb ps) /\
    Forall2 (fun ip p' => restored ip.1 ip.2 p') (imap pair (GlobalTable.partitions_ tb)) ps.
Proof.
  intros Hwf Hn Hres. unfold Restore.restore. rewrite <- Hn.
  destruct (for_each_inv (Restore.restore_shard (W := W) fuel f d) (fun pre tb' => exists ps, tb' = GlobalTable.set_partitions tb ps /\
    length ps = length (GlobalTable.partitions_ tb) /\
    forall i p p', GlobalTable.partitions_ tb !! i = Some p -> ps !! i = Some p' ->
      if decide (i < length pre)%nat then restored i p p' else p' = p) (seqZ 0 n) tb) as (tb' & E & ps & -> & Hlen & Hall).
  - exists (GlobalTable.partitions_ tb). split_and!; [by destruct tb|done|]. intros i p p' Hp Hp'. cbn. congruence.
  - intros pre z todo ? Hs (ps & -> & Hlen & Hall).
    pose proof (f_equal (fun l => l !! length pre) Hs) as Hz. cbv beta in Hz.
    rewrite list_lookup_middle in Hz by done. apply lookup_seqZ in Hz as [-> Hlt]. rewrite Z.add_0_l.
    destruct (lookup_lt_is_Some_2 (GlobalTable.partitions_ tb) (length pre)) as [p Hp]; [lia|].
    destruct (lookup_lt_is_Some_2 ps (length pre)) as [q Hq]; [lia|].
    pose proof (Hall _ p q Hp Hq) as Hpq. rewrite decide_False in Hpq by lia. subst q.
    destruct (shard_restored owners w tb ps (length pre) p Hwf Hn Hlen Hp Hq (Hres _ _ Hp)) as (p' & -> & Hr).
    eexists. split; [done|]. eexists. split; [done|]. split; [by rewrite length_insert|].
    intros i q q' Hq1 Hq2. rewrite length_app, Nat.add_1_r.
    apply list_lookup_insert_Some in Hq2 as [(<- & <- & _)|[Hne Hq2]].
    + rewrite decide_True by lia. by replace q with p by congruence.
    + specialize (Hall i q q' Hq1 Hq2). destruct (decide (i < length pre)%nat);
        [rewrite decide_True by lia|rewrite decide_False by lia]; done.
  - exists ps. split; [done|]. apply Forall2_same_length_lookup_2; [by rewrite length_imap|].
    intros i ip p' Hip Hp'. rewrite list_lookup_imap in Hip. apply fmap_Some in Hip as (p & Hp & ->).
    specialize (Hall i p p' Hp Hp'). rewrite decide_True in Hall; [done|]. rewrite length_seqZ. apply lookup_lt_Some in Hp. lia.
Qed.
End TableRestored.

(** ** The newest checkpoint *)
Module Newest.
Import Finished.
Section Newest.
Context {Args : Type}.
Variable info_bytes : CheckpointInfo -> cstr.
Variable info_parse : cstr -> option CheckpointInfo.
Variable args_bytes : Args -> cstr.
Variable args_parse : cstr -> option Args.
(** What the master saves, to plain files; the messages parse to themselves
    and are shorter than 2 GB. *)
Variables (info : CheckpointInfo) (params cp_vars : Args).
Hypothesis info_roundtrip : info_parse (info_bytes info) = Some info.
Hypothesis params_roundtrip : args_parse (args_bytes params) = Some params.
Hypothesis vars_roundtrip : args_parse (args_bytes cp_vars) = Some cp_vars.
Hypothesis messages_short : Forall (chunk_ok (W := LocalFile.t) (R := LocalFile.t)) [info_bytes info; args_bytes params; args_bytes cp_vars].

Lemma strip_prefix_app p s : strip_prefix p (p ++ s) = Some s.
Proof. unfold strip_prefix. by rewrite take_app_length, decide_True, drop_app_length. Qed.
Lemma take_while_app f s c t : Forall (fun c => f c = true) s -> f c = false -> take_while f (s ++ c :: t) = s.
Proof. induction 1 as [|x s Hx _ IH]; intros Hc; cbn; [by rewrite Hc|]. rewrite Hx. f_equal. auto. Qed.
Lemma take_while_all f s : Forall (fun c => f c = true) s -> take_while f s = s.
Proof. induction 1 as [|x s Hx _ IH]; [done|]. cbn. by rewrite Hx, IH. Qed.

Lemma digit_not_space c : isdigit c = true -> isspace c = false /\ c <> "-"%char /\ c <> "+"%char /\ c <> "/"%char /\ c <> "."%char.
Proof.
  intros Hc%isdigit_range. unfold isspace. split; [|split_and!; intros ->; by vm_compute in Hc; destruct Hc].
  destruct (Z.eqb_spec (uchar c) 32); [lia|]. destruct (Z.leb_spec (uchar c) 13); [lia|]. apply andb_false_r.
Qed.

(** An epoch of at most five digits is read back from the name of its mark. *)
Lemma scan_finished dir e : 0 <= e < 10 ^ 5 -> scan_epoch dir (finished_path dir e) = Some e.
Proof.
  intros He. destruct (show_05d_spec e He) as (Hl & Hd & Hp).
  unfold scan_epoch, finished_path, Restore.epoch_path. rewrite <- !app_assoc, (app_assoc dir), strip_prefix_app. cbn [mbind option_bind].
  destruct (show_05d e) as [|c s] eqn:E; [done|]. pose proof Hd as Hds. apply Forall_cons in Hd as [Hc Hd].
  destruct (digit_not_space c Hc) as (H1 & H2 & H3 & _). cbn [app drop_while]. rewrite H1. cbn [head].
  rewrite !bool_decide_false by congruence. cbn [orb].
  change (c :: s ++ lit "/checkpoint.finished") with ((c :: s) ++ lit "/checkpoint.finished").
  rewrite take_app_le by lia. rewrite take_ge by lia. rewrite take_while_all by done.
  rewrite decide_False by done. by rewrite Hp.
Qed.
Lemma matches_finished_path dir e : 0 <= e < 10 ^ 5 -> matches_finished dir (finished_path dir e) = true.
Proof.
  intros He. destruct (show_05d_spec e He) as (_ & Hd & _).
  unfold matches_finished, finished_path, Restore.epoch_path.
  change (lit "/epoch_") with (lit "/" ++ lit "epoch_"). rewrite <- !app_assoc, (app_assoc dir), strip_prefix_app.
  assert (find_char "/" (lit "epoch_" ++ show_05d e ++ lit "/checkpoint.finished") = Some (6 + length (show_05d e))%nat) as Ef.
  { assert (find_char "/" (show_05d e ++ lit "/checkpoint.finished") = Some (length (show_05d e))) as Es.
    { induction Hd as [|c s Hc _ IH]; [done|]. cbn [app find_char length].
      rewrite decide_False by (by apply digit_not_space). by rewrite IH. }
    revert Es. generalize (show_05d e ++ lit "/checkpoint.finished") as u. intros u Es.
    cbn [lit String.list_ascii_of_string app find_char]. repeat (rewrite decide_False by done). by rewrite Es. }
  rewrite Ef. apply andb_true_iff. split; [|done]. apply bool_decide_eq_true.
  rewrite <- drop_drop. change 6%nat with (length (lit "epoch_")). by rewrite !drop_app_length.
Qed.
Lemma finished_path_le dir e e' : 0 <= e < 10 ^ 5 -> 0 <= e' < 10 ^ 5 ->
  bytes_le (finished_path dir e) (finished_path dir e') -> e <= e'.
Proof.
  intros He He'. destruct (show_05d_spec e He) as (Hl & Hd & Hp). destruct (show_05d_spec e' He') as (Hl' & Hd' & Hp').
  unfold bytes_le, finished_path, Restore.epoch_path. rewrite <- !app_assoc, !bytes_leb_app. intros Hle.
  destruct (Z.le_gt_cases e e') as [|Hgt]; [done|exfalso]. revert Hle. apply not_true_iff_false.
  assert (bytes_leb (show_05d e) (show_05d e') = false) as Hb.
  { rewrite bytes_leb_digits by congruence. rewrite Hp, Hp'. by apply Z.leb_gt. }
  revert Hb. generalize (lit "/checkpoint.finished"). intros u. assert (length (show_05d e) = length (show_05d e')) as Hll by congruence.
  clear - Hll. revert Hll. generalize (show_05d e') as t. induction (show_05d e) as [|a s IH]; intros [|b t] Hll; try done.
  cbn [app bytes_leb]. destruct (uchar a =? uchar b); [|done]. by apply IH; injection Hll.
Qed.

Lemma mark_written path d :
  exists d' bytes, (rf ← RecordFile.write info_bytes LocalFile.open_w info;
                    rf ← RecordFile.write args_bytes rf params;
                    rf ← RecordFile.write args_bytes rf cp_vars;
                    LocalTable.close_file path rf d) = Ok d' /\
    d' = <[path := bytes]> (delete (Closing.tmp_path path) d) /\
    readable (W := LocalFile.t) (LocalFile.open_r bytes) (mjoin (chunk_bytes <$> [info_bytes info; args_bytes params; args_bytes cp_vars])).
Proof.
  assert (written (R := LocalFile.t) LocalFile.open_w []) as H0 by done. unfold RecordFile.write.
  pose proof messages_short as Hok. rewrite !Forall_cons in Hok. destruct Hok as (Ok1 & Ok2 & Ok3 & _).
  destruct (writeChunk_spec _ _ (info_bytes info) H0 Ok1) as (w1 & -> & H1). run.
  destruct (writeChunk_spec _ _ (args_bytes params) H1 Ok2) as (w2 & -> & H2). run.
  destruct (writeChunk_spec _ _ (args_bytes cp_vars) H2 Ok3) as (w3 & -> & H3). run.
  destruct (close_open w3 _ H3) as (bytes & r & Ec & Eo & Hr). unfold LocalTable.close_file. rewrite Ec. run.
  eexists _, bytes. split; [done|]. split; [done|]. injection Eo as ->. rewrite !fmap_cons, !mjoin_cons.
  cbn [fmap list_fmap mjoin list_join]. by rewrite app_nil_r; rewrite <- !app_assoc in Hr.
Qed.
Lemma read_message {M} (parse : cstr -> option M) bytes m (r : LocalFile.t) rest :
  parse bytes = Some m -> chunk_ok (W := LocalFile.t) (R := LocalFile.t) bytes -> readable (W := LocalFile.t) r (chunk_bytes bytes ++ rest) ->
  exists r', RecordFile.read parse r = Ok (r', Some m) /\ readable (W := LocalFile.t) r' rest.
Proof.
  intros Hp Hb Hr. destruct (readChunk_spec r bytes rest Hb Hr) as (r' & E & Hr'). unfold RecordFile.read.
  rewrite E. run. rewrite Hp. by exists r'.
Qed.
Lemma newest_match dir d path :
  matches_finished dir path = true -> is_Some (d !! path) ->
  (forall p, matches_finished dir p = true -> is_Some (d !! p) -> bytes_le path p -> p = path) ->
  last (MatchingFilenames dir d) = Some path.
Proof.
  intros Hm [b Hb] Hmax. unfold MatchingFilenames.
  set (l := filter (fun p => matches_finished dir p = true) (map_to_list d).*1).
  assert (forall p, p ∈ l -> matches_finished dir p = true /\ is_Some (d !! p)) as Hl.
  { intros p [Hp Hin]%list_elem_of_filter. split; [done|]. apply list_elem_of_fmap in Hin as ([q c] & -> & Hin).
    apply elem_of_map_to_list in Hin. by exists c. }
  assert (path ∈ merge_sort bytes_le l) as Hin.
  { rewrite merge_sort_Permutation. apply list_elem_of_filter. split; [done|]. apply list_elem_of_fmap. exists (path, b).
    split; [done|]. by apply elem_of_map_to_list. }
  destruct (last (merge_sort bytes_le l)) as [m|] eqn:E; [|by apply last_None in E; rewrite E in Hin; apply not_elem_of_nil in Hin].
  pose proof (last_Some_elem_of _ _ E) as Hmin. rewrite merge_sort_Permutation in Hmin. destruct (Hl m Hmin) as [Hmm Hms].
  f_equal. destruct (sorted_last (merge_sort bytes_le l) m path) as [|Hle]; [apply StronglySorted_merge_sort; apply _|done..|].
  by apply Hmax.
Qed.

(** C39. The newest finished checkpoint is found: after the master has marked a
    checkpoint as finished, with an epoch of at most five digits that no other
    mark exceeds, restoring assigns the shards, takes that epoch, and reads
    back the epochs, the parameters and the variables that were saved.  The
    directory is a plain name: without the characters that [glob] expands and
    without [%], which [sscanf] would interpret. *)
Theorem newest_restored dir d tables dead m m1 ms :
  let e := checkpoint_epoch info in
  0 <= e < 10 ^ 5 ->
  (forall p, matches_finished dir p = true -> is_Some (d !! p) ->
     exists e', p = finished_path dir e' /\ 0 <= e' < 10 ^ 5 /\ e' <= e) ->
  ensure_assigned tables dead m = Ok (m1, ms) ->
  exists d', write_finished info_bytes args_bytes dir info params cp_vars d = Ok d' /\
    restore info_parse args_parse tables dead true dir d' m =
      Ok (with_kernel_epoch m1 (kernel_epoch info), ms, Some (Restored e e params cp_vars)).
Proof.
  intros e He Hall Hm. unfold write_finished. fold e.
  destruct (mark_written (finished_path dir e) (LocalTable.open_file (finished_path dir e) d))
    as (d' & bytes & -> & Ed & Hr). exists d'. split; [done|].
  unfold restore. cbn [negb]. rewrite Hm. run. rewrite (newest_match dir d' (finished_path dir e)).
  - rewrite scan_finished by done. cbn [CHECK_some]. run. unfold LocalTable.open_existing. rewrite Ed, lookup_insert_eq. run.
    rewrite !fmap_cons, !mjoin_cons in Hr. cbn [fr_open LocalFile_ops]. run.
    rewrite !Forall_cons in messages_short. destruct messages_short as (S1 & S2 & S3 & _).
    destruct (read_message info_parse _ info _ _ info_roundtrip S1 Hr) as (r1 & -> & H1). run. cbn [CHECK_some]. run.
    destruct (read_message args_parse _ params _ _ params_roundtrip S2 H1) as (r2 & -> & H2). run. cbn [CHECK_some]. run.
    destruct (read_message args_parse _ cp_vars _ _ vars_roundtrip S3 H2) as (r3 & -> & H3). run. cbn [CHECK_some]. by run.
  - by apply matches_finished_path.
  - rewrite Ed, lookup_insert_eq. by eexists.
  - intros p Hmt Hs Hle. destruct (decide (p = finished_path dir e)) as [|Hne]; [done|].
    rewrite Ed, lookup_insert_ne in Hs by done.
    destruct (Hall p Hmt) as (e' & -> & He' & Hee).
    + destruct Hs as [b Hb]. apply lookup_delete_Some in Hb as [Hnt Hb]. unfold LocalTable.open_file in Hb.
      rewrite lookup_insert_ne in Hb by done. by exists b.
    + pose proof (finished_path_le dir e e' He He' Hle). f_equal. lia.
Qed.
End Newest.
End Newest.

(** ** Witnesses on the sample kernel, with plain files *)
Section Sample.
Import LocalTable.
(** Adjacency lists as the bytes of their elements. *)
Fixpoint longs (fuel : nat) (s : cstr) : outcome (list Z) :=
  match fuel, s with
  | _, [] => Ok []
  | O, _ => OutOfFuel
  | S fuel, _ => x ← unmarshal (T := Z) s; l ← longs fuel (drop 8 s); Ok (x :: l)
  end.
#[local] Instance Marshal_longs : Marshal (list Z) := {
  marshal l := mjoin ((fun x : Z => marshal x) <$> l);
  unmarshal s := longs (length s) s
}.
#[local] Instance MarshalLaws_longs : MarshalLaws (list Z).
Proof.
  refine {| representable l := Forall (fun x : Z => representable x) l |}. intros l Hl. cbn [marshal unmarshal Marshal_longs].
  assert (forall fuel l, Forall (fun x : Z => representable x) l -> (length (mjoin ((fun x : Z => marshal x) <$> l)) <= fuel)%nat ->
    longs fuel (mjoin ((fun x : Z => marshal x) <$> l)) = Ok l) as Hall; [|by apply Hall].
  clear. induction fuel as [|fuel IH]; intros [|x l] Hl Hf; try done.
  - rewrite fmap_cons, mjoin_cons, length_app in Hf. cbn in Hf. lia.
  - apply Forall_cons in Hl as [Hx Hl]. rewrite fmap_cons, mjoin_cons in *.
    assert (unmarshal (T := Z) (marshal x ++ mjoin ((fun x : Z => marshal x) <$> l)) = Ok x) as E.
    { pose proof (unmarshal_marshal x Hx) as Ex. cbn [unmarshal Marshal_long marshal] in *.
      rewrite decide_True in Ex by (by rewrite length_le_bytes).
      rewrite decide_True by (rewrite length_app, length_le_bytes; lia). rewrite take_app_le by (rewrite length_le_bytes; lia). done. }
    assert (longs fuel (mjoin ((fun x : Z => marshal x) <$> l)) = Ok l) as El.
    { apply IH; [done|]. rewrite length_app in Hf. change (length (marshal x)) with 8%nat in Hf. lia. }
    destruct (marshal x ++ mjoin ((fun x : Z => marshal x) <$> l)) as [|c s] eqn:Es; [done|]. cbn [longs]. rewrite E. run.
    assert (drop 8 (c :: s) = mjoin ((fun x : Z => marshal x) <$> l)) as ->; [|by rewrite El].
    rewrite <- Es, drop_app_le by (cbn; lia). by rewrite drop_ge by (cbn; lia).
Defined.

Definition sample_path : cstr := lit "cp".
Definition entries_file (es : list entry) : cstr := mjoin (entry_bytes <$> es).
Lemma file_holds (d : disk) path es : d !! path = Some (entries_file es) -> holds (W := LocalFile.t) d path es.
Proof. intros Hd. eexists _, _. split; [exact Hd|]. split; [reflexivity|]. apply drop_0. Qed.

Definition sample_puts : list (Z * Z) := [(4, 1); (5, 2)].
Definition one_bucket : DeltaTable.t Z Z := Eval vm_compute in
  match DeltaTable.create (K := Z) (V := Z) 2 1 with Ok tb => tb | _ => DeltaTable.mk [] 0 0 end.
Lemma sample_rows_fit : map_Forall (fun k v => row_fits (k, v)) (DeltaTable.contents DeltaTable.pair_table).
Proof.
  intros k v Hk. apply elem_of_list_to_map_2 in Hk.
  repeat (apply elem_of_cons in Hk as [[= -> ->]|Hk]; [by repeat split|]). by apply not_elem_of_nil in Hk.
Qed.
Lemma delta_checkpoint_restores_witness :
  exists d' tb', ('(df, d) ← start_checkpoint LocalFile.open_w sample_path DeltaTable.pair_table ∅;
                  df ← write_delta df ((fun x => (marshal x.1, marshal x.2)) <$> sample_puts);
                  finish_checkpoint df d) = Ok (None, d') /\
    restore (W := LocalFile.t) 5 sample_path d' one_bucket = Ok tb' /\ DeltaTable.wf tb' /\
    DeltaTable.contents tb' !! 4 = Some 1 /\ DeltaTable.contents tb' !! 9 = Some 2.
Proof.
  destruct (delta_checkpoint_restores LocalFile.open_w sample_path DeltaTable.pair_table one_bucket ∅ sample_puts 5)
    as (d' & tb' & E & Er & Hw & Hc).
  - by split.
  - exact DeltaTable.pair_table_wf.
  - exact sample_rows_fit.
  - by repeat constructor.
  - apply DeltaTable.wfb_sound. vm_compute. reflexivity.
  - vm_compute. reflexivity.
  - reflexivity.
  - vm_compute. reflexivity.
  - cbn. lia.
  - exists d', tb'. split; [exact E|]. split; [exact Er|]. split; [exact Hw|]. rewrite Hc. split; vm_compute; reflexivity.
Defined.

Definition sample_record : ClutterRecord Z Z (list Z) := Build_ClutterRecord 4 2 3 [7; 8].
Lemma sample_record_fits : record_fits sample_record.
Proof. by repeat constructor. Qed.
Definition sample_disk (log : list entry) : disk :=
  <[sample_path := entries_file [state_entry sample_record]]> {[ delta_path sample_path := entries_file log ]}.
Lemma state_restores_witness :
  exists tb', restore (W := LocalFile.t) 3 sample_path (sample_disk [state_entry sample_record]) StateTable.blank3 = Ok tb' /\
    StateTable.wf tb' /\ StateTable.v1 <$> StateTable.contents tb' !! 4 = Some 2.
Proof.
  destruct (state_restores (W := LocalFile.t) 3 sample_path (sample_disk [state_entry sample_record]) StateTable.blank3
    [sample_record] [sample_record]) as (tb' & E & Hw & Hc).
  - apply file_holds. vm_compute. reflexivity.
  - apply file_holds. vm_compute. reflexivity.
  - repeat constructor; apply sample_record_fits.
  - exact StateTable.blank3_wf.
  - vm_compute. discriminate.
  - cbn. lia.
  - cbn. lia.
  - exists tb'. split; [exact E|]. split; [exact Hw|]. rewrite Hc. vm_compute. reflexivity.
Defined.
Lemma delta_log_undefined_witness :
  restore (W := LocalFile.t) 3 sample_path (sample_disk [log_entry (marshal 4, marshal 1)]) StateTable.blank3 = Undefined.
Proof.
  apply (delta_log_undefined (W := LocalFile.t) 3 sample_path _ StateTable.blank3 [sample_record] 4 1 []).
  - reflexivity.
  - apply file_holds. vm_compute. reflexivity.
  - apply file_holds. vm_compute. reflexivity.
  - repeat constructor; apply sample_record_fits.
  - by repeat constructor.
  - exact StateTable.blank3_wf.
  - vm_compute. discriminate.
  - cbn. lia.
  - cbn. lia.
Defined.

Definition shard0 : cstr := Eval vm_compute in Restore.shard_path sample_path 0 2.
Definition worker_disk : disk :=
  <[shard0 := entries_file [state_entry sample_record]]> {[ delta_path shard0 := [] ]}.
(** The first sample worker with an empty state table of three buckets. *)
Definition roomy_worker : GlobalTable.t (K := Z) (V := Z) (D := list Z) :=
  GlobalTable.set_partitions Cluster.worker0 (<[0%nat := GlobalTable.State StateTable.blank3]> (GlobalTable.partitions_ Cluster.worker0)).
Lemma roomy_worker_wf : GlobalTable.wf Cluster.sample_owners 0 roomy_worker.
Proof.
  destruct Cluster.sample_wf as [Hw _]. destruct (Hw 0%nat _ eq_refl) as [[] _]. split; try done.
  intros [|i] p Hp; [|by apply (wf_part (S i) p)]. injection Hp as <-. split; [done|]. split; [exact StateTable.blank3_wf|].
  intros k [c Hc]. by vm_compute in Hc.
Qed.
Lemma table_restored_witness :
  exists ps, Restore.restore (W := LocalFile.t) 3 sample_path worker_disk roomy_worker = Ok (GlobalTable.set_partitions roomy_worker ps) /\
    length ps = 2%nat.
Proof.
  destruct (table_restored (W := LocalFile.t) sample_path worker_disk 3 (fun _ => [sample_record]) 2 Cluster.sample_owners 0 roomy_worker)
    as (ps & E & Hps).
  - exact roomy_worker_wf.
  - reflexivity.
  - intros [|[|i]] p Hp; [|by injection Hp as <-|done]. injection Hp as <-. split_and!.
    + apply file_holds. vm_compute. reflexivity.
    + apply file_holds. vm_compute. reflexivity.
    + repeat constructor; apply sample_record_fits.
    + cbn. lia.
    + vm_compute. discriminate.
  - exists ps. split; [exact E|]. apply Forall2_length in Hps. rewrite <- Hps. reflexivity.
Defined.

(** Messages as numbers of eight bytes. *)
Definition sample_info_bytes (i : Finished.CheckpointInfo) : cstr :=
  marshal [Finished.checkpoint_epoch i; Finished.kernel_epoch i].
Definition sample_info_parse (s : cstr) : option Finished.CheckpointInfo :=
  match unmarshal (T := list Z) s with
  | Ok [a; b] => Some {| Finished.checkpoint_epoch := a; Finished.kernel_epoch := b |}
  | _ => None
  end.
Definition sample_args_parse (s : cstr) : option (list Z) :=
  match unmarshal s with Ok l => Some l | _ => None end.
Definition sample_info : Finished.CheckpointInfo := {| Finished.checkpoint_epoch := 12; Finished.kernel_epoch := 3 |}.
Definition older_marks : disk := {[ Finished.finished_path (lit "ck") 9 := [] ]}.
Lemma newest_restored_witness :
  exists m1 ms d', Finished.ensure_assigned [(0, 6)] ∅ Master.fresh_master = Ok (m1, ms) /\
    Finished.write_finished sample_info_bytes marshal (lit "ck") sample_info [1; 2] [3] older_marks = Ok d' /\
    Finished.restore sample_info_parse sample_args_parse [(0, 6)] ∅ true (lit "ck") d' Master.fresh_master =
      Ok (Finished.with_kernel_epoch m1 3, ms, Some (Finished.Restored 12 12 [1; 2] [3])).
Proof.
  assert (exists m1 ms, Finished.ensure_assigned [(0, 6)] ∅ Master.fresh_master = Ok (m1, ms)) as (m1 & ms & E)
    by (eexists _, _; vm_compute; reflexivity).
  exists m1, ms.
  destruct (Newest.newest_restored sample_info_bytes sample_info_parse marshal sample_args_parse sample_info [1; 2] [3]
    ltac:(vm_compute; reflexivity) ltac:(vm_compute; reflexivity) ltac:(vm_compute; reflexivity)
    ltac:(by repeat constructor) (lit "ck") older_marks [(0, 6)] ∅ Master.fresh_master m1 ms)
    as (d' & Ed & Er).
  - by split.
  - intros p Hm [b Hb]. unfold older_marks in Hb. apply lookup_singleton_Some in Hb as [<- _]. by exists 9.
  - exact E.
  - exists d'. split; [exact E|]. split; [exact Ed|exact Er].
Defined.
End Sample.
