(* ===== verification/Registry.v ===== *)
(** * Registries and dispatch: kernel/kernel.h, kernel/kernel.cc,
    kernel/table-registry.h, and the kernel objects of worker/worker.cc

    Kernels are registered by name with their methods; the master checks a
    request against the registry before it sends it, and the worker looks the
    kernel up, keeps one object per kernel, table and shard, and runs the
    method on it.  The file also holds the registry of tables and the iterator
    service of a worker. *)
From S2P Require Import Prelude Float StringPiece Probe Table SampleKernel StateTable Cluster Cache FlatStore Maiter.

Module Registry.
Section Registry.
(** [U] are the fields of the kernel classes, [S] the rest of the program that
    their methods change, [T] the values of the arguments. *)
Context {U S T : Type} `{!Marshal T}.
#[local] Abbreviation args := (MarshalledMap.t (T := T)).

(** [DSMKernel]: the private fields and those of the class. *)
Record DSMKernel := Kernel { table_id_ : Z; shard_ : Z; args_ : args; maiter : option Z; user : U }.
(** A method is given the object and may change the fields of its class and
    read its arguments; [table_id_] and [shard_] are private to [DSMKernel]. *)
Abbreviation Method := (DSMKernel -> S -> outcome (args * U * S)).
(** [KernelInfoT]; [ki_maiter] is the pointer to the [MaiterKernel], [create]
    the constructor of the class. *)
Record KernelInfo := Info { ki_name : cstr; ki_maiter : Z; ki_create : U; methods_ : gmap cstr Method }.

(** [KernelRegistry]: a map to pointers; [kernel(name)] is [m_[name]], which
    enters a null pointer for an unknown name. *)
Abbreviation registry := (gmap cstr (option KernelInfo)).
Definition kernel (r : registry) (name : cstr) : registry * option KernelInfo :=
  match r !! name with
  | Some p => (r, p)
  | None => (<[name := None]> r, None)
  end.
Definition has_method (k : KernelInfo) (name : cstr) : bool := bool_decide (is_Some (methods_ k !! name)).

(** The constructors of the two registration helpers. *)
Definition KernelRegistrationHelper (name : cstr) (create : U) (m : Z) (r : registry) : outcome registry :=
  _ ← CHECK (bool_decide (r !! name = None));
  Ok (<[name := Some (Info name m create ∅)]> r).
Definition MethodRegistrationHelper (klass mname : cstr) (f : Method) (r : registry) : outcome registry :=
  let '(r, k) := kernel r klass in
  k ← deref k;
  Ok (<[klass := Some (Info (ki_name k) (ki_maiter k) (ki_create k) (<[mname := f]> (methods_ k)))]> r).

(** [MaiterKernel::registerMaiter] for the object [m], after the table was
    created: the first kernel always, the second with an iteration kernel, the
    third with a termination checker. *)
Definition register (name mname : cstr) (create : U) (f : Method) (m : Z) (r : registry) : outcome registry :=
  r ← KernelRegistrationHelper name create m r; MethodRegistrationHelper name mname f r.
Definition registerMaiter (u1 u2 u3 : U) (run1 map2 run3 : Method) (iterkernel termchecker : bool) (m : Z)
    (r : registry) : outcome registry :=
  r ← register (lit "MaiterKernel1") (lit "run") u1 run1 m r;
  r ← (if iterkernel then register (lit "MaiterKernel2") (lit "map") u2 map2 m r else Ok r);
  if termchecker then register (lit "MaiterKernel3") (lit "run") u3 run3 m r else Ok r.

(** The checks of [Master::run]. *)
Definition check_kernel (r : registry) (kname method : cstr) : outcome registry :=
  let '(r, k) := kernel r kname in
  k ← match k with Some k => Ok k | None => Fatal end;
  _ ← CHECK (has_method k method);
  Ok r.

(** ** The worker's kernel objects *)
Definition KernelId : Type := cstr * Z * Z.
(** [CMP_LESS] on the three members, [std::string] compared by its bytes. *)
Fixpoint string_less (a b : cstr) : bool :=
  match a, b with
  | _, [] => false
  | [], _ :: _ => true
  | x :: a, y :: b => if uchar x =? uchar y then string_less a b else uchar x <? uchar y
  end.
Definition KernelId_less (a b : KernelId) : bool :=
  if string_less a.1.1 b.1.1 then true else if string_less b.1.1 a.1.1 then false
  else if a.1.2 <? b.1.2 then true else if b.1.2 <? a.1.2 then false
  else if a.2 <? b.2 then true else if b.2 <? a.2 then false else false.

Record KernelRequest := Request { kr_kernel : cstr; kr_method : cstr; kr_table : Z; kr_shard : Z; kr_args : list Arg }.
Definition request_id (q : KernelRequest) : KernelId := (kr_kernel q, kr_table q, kr_shard q).
Record state := State { reg : registry; kernels_ : gmap KernelId DSMKernel; rest : S }.

(** [initialize_internal] and the default [InitKernel]. *)
Definition initialize_internal (u : U) (table shard : Z) : DSMKernel :=
  Kernel table shard MarshalledMap.create None u.
Definition set_args (d : DSMKernel) (a : args) : DSMKernel := Kernel (table_id_ d) (shard_ d) a (maiter d) (user d).
Definition set_maiter (d : DSMKernel) (m : Z) : DSMKernel := Kernel (table_id_ d) (shard_ d) (args_ d) (Some m) (user d).

(** [KernelInfoT::Run]: [methods_[method_id]] of an unknown method is a null
    pointer, and the empty [boost::function] throws. *)
Definition Run (k : KernelInfo) (method : cstr) (d : DSMKernel) (s : S) : outcome (DSMKernel * S) :=
  let d := set_maiter d (ki_maiter k) in
  f ← match methods_ k !! method with Some f => Ok f | None => Throw end;
  '(a, u, s) ← f d s;
  Ok (Kernel (table_id_ d) (shard_ d) a (maiter d) u, s).
(** The part of [Worker::KernelLoop] that finds the object and runs it; a null
    [helper] is dereferenced. *)
Definition find_kernel (st : state) (q : KernelRequest) : outcome (registry * KernelInfo * DSMKernel) :=
  let '(r, helper) := kernel (reg st) (kr_kernel q) in
  d ← match kernels_ st !! request_id q with
      | Some d => Ok d
      | None => h ← deref helper; Ok (initialize_internal (ki_create h) (kr_table q) (kr_shard q))
      end;
  h ← deref helper;
  Ok (r, h, d).
Definition run_request (st : state) (q : KernelRequest) : outcome state :=
  '(r, h, d) ← find_kernel st q;
  let d := set_args d (MarshalledMap.FromMessage MarshalledMap.create (kr_args q)) in
  '(d, s) ← Run h (kr_method q) d (rest st);
  Ok (State r (<[request_id q := d]> (kernels_ st)) s).
Definition run_requests (qs : list KernelRequest) (st : state) : outcome state := for_each run_request qs st.

(** [RunnerRegistrationHelper] and [CreateTable] use [map::insert], which keeps
    what is there. *)
Definition map_insert {K A} `{Countable K} (m : gmap K A) (k : K) (x : A) : gmap K A :=
  match m !! k with Some _ => m | None => <[k := x]> m end.
Definition register_runner {A} (runners : gmap cstr A) (name : cstr) (f : A) : gmap cstr A := map_insert runners name f.
(** [CreateTable] returns the new table and enters it in [TableRegistry];
    [table(id)] checks that there is one. *)
Definition CreateTable {A} (tables : gmap Z A) (id : Z) (t : A) : gmap Z A * A := (map_insert tables id t, t).
Definition table {A} (tables : gmap Z A) (id : Z) : outcome A :=
  match tables !! id with Some t => Ok t | None => Fatal end.

(** ** Lemmas *)
Lemma register_spec name mname create f m r : r !! name = None ->
  register name mname create f m r = Ok (<[name := Some (Info name m create {[ mname := f ]})]> r).
Proof.
  intros Hr. unfold register, KernelRegistrationHelper. rewrite bool_decide_eq_true_2 by done. run.
  unfold MethodRegistrationHelper, kernel. rewrite lookup_insert_eq. run. by rewrite insert_insert_eq.
Qed.
Lemma check_kernel_Ok r kname method r' : check_kernel r kname method = Ok r' ->
  r' = r /\ exists k f, r !! kname = Some (Some k) /\ methods_ k !! method = Some f.
Proof.
  unfold check_kernel, kernel. destruct (r !! kname) as [[k|]|] eqn:E; run; try done.
  unfold has_method. case_bool_decide as Hm; run; [|done]. destruct Hm as [f Hf]. intros [= <-]. split; [done|]. by exists k, f.
Qed.

(** The object that a request finds, before it runs. *)
Definition object_for (st : state) (k : KernelInfo) (q : KernelRequest) : DSMKernel :=
  set_maiter (set_args (default (initialize_internal (ki_create k) (kr_table q) (kr_shard q)) (kernels_ st !! request_id q))
    (MarshalledMap.FromMessage MarshalledMap.create (kr_args q))) (ki_maiter k).

(** A request that the master accepts runs at the worker: when the checks of
    [Master::run] pass, a worker with the same registry neither dereferences a
    null kernel nor calls an unknown method; it runs the registered method on
    the object of that kernel, table and shard, a new one if there is none,
    with the arguments of the request. *)
Theorem accepted_requests_run st q r :
  check_kernel (reg st) (kr_kernel q) (kr_method q) = Ok r ->
  exists k f, reg st !! kr_kernel q = Some (Some k) /\ methods_ k !! kr_method q = Some f /\
    let d := object_for st k q in
    run_request st q = '(a, u, s) ← f d (rest st);
      Ok (State (reg st) (<[request_id q := Kernel (table_id_ d) (shard_ d) a (Some (ki_maiter k)) u]> (kernels_ st)) s).
Proof.
  intros (-> & k & f & Hk & Hf)%check_kernel_Ok. exists k, f. split_and!; [done..|].
  unfold run_request, find_kernel, kernel, object_for. rewrite Hk.
  destruct (kernels_ st !! request_id q); run; cbn [default from_option id]; unfold Run; rewrite Hf; run;
    by match goal with |- context [f ?d ?s] => destruct (f d s) as [[[a u] s']| | | |] end.
Qed.

(** Registering a job on an empty registry succeeds, and the master then
    accepts exactly the methods of the kernels that were registered: the second
    kernel only with an iteration kernel, the third only with a termination
    checker. *)
Theorem registered_methods u1 u2 u3 run1 map2 run3 ik tc m :
  exists r, registerMaiter u1 u2 u3 run1 map2 run3 ik tc m ∅ = Ok r /\
    forall kname method, check_kernel r kname method = Ok r <->
      (kname, method) = (lit "MaiterKernel1", lit "run") \/
      ik = true /\ (kname, method) = (lit "MaiterKernel2", lit "map") \/
      tc = true /\ (kname, method) = (lit "MaiterKernel3", lit "run").
Proof.
  unfold registerMaiter. rewrite register_spec by done. run.
  set (r1 := <[lit "MaiterKernel1" := _]> _).
  assert (exists r2, (if ik then register (lit "MaiterKernel2") (lit "map") u2 map2 m r1 else Ok r1) = Ok r2 /\
    r2 = (if ik then <[lit "MaiterKernel2" := Some (Info (lit "MaiterKernel2") m u2 {[ lit "map" := map2 ]})]> r1 else r1))
    as (r2 & -> & Er2) by (destruct ik; [rewrite register_spec by done|]; by eexists). run.
  assert (exists r3, (if tc then register (lit "MaiterKernel3") (lit "run") u3 run3 m r2 else Ok r2) = Ok r3 /\
    r3 = (if tc then <[lit "MaiterKernel3" := Some (Info (lit "MaiterKernel3") m u3 {[ lit "run" := run3 ]})]> r2 else r2))
    as (r3 & -> & Er3) by (destruct tc; [rewrite register_spec by (subst; by destruct ik)|]; by eexists).
  exists r3. split; [done|]. intros kname method.
  assert (check_kernel r3 kname method = Ok r3 <-> exists k f, r3 !! kname = Some (Some k) /\ methods_ k !! method = Some f) as ->.
  { split; [by intros (_ & ?)%check_kernel_Ok|]. intros (k & f & Hk & Hf). unfold check_kernel, kernel. rewrite Hk. run.
    unfold has_method. rewrite bool_decide_eq_true_2 by (by exists f). by run. }
  subst r3 r2 r1. destruct ik, tc; split.
  all: repeat match goal with
    | |- (exists k f, _) -> _ => intros (k & f & Hk & Hf)
    | H : _ !! _ = Some (Some _) |- _ => apply lookup_insert_Some in H as [[<- [= <-]]|[_ H]]
    | H : methods_ _ !! _ = Some _ |- _ => cbn [methods_] in H; apply lookup_singleton_Some in H as [<- _]
    end; try by (exfalso; by rewrite lookup_empty in Hk).
  all: try (intros [[= -> ->]|[[? [= -> ->]]|[? [= -> ->]]]]; try done; eexists _, _; split; [by vm_compute|by vm_compute]).
  all: naive_solver.
Qed.

(** Every object knows the table and the shard it was created for. *)
Definition objects_ok (st : state) : Prop := forall i d, kernels_ st !! i = Some d -> table_id_ d = i.1.2 /\ shard_ d = i.2.
Lemma run_request_objects st q st' : objects_ok st -> run_request st q = Ok st' ->
  objects_ok st' /\ dom (kernels_ st') = {[request_id q]} ∪ dom (kernels_ st).
Proof.
  intros Hok. unfold run_request. intros E. apply bind_Ok in E as ([[r h] d] & Ef & E).
  unfold find_kernel in Ef. destruct (kernel (reg st) (kr_kernel q)) as [r0 helper].
  apply bind_Ok in Ef as (d0 & Ed & Ef). apply bind_Ok in Ef as (h0 & _ & [= -> -> ->]).
  assert (table_id_ d = (request_id q).1.2 /\ shard_ d = (request_id q).2) as Hd.
  { destruct (kernels_ st !! request_id q) as [d'|] eqn:E'; [injection Ed as <-; by apply Hok|].
    apply bind_Ok in Ed as (h1 & _ & [= <-]). done. }
  apply bind_Ok in E as ([d' s] & Er & [= <-]). cbn [kernels_]. split; [|by rewrite dom_insert_L].
  intros i x Hx. cbn [kernels_] in Hx. apply lookup_insert_Some in Hx as [[<- <-]|[_ Hx]]; [|by apply Hok].
  unfold Run in Er. apply bind_Ok in Er as (f & _ & Er). apply bind_Ok in Er as ([[a u] s'] & _ & [= <- <-]). exact Hd.
Qed.

(** Whatever requests a worker has run, it has exactly one object for every
    kernel, table and shard that was requested and none for others, and each
    object still has the table and the shard it was created for. *)
Theorem kernel_objects qs r s st :
  run_requests qs (State r ∅ s) = Ok st ->
  dom (kernels_ st) = list_to_set (request_id <$> qs) /\ objects_ok st.
Proof.
  cut (forall st0, objects_ok st0 -> run_requests qs st0 = Ok st ->
    dom (kernels_ st) = dom (kernels_ st0) ∪ list_to_set (request_id <$> qs) /\ objects_ok st).
  { intros Hc E. destruct (Hc (State r ∅ s)) as [Hd Hok]; [|done|].
    { intros i d Hx. cbn [kernels_] in Hx. by apply lookup_empty_Some in Hx. }
    split; [|done]. rewrite Hd. cbn [kernels_]. set_solver. }
  unfold run_requests. induction qs as [|q qs IH]; intros st0 Hok E; cbn [for_each] in E.
  - injection E as <-. split; [set_solver|done].
  - apply bind_Ok in E as (st1 & E1 & E). destruct (run_request_objects st0 q st1 Hok E1) as [Hok1 Hd1].
    destruct (IH st1 Hok1 E) as [Hd Hok']. split; [|done]. rewrite Hd, Hd1, fmap_cons. set_solver.
Qed.

(** An unknown name that was looked up cannot be registered any more. *)
Lemma lookup_blocks_registration r name create m : r !! name = None ->
  KernelRegistrationHelper name create m (kernel r name).1 = Fatal.
Proof.
  intros Hr. unfold kernel. rewrite Hr. unfold KernelRegistrationHelper. cbn [fst].
  by rewrite lookup_insert_eq, bool_decide_eq_false_2.
Qed.

(** A second table with the same number is returned but not registered. *)
Lemma second_table_unregistered {A} (tables : gmap Z A) id t1 t2 : tables !! id = None ->
  let '(tables, _) := CreateTable tables id t1 in
  let '(tables, t) := CreateTable tables id t2 in
  t = t2 /\ table tables id = Ok t1.
Proof.
  intros Ht. unfold CreateTable, map_insert, table. rewrite Ht. cbn. rewrite lookup_insert_eq.
  split; [done|]. by rewrite lookup_insert_eq.
Qed.

(** ** The order of kernel ids *)
Lemma string_less_irrefl a : string_less a a = false.
Proof. induction a as [|x a IH]; [done|]. cbn. by rewrite Z.eqb_refl. Qed.
Lemma string_less_total a : forall b, string_less a b = false -> string_less b a = false -> a = b.
Proof.
  induction a as [|x a IH]; intros [|y b]; cbn; try done. rewrite (Z.eqb_sym (uchar y)).
  destruct (Z.eqb_spec (uchar x) (uchar y)) as [E|Hne].
  - intros H1 H2. f_equal; [|by apply IH]. unfold uchar in E. apply N2Z.inj in E.
    by rewrite <- (ascii_N_embedding x), <- (ascii_N_embedding y), E.
  - rewrite !Z.ltb_ge. lia.
Qed.
Lemma string_less_trans a : forall b c, string_less a b = true -> string_less b c = true -> string_less a c = true.
Proof.
  induction a as [|x a IH]; intros [|y b] [|z c]; cbn; try done.
  destruct (Z.eqb_spec (uchar x) (uchar y)) as [Exy|]; destruct (Z.eqb_spec (uchar y) (uchar z)) as [Eyz|];
    destruct (Z.eqb_spec (uchar x) (uchar z)); rewrite ?Z.ltb_lt; try lia; eauto.
Qed.

(** [KernelId::operator<] is a strict total order, as [std::map] requires,
    and two ids that are not ordered are the same kernel, table and shard. *)
Theorem kernel_id_order :
  (forall a, KernelId_less a a = false) /\
  (forall a b c, KernelId_less a b = true -> KernelId_less b c = true -> KernelId_less a c = true) /\
  (forall a b, KernelId_less a b = false -> KernelId_less b a = false -> a = b).
Proof.
  assert (forall a b, KernelId_less a b = true <-> string_less a.1.1 b.1.1 = true \/
    a.1.1 = b.1.1 /\ (a.1.2 < b.1.2 \/ a.1.2 = b.1.2 /\ a.2 < b.2)) as Hl.
  { intros [[k t] s] [[k' t'] s']. unfold KernelId_less. cbn [fst snd].
    destruct (string_less k k') eqn:E1; [by split; auto|]. destruct (string_less k' k) eqn:E2.
    - split; [done|]. intros [|[-> _]]; [done|]. by rewrite string_less_irrefl in E2.
    - apply string_less_total in E1; [|done]. subst k'.
      assert (false = true \/ k = k /\ (t < t' \/ t = t' /\ s < s') <-> t < t' \/ t = t' /\ s < s') as -> by (clear; intuition done).
      destruct (Z.ltb_spec t t'); [lia|]. destruct (Z.ltb_spec t' t); [lia|].
      destruct (Z.ltb_spec s s'); [lia|]. destruct (Z.ltb_spec s' s); lia. }
  split_and!.
  - intros a. apply not_true_iff_false. rewrite Hl, string_less_irrefl. intros [|[_ Hc]]; [done|lia].
  - intros a b c. rewrite !Hl. intros [H1|[E1 H1]] [H2|[E2 H2]].
    + left. by eapply string_less_trans.
    + left. by rewrite <- E2.
    + left. by rewrite E1.
    + right. split; [congruence|lia].
  - intros [[k t] s] [[k' t'] s'] H1%not_true_iff_false H2%not_true_iff_false. rewrite Hl in H1, H2. cbn [fst snd] in *.
    assert (k = k') as -> by (apply string_less_total; apply not_true_iff_false; tauto).
    assert (~ (t < t' \/ t = t' /\ s < s')) by (intros ?; apply H1; by right).
    assert (~ (t' < t \/ t' = t /\ s' < s)) by (intros ?; apply H2; by right).
    assert (t = t' /\ s = s') as [-> ->] by lia. done.
Qed.
End Registry.
End Registry.

(** ** The iterator service of a worker

    [Worker::HandleIteratorRequest] for a state table: request -1 opens an
    iterator, others continue one; up to [row_count] rows are returned. *)
Module IteratorService.
Section IteratorService.
Context {K V D : Type} `{Countable K} `{!Hashable K}.
Context `{!ValueInit K} `{!ValueInit V} `{!ValueInit D}.
Context `{!IterateKernel K V D} `{!Marshal K} `{!Marshal V}.
#[local] Abbreviation table := (StateTable.t K V D).

(** [Iterator] and [EntirePassIterator] walk over the buckets,
    [ScheduledIterator] over its positions; all start before the first. *)
Inductive cursor := OverRows (pos : Z) | OverPositions (scheduled_pos : list Z) (pos : Z).
Definition open_cursor (it : StateTable.TableIterator (K := K) (V := V) (D := D)) : option cursor :=
  match it with
  | StateTable.NoIterator => None
  | StateTable.RowIterator => Some (OverRows (-1))
  | StateTable.PositionIterator ps => Some (OverPositions ps (-1))
  | StateTable.EntireIterator e => Some (OverRows (StateTable.ep_pos e))
  end.
Definition done (tb : table) (c : cursor) : bool :=
  match c with
  | OverRows pos => pos + 1 =? StateTable.size_ tb
  | OverPositions ps pos => pos + 1 =? Z.of_nat (length ps)
  end.
Definition Next (tb : table) (c : cursor) : outcome cursor :=
  match c with
  | OverRows pos =>
    pos ← next_loop (StateTable.buckets_ tb) (StateTable.size_ tb) (S (length (StateTable.buckets_ tb))) pos;
    Ok (OverRows pos)
  | OverPositions ps pos => Ok (OverPositions ps (pos + 1))
  end.
Definition bucket_at (tb : table) (c : cursor) : outcome (bucket K (StateTable.cell V D)) :=
  match c with
  | OverRows pos => vec_at (StateTable.buckets_ tb) pos
  | OverPositions ps pos => p ← vec_at ps pos; vec_at (StateTable.buckets_ tb) p
  end.

(** The response object is the same for all calls: [last_done] is its [done]. *)
Record service := Service { iterator_id_ : Z; iterators_ : gmap Z (option cursor); last_done : bool }.
Record response := Response { resp_id : Z; resp_done : bool; resp_rows : list (cstr * cstr); row_count : Z }.

(** The loop from [i] to the requested number of rows. *)
Fixpoint fetch (n : nat) (tb : table) (c : cursor) (r : response) : outcome (cursor * response) :=
  match n with
  | O => Ok (c, r)
  | S n =>
    let r := Response (resp_id r) (done tb c) (resp_rows r) (row_count r) in
    if done tb c then Ok (c, r)
    else
      x ← bucket_at tb c;
      let r := Response (resp_id r) false (resp_rows r ++ [(marshal (bk x), marshal (StateTable.v1 (bval x)))]) (row_count r + 1) in
      c ← (if (0 <? n)%nat then Next tb c else Ok c);
      fetch n tb c r
  end.
(** [made] is what [get_iterator] returned, for a request that opens one.  A
    null iterator is dereferenced by [done]. *)
Definition HandleIteratorRequest (made : StateTable.TableIterator (K := K) (V := V) (D := D)) (tb : table)
    (id : Z) (rows : nat) (s : service) : outcome (service * response) :=
  if id =? -1 then
    let i := iterator_id_ s in
    let s := Service (to_uint32 (i + 1)) (<[i := open_cursor made]> (iterators_ s)) (last_done s) in
    if (rows =? 0)%nat then Ok (s, Response i (last_done s) [] 0)
    else
      c ← deref (open_cursor made);
      '(c, r) ← fetch rows tb c (Response i (last_done s) [] 0);
      Ok (Service (iterator_id_ s) (<[i := Some c]> (iterators_ s)) (resp_done r), r)
  else
    c ← match iterators_ s !! id with Some (Some c) => Ok c | _ => Fatal end;
    c ← Next tb c;
    '(c, r) ← fetch rows tb c (Response id (last_done s) [] 0);
    Ok (Service (iterator_id_ s) (<[id := Some c]> (iterators_ s)) (resp_done r), r).

(** The iterator service answers no opening request for rows: a new
    iterator stands before the first row, and the handler reads the row it
    stands on before it calls [Next], so that it reads outside the array of
    every table and outside every non-empty schedule. *)
Theorem iterator_request_undefined made (tb : table) rows s :
  match made with
  | StateTable.EntireIterator _ => False
  | StateTable.PositionIterator ps => ps <> []
  | _ => True
  end ->
  StateTable.wf tb -> (0 < rows)%nat -> HandleIteratorRequest made tb (-1) rows s = Undefined.
Proof.
  intros Hm Hwf Hr. unfold HandleIteratorRequest. cbn [Z.eqb]. change (-1 =? -1) with true. cbn match.
  destruct rows as [|rows]; [lia|]. cbn [Nat.eqb].
  pose proof (inv_pos _ (StateTable.wf_inv _ Hwf)) as Hpos. pose proof (StateTable.wf_size _ Hwf) as Hsz.
  destruct made as [| |ps|e]; cbn [open_cursor deref]; run; try done; cbn [fetch done bucket_at].
  - destruct (Z.eqb_spec (-1 + 1) (StateTable.size_ tb)); [lia|]. by run.
  - destruct ps as [|p ps]; [done|]. cbn [length]. destruct (Z.eqb_spec (-1 + 1) (Z.of_nat (S (length ps)))); [lia|]. by run.
Qed.
End IteratorService.
Lemma iterator_request_undefined_witness :
  HandleIteratorRequest StateTable.RowIterator StateTable.roomy3 (-1) 1 (Service 0 ∅ false) = Undefined.
Proof. apply iterator_request_undefined; [exact I|exact StateTable.roomy3_wf|lia]. Defined.
End IteratorService.

(** ** A job of three kernels whose methods count their calls *)
Section Sample.
Import Registry.
#[local] Abbreviation method := (DSMKernel (U := nat) (T := Z) -> Z -> outcome (MarshalledMap.t (T := Z) * nat * Z)).
Definition counting (n : Z) : method := fun d s => Ok (args_ d, Datatypes.S (user d), s + n).
Definition job : gmap cstr (option (KernelInfo (U := nat) (S := Z) (T := Z))) :=
  match registerMaiter (T := Z) 0%nat 0%nat 0%nat (counting 1) (counting 10) (counting 100) true true 7 ∅ with Ok r => r | _ => ∅ end.
Definition load_shard (i : Z) : KernelRequest := Request (lit "MaiterKernel1") (lit "run") 0 i [].
Lemma accepted_requests_run_witness :
  exists st, run_request (T := Z) (State job ∅ 5) (load_shard 2) = Ok st /\ rest st = 6.
Proof.
  destruct (accepted_requests_run (T := Z) (State job ∅ 5) (load_shard 2) job) as (k & f & Hk & Hf & E).
  - vm_compute. reflexivity.
  - assert (reg (State job (∅ : gmap KernelId (DSMKernel (U := nat) (T := Z))) 5) !! lit "MaiterKernel1" =
      Some (Some (Info (lit "MaiterKernel1") 7 0%nat {[ lit "run" := counting 1 ]}))) as Hj by (vm_compute; reflexivity).
    cbn [kr_kernel load_shard] in Hk. rewrite Hj in Hk. injection Hk as <-. cbn [methods_ kr_method load_shard] in Hf.
    apply lookup_singleton_Some in Hf as [_ <-]. eexists. split; [exact E|reflexivity].
Defined.
Lemma kernel_objects_witness :
  exists st, run_requests (T := Z) [load_shard 2; load_shard 3; load_shard 2] (State job ∅ 5) = Ok st /\
    dom (kernels_ st) = list_to_set (request_id <$> [load_shard 2; load_shard 3; load_shard 2]).
Proof.
  assert (exists st, run_requests (T := Z) [load_shard 2; load_shard 3; load_shard 2] (State job ∅ 5) = Ok st) as [st E]
    by (eexists; vm_compute; reflexivity).
  exists st. split; [exact E|]. exact (proj1 (kernel_objects (T := Z) _ _ _ st E)).
Defined.
End Sample.
