(* ===== verification/BitReader.v ===== *)
(** * Bits and codes of compressed graphs: external/webgraph/webgraph.cc

    The reader of WebGraph databases reads the decompressed bytes in blocks of
    4096, takes bits off a block by shifting its bytes, and decodes unary,
    fixed-width, gamma and zeta numbers.  zlib is outside: a file is the bytes
    that it decompresses to, and whether it is damaged after them. *)
From S2P Require Import Prelude.

Module BitReader.

(** ** Bytes *)

(** [gzFile]. *)
Record gzFile := { gz_bytes : list Z; gz_damaged : bool }.
(** [gzread]: as many bytes as there are, at most [size]; -1 at the damage. *)
Definition gzread (f : gzFile) (size : nat) : list Z * Z * gzFile :=
  match gz_bytes f with
  | [] => ([], if gz_damaged f then -1 else 0, f)
  | _ :: _ => (take size (gz_bytes f), Z.of_nat (length (take size (gz_bytes f))),
               {| gz_bytes := drop size (gz_bytes f); gz_damaged := gz_damaged f |})
  end.
(** [GZByteReader::read]: only a result of 0 before the end is an error. *)
Definition read (f : gzFile) (size : nat) : list Z * Z * gzFile := gzread f size.
(** [GZByteReader::getc]. *)
Definition getc (f : gzFile) : outcome (Z * gzFile) :=
  match gz_bytes f with
  | [] => if gz_damaged f then Throw else Ok (-1, f)
  | c :: l => Ok (c, {| gz_bytes := l; gz_damaged := gz_damaged f |})
  end.

(** ** Bits *)
Definition block : nat := 4096.
Record t := mk { src : gzFile; buf : list Z; bufBits : Z; bufBit : Z; eof : bool }.
Implicit Types r : t.
Definition BitReader_new (f : gzFile) : t := mk f (replicate block 0) 0 0 false.

Definition fillBuf r : t * bool :=
  if eof r then (r, false)
  else
    let '(data, len, f) := read (src r) block in
    let bits := to_uint32 (len * 8) in
    let e := bits =? 0 in
    (mk f (data ++ drop (length data) (buf r)) bits 0 e, negb e).
Definition readBit r : outcome (Z * t) :=
  let '(r, more) := if bufBit r =? bufBits r then fillBuf r else (r, true) in
  if more : bool then
    let x := bufBit r / 8 in
    b ← vec_at (buf r) x;
    bs ← vec_set (buf r) x (wrapu 8 (b * 2));
    Ok (Z.shiftr b 7, mk (src r) bs (bufBits r) (to_uint32 (bufBit r + 1)) (eof r))
  else Ok (0, r).

(** The bits that are left, an upper bound when the file is damaged. *)
Definition left_bits r : nat := Z.to_nat (bufBits r - bufBit r) + 8 * length (gz_bytes (src r)).

(** [while (!eof && !readBit()) ++res]: one turn for each bit and one at the
    end. *)
Fixpoint unary_loop (fuel : nat) r (res : Z) : outcome (Z * t) :=
  match fuel with
  | O => OutOfFuel
  | S fuel =>
    if eof r then Ok (res, r)
    else
      '(b, r) ← readBit r;
      if b =? 0 then unary_loop fuel r (to_uint32 (res + 1)) else Ok (res, r)
  end.
Definition readUnary r : outcome (Z * t) := unary_loop (S (S (left_bits r))) r 0.
Fixpoint fixed_loop (w : nat) r (res : Z) : outcome (Z * t) :=
  match w with
  | O => Ok (res, r)
  | S w =>
    let res := to_uint32 (res * 2) in
    '(b, r) ← readBit r;
    fixed_loop w r (Z.lor res b)
  end.
(** A negative width would count down for ever. *)
Definition readFixed r (w : Z) : outcome (Z * t) :=
  if w <? 0 then OutOfFuel else fixed_loop (Z.to_nat w) r 0.
(** [1 << n], an [int]. *)
Definition shift1 (n : Z) : outcome Z := if (0 <=? n) && (n <? 31) then Ok (2 ^ n) else Undefined.
Definition readSGamma r : outcome (Z * t) :=
  '(n, r) ← readUnary r;
  p ← shift1 n;
  '(v, r) ← readFixed r (to_int32 n);
  Ok (to_uint32 (Z.lor p v - 1), r).
Definition readZeta r (k : Z) : outcome (Z * t) :=
  _ ← CHECK (1 <=? k);
  '(h, r) ← readUnary r;
  left ← shift1 (to_uint32 (h * k));
  '(m, r) ← readFixed r (to_int32 (h * k + k - 1));
  if m <? left then Ok (to_uint32 (m + left - 1), r)
  else '(b, r) ← readBit r; Ok (to_uint32 (to_uint32 (m * 2) + b - 1), r).

(** ** What is left to read *)

(** The bits 7 to [m] of a byte, the highest first. *)
Fixpoint top_bits (n : nat) (b : Z) : list bool :=
  match n with O => [] | S n => Z.testbit b 7 :: top_bits n (wrapu 8 (b * 2)) end.
Definition byte_bits (b : Z) : list bool := top_bits 8 b.
Definition bits r : list bool :=
  let x := Z.to_nat (bufBit r / 8) in
  let n := Z.to_nat (bufBits r / 8) in
  (if bufBit r =? bufBits r then []
   else top_bits (8 - Z.to_nat (bufBit r mod 8)) (default 0 (buf r !! x)) ++
        (take (n - S x) (drop (S x) (buf r)) ≫= byte_bits)) ++
  (gz_bytes (src r) ≫= byte_bits).
Definition is_byte (b : Z) : Prop := 0 <= b < 256.
Record wf r : Prop := {
  wf_buf : length (buf r) = block;
  wf_bits : exists n, (n <= block)%nat /\ bufBits r = 8 * Z.of_nat n;
  wf_bit : 0 <= bufBit r <= bufBits r;
  wf_bytes : Forall is_byte (buf r);
  wf_src : Forall is_byte (gz_bytes (src r));
  wf_sound : gz_damaged (src r) = false;
  wf_eof : eof r = true -> bufBit r = bufBits r /\ gz_bytes (src r) = []
}.

Lemma shiftr_top b : is_byte b -> Z.shiftr b 7 = Z.b2z (Z.testbit b 7).
Proof.
  intros Hb. unfold is_byte in Hb. rewrite Z.testbit_spec' by lia. rewrite Z.shiftr_div_pow2 by lia.
  symmetry. apply Z.mod_small. split; [apply Z.div_pos; lia|]. apply Z.div_lt_upper_bound; lia.
Qed.
Lemma shifted_byte b : is_byte (wrapu 8 b).
Proof. unfold is_byte. apply (wrapu_range 8). lia. Qed.
Lemma new_wf f : Forall is_byte (gz_bytes f) -> gz_damaged f = false -> wf (BitReader_new f).
Proof.
  intros Hb Hd. split; try done.
  - cbn. exists 0%nat. split; [unfold block; lia|done].
  - apply Forall_replicate. unfold is_byte. lia.
Qed.

(** The next bit of a block. *)
Lemma take_bit r : wf r -> bufBit r < bufBits r ->
  exists b rest r', bits r = b :: rest /\ wf r' /\ bits r' = rest /\ eof r' = eof r /\
    (b' ← vec_at (buf r) (bufBit r / 8); bs ← vec_set (buf r) (bufBit r / 8) (wrapu 8 (b' * 2));
     Ok (Z.shiftr b' 7, mk (src r) bs (bufBits r) (to_uint32 (bufBit r + 1)) (eof r))) = Ok (Z.b2z b, r').
Proof.
  intros [Hl (n & Hn & Hbits) Hbit Hbb Hs Hd He] Hlt. unfold block in *.
  pose proof (Z.div_mod (bufBit r) 8 ltac:(lia)) as Hdm. pose proof (Z.mod_pos_bound (bufBit r) 8 ltac:(lia)) as Hm.
  set (x := bufBit r / 8) in *. set (m := bufBit r mod 8) in *.
  assert (0 <= x < Z.of_nat n) as Hx by lia. destruct (lookup_lt_is_Some_2 (buf r) (Z.to_nat x)) as [b Hb]; [lia|].
  assert (is_byte b) as Hib by (rewrite Forall_lookup in Hbb; by eapply Hbb).
  assert (vec_at (buf r) x = Ok b) as -> by (rewrite <- (Z2Nat.id x) by lia; by apply vec_at_Some). run.
  assert (vec_set (buf r) x (wrapu 8 (b * 2)) = Ok (<[Z.to_nat x := wrapu 8 (b * 2)]> (buf r))) as ->
    by (rewrite <- (Z2Nat.id x) at 1 by lia; apply vec_set_lt; lia). run. rewrite shiftr_top by done.
  set (after := (take (n - S (Z.to_nat x)) (drop (S (Z.to_nat x)) (buf r)) ≫= byte_bits) ++ (gz_bytes (src r) ≫= byte_bits)).
  set (buf' := <[Z.to_nat x := wrapu 8 (b * 2)]> (buf r)).
  exists (Z.testbit b 7), (top_bits (7 - Z.to_nat m) (wrapu 8 (b * 2)) ++ after), (mk (src r) buf' (bufBits r) (bufBit r + 1) (eof r)).
  assert (to_uint32 (bufBit r + 1) = bufBit r + 1) as -> by (apply wrapu_small; lia).
  assert (eof r = false) as Heof by (destruct (eof r); [destruct He; [done|lia]|done]).
  split_and!; try done.
  - unfold bits. destruct (Z.eqb_spec (bufBit r) (bufBits r)); [lia|]. fold x m. rewrite Hb. cbn [default].
    replace (Z.to_nat (bufBits r / 8)) with n by (rewrite Hbits, (Z.mul_comm 8), Z.div_mul; lia).
    replace (8 - Z.to_nat m)%nat with (S (7 - Z.to_nat m)) by lia. cbn [top_bits app]. by rewrite <- app_assoc.
  - split; cbn [buf bufBits bufBit src eof]; try done; [by subst buf'; rewrite length_insert|by exists n|lia| |by rewrite Heof].
    subst buf'. apply Forall_insert; [done|]. apply shifted_byte.
  - unfold bits. cbn [buf bufBits bufBit src].
    replace (Z.to_nat (bufBits r / 8)) with n by (rewrite Hbits, (Z.mul_comm 8), Z.div_mul; lia).
    destruct (decide (m = 7)) as [E7|Hne].
    + replace (7 - Z.to_nat m)%nat with 0%nat by lia. cbn [top_bits app]. subst after.
      assert ((bufBit r + 1) / 8 = x + 1) as -> by (symmetry; apply (Z.div_unique _ _ _ 0); lia).
      assert ((bufBit r + 1) mod 8 = 0) as -> by (symmetry; apply (Z.mod_unique _ _ (x + 1)); lia).
      destruct (Z.eqb_spec (bufBit r + 1) (bufBits r)) as [E|Hne].
      * replace (n - S (Z.to_nat x))%nat with 0%nat by lia. done.
      * cbn [Z.to_nat Nat.sub]. replace (Z.to_nat (x + 1)) with (S (Z.to_nat x)) by lia.
        destruct (lookup_lt_is_Some_2 (buf r) (S (Z.to_nat x))) as [c Hc]; [lia|].
        assert (buf' !! S (Z.to_nat x) = Some c) as -> by (subst buf'; rewrite list_lookup_insert_ne by lia; done).
        cbn [default]. rewrite (drop_S (buf r) c) by done.
        replace (n - S (Z.to_nat x))%nat with (S (n - S (S (Z.to_nat x)))) by lia. cbn [take].
        rewrite bind_cons. unfold byte_bits at 3. do 3 f_equal. subst buf'. rewrite drop_insert_lt by lia. done.
    + assert ((bufBit r + 1) / 8 = x) as -> by (symmetry; apply (Z.div_unique _ _ _ (m + 1)); lia).
      assert ((bufBit r + 1) mod 8 = m + 1) as -> by (symmetry; apply (Z.mod_unique _ _ x); lia).
      destruct (Z.eqb_spec (bufBit r + 1) (bufBits r)) as [E|_]; [lia|].
      subst buf'. rewrite list_lookup_insert_eq by lia. cbn [default].
      replace (8 - Z.to_nat (m + 1))%nat with (7 - Z.to_nat m)%nat by lia.
      rewrite drop_insert_lt by lia. by rewrite <- app_assoc.
Qed.

Lemma byte_bits_nonempty l : l <> [] -> l ≫= byte_bits <> [].
Proof. by destruct l. Qed.
Lemma fill_end r : wf r -> bufBit r = bufBits r -> gz_bytes (src r) = [] ->
  exists r', fillBuf r = (r', false) /\ wf r' /\ eof r' = true /\ bits r' = [].
Proof.
  intros Hwf Hb Hs. unfold fillBuf. destruct (eof r) eqn:He.
  { exists r. split_and!; try done. unfold bits. by rewrite Hb, Z.eqb_refl, Hs. }
  unfold read, gzread. rewrite Hs, (wf_sound _ Hwf). cbn [length app drop]. eexists. split; [done|].
  destruct Hwf. split_and!; [split; cbn [buf bufBits bufBit src eof]; try done|done|].
  - exists 0%nat. split; [lia|done].
  - unfold bits. cbn. by rewrite Hs.
Qed.
Lemma fill_more r : wf r -> bufBit r = bufBits r -> gz_bytes (src r) <> [] ->
  exists r', fillBuf r = (r', true) /\ wf r' /\ bits r' = bits r /\ bufBit r' < bufBits r' /\ eof r' = false.
Proof.
  intros [Hl (n & Hn & Hbits) Hbit Hbb Hs Hd He] Hb Hne. unfold fillBuf. destruct (eof r); [by destruct He|].
  unfold read, gzread. destruct (gz_bytes (src r)) as [|c l] eqn:Eg; [done|]. rewrite <- Eg in *.
  remember (take block (gz_bytes (src r))) as data eqn:Hdata. remember (length data) as k eqn:Ek.
  assert (0 < k <= block)%nat as Hk by (rewrite Ek, Hdata, length_take, Eg; unfold block; cbn [length]; lia).
  assert (to_uint32 (Z.of_nat k * 8) = 8 * Z.of_nat k) as -> by (rewrite wrapu_small; unfold block in Hk; lia).
  destruct (Z.eqb_spec (8 * Z.of_nat k) 0); [lia|]. cbn [negb]. eexists. split; [done|]. split_and!.
  - split; cbn [buf bufBits bufBit src eof gz_bytes gz_damaged]; try done.
    + rewrite length_app, length_drop. lia.
    + exists k. split; [lia|done].
    + lia.
    + apply Forall_app. split; [rewrite Hdata; by apply Forall_take|by apply Forall_drop].
    + by apply Forall_drop.
  - unfold bits. cbn [buf bufBits bufBit src gz_bytes]. rewrite Hb, Z.eqb_refl.
    destruct (Z.eqb_spec 0 (8 * Z.of_nat k)); [lia|]. rewrite (Z.mul_comm 8), Z.div_mul, Nat2Z.id by lia.
    change (Z.to_nat (0 / 8)) with 0%nat. change (8 - Z.to_nat (0 mod 8))%nat with 8%nat.
    destruct data as [|d0 data']; [cbn in Ek; lia|]. cbn [app lookup list_lookup default drop].
    rewrite drop_0. replace (k - 1)%nat with (length data') by (rewrite Ek; cbn; lia).
    rewrite take_app_length. change (top_bits 8 d0) with (byte_bits d0).
    rewrite <- (take_drop block (gz_bytes (src r))) at 2. rewrite <- Hdata, bind_app, bind_cons. done.
  - cbn. lia.
  - done.
Qed.

(** [readBit] takes the bits one by one; after the last it answers 0. *)
Lemma readBit_next r b rest : wf r -> bits r = b :: rest ->
  exists r', readBit r = Ok (Z.b2z b, r') /\ wf r' /\ bits r' = rest /\ eof r' = false.
Proof.
  intros Hwf Hb. assert (exists r1, (if bufBit r =? bufBits r then fillBuf r else (r, true)) = (r1, true) /\ wf r1 /\
    bits r1 = bits r /\ bufBit r1 < bufBits r1 /\ eof r1 = false) as (r1 & E1 & Hwf1 & Hb1 & Hlt & He).
  { destruct (Z.eqb_spec (bufBit r) (bufBits r)) as [E|Hne].
    - apply fill_more; [done|done|]. intros Hs. unfold bits in Hb. by rewrite E, Z.eqb_refl, Hs in Hb.
    - exists r. pose proof (wf_bit _ Hwf). split_and!; try done; [lia|]. destruct (eof r) eqn:He; [|done].
      by destruct (wf_eof _ Hwf He). }
  unfold readBit. rewrite E1. destruct (take_bit r1 Hwf1 Hlt) as (b' & rest' & r' & E & Hwf' & Hr' & He' & ->).
  rewrite Hb1, Hb in E. injection E as <- <-. exists r'. split_and!; try done. congruence.
Qed.
Lemma readBit_end r : wf r -> bits r = [] -> exists r', readBit r = Ok (0, r') /\ wf r' /\ bits r' = [] /\ eof r' = true.
Proof.
  intros Hwf Hb. assert (bufBit r = bufBits r) as E.
  { destruct (decide (bufBit r = bufBits r)) as [|Hne]; [done|]. pose proof (wf_bit _ Hwf).
    destruct (take_bit r Hwf) as (? & ? & ? & E & _); [lia|]. by rewrite Hb in E. }
  assert (gz_bytes (src r) = []) as Hs.
  { unfold bits in Hb. rewrite E, Z.eqb_refl in Hb. cbn [app] in Hb. destruct (gz_bytes (src r)); [done|].
    by apply byte_bits_nonempty in Hb. }
  unfold readBit. rewrite E, Z.eqb_refl. destruct (fill_end r Hwf E Hs) as (r' & -> & ? & ? & ?). by exists r'.
Qed.
Lemma not_eof r b rest : wf r -> bits r = b :: rest -> eof r = false.
Proof.
  intros Hwf Hb. destruct (eof r) eqn:He; [|done]. destruct (wf_eof _ Hwf He) as [E Hs].
  unfold bits in Hb. by rewrite E, Z.eqb_refl, Hs in Hb.
Qed.

(** ** Numbers *)

(** The lowest [w] bits of a number, the highest first. *)
Fixpoint fixed (w : nat) (v : Z) : list bool :=
  match w with O => [] | S w => Z.testbit v (Z.of_nat w) :: fixed w v end.
Definition unary (n : nat) : list bool := replicate n false ++ [true].
Definition gamma (n : Z) : list bool :=
  let l := Z.to_nat (Z.log2 (n + 1)) in unary l ++ fixed l (n + 1).
(** The zeta code with parameter [k]; the lower numbers of a level take one bit
    less. *)
Definition zeta (k n : Z) : list bool :=
  let h := Z.log2 (n + 1) / k in
  let left := 2 ^ (h * k) in
  let w := Z.to_nat (h * k + k - 1) in
  unary (Z.to_nat h) ++
  if n + 1 - left <? left then fixed w (n + 1 - left) else fixed (S w) (n + 1).

Definition value_of (l : list bool) (acc : Z) : Z := fold_left (fun a b => 2 * a + Z.b2z b) l acc.
Lemma fixed_value w v acc : 0 <= v -> value_of (fixed w v) acc = acc * 2 ^ Z.of_nat w + v mod 2 ^ Z.of_nat w.
Proof.
  intros Hv. revert acc. induction w as [|w IH]; intros acc; cbn [fixed value_of fold_left].
  - rewrite Z.mod_1_r. lia.
  - change (fold_left _ (fixed w v) ?a) with (value_of (fixed w v) a). rewrite IH.
    rewrite Z.testbit_spec' by lia. rewrite Nat2Z.inj_succ, Z.pow_succ_r by lia.
    rewrite (Z.mul_comm 2 (2 ^ Z.of_nat w)), Z.rem_mul_r by lia. lia.
Qed.
Lemma length_fixed w v : length (fixed w v) = w.
Proof. induction w as [|w IH]; cbn; [done|]. by rewrite IH. Qed.

Lemma bits_length r : wf r -> length (bits r) = left_bits r.
Proof.
  intros [Hl (n & Hn & Hbits) Hbit _ _ _ _]. unfold block in *.
  assert (forall k b, length (top_bits k b) = k) as Htop.
  { induction k as [|k IH]; intros b; cbn [top_bits length]; [done|]. by rewrite IH. }
  assert (forall l, length (l ≫= byte_bits) = 8 * length l)%nat as Hby.
  { induction l as [|b l IH]; [done|]. rewrite bind_cons, length_app, IH. unfold byte_bits. rewrite Htop. cbn [length]. lia. }
  unfold bits, left_bits. rewrite !length_app, Hby. f_equal.
  destruct (Z.eqb_spec (bufBit r) (bufBits r)) as [->|Hne]; [cbn; lia|].
  pose proof (Z.div_mod (bufBit r) 8 ltac:(lia)). pose proof (Z.mod_pos_bound (bufBit r) 8 ltac:(lia)).
  rewrite length_app, Htop, Hby, length_take, length_drop.
  replace (Z.to_nat (bufBits r / 8)) with n by (rewrite Hbits, (Z.mul_comm 8), Z.div_mul; lia). lia.
Qed.
Lemma unary_loop_spec n : forall fuel r rest acc, wf r -> bits r = unary n ++ rest -> (n < fuel)%nat ->
  0 <= acc -> acc + Z.of_nat n < 2 ^ 32 ->
  exists r', unary_loop fuel r acc = Ok (acc + Z.of_nat n, r') /\ wf r' /\ bits r' = rest /\ eof r' = false.
Proof.
  induction n as [|n IH]; intros fuel r rest acc Hwf Hb Hf Ha Hlt; (destruct fuel as [|fuel]; [lia|]); cbn [unary_loop];
    cbn [unary replicate app] in Hb; rewrite (not_eof r _ _ Hwf Hb);
    destruct (readBit_next r _ _ Hwf Hb) as (r1 & -> & Hwf1 & Hb1 & He1); run; cbn [Z.b2z Z.eqb].
  - exists r1. split_and!; try done. do 2 f_equal. lia.
  - rewrite wrapu_small by lia. destruct (IH fuel r1 rest (acc + 1) Hwf1 Hb1) as (r2 & -> & ? & ? & ?); [lia..|].
    exists r2. split_and!; try done. do 2 f_equal. lia.
Qed.
Lemma readUnary_spec r n rest : wf r -> bits r = unary n ++ rest -> Z.of_nat n < 2 ^ 32 ->
  exists r', readUnary r = Ok (Z.of_nat n, r') /\ wf r' /\ bits r' = rest /\ eof r' = false.
Proof.
  intros Hwf Hb Hn. apply (unary_loop_spec n _ r rest 0); try done.
  rewrite <- bits_length, Hb by done. unfold unary. rewrite !length_app, length_replicate. cbn. lia.
Qed.
(** At the end of the file the last, failed, bit is counted. *)
Lemma unary_loop_end n : forall fuel r acc, wf r -> bits r = replicate n false -> (S n < fuel)%nat -> eof r = false ->
  0 <= acc -> acc + Z.of_nat n + 1 < 2 ^ 32 ->
  exists r', unary_loop fuel r acc = Ok (acc + Z.of_nat n + 1, r') /\ wf r' /\ bits r' = [] /\ eof r' = true.
Proof.
  induction n as [|n IH]; intros fuel r acc Hwf Hb Hf He Ha Hlt; (destruct fuel as [|fuel]; [lia|]); cbn [unary_loop];
    rewrite He.
  - destruct (readBit_end r Hwf Hb) as (r1 & -> & Hwf1 & Hb1 & He1). run. cbn [Z.eqb]. rewrite wrapu_small by lia.
    destruct fuel as [|fuel]; [lia|]. cbn [unary_loop]. rewrite He1. exists r1. split_and!; try done. do 2 f_equal. lia.
  - cbn [replicate] in Hb. destruct (readBit_next r _ _ Hwf Hb) as (r1 & -> & Hwf1 & Hb1 & He1). run. cbn [Z.b2z Z.eqb].
    rewrite wrapu_small by lia. destruct (IH fuel r1 (acc + 1) Hwf1 Hb1) as (r2 & -> & ? & ? & ?); [lia|done|lia..|].
    exists r2. split_and!; try done. do 2 f_equal. lia.
Qed.

Lemma lor_low q l v : 0 <= l -> 0 <= v < 2 ^ l -> Z.lor (q * 2 ^ l) v = q * 2 ^ l + v.
Proof.
  intros Hl Hv. symmetry. apply Z.add_nocarry_lor, Z.bits_inj'. intros i Hi. rewrite Z.land_spec, Z.bits_0.
  destruct (Z.lt_ge_cases i l); [by rewrite Z.mul_pow2_bits_low|].
  rewrite <- (Z.mod_small v (2 ^ l)), Z.mod_pow2_bits_high by lia. apply andb_false_r.
Qed.
Lemma value_of_mono l : forall acc, 0 <= acc -> acc <= value_of l acc.
Proof.
  induction l as [|b l IH]; intros acc Ha; cbn [value_of fold_left]; [lia|].
  transitivity (2 * acc + Z.b2z b); [destruct b; cbn; lia|]. apply IH. destruct b; cbn; lia.
Qed.
Lemma fixed_loop_spec l : forall r rest acc, wf r -> bits r = l ++ rest -> 0 <= acc -> value_of l acc < 2 ^ 32 ->
  eof r = false ->
  exists r', fixed_loop (length l) r acc = Ok (value_of l acc, r') /\ wf r' /\ bits r' = rest /\ eof r' = false.
Proof.
  induction l as [|b l IH]; intros r rest acc Hwf Hb Ha Hv He; cbn [length fixed_loop]; [by exists r|].
  cbn [app] in Hb. destruct (readBit_next r _ _ Hwf Hb) as (r1 & -> & Hwf1 & Hb1 & He1). run.
  cbn [value_of fold_left] in Hv |- *. change (fold_left _ l ?a) with (value_of l a) in *.
  assert (0 <= Z.b2z b <= 1) as Hb01 by (destruct b; cbn; lia).
  pose proof (value_of_mono l (2 * acc + Z.b2z b) ltac:(lia)) as Hm. rewrite wrapu_small by lia.
  replace (Z.lor (acc * 2) (Z.b2z b)) with (2 * acc + Z.b2z b).
  - apply IH; try done. lia.
  - pose proof (lor_low acc 1 (Z.b2z b)) as Hlow. change (2 ^ 1) with 2 in Hlow. rewrite Hlow; lia.
Qed.
Lemma readFixed_spec r w v rest : wf r -> eof r = false -> bits r = fixed w v ++ rest -> 0 <= v < 2 ^ 32 ->
  v < 2 ^ Z.of_nat w ->
  exists r', readFixed r (Z.of_nat w) = Ok (v, r') /\ wf r' /\ bits r' = rest /\ eof r' = false.
Proof.
  intros Hwf He Hb Hv Hw. unfold readFixed. destruct (Z.ltb_spec (Z.of_nat w) 0); [lia|]. rewrite Nat2Z.id.
  assert (value_of (fixed w v) 0 = v) as Ev by (rewrite fixed_value, Z.mod_small; lia).
  destruct (fixed_loop_spec (fixed w v) r rest 0 Hwf Hb) as (r' & E & ?); [lia|lia|done|].
  rewrite length_fixed, Ev in E. by exists r'.
Qed.
Lemma fixed_mod w v : forall u, v mod 2 ^ Z.of_nat w = u mod 2 ^ Z.of_nat w -> fixed w v = fixed w u.
Proof.
  induction w as [|w IH]; intros u E; [done|]. cbn [fixed].
  assert (forall x, x mod 2 ^ Z.of_nat w = (x mod 2 ^ Z.of_nat (S w)) mod 2 ^ Z.of_nat w) as Hmod.
  { intros x. rewrite Nat2Z.inj_succ, Z.pow_succ_r, (Z.mul_comm 2) by lia. rewrite Z.rem_mul_r by lia.
    rewrite (Z.mul_comm (2 ^ Z.of_nat w)), Z.mod_add, Z.mod_mod by lia. done. }
  f_equal; [|apply IH; by rewrite (Hmod v), E, <- Hmod].
  rewrite <- (Z.mod_pow2_bits_low v (Z.of_nat (S w))), E, Z.mod_pow2_bits_low by lia. done.
Qed.

(** [readSGamma] and [readZeta] decode what the codes encode. *)
Lemma readSGamma_spec r n rest : wf r -> bits r = gamma n ++ rest -> 0 <= n -> n + 1 < 2 ^ 31 ->
  exists r', readSGamma r = Ok (n, r') /\ wf r' /\ bits r' = rest /\ eof r' = false.
Proof.
  intros Hwf Hb Hn Hlt. unfold gamma in Hb. rewrite <- app_assoc in Hb. set (l := Z.log2 (n + 1)) in *.
  assert (0 <= l < 31) as Hl by (split; [apply Z.log2_nonneg|apply Z.log2_lt_pow2; lia]).
  pose proof (Z.log2_spec (n + 1) ltac:(lia)) as Hs. fold l in Hs. rewrite Z.pow_succ_r in Hs by lia.
  unfold readSGamma. destruct (readUnary_spec r _ _ Hwf Hb) as (r1 & -> & Hwf1 & Hb1 & He1); [lia|]. run.
  rewrite Z2Nat.id by lia. unfold shift1. destruct (Z.leb_spec 0 l); [|lia]. destruct (Z.ltb_spec l 31); [|lia]. cbn [andb]. run.
  rewrite wraps_small by lia. rewrite (fixed_mod _ _ (n + 1 - 2 ^ l)) in Hb1.
  2:{ rewrite Z2Nat.id by lia. replace (n + 1) with (n + 1 - 2 ^ l + 1 * 2 ^ l) at 1 by lia. by rewrite Z.mod_add by lia. }
  assert (2 ^ l < 2 ^ 31) by (apply Z.pow_lt_mono_r; lia).
  destruct (readFixed_spec r1 (Z.to_nat l) (n + 1 - 2 ^ l) rest Hwf1 He1 Hb1) as (r2 & E2 & Hwf2 & Hb2 & He2); [lia|rewrite Z2Nat.id; lia|].
  rewrite Z2Nat.id in E2 by lia. rewrite E2. run. exists r2. split_and!; try done. do 2 f_equal.
  rewrite <- (Z.mul_1_l (2 ^ l)) at 1. rewrite lor_low by lia. rewrite wrapu_small; lia.
Qed.

Lemma fixed_snoc w v : 0 <= v -> fixed (S w) v = fixed w (v / 2) ++ [Z.testbit v 0].
Proof.
  intros Hv. induction w as [|w IH]; [done|]. cbn [fixed app] in IH |- *.
  f_equal; [|exact IH]. rewrite Nat2Z.inj_succ, <- Z.div2_div, Z.div2_spec, Z.shiftr_spec by lia. f_equal; lia.
Qed.
Lemma readZeta_spec r k n rest : wf r -> bits r = zeta k n ++ rest -> 1 <= k < 2 ^ 30 -> 0 <= n -> n + 1 < 2 ^ 31 ->
  exists r', readZeta r k = Ok (n, r') /\ wf r' /\ bits r' = rest /\ eof r' = false.
Proof.
  intros Hwf Hb Hk Hn Hlt. unfold zeta in Hb. set (l := Z.log2 (n + 1)) in *. set (h := l / k) in *.
  assert (0 <= l < 31) as Hl by (split; [apply Z.log2_nonneg|apply Z.log2_lt_pow2; lia]).
  assert (0 <= h) as Hh by (apply Z.div_pos; lia).
  assert (h * k <= l < h * k + k) as Hlev.
  { pose proof (Z.div_mod l k ltac:(lia)). pose proof (Z.mod_pos_bound l k ltac:(lia)). fold h in H. lia. }
  pose proof (Z.log2_spec (n + 1) ltac:(lia)) as Hs. fold l in Hs.
  assert (2 ^ (h * k) <= 2 ^ l) as Hle by (apply Z.pow_le_mono_r; lia).
  assert (2 ^ Z.succ l <= 2 ^ (h * k + k)) as Hup by (apply Z.pow_le_mono_r; lia).
  assert (h <= h * k) as Hhk by nia.
  rewrite <- app_assoc in Hb. unfold readZeta. unfold CHECK at 1. destruct (Z.leb_spec 1 k); [|lia]. run.
  destruct (readUnary_spec r _ _ Hwf Hb) as (r1 & -> & Hwf1 & Hb1 & He1); [lia|]. run. rewrite Z2Nat.id by lia.
  rewrite wrapu_small by lia. unfold shift1. destruct (Z.leb_spec 0 (h * k)); [|lia].
  destruct (Z.ltb_spec (h * k) 31); [|lia]. cbn [andb]. run. rewrite wraps_small by lia.
  set (left := 2 ^ (h * k)) in *. assert (0 < left) as Hleft by (apply Z.pow_pos_nonneg; lia).
  assert (2 ^ (h * k + k) = 2 * 2 ^ (h * k + k - 1)) as Hpow by (rewrite <- Z.pow_succ_r by lia; f_equal; lia).
  assert (left <= 2 ^ (h * k + k - 1)) as Hw by (apply Z.pow_le_mono_r; lia).
  replace (h * k + k - 1) with (Z.of_nat (Z.to_nat (h * k + k - 1))) by lia.
  destruct (Z.ltb_spec (n + 1 - left) left) as [Hlow|Hhigh].
  - destruct (readFixed_spec r1 _ (n + 1 - left) rest Hwf1 He1 Hb1) as (r2 & -> & Hwf2 & Hb2 & He2); [lia|rewrite Z2Nat.id; lia|].
    run. destruct (Z.ltb_spec (n + 1 - left) left); [|lia]. exists r2. split_and!; try done. do 2 f_equal. rewrite wrapu_small; lia.
  - rewrite fixed_snoc, <- app_assoc in Hb1 by lia.
    pose proof (Z.div_mod (n + 1) 2 ltac:(lia)) as Hdm. pose proof (Z.mod_pos_bound (n + 1) 2 ltac:(lia)) as Hmb.
    destruct (readFixed_spec r1 _ ((n + 1) / 2) _ Hwf1 He1 Hb1) as (r2 & -> & Hwf2 & Hb2 & He2); [lia|rewrite Z2Nat.id; lia|].
    run. destruct (Z.ltb_spec ((n + 1) / 2) left); [lia|]. cbn [app] in Hb2.
    destruct (readBit_next r2 _ _ Hwf2 Hb2) as (r3 & -> & Hwf3 & Hb3 & He3). run. exists r3. split_and!; try done. do 2 f_equal.
    rewrite Z.bit0_mod. rewrite (wrapu_small 32 ((n + 1) / 2 * 2)) by lia. rewrite wrapu_small; lia.
Qed.

(** A word of the code: a gamma number or a zeta number. *)
Inductive word := Gamma (n : Z) | Zeta (k n : Z).
Definition encode (w : word) : list bool := match w with Gamma n => gamma n | Zeta k n => zeta k n end.
Definition number (w : word) : Z := match w with Gamma n => n | Zeta _ n => n end.
Definition word_ok (w : word) : Prop :=
  0 <= number w /\ number w + 1 < 2 ^ 31 /\ match w with Gamma _ => True | Zeta k _ => 1 <= k < 2 ^ 30 end.
Definition readWord r (w : word) : outcome (Z * t) :=
  match w with Gamma _ => readSGamma r | Zeta k _ => readZeta r k end.
(** Words read one after the other with the methods for their kinds. *)
Fixpoint readWords r (ws : list word) : outcome (list Z * t) :=
  match ws with
  | [] => Ok ([], r)
  | w :: ws => '(n, r) ← readWord r w; '(ns, r) ← readWords r ws; Ok (n :: ns, r)
  end.
Lemma readWords_spec ws : forall r rest, wf r -> Forall word_ok ws -> bits r = (ws ≫= encode) ++ rest ->
  exists r', readWords r ws = Ok (number <$> ws, r') /\ wf r' /\ bits r' = rest.
Proof.
  induction ws as [|w ws IH]; intros r rest Hwf Hok Hb; [by exists r|]. apply Forall_cons in Hok as [(H1 & H2 & H3) Hok].
  rewrite bind_cons, <- app_assoc in Hb. cbn [readWords].
  assert (exists r1, readWord r w = Ok (number w, r1) /\ wf r1 /\ bits r1 = (ws ≫= encode) ++ rest) as (r1 & -> & Hwf1 & Hb1).
  { destruct w as [n|k n]; cbn [readWord encode number] in *.
    - destruct (readSGamma_spec r n _ Hwf Hb H1 H2) as (r1 & ? & ? & ? & _). by exists r1.
    - destruct (readZeta_spec r k n _ Hwf Hb H3 H1 H2) as (r1 & ? & ? & ? & _). by exists r1. }
  run. destruct (IH r1 rest Hwf1 Hok Hb1) as (r2 & -> & ? & ?). run. by exists r2.
Qed.

(** Bits packed into bytes, the last one filled up with zeros. *)
Fixpoint pack (fuel : nat) (l : list bool) : list Z :=
  match fuel, l with
  | S fuel, _ :: _ => value_of (take 8 l ++ replicate (8 - length l) false) 0 :: pack fuel (drop 8 l)
  | _, _ => []
  end.
Definition packed (l : list bool) : gzFile := {| gz_bytes := pack (length l) l; gz_damaged := false |}.

Lemma byte_bits_value l : length l = 8%nat -> byte_bits (value_of l 0) = l /\ is_byte (value_of l 0).
Proof.
  intros Hl. destruct l as [|c0 [|c1 [|c2 [|c3 [|c4 [|c5 [|c6 [|c7 [|]]]]]]]]]; try done. clear Hl.
  destruct c0, c1, c2, c3, c4, c5, c6, c7; (split; [reflexivity|split; done]).
Qed.
Lemma pack_bits fuel : forall l, (length l <= fuel)%nat ->
  exists z, (z < 8)%nat /\ pack fuel l ≫= byte_bits = l ++ replicate z false /\ Forall is_byte (pack fuel l).
Proof.
  induction fuel as [|fuel IH]; intros l Hl.
  { destruct l; [|cbn in Hl; lia]. exists 0%nat. split; [lia|done]. }
  destruct l as [|b l]; [exists 0%nat; split; [lia|done]|]. cbn [pack]. rewrite bind_cons. set (l0 := b :: l) in *.
  assert (0 < length l0)%nat as Hpos by (subst l0; cbn; lia).
  destruct (byte_bits_value (take 8 l0 ++ replicate (8 - length l0) false)) as [-> Hby].
  { rewrite length_app, length_take, length_replicate. lia. }
  set (v := value_of _ 0) in *. clearbody v.
  destruct (Nat.lt_ge_cases (length l0) 8) as [Hlt|Hge].
  - exists (8 - length l0)%nat. rewrite drop_ge by lia. rewrite take_ge by lia. replace (pack fuel []) with (@nil Z) by (by destruct fuel).
    rewrite app_nil_r. split_and!; [lia|done|by constructor].
  - destruct (IH (drop 8 l0)) as (z & Hz & -> & Hall); [rewrite length_drop; lia|]. exists z.
    replace (8 - length l0)%nat with 0%nat by lia. rewrite app_nil_r, app_assoc, take_drop. split_and!; [done..|by constructor].
Qed.
Lemma packed_spec l : wf (BitReader_new (packed l)) /\
  exists z, (z < 8)%nat /\ bits (BitReader_new (packed l)) = l ++ replicate z false.
Proof.
  destruct (pack_bits (length l) l ltac:(lia)) as (z & Hz & E & Hall). split; [by apply new_wf|]. by exists z.
Qed.

(** The bit reader decodes what the codes encode: gamma and zeta numbers,
    written one after the other and packed into the bytes of a file of any
    length, are read back, across the blocks of 4096 bytes. *)
Theorem codes_roundtrip ws : Forall word_ok ws ->
  exists r, readWords (BitReader_new (packed (ws ≫= encode))) ws = Ok (number <$> ws, r).
Proof.
  intros Hok. destruct (packed_spec (ws ≫= encode)) as [Hwf (z & _ & Hb)].
  destruct (readWords_spec ws _ _ Hwf Hok Hb) as (r & E & _). by exists r.
Qed.
Definition sample_words : list word := [Gamma 0; Zeta 3 10; Gamma 41; Zeta 2 0; Zeta 3 100000].
Lemma codes_roundtrip_witness : exists r, readWords (BitReader_new (packed (sample_words ≫= encode))) sample_words =
  Ok ([0; 10; 41; 0; 100000], r).
Proof. apply (codes_roundtrip sample_words). repeat constructor; done. Defined.

(** A damaged file is not noticed: [gzread] answers -1, only 0 is tested, and
    the block is taken to hold [2^32 - 8] bits. *)
Theorem damage_unnoticed : exists r,
  fillBuf (BitReader_new {| gz_bytes := []; gz_damaged := true |}) = (r, true) /\ bufBits r = 2 ^ 32 - 8 /\ eof r = false.
Proof. eexists. split; [reflexivity|]. done. Qed.
End BitReader.
