(* ===== verification/WebGraph.v ===== *)
(** * The reader of WebGraph databases: external/webgraph/webgraph.cc

    [Reader::readNode] decodes the adjacency list of the next node: the part
    that it shares with an earlier node (copied in blocks), its intervals of
    consecutive links and its other links, merged in order.  The last lists are
    kept in a window, a ring of slots that are used again. *)
From stdpp Require Import sorting.
From S2P Require Import Prelude BitReader.

Module WebGraph.
Import BitReader.

Record Node := mkNode { node_id : Z; links : list Z }.
Record Reader := mk {
  br : BitReader.t; windowSize : Z; minIntervalLength : Z; zetaK : Z; window : list Node; node : Z
}.
Implicit Types r : Reader.
(** The end of the constructor, with the properties that were read. *)
Definition Reader_new (f : gzFile) (windowSize minIntervalLength zetaK : Z) : outcome Reader :=
  if 2 ^ 31 <=? windowSize + 1 then Undefined
  else if windowSize + 1 <? 0 then Throw
  else Ok (mk (BitReader_new f) windowSize minIntervalLength zetaK (replicate (Z.to_nat (windowSize + 1)) (mkNode 0 [])) 0).

(** A signed [int] result: overflow is undefined. *)
Definition int_result (x : Z) : outcome Z := if (- 2 ^ 31 <=? x) && (x <? 2 ^ 31) then Ok x else Undefined.

Definition nat2int (nat : Z) : Z :=
  if Z.testbit nat 0 then - (to_uint32 (nat + 1) / 2) else nat / 2.

(** [n] numbers read with [f]. *)
Fixpoint read_many (n : nat) (f : BitReader.t -> outcome (Z * BitReader.t)) (b : BitReader.t) : outcome (list Z * BitReader.t) :=
  match n with
  | O => Ok ([], b)
  | S n => '(x, b) ← f b; '(xs, b) ← read_many n f b; Ok (x :: xs, b)
  end.
(** A variable-length array of a negative size is undefined. *)
Definition read_array (n : Z) (f : BitReader.t -> outcome (Z * BitReader.t)) (b : BitReader.t) : outcome (list Z * BitReader.t) :=
  if n <? 0 then Undefined else read_many (Z.to_nat n) f b.

(** [checkedCopy] of the range [first, last) of [src] to [out], which has room
    for [room] elements in all. *)
Definition checkedCopy (src : list Z) (first last : Z) (out : list Z) (room : Z) : outcome (list Z) :=
  _ ← CHECK (last - first <=? room - Z.of_nat (length out));
  if (0 <=? first) && (first <=? last) && (last <=? Z.of_nat (length src))
  then Ok (out ++ take (Z.to_nat (last - first)) (drop (Z.to_nat first) src)) else Undefined.
(** The loop over the blocks: copied when [keep], skipped otherwise. *)
Fixpoint copy_blocks (src : list Z) (keep : bool) (blocks : list Z) (pos : Z) (out : list Z) (room : Z) :
    outcome (list Z * Z * bool) :=
  match blocks with
  | [] => Ok (out, pos, keep)
  | b :: blocks =>
    out ← (if keep then checkedCopy src pos (pos + b) out room else Ok out);
    copy_blocks src (negb keep) blocks (pos + b) out room
  end.
(** "All blocks are decremented by one except the first". *)
Definition adjust (blocks : list Z) : list Z :=
  match blocks with [] => [] | b :: bs => b :: ((fun x => to_uint32 (x + 1)) <$> bs) end.
Definition read_reference r (b : BitReader.t) (id room : Z) : outcome (list Z * BitReader.t) :=
  '(reference, nBlocks, b) ←
    (if windowSize r =? 0 then Ok (0, 0, b)
     else
       '(reference, b) ← readUnary b;
       if to_int32 reference =? 0 then Ok (0, 0, b)
       else '(n, b) ← readSGamma b; Ok (to_int32 reference, to_int32 n, b));
  '(copyList, b) ← read_array nBlocks readSGamma b;
  if reference =? 0 then Ok ([], b)
  else
    _ ← CHECK (reference <=? windowSize r);
    ref ← vec_at (window r) (Z.rem (id - reference) (windowSize r + 1));
    '(out, pos, keep) ← copy_blocks (links ref) true (adjust copyList) 0 [] room;
    out ← (if keep : bool then checkedCopy (links ref) pos (Z.of_nat (length (links ref))) out room else Ok out);
    Ok (out, b).

Fixpoint read_pairs (n : nat) (b : BitReader.t) : outcome (list (Z * Z) * BitReader.t) :=
  match n with
  | O => Ok ([], b)
  | S n =>
    '(lo, b) ← readSGamma b; '(len, b) ← readSGamma b;
    '(l, b) ← read_pairs n b; Ok ((lo, len) :: l, b)
  end.
Definition first_signed (l : list (Z * Z)) : list (Z * Z) :=
  match l with [] => [] | (lo, len) :: l => (to_uint32 (nat2int lo), len) :: l end.
(** "Decode intervals": [lo] (the code's [left]) and [len] are [int], the arithmetic is that of
    [uint32_t]; a write behind the last link is undefined. *)
Fixpoint decode_intervals (minlen : Z) (l : list (Z * Z)) (prevRight : Z) (out : list Z) (room : Z) : outcome (list Z) :=
  match l with
  | [] => Ok out
  | (dl, len) :: l =>
    let lo := to_int32 (prevRight + dl + 1) in
    let len := to_int32 (len + minlen) in
    hi ← int_result (lo + len);
    if room <? Z.of_nat (length out) + len then Undefined
    else decode_intervals minlen l (to_uint32 hi) (out ++ seqZ lo len) room
  end.
Definition read_intervals r (b : BitReader.t) (id : Z) (out : list Z) (room : Z) : outcome (list Z * BitReader.t) :=
  '(n, b) ← (if minIntervalLength r =? 0 then Ok (0, b) else '(n, b) ← readSGamma b; Ok (to_int32 n, b));
  '(l, b) ← (if n <? 0 then Undefined else read_pairs (Z.to_nat n) b);
  out ← decode_intervals (minIntervalLength r) (first_signed l) (to_uint32 (id - 1)) out room;
  Ok (out, b).

Definition sortedb (l : list Z) : bool := bool_decide (Sorted Z.le l).
(** [std::inplace_merge] of two sorted ranges. *)
Definition inplace_merge (a b : list Z) : outcome (list Z) :=
  if sortedb a && sortedb b then Ok (list_merge Z.le a b) else Undefined.
(** The first [n] elements merged with the rest, unless one part is empty. *)
Definition merge_at (n : nat) (l : list Z) : outcome (list Z) :=
  match take n l, drop n l with
  | [], _ => Ok l
  | _, [] => Ok l
  | a, b => inplace_merge a b
  end.

(** "Decode residuals". *)
Fixpoint decode_residuals (l : list Z) (residual : Z) (out : list Z) : outcome (list Z) :=
  match l with
  | [] => Ok out
  | d :: l => x ← int_result (residual + d); x ← int_result (x + 1); decode_residuals l x (out ++ [x])
  end.
Definition read_residuals r (b : BitReader.t) (id : Z) (out : list Z) (room : Z) : outcome (list Z * BitReader.t) :=
  let n := room - Z.of_nat (length out) in
  _ ← CHECK (0 <=? n);
  '(l, b) ← read_array n (fun b => readZeta b (zetaK r)) b;
  let l := match to_int32 <$> l with [] => [] | x :: l => nat2int (to_uint32 x) :: l end in
  out ← decode_residuals l (id - 1) out;
  Ok (out, b).

(** The links of node [id], whose number is [room], in the order of the
    file's parts. *)
Definition read_links r (b : BitReader.t) (id room : Z) : outcome (list Z * BitReader.t) :=
  '(out, b) ← read_reference r b id room;
  if Z.of_nat (length out) =? room then Ok (out, b)
  else
    let refEnd := length out in
    '(out, b) ← read_intervals r b id out room;
    out ← merge_at refEnd out;
    let intEnd := length out in
    '(out, b) ← read_residuals r b id out room;
    out ← merge_at intEnd out;
    Ok (out, b).
(** The slot keeps its old links while it is filled; every path that returns
    it has overwritten all of them. *)
Definition readNode r : outcome (option Node * Reader) :=
  _ ← (if windowSize r + 1 =? 0 then Undefined else Ok tt);
  let i := Z.rem (node r) (windowSize r + 1) in
  l ← vec_at (window r) i;
  let id := node r in
  next ← int_result (node r + 1);
  '(degree, b) ← readSGamma (br r);
  let store nd b :=
    w ← vec_set (window r) i nd;
    Ok (mk b (windowSize r) (minIntervalLength r) (zetaK r) w next) in
  if eof b then r ← store (mkNode id (links l)) b; Ok (None, r)
  else if to_int32 degree <? 0 then Throw
  else if to_int32 degree =? 0 then r ← store (mkNode id []) b; Ok (Some (mkNode id []), r)
  else
    '(out, b) ← read_links r b id (to_int32 degree);
    r ← store (mkNode id out) b; Ok (Some (mkNode id out), r).
(** [while ((n = r.readNode()))]. *)
Fixpoint read_graph (fuel : nat) r : outcome (list (list Z) * Reader) :=
  match fuel with
  | O => OutOfFuel
  | S fuel =>
    '(n, r) ← readNode r;
    match n with
    | None => Ok ([], r)
    | Some n => '(ns, r) ← read_graph fuel r; Ok (links n :: ns, r)
    end
  end.

(** ** The format

    How a list may be written: the reference to an earlier node with the
    lengths of the blocks, alternately copied and skipped; the intervals, each
    by its first link and its length; and the other links. *)
Record code := { c_ref : nat; c_blocks : list nat; c_intervals : list (Z * Z); c_residuals : list Z }.

(** What is copied from a list. *)
Fixpoint select (keep : bool) (blocks : list nat) (l : list Z) : list Z :=
  match blocks with
  | [] => if keep then l else []
  | b :: bs => (if keep then take b l else []) ++ select (negb keep) bs (drop b l)
  end.
Definition copied (c : code) (ref : list Z) : list Z :=
  match c_ref c with O => [] | S _ => select true (c_blocks c) ref end.
Definition spread (l : list (Z * Z)) : list Z := l ≫= (fun i => seqZ i.1 i.2).

Definition int2nat (x : Z) : Z := if x <? 0 then - 2 * x - 1 else 2 * x.
Definition block_numbers (bs : list nat) : list Z :=
  match bs with [] => [] | b :: bs => Z.of_nat b :: ((fun b => Z.of_nat b - 1) <$> bs) end.
Fixpoint next_intervals (minlen prevRight : Z) (l : list (Z * Z)) : list Z :=
  match l with
  | [] => []
  | (lo, len) :: l => [lo - prevRight - 1; len - minlen] ++ next_intervals minlen (lo + len) l
  end.
Definition interval_numbers (minlen id : Z) (l : list (Z * Z)) : list Z :=
  match l with
  | [] => []
  | (lo, len) :: l => [int2nat (lo - id); len - minlen] ++ next_intervals minlen (lo + len) l
  end.
Fixpoint gaps (prev : Z) (l : list Z) : list Z :=
  match l with [] => [] | x :: l => x - prev - 1 :: gaps x l end.
Definition residual_numbers (id : Z) (l : list Z) : list Z :=
  match l with [] => [] | x :: l => int2nat (x - id) :: gaps x l end.

Section Format.
Variables (W minlen k : Z).
Definition encode_reference (c : code) : list bool :=
  if W =? 0 then []
  else unary (c_ref c) ++
       match c_ref c with
       | O => []
       | S _ => gamma (Z.of_nat (length (c_blocks c))) ++ (block_numbers (c_blocks c) ≫= gamma)
       end.
Definition encode_extra (id : Z) (c : code) : list bool :=
  (if minlen =? 0 then []
   else gamma (Z.of_nat (length (c_intervals c))) ++ (interval_numbers minlen id (c_intervals c) ≫= gamma)) ++
  (residual_numbers id (c_residuals c) ≫= zeta k).
Definition encode_node (id : Z) (c : code) (ls ref : list Z) : list bool :=
  gamma (Z.of_nat (length ls)) ++
  match ls with
  | [] => []
  | _ => encode_reference c ++ if bool_decide (length (copied c ref) = length ls) then [] else encode_extra id c
  end.

(** The list of the node that a code refers to. *)
Definition referred (done : list (list Z)) (c : code) : list Z := default [] (done !! (length done - c_ref c)%nat).
Fixpoint encode_graph (done : list (list Z)) (g : list (code * list Z)) : list bool :=
  match g with
  | [] => []
  | (c, ls) :: g => encode_node (Z.of_nat (length done)) c ls (referred done c) ++ encode_graph (done ++ [ls]) g
  end.
End Format.

(** ** Reading the parts *)

(** Numbers that the gamma and zeta codes carry. *)
Definition small (x : Z) : Prop := 0 <= x < 2 ^ 30.
Lemma read_many_spec (f : BitReader.t -> outcome (Z * BitReader.t)) (enc : Z -> list bool) ns :
  (forall b n rest, wf b -> bits b = enc n ++ rest -> small n ->
     exists b', f b = Ok (n, b') /\ wf b' /\ bits b' = rest /\ eof b' = false) ->
  forall b rest, wf b -> eof b = false -> bits b = (ns ≫= enc) ++ rest -> Forall small ns ->
  exists b', read_many (length ns) f b = Ok (ns, b') /\ wf b' /\ bits b' = rest /\ eof b' = false.
Proof.
  intros Hf. induction ns as [|n ns IH]; intros b rest Hwf He Hb Hs; [by exists b|].
  rewrite bind_cons, <- app_assoc in Hb. apply Forall_cons in Hs as [Hn Hs]. cbn [length read_many].
  destruct (Hf b n _ Hwf Hb Hn) as (b1 & -> & Hwf1 & Hb1 & He1). run.
  destruct (IH b1 rest Hwf1 He1 Hb1 Hs) as (b2 & -> & ?). run. by exists b2.
Qed.
Lemma gamma_small b n rest : wf b -> bits b = gamma n ++ rest -> small n ->
  exists b', readSGamma b = Ok (n, b') /\ wf b' /\ bits b' = rest /\ eof b' = false.
Proof. intros Hwf Hb [H1 H2]. apply readSGamma_spec; [done..|lia]. Qed.
Lemma zeta_small k b n rest : 1 <= k < 2 ^ 30 -> wf b -> bits b = zeta k n ++ rest -> small n ->
  exists b', readZeta b k = Ok (n, b') /\ wf b' /\ bits b' = rest /\ eof b' = false.
Proof. intros Hk Hwf Hb [H1 H2]. apply readZeta_spec; [done..|lia]. Qed.
Lemma read_array_gamma ns b rest : wf b -> eof b = false -> bits b = (ns ≫= gamma) ++ rest -> Forall small ns ->
  exists b', read_array (Z.of_nat (length ns)) readSGamma b = Ok (ns, b') /\ wf b' /\ bits b' = rest /\ eof b' = false.
Proof.
  intros Hwf He Hb Hs. unfold read_array. destruct (Z.ltb_spec (Z.of_nat (length ns)) 0); [lia|]. rewrite Nat2Z.id.
  by apply (read_many_spec readSGamma gamma ns gamma_small b rest).
Qed.

(** *** Copied blocks *)
Lemma select_length keep bs l : (length (select keep bs l) <= length l)%nat.
Proof.
  revert keep l. induction bs as [|b bs IH]; intros keep l; cbn [select]; [destruct keep; cbn; lia|].
  rewrite length_app. specialize (IH (negb keep) (drop b l)). rewrite length_drop in IH.
  destruct keep; [rewrite length_take|cbn [length]]; lia.
Qed.
Lemma checked_copy l pos n out room : (pos + n <= length l)%nat -> (Z.of_nat (length out) + Z.of_nat n <= room) ->
  checkedCopy l (Z.of_nat pos) (Z.of_nat pos + Z.of_nat n) out room = Ok (out ++ take n (drop pos l)).
Proof.
  intros Hl Hr. unfold checkedCopy, CHECK. destruct (Z.leb_spec (Z.of_nat pos + Z.of_nat n - Z.of_nat pos) (room - Z.of_nat (length out))); [|lia]. run.
  destruct (Z.leb_spec 0 (Z.of_nat pos)); [|lia]. destruct (Z.leb_spec (Z.of_nat pos) (Z.of_nat pos + Z.of_nat n)); [|lia].
  destruct (Z.leb_spec (Z.of_nat pos + Z.of_nat n) (Z.of_nat (length l))); [|lia]. cbn [andb]. do 3 f_equal; [|f_equal]; lia.
Qed.
Lemma copy_blocks_spec l bs : forall keep pos out room,
  (pos + sum_list bs <= length l)%nat -> Z.of_nat (length (out ++ select keep bs (drop pos l))) <= room ->
  ('(out, p, keep) ← copy_blocks l keep (Z.of_nat <$> bs) (Z.of_nat pos) out room;
   if keep : bool then checkedCopy l p (Z.of_nat (length l)) out room else Ok out) =
  Ok (out ++ select keep bs (drop pos l)).
Proof.
  induction bs as [|b bs IH]; intros keep pos out room Hl Hr; cbn [fmap list_fmap copy_blocks select] in *.
  - run. destruct keep; [|by rewrite app_nil_r].
    replace (Z.of_nat (length l)) with (Z.of_nat pos + Z.of_nat (length l - pos)) by lia.
    rewrite length_app, length_drop in Hr. rewrite checked_copy by lia. rewrite take_ge by (rewrite length_drop; lia). done.
  - change (sum_list (b :: bs)) with (b + sum_list bs)%nat in Hl.
    rewrite !length_app in Hr. assert (forall out', Z.of_nat (length (out' ++ select (negb keep) bs (drop (pos + b) l))) <= room ->
      ('(out, p, keep0) ← copy_blocks l (negb keep) (Z.of_nat <$> bs) (Z.of_nat pos + Z.of_nat b) out' room;
       if keep0 : bool then checkedCopy l p (Z.of_nat (length l)) out room else Ok out) =
      Ok (out' ++ select (negb keep) bs (drop (pos + b) l))) as Hnext.
    { intros out' Ho. rewrite <- Nat2Z.inj_add. apply IH; [lia|done]. }
    rewrite drop_drop in Hr |- *. destruct keep; run.
    + rewrite length_take, length_drop in Hr. rewrite checked_copy by lia. run. rewrite Hnext; [by rewrite <- app_assoc|].
      rewrite !length_app, length_take, length_drop. lia.
    + apply Hnext. rewrite length_app. cbn [length] in Hr. lia.
Qed.
Lemma adjust_blocks bs : Forall (fun b => Z.of_nat b < 2 ^ 30) bs -> Forall (fun b => 1 <= b)%nat (tail bs) ->
  adjust (block_numbers bs) = Z.of_nat <$> bs /\ Forall small (block_numbers bs).
Proof.
  intros Hs Ht. destruct bs as [|b bs]; [done|]. cbn [tail] in Ht. apply Forall_cons in Hs as [Hb Hs].
  cbn [block_numbers adjust fmap list_fmap]. split.
  - f_equal. rewrite <- list_fmap_compose. apply list_fmap_ext. intros i x Hx. cbn. rewrite Forall_lookup in Hs. specialize (Hs i x Hx). cbn in Hs.
    rewrite wrapu_small; lia.
  - constructor; [unfold small; lia|]. apply Forall_fmap, Forall_forall. intros x Hx. cbn.
    rewrite Forall_forall in Hs, Ht. specialize (Hs x Hx). specialize (Ht x Hx). cbn in Hs. unfold small. lia.
Qed.

(** The blocks of a code lie in the list that it refers to. *)
Record blocks_ok (c : code) (ref : list Z) : Prop := {
  bo_sum : (sum_list (c_blocks c) <= length ref)%nat;
  bo_small : Forall (fun b => Z.of_nat b < 2 ^ 30) (c_blocks c);
  bo_tail : Forall (fun b => 1 <= b)%nat (tail (c_blocks c));
  bo_count : Z.of_nat (length (c_blocks c)) < 2 ^ 30
}.
Lemma reference_spec r b id room c ref rest :
  wf b -> eof b = false -> bits b = encode_reference (windowSize r) c ++ rest -> 0 <= windowSize r < 2 ^ 30 ->
  Z.of_nat (c_ref c) <= windowSize r ->
  (c_ref c <> 0%nat -> blocks_ok c ref /\ exists nd,
     vec_at (window r) (Z.rem (id - Z.of_nat (c_ref c)) (windowSize r + 1)) = Ok nd /\ links nd = ref) ->
  Z.of_nat (length (copied c ref)) <= room ->
  exists b', read_reference r b id room = Ok (copied c ref, b') /\ wf b' /\ bits b' = rest /\ eof b' = false.
Proof.
  intros Hwf He Hb HW Hc Href Hroom. unfold read_reference, encode_reference, copied in *.
  destruct (Z.eqb_spec (windowSize r) 0) as [E0|Hne].
  { assert (c_ref c = 0%nat) as -> by lia. exists b. run. split_and!; try done. }
  rewrite <- app_assoc in Hb. destruct (readUnary_spec b _ _ Hwf Hb) as (b1 & -> & Hwf1 & Hb1 & He1); [lia|]. run.
  rewrite to_int32_small by lia. destruct (c_ref c) as [|n] eqn:Ec.
  { run. exists b1. by split_and!. }
  destruct (Z.eqb_spec (Z.of_nat (S n)) 0); [lia|]. rewrite <- app_assoc in Hb1.
  destruct Href as [[Hsum Hsmall Htail Hcount] (nd & Hnd & <-)]; [done|].
  destruct (gamma_small b1 _ _ Hwf1 Hb1) as (b2 & -> & Hwf2 & Hb2 & He2); [split; lia|]. run.
  rewrite to_int32_small by lia. destruct (adjust_blocks (c_blocks c) Hsmall Htail) as [Hadj Hnum].
  assert (length (block_numbers (c_blocks c)) = length (c_blocks c)) as Hlen.
  { destruct (c_blocks c); [done|]. cbn. by rewrite length_fmap. }
  rewrite <- Hlen. destruct (read_array_gamma _ b2 rest Hwf2 He2 Hb2 Hnum) as (b3 & -> & Hwf3 & Hb3 & He3). run.
  destruct (Z.eqb_spec (Z.of_nat (S n)) 0); [lia|]. unfold CHECK at 1. destruct (Z.leb_spec (Z.of_nat (S n)) (windowSize r)); [|lia].
  run. rewrite Hnd. run. rewrite Hadj. pose proof (copy_blocks_spec (links nd) (c_blocks c) true 0 [] room) as Hcopy.
  change (Z.of_nat 0) with 0 in Hcopy. cbn [Nat.add app] in Hcopy. rewrite drop_0 in Hcopy. specialize (Hcopy Hsum Hroom).
  destruct (copy_blocks (links nd) true (Z.of_nat <$> c_blocks c) 0 [] room) as [[[out p] kp]| | | |] eqn:Ecopy; try done.
  cbn [mbind outcome_bind] in Hcopy |- *. rewrite Hcopy. run. exists b3. by split_and!.
Qed.

(** *** Intervals *)
Lemma nat2int_int2nat x : - 2 ^ 30 <= x < 2 ^ 30 -> nat2int (int2nat x) = x /\ 0 <= int2nat x < 2 ^ 31.
Proof.
  intros Hx. unfold nat2int, int2nat. destruct (Z.ltb_spec x 0).
  - replace (- 2 * x - 1) with (2 * (- x - 1) + 1) by lia. rewrite Z.testbit_odd_0, wrapu_small by lia.
    replace (2 * (- x - 1) + 1 + 1) with (- x * 2) by lia. rewrite Z.div_mul by lia. lia.
  - rewrite Z.testbit_even_0, (Z.mul_comm 2), Z.div_mul by lia. lia.
Qed.
(** The pairs of numbers of a list of intervals. *)
Fixpoint next_pairs (minlen prevRight : Z) (l : list (Z * Z)) : list (Z * Z) :=
  match l with [] => [] | (lo, len) :: l => (lo - prevRight - 1, len - minlen) :: next_pairs minlen (lo + len) l end.
Definition interval_pairs (minlen id : Z) (l : list (Z * Z)) : list (Z * Z) :=
  match l with [] => [] | (lo, len) :: l => (int2nat (lo - id), len - minlen) :: next_pairs minlen (lo + len) l end.
Lemma pairs_flatten minlen id l :
  interval_numbers minlen id l = interval_pairs minlen id l ≫= (fun p => [p.1; p.2]) /\
  length (interval_pairs minlen id l) = length l.
Proof.
  assert (forall l p, next_intervals minlen p l = next_pairs minlen p l ≫= (fun p => [p.1; p.2]) /\
    length (next_pairs minlen p l) = length l) as H.
  { clear. induction l as [|[lo len] l IH]; intros p; [done|]. destruct (IH (lo + len)) as [E1 E2].
    cbn [next_intervals next_pairs length]. rewrite E1, E2. done. }
  destruct l as [|[lo len] l]; [done|]. destruct (H l (lo + len)) as [E1 E2].
  cbn [interval_numbers interval_pairs length]. rewrite E1, E2. done.
Qed.
Lemma read_pairs_spec ps : forall b rest, wf b -> eof b = false -> bits b = ((ps ≫= (fun p => [p.1; p.2])) ≫= gamma) ++ rest ->
  Forall (fun p => small p.1 /\ small p.2) ps ->
  exists b', read_pairs (length ps) b = Ok (ps, b') /\ wf b' /\ bits b' = rest /\ eof b' = false.
Proof.
  induction ps as [|[x y] ps IH]; intros b rest Hwf He Hb Hs; [by exists b|]. apply Forall_cons in Hs as [[Hx Hy] Hs].
  cbn [mbind list_bind app fst snd] in Hb. rewrite <- !app_assoc in Hb. cbn [length read_pairs].
  destruct (gamma_small b x _ Hwf Hb Hx) as (b1 & -> & Hwf1 & Hb1 & He1). run.
  destruct (gamma_small b1 y _ Hwf1 Hb1 Hy) as (b2 & -> & Hwf2 & Hb2 & He2). run.
  destruct (IH b2 rest Hwf2 He2 Hb2 Hs) as (b3 & -> & ?). run. by exists b3.
Qed.

(** Links and numbers of nodes. *)
Definition in_range (x : Z) : Prop := 0 <= x < 2 ^ 29.
(** Intervals that lie apart, each of at least the minimum length. *)
Definition interval_ok (minlen : Z) (i : Z * Z) : Prop := 0 <= i.1 /\ minlen <= i.2 /\ 1 <= i.2 /\ i.1 + i.2 <= 2 ^ 29.
Fixpoint apart (prev : Z) (l : list (Z * Z)) : Prop :=
  match l with [] => True | (lo, len) :: l => prev < lo /\ apart (lo + len) l end.
Definition intervals_ok (minlen : Z) (l : list (Z * Z)) : Prop := Forall (interval_ok minlen) l /\ apart (-1) l.

Lemma next_pairs_small minlen l : 0 <= minlen -> forall p, 0 <= p -> Forall (interval_ok minlen) l -> apart p l ->
  Forall (fun p => small p.1 /\ small p.2) (next_pairs minlen p l).
Proof.
  intros Hm. induction l as [|[lo len] l IH]; intros p Hp Hok Ha; [constructor|].
  apply Forall_cons in Hok as [(H1 & H2 & H3 & H4) Hok]. destruct Ha as [Ha1 Ha2]. cbn [fst snd next_pairs] in *.
  constructor; [unfold small; cbn; lia|]. apply IH; [lia|done|done].
Qed.
Lemma int_small x : - 2 ^ 31 <= x < 2 ^ 31 -> int_result x = Ok x.
Proof. intros Hx. unfold int_result. destruct (Z.leb_spec (- 2 ^ 31) x); [|lia]. by destruct (Z.ltb_spec x (2 ^ 31)); [|lia]. Qed.
Lemma decode_next minlen l : 0 <= minlen < 2 ^ 29 -> forall p out room, 0 <= p <= 2 ^ 29 ->
  Forall (interval_ok minlen) l -> apart p l -> Z.of_nat (length (out ++ spread l)) <= room ->
  decode_intervals minlen (next_pairs minlen p l) p out room = Ok (out ++ spread l).
Proof.
  intros Hm. induction l as [|[lo len] l IH]; intros p out room Hp Hok Ha Hr; cbn [next_pairs decode_intervals].
  { unfold spread. cbn. by rewrite app_nil_r. }
  apply Forall_cons in Hok as [(H1 & H2 & H3 & H4) Hok]. destruct Ha as [Ha1 Ha2]. cbn [fst snd] in *.
  assert (spread ((lo, len) :: l) = seqZ lo len ++ spread l) as E by done. rewrite E in *. rewrite app_assoc in Hr |- *.
  replace (p + (lo - p - 1) + 1) with lo by lia. replace (len - minlen + minlen) with len by lia.
  rewrite !to_int32_small by lia. rewrite int_small by lia. run. rewrite !length_app, length_seqZ in Hr.
  destruct (Z.ltb_spec room (Z.of_nat (length out) + len)); [lia|]. rewrite wrapu_small by lia.
  apply IH; [lia|done|done|]. rewrite !length_app, length_seqZ. lia.
Qed.
Lemma wraps_congr x y : x mod 2 ^ 32 = y mod 2 ^ 32 -> to_int32 x = to_int32 y.
Proof. unfold wraps. by intros ->. Qed.
Lemma decode_all minlen id l out room : 0 <= minlen < 2 ^ 29 -> in_range id -> intervals_ok minlen l ->
  Z.of_nat (length (out ++ spread l)) <= room ->
  decode_intervals minlen (first_signed (interval_pairs minlen id l)) (to_uint32 (id - 1)) out room = Ok (out ++ spread l) /\
  Forall (fun p => small p.1 /\ small p.2) (interval_pairs minlen id l).
Proof.
  intros Hm Hid [Hok Ha] Hr. unfold in_range in Hid. destruct l as [|[lo len] l].
  { unfold spread. cbn. rewrite app_nil_r. split; [done|constructor]. }
  apply Forall_cons in Hok as [(H1 & H2 & H3 & H4) Hok]. destruct Ha as [_ Ha]. cbn [fst snd apart] in *.
  destruct (nat2int_int2nat (lo - id)) as [E1 E2]; [lia|]. cbn [interval_pairs first_signed decode_intervals]. rewrite E1.
  assert (spread ((lo, len) :: l) = seqZ lo len ++ spread l) as E by done. rewrite E in *. rewrite app_assoc in Hr |- *.
  assert (to_int32 (to_uint32 (id - 1) + to_uint32 (lo - id) + 1) = lo) as ->.
  { rewrite (wraps_congr _ lo); [by apply to_int32_small; lia|]. unfold wrapu.
    rewrite <- Z.add_mod_idemp_l, <- Z.add_mod by lia. rewrite Z.add_mod_idemp_l by lia. f_equal. lia. }
  replace (len - minlen + minlen) with len by lia. rewrite to_int32_small by lia. rewrite int_small by lia. run.
  rewrite !length_app, length_seqZ in Hr. destruct (Z.ltb_spec room (Z.of_nat (length out) + len)); [lia|].
  rewrite (wrapu_small 32 (lo + len)) by lia. split.
  - apply decode_next; [done|lia|done|done|]. rewrite !length_app, length_seqZ. lia.
  - constructor; [|apply next_pairs_small; [lia|lia|done|done]]. cbn [fst snd]. unfold small, int2nat. destruct (Z.ltb_spec (lo - id) 0); lia.
Qed.
Lemma intervals_spec r b id c out room rest : wf b -> eof b = false ->
  bits b = (if minIntervalLength r =? 0 then []
            else gamma (Z.of_nat (length (c_intervals c))) ++ (interval_numbers (minIntervalLength r) id (c_intervals c) ≫= gamma)) ++ rest ->
  0 <= minIntervalLength r < 2 ^ 29 -> in_range id -> intervals_ok (minIntervalLength r) (c_intervals c) ->
  (minIntervalLength r = 0 -> c_intervals c = []) -> Z.of_nat (length (c_intervals c)) < 2 ^ 30 ->
  Z.of_nat (length (out ++ spread (c_intervals c))) <= room ->
  exists b', read_intervals r b id out room = Ok (out ++ spread (c_intervals c), b') /\ wf b' /\ bits b' = rest /\ eof b' = false.
Proof.
  intros Hwf He Hb Hm Hid Hok H0 Hn Hr. unfold read_intervals.
  destruct (decode_all _ id _ out room Hm Hid Hok Hr) as [Hdec Hsmall]. destruct (Z.eqb_spec (minIntervalLength r) 0) as [E|Hne].
  - rewrite (H0 E). exists b. unfold spread. cbn. by rewrite app_nil_r.
  - rewrite <- app_assoc in Hb. destruct (gamma_small b _ _ Hwf Hb) as (b1 & -> & Hwf1 & Hb1 & He1); [split; lia|]. run.
    rewrite to_int32_small by lia. destruct (Z.ltb_spec (Z.of_nat (length (c_intervals c))) 0); [lia|]. rewrite Nat2Z.id.
    destruct (pairs_flatten (minIntervalLength r) id (c_intervals c)) as [Ef El]. rewrite Ef in Hb1. rewrite <- El.
    destruct (read_pairs_spec _ b1 rest Hwf1 He1 Hb1 Hsmall) as (b2 & -> & Hwf2 & Hb2 & He2). run. rewrite Hdec. run.
    exists b2. by split_and!.
Qed.

(** *** The other links *)
Abbreviation sorted := (StronglySorted Z.le).
Definition residuals_ok (l : list Z) : Prop := Forall in_range l /\ StronglySorted Z.lt l.
Lemma decode_gaps l : forall prev out, in_range prev -> Forall in_range l -> StronglySorted Z.lt (prev :: l) ->
  decode_residuals (gaps prev l) prev out = Ok (out ++ l) /\ Forall small (gaps prev l).
Proof.
  induction l as [|x l IH]; intros prev out Hp Hr Hs; cbn [gaps decode_residuals]; [by rewrite app_nil_r; split; [|constructor]|].
  apply Forall_cons in Hr as [Hx Hr]. apply StronglySorted_inv in Hs as [Hs Hlt]. apply Forall_cons in Hlt as [Hlt _].
  unfold in_range in *. rewrite int_small by lia. run. rewrite int_small by lia. run.
  replace (prev + (x - prev - 1) + 1) with x by lia. destruct (IH x (out ++ [x]) Hx Hr Hs) as [-> Hsm].
  rewrite <- app_assoc. split; [done|]. constructor; [unfold small; lia|done].
Qed.
Lemma gaps_length l : forall prev, length (gaps prev l) = length l.
Proof. induction l as [|x l IH]; intros prev; [done|]. cbn. by rewrite IH. Qed.
Lemma small_int l : Forall small l -> to_int32 <$> l = l.
Proof.
  intros Hs. rewrite <- (list_fmap_id l) at 2. apply list_fmap_ext. intros i x Hx. rewrite Forall_lookup in Hs.
  destruct (Hs i x Hx). cbn. apply to_int32_small. lia.
Qed.
Lemma residuals_spec r b id c out room rest : wf b -> eof b = false ->
  bits b = (residual_numbers id (c_residuals c) ≫= zeta (zetaK r)) ++ rest -> 1 <= zetaK r < 2 ^ 30 -> in_range id ->
  residuals_ok (c_residuals c) -> Z.of_nat (length (out ++ c_residuals c)) = room ->
  exists b', read_residuals r b id out room = Ok (out ++ c_residuals c, b') /\ wf b' /\ bits b' = rest /\ eof b' = false.
Proof.
  intros Hwf He Hb Hk Hid [Hr Hs] Hroom. unfold read_residuals. rewrite length_app in Hroom.
  unfold CHECK. destruct (Z.leb_spec 0 (room - Z.of_nat (length out))); [|lia]. run. unfold read_array.
  destruct (Z.ltb_spec (room - Z.of_nat (length out)) 0); [lia|].
  assert (length (residual_numbers id (c_residuals c)) = length (c_residuals c)) as Hlen.
  { destruct (c_residuals c) as [|x l]; [done|]. cbn. by rewrite gaps_length. }
  replace (Z.to_nat (room - Z.of_nat (length out))) with (length (residual_numbers id (c_residuals c))) by lia.
  assert (Forall small (residual_numbers id (c_residuals c)) /\
    decode_residuals (match to_int32 <$> residual_numbers id (c_residuals c) with [] => [] | x :: l => nat2int (to_uint32 x) :: l end)
      (id - 1) out = Ok (out ++ c_residuals c)) as [Hsm Hdec].
  { destruct (c_residuals c) as [|x l]; [cbn; rewrite app_nil_r; split; [constructor|done]|].
    apply Forall_cons in Hr as [Hx Hr]. unfold in_range in *. destruct (nat2int_int2nat (x - id)) as [E1 E2]; [lia|].
    destruct (decode_gaps l x (out ++ [x]) Hx Hr Hs) as [Hd Hsm].
    assert (small (int2nat (x - id))) as Hfst by (unfold small, int2nat; destruct (Z.ltb_spec (x - id) 0); lia).
    cbn [residual_numbers fmap list_fmap]. rewrite (small_int _ Hsm). unfold small in Hfst. rewrite to_int32_small by lia.
    rewrite wrapu_small by lia. rewrite E1. cbn [decode_residuals]. rewrite int_small by lia. run. rewrite int_small by lia. run.
    replace (id - 1 + (x - id) + 1) with x by lia. rewrite Hd, <- app_assoc. split; [by constructor|done]. }
  destruct (read_many_spec (fun b => readZeta b (zetaK r)) (zeta (zetaK r)) _ (fun b n rest => zeta_small (zetaK r) b n rest Hk) b rest Hwf He Hb Hsm)
    as (b' & -> & Hwf' & Hb' & He'). run. rewrite Hdec. run. exists b'. by split_and!.
Qed.

(** *** Merging *)
Lemma sorted_sublist (l k : list Z) : l `sublist_of` k -> sorted k -> sorted l.
Proof.
  induction 1 as [|x l k Hsub IH|x l k Hsub IH]; intros Hs; [done|..]; apply StronglySorted_inv in Hs as [Hs Hx].
  - constructor; [by apply IH|]. apply Forall_forall. intros y Hy. rewrite Forall_forall in Hx. apply Hx.
    by eapply (sublist_elem_of _ _ _ Hsub) || (eapply elem_of_submseteq; [exact Hy|by apply sublist_submseteq]).
  - by apply IH.
Qed.
Lemma select_sublist keep bs : forall l, select keep bs l `sublist_of` l.
Proof.
  revert keep. induction bs as [|b bs IH]; intros keep l; cbn [select]; [destruct keep; [done|apply sublist_nil_l]|].
  rewrite <- (take_drop b l) at 3. apply sublist_app; [|apply IH]. destruct keep; [done|apply sublist_nil_l].
Qed.
Lemma seqZ_sorted lo n : sorted (seqZ lo n).
Proof.
  destruct (Z.le_gt_cases n 0) as [Hn|Hn]; [rewrite seqZ_nil by lia; constructor|].
  replace n with (Z.of_nat (Z.to_nat n)) by lia. generalize (Z.to_nat n). clear. intros k. revert lo.
  induction k as [|k IH]; intros lo; [constructor|]. rewrite seqZ_cons by lia.
  replace (Z.pred (Z.of_nat (S k))) with (Z.of_nat k) by lia. constructor; [apply IH|].
  apply Forall_forall. intros x Hx%elem_of_seqZ. lia.
Qed.
Lemma spread_sorted minlen l : forall p, Forall (interval_ok minlen) l -> apart p l ->
  sorted (spread l) /\ Forall (fun x => p < x) (spread l).
Proof.
  induction l as [|[lo len] l IH]; intros p Hok Ha; [split; constructor|].
  apply Forall_cons in Hok as [(H1 & H2 & H3 & H4) Hok]. destruct Ha as [Ha1 Ha2]. cbn [fst snd] in *.
  destruct (IH (lo + len) Hok Ha2) as [Hs Hgt]. assert (spread ((lo, len) :: l) = seqZ lo len ++ spread l) as -> by done.
  rewrite Forall_forall in Hgt. split.
  - apply StronglySorted_app_2; [|apply seqZ_sorted|done]. intros x y Hx%elem_of_seqZ Hy. specialize (Hgt y Hy). lia.
  - apply Forall_app. split; apply Forall_forall; [intros x Hx%elem_of_seqZ; lia|]. intros x Hx. specialize (Hgt x Hx). lia.
Qed.
Lemma sortedb_true l : sorted l -> sortedb l = true.
Proof. intros Hs. apply bool_decide_eq_true_2. by apply StronglySorted_Sorted. Qed.
Lemma merge_spec (a b : list Z) : sorted a -> sorted b ->
  exists l, merge_at (length a) (a ++ b) = Ok l /\ sorted l /\ l ≡ₚ a ++ b.
Proof.
  intros Ha Hb. unfold merge_at. rewrite take_app_length, drop_app_length.
  destruct a as [|x a]; [by exists b|]. destruct b as [|y b]; [exists (x :: a); by rewrite app_nil_r|].
  unfold inplace_merge. rewrite !sortedb_true by done. cbn [andb]. eexists. split; [done|]. split; [|apply merge_Permutation].
  apply Sorted_StronglySorted; [intros ? ? ?; lia|]. apply Sorted_list_merge; [intros ? ?; lia|by apply StronglySorted_Sorted..].
Qed.

(** ** A node *)

(** A code for the list [ls] of node [id], given the list [ref] that it refers
    to. *)
Record code_ok (W minlen id : Z) (c : code) (ls ref : list Z) : Prop := {
  ok_range : Forall in_range ls;
  ok_sorted : sorted ls;
  ok_count : Z.of_nat (length ls) < 2 ^ 30;
  ok_ref : Z.of_nat (c_ref c) <= W;
  ok_blocks : c_ref c <> 0%nat -> blocks_ok c ref;
  ok_ref_sorted : sorted ref;
  ok_intervals : intervals_ok minlen (c_intervals c);
  ok_none : minlen = 0 -> c_intervals c = [];
  ok_residuals : residuals_ok (c_residuals c);
  ok_parts : copied c ref ++ spread (c_intervals c) ++ c_residuals c ≡ₚ ls
}.
Lemma copied_sorted c ref : sorted ref -> sorted (copied c ref).
Proof.
  intros Hs. unfold copied. destruct (c_ref c); [constructor|]. eapply sorted_sublist; [apply select_sublist|done].
Qed.
Lemma spread_length minlen l : Forall (interval_ok minlen) l -> (length l <= length (spread l))%nat.
Proof.
  induction 1 as [|[lo len] l (_ & _ & H3 & _) _ IH]; [done|]. cbn [fst snd] in H3.
  assert (spread ((lo, len) :: l) = seqZ lo len ++ spread l) as -> by done. rewrite length_app, length_seqZ. cbn [length]. lia.
Qed.
Lemma links_spec r b id c ls ref rest : wf b -> eof b = false -> ls <> [] ->
  bits b = encode_reference (windowSize r) c ++
    (if bool_decide (length (copied c ref) = length ls) then [] else encode_extra (minIntervalLength r) (zetaK r) id c) ++ rest ->
  0 <= windowSize r < 2 ^ 30 -> 0 <= minIntervalLength r < 2 ^ 29 -> 1 <= zetaK r < 2 ^ 30 -> in_range id ->
  code_ok (windowSize r) (minIntervalLength r) id c ls ref ->
  (c_ref c <> 0%nat -> exists nd, vec_at (window r) (Z.rem (id - Z.of_nat (c_ref c)) (windowSize r + 1)) = Ok nd /\ links nd = ref) ->
  exists b', read_links r b id (Z.of_nat (length ls)) = Ok (ls, b') /\ wf b' /\ bits b' = rest /\ eof b' = false.
Proof.
  intros Hwf He Hne Hb HW Hm Hk Hid [O1 O2 O3 O4 O5 O6 O7 O8 O9 O10] Hwin. unfold read_links.
  pose proof (Permutation_length O10) as Hlen. rewrite !length_app in Hlen.
  destruct (reference_spec r b id (Z.of_nat (length ls)) c ref _ Hwf He Hb HW O4) as (b1 & -> & Hwf1 & Hb1 & He1).
  { intros Hc. split; [by apply O5|by apply Hwin]. }
  { lia. }
  run. case_bool_decide as Hall.
  - rewrite Hall, Z.eqb_refl. exists b1. split_and!; try done. do 2 f_equal.
    apply (StronglySorted_unique Z.le); [by apply copied_sorted|done|].
    rewrite <- O10. destruct (spread (c_intervals c)); [|cbn in Hlen; lia]. destruct (c_residuals c); [|cbn in Hlen; lia].
    cbn. by rewrite app_nil_r.
  - destruct (Z.eqb_spec (Z.of_nat (length (copied c ref))) (Z.of_nat (length ls))) as [E|_]; [lia|].
    unfold encode_extra in Hb1. rewrite <- app_assoc in Hb1. pose proof (spread_length _ _ (proj1 O7)) as Hsl.
    destruct (intervals_spec r b1 id c (copied c ref) (Z.of_nat (length ls)) _ Hwf1 He1 Hb1 Hm Hid O7 O8) as (b2 & -> & Hwf2 & Hb2 & He2);
      [lia|rewrite length_app; lia|]. run.
    destruct (merge_spec (copied c ref) (spread (c_intervals c))) as (l1 & -> & Hs1 & Hp1);
      [by apply copied_sorted|by destruct O7 as [Ho Ha]; destruct (spread_sorted _ _ _ Ho Ha)|]. run.
    destruct (residuals_spec r b2 id c l1 (Z.of_nat (length ls)) rest Hwf2 He2 Hb2 Hk Hid O9) as (b3 & -> & Hwf3 & Hb3 & He3).
    { rewrite length_app, (Permutation_length Hp1), length_app. lia. }
    run. destruct (merge_spec l1 (c_residuals c)) as (l2 & -> & Hs2 & Hp2); [done| |].
    { destruct O9 as [_ Hlt]. clear -Hlt. induction Hlt as [|x l _ IH Hx]; constructor; [done|].
      eapply Forall_impl; [exact Hx|]. intros y Hy. cbn in Hy. lia. }
    run. exists b3. split_and!; try done. do 2 f_equal. apply (StronglySorted_unique Z.le); [done..|].
    by rewrite Hp2, Hp1, <- app_assoc, O10.
Qed.

(** ** A graph *)

(** The slots of the window hold the lists of the last nodes. *)
Record ring r (done : list (list Z)) : Prop := {
  rg_size : Z.of_nat (length (window r)) = windowSize r + 1;
  rg_node : node r = Z.of_nat (length done);
  rg_lists : forall i ls, done !! i = Some ls -> Z.of_nat (length done) <= Z.of_nat i + windowSize r ->
    exists nd, window r !! Z.to_nat (Z.of_nat i mod (windowSize r + 1)) = Some nd /\ links nd = ls
}.
Lemma vec_at_mod r (z : Z) nd : 0 <= z -> window r !! Z.to_nat (z mod (windowSize r + 1)) = Some nd -> 0 < windowSize r + 1 ->
  vec_at (window r) (Z.rem z (windowSize r + 1)) = Ok nd.
Proof.
  intros Hz Hnd Hw. rewrite Z.rem_mod_nonneg by lia. pose proof (Z.mod_pos_bound z (windowSize r + 1) Hw).
  rewrite <- (Z2Nat.id (z mod _)) by lia. by apply vec_at_Some.
Qed.
Lemma ring_store r done b ls w' : ring r done -> 0 <= windowSize r ->
  w' = <[Z.to_nat (Z.of_nat (length done) mod (windowSize r + 1)) := mkNode (Z.of_nat (length done)) ls]> (window r) ->
  ring (mk b (windowSize r) (minIntervalLength r) (zetaK r) w' (Z.of_nat (length done) + 1)) (done ++ [ls]).
Proof.
  intros [Hsz Hn Hl] HW ->. pose proof (Z.mod_pos_bound (Z.of_nat (length done)) (windowSize r + 1) ltac:(lia)).
  split; cbn [window windowSize node]; [by rewrite length_insert|rewrite length_app; cbn; lia|].
  intros i ls' Hi Hle. rewrite length_app in Hle. cbn [length] in Hle. apply lookup_app_Some in Hi as [Hi|[Hge Hi]].
  - pose proof (lookup_lt_Some _ _ _ Hi). destruct (Hl i ls' Hi) as (nd & Hnd & <-); [lia|]. exists nd. split; [|done].
    rewrite list_lookup_insert_ne; [done|]. intros E. pose proof (Z.mod_pos_bound (Z.of_nat i) (windowSize r + 1) ltac:(lia)).
    assert (Z.of_nat (length done) mod (windowSize r + 1) = Z.of_nat i mod (windowSize r + 1)) as Em by lia.
    pose proof (Z.div_mod (Z.of_nat (length done)) (windowSize r + 1) ltac:(lia)) as D1.
    pose proof (Z.div_mod (Z.of_nat i) (windowSize r + 1) ltac:(lia)) as D2. rewrite Em in D1.
    set (q1 := Z.of_nat (length done) / _) in D1. set (q2 := Z.of_nat i / _) in D2. set (a := _ mod _) in D1, D2.
    assert ((windowSize r + 1) * (q1 - q2) = Z.of_nat (length done) - Z.of_nat i) as D3 by (rewrite Z.mul_sub_distr_l; lia).
    assert (0 < q1 - q2 < 1) by nia. lia.
  - apply list_lookup_singleton_Some in Hi as [Hi <-]. assert (i = length done) as -> by lia.
    rewrite list_lookup_insert_eq by lia. by eexists.
Qed.

Section Graph.
Variables (W minlen k : Z).
Hypothesis W_range : 0 <= W < 2 ^ 29.
Hypothesis minlen_range : 0 <= minlen < 2 ^ 29.
Hypothesis k_range : 1 <= k < 2 ^ 30.

Fixpoint graph_ok (done : list (list Z)) (g : list (code * list Z)) : Prop :=
  match g with
  | [] => True
  | (c, ls) :: g => code_ok W minlen (Z.of_nat (length done)) c ls (referred done c) /\ (c_ref c <= length done)%nat /\
                    graph_ok (done ++ [ls]) g
  end.
Definition params r : Prop := windowSize r = W /\ minIntervalLength r = minlen /\ zetaK r = k.

Lemma node_spec r done c ls rest : ring r done -> params r -> wf (br r) -> in_range (Z.of_nat (length done)) ->
  code_ok W minlen (Z.of_nat (length done)) c ls (referred done c) -> (c_ref c <= length done)%nat ->
  bits (br r) = encode_node W minlen k (Z.of_nat (length done)) c ls (referred done c) ++ rest ->
  exists r', readNode r = Ok (Some (mkNode (Z.of_nat (length done)) ls), r') /\ ring r' (done ++ [ls]) /\ params r' /\
    wf (br r') /\ eof (br r') = false /\ bits (br r') = rest.
Proof.
  intros Hring (Ew & Em & Ek) Hwf Hid Hok Hc Hb. pose proof W_range as HW. pose proof minlen_range as HM. pose proof k_range as HK.
  rewrite <- Ew in HW, Hok, Hb. rewrite <- Em in HM, Hok, Hb. rewrite <- Ek in HK, Hb. pose proof Hring as [Hsz Hn Hl]. unfold in_range in Hid.
  unfold readNode. destruct (Z.eqb_spec (windowSize r + 1) 0); [lia|]. run. rewrite Hn.
  pose proof (Z.mod_pos_bound (Z.of_nat (length done)) (windowSize r + 1) ltac:(lia)) as Hmod.
  set (slot := Z.to_nat (Z.of_nat (length done) mod (windowSize r + 1))) in *.
  destruct (lookup_lt_is_Some_2 (window r) slot) as [nd Hnd]; [lia|].
  rewrite (vec_at_mod r _ nd) by (done || lia). run. rewrite int_small by lia. run.
  unfold encode_node in Hb. rewrite <- app_assoc in Hb. pose proof (ok_count _ _ _ _ _ _ Hok) as Hcount.
  destruct (gamma_small (br r) _ _ Hwf Hb) as (b1 & -> & Hwf1 & Hb1 & He1); [split; lia|]. run. rewrite He1.
  rewrite to_int32_small by lia. destruct (Z.ltb_spec (Z.of_nat (length ls)) 0); [lia|].
  assert (forall nd, vec_set (window r) (Z.rem (Z.of_nat (length done)) (windowSize r + 1)) nd = Ok (<[slot := nd]> (window r))) as Hset.
  { intros nd'. rewrite Z.rem_mod_nonneg by lia. rewrite <- (Z2Nat.id (_ mod _)) by lia. apply vec_set_lt. lia. }
  destruct ls as [|x ls].
  - cbn [length Z.of_nat Z.eqb]. rewrite Hset. run. eexists. split; [done|].
    split_and!; [by apply ring_store; [|lia|]|done..].
  - destruct (Z.eqb_spec (Z.of_nat (length (x :: ls))) 0) as [E|_]; [cbn in E; lia|]. rewrite <- app_assoc in Hb1.
    destruct (links_spec r b1 (Z.of_nat (length done)) c (x :: ls) (referred done c) rest Hwf1 He1 ltac:(done) Hb1)
      as (b2 & -> & Hwf2 & Hb2 & He2); try done; [lia| |].
    { intros Hc0. pose proof (ok_ref _ _ _ _ _ _ Hok) as Href. unfold referred.
      destruct (lookup_lt_is_Some_2 done (length done - c_ref c)) as [ref Eref]; [lia|]. rewrite Eref. cbn [default].
      destruct (Hl _ _ Eref) as (nd' & Hnd' & <-); [lia|]. exists nd'. split; [|done].
      replace (Z.of_nat (length done) - Z.of_nat (c_ref c)) with (Z.of_nat (length done - c_ref c)) by lia.
      apply vec_at_mod; [lia|done|lia]. }
    run. rewrite Hset. run. eexists. split; [done|]. split_and!; [by apply ring_store; [|lia|]|done..].
Qed.

(** The zeros that fill up the last byte end the reading. *)
Lemma fixed_end n : forall b acc, wf b -> bits b = [] -> eof b = true ->
  exists v b', fixed_loop n b acc = Ok (v, b') /\ eof b' = true.
Proof.
  induction n as [|n IH]; intros b acc Hwf Hb He; cbn [fixed_loop]; [by exists acc, b|].
  destruct (readBit_end b Hwf Hb) as (b1 & -> & Hwf1 & Hb1 & He1). run. by apply IH.
Qed.
Lemma end_spec r done z : ring r done -> params r -> wf (br r) -> in_range (Z.of_nat (length done)) ->
  eof (br r) = false -> bits (br r) = replicate z false -> (z < 8)%nat ->
  exists r', readNode r = Ok (None, r').
Proof.
  intros Hring (Ew & _ & _) Hwf Hid He Hb Hz. pose proof W_range as HW. rewrite <- Ew in HW. pose proof Hring as [Hsz Hn Hl]. unfold in_range in Hid.
  unfold readNode. destruct (Z.eqb_spec (windowSize r + 1) 0); [lia|]. run. rewrite Hn.
  pose proof (Z.mod_pos_bound (Z.of_nat (length done)) (windowSize r + 1) ltac:(lia)) as Hmod.
  set (slot := Z.to_nat (Z.of_nat (length done) mod (windowSize r + 1))) in *.
  destruct (lookup_lt_is_Some_2 (window r) slot) as [nd Hnd]; [lia|].
  rewrite (vec_at_mod r _ nd) by (done || lia). run. rewrite int_small by lia. run. unfold readSGamma, readUnary.
  destruct (unary_loop_end z (S (S (left_bits (br r)))) (br r) 0 Hwf Hb) as (b1 & -> & Hwf1 & Hb1 & He1);
    [rewrite <- bits_length, Hb, length_replicate by done; lia|done|lia|lia|]. run.
  unfold shift1. destruct (Z.leb_spec 0 (0 + Z.of_nat z + 1)); [|lia]. destruct (Z.ltb_spec (0 + Z.of_nat z + 1) 31); [|lia].
  cbn [andb]. run. rewrite to_int32_small by lia. unfold readFixed. destruct (Z.ltb_spec (0 + Z.of_nat z + 1) 0); [lia|].
  destruct (fixed_end (Z.to_nat (0 + Z.of_nat z + 1)) b1 0 Hwf1 Hb1 He1) as (v & b2 & -> & He2). run. rewrite He2.
  rewrite Z.rem_mod_nonneg by lia. rewrite <- (Z2Nat.id (_ mod _)) by lia. rewrite vec_set_lt by lia. run. by eexists.
Qed.
Lemma graph_spec g : forall r done z, ring r done -> params r -> wf (br r) -> eof (br r) = false -> graph_ok done g ->
  Z.of_nat (length done + length g) < 2 ^ 29 -> (z < 8)%nat ->
  bits (br r) = encode_graph W minlen k done g ++ replicate z false ->
  exists r', read_graph (S (length g)) r = Ok (g.*2, r').
Proof.
  induction g as [|[c ls] g IH]; intros r done z Hring Hp Hwf He Hok Hlen Hz Hb; cbn [length] in *.
  - cbn [read_graph]. destruct (end_spec r done z Hring Hp Hwf) as (r' & ->); try done; [unfold in_range; lia|]. run. by eexists.
  - destruct Hok as (Hok & Hc & Hrest). cbn [encode_graph] in Hb. rewrite <- app_assoc in Hb.
    destruct (node_spec r done c ls _ Hring Hp Hwf ltac:(unfold in_range; lia) Hok Hc Hb) as (r1 & E1 & Hring1 & Hp1 & Hwf1 & He1 & Hb1).
    destruct (IH r1 (done ++ [ls]) z Hring1 Hp1 Hwf1 He1 Hrest) as (r2 & E2); [rewrite length_app; cbn; lia|done|done|].
    change (read_graph (S (S (length g))) r) with ('(n, r) ← readNode r; match n with None => Ok ([], r)
      | Some n => '(ns, r) ← read_graph (S (length g)) r; Ok (links n :: ns, r) end).
    rewrite E1. run. rewrite E2. run. by eexists.
Qed.

(** The lists are read back in order and complete, whatever references,
    intervals and residuals a writer chose, and then the end is reported. *)
Lemma graph_reads g : graph_ok [] g -> Z.of_nat (length g) < 2 ^ 29 ->
  exists r r', Reader_new (packed (encode_graph W minlen k [] g)) W minlen k = Ok r /\
    read_graph (S (length g)) r = Ok (g.*2, r').
Proof.
  intros Hok Hlen. unfold Reader_new. destruct (Z.leb_spec (2 ^ 31) (W + 1)); [lia|]. destruct (Z.ltb_spec (W + 1) 0); [lia|]. eexists.
  destruct (packed_spec (encode_graph W minlen k [] g)) as [Hwf (z & Hz & Hb)].
  edestruct (graph_spec g (mk (BitReader_new (packed (encode_graph W minlen k [] g))) W minlen k
    (replicate (Z.to_nat (W + 1)) (mkNode 0 [])) 0) [] z) as (r' & E); try done.
  - split; cbn [window node windowSize]; [rewrite length_replicate; lia|done|]. intros i ls Hi. done.
  - by eexists.
Qed.

End Graph.

(** Node 1 copies two blocks of node 0 and adds an interval and two links;
    node 2 has none, node 3 is node 1. *)
Definition sample_graph : list (code * list Z) :=
  [({| c_ref := 0; c_blocks := []; c_intervals := [(4, 4)]; c_residuals := [1; 20] |}, [1; 4; 5; 6; 7; 20]);
   ({| c_ref := 1; c_blocks := [1; 2]%nat; c_intervals := [(10, 3)]; c_residuals := [0; 30] |}, [0; 1; 6; 7; 10; 11; 12; 20; 30]);
   ({| c_ref := 0; c_blocks := []; c_intervals := []; c_residuals := [] |}, []);
   ({| c_ref := 2; c_blocks := []; c_intervals := []; c_residuals := [] |}, [0; 1; 6; 7; 10; 11; 12; 20; 30])].
Example sample_reads :
  (r ← Reader_new (packed (encode_graph 2 3 3 [] sample_graph)) 2 3 3;
   '(ns, _) ← read_graph 5 r; Ok ns) = Ok (snd <$> sample_graph).
Proof. vm_compute. reflexivity. Qed.

#[local] Instance in_range_dec x : Decision (in_range x).
Proof. unfold in_range. apply _. Defined.
#[local] Instance interval_ok_dec m i : Decision (interval_ok m i).
Proof. unfold interval_ok. apply _. Defined.
(** Everything about the sample can be decided. *)
Ltac decided := solve [apply (bool_decide_unpack _); vm_compute; exact I | done | cbn; lia].
Lemma sample_graph_ok : graph_ok 2 3 [] sample_graph.
Proof.
  cbn [graph_ok sample_graph]. split_and!; try decided; split; cbn [c_ref c_blocks c_intervals c_residuals tail]; try decided;
    try (intros _; split; decided); try (split; [decided|cbn; lia]); try (split; decided).
Qed.
End WebGraph.
