(* ===== verification/WebText.v ===== *)
(** * Text files of a WebGraph database: external/webgraph/webgraph.cc

    [PropertiesReader] reads the Java properties of a graph, [URLReader] the
    lines of the list of URLs, in blocks of 16384 bytes.  Characters are the
    bytes 0 to 255 and the end of the file is -1. *)
From S2P Require Import Prelude StringPiece BitReader WebGraph.

Module URLReader.
Import BitReader.
Definition buf_size : nat := Z.to_nat (16 * 1024).
Record t := mk { src : gzFile; buf : list Z; bufLen : Z; bufPos : Z }.
Implicit Types u : t.
Definition fill u : t * bool :=
  let '(data, len, f) := read (src u) buf_size in
  let n := to_uint32 len in
  (mk f (data ++ drop (length data) (buf u)) n 0, 0 <? n).
Definition URLReader_new (f : gzFile) : t := (fill (mk f (replicate buf_size 0) 0 0)).1.

(** [while (bufPos < bufLen && buf[bufPos] != '\n') ++bufPos]. *)
Fixpoint scan (n : nat) (l : list Z) (pos : Z) : outcome Z :=
  match n with
  | O => Ok pos
  | S n => c ← vec_at l pos; if c =? 10 then Ok pos else scan n l (pos + 1)
  end.
Definition chunk (l : list Z) (start stop : Z) : list Z := take (Z.to_nat (stop - start)) (drop (Z.to_nat start) l).
Fixpoint url_loop (fuel : nat) u (out : list Z) : outcome (list Z * bool * t) :=
  match fuel with
  | O => OutOfFuel
  | S fuel =>
    p ← scan (Z.to_nat (bufLen u - bufPos u)) (buf u) (bufPos u);
    let out := out ++ chunk (buf u) (bufPos u) p in
    if p <? bufLen u then Ok (out, true, mk (src u) (buf u) (bufLen u) (p + 1))
    else
      let '(u, more) := fill (mk (src u) (buf u) (bufLen u) p) in
      if more : bool then url_loop fuel u out
      else Ok (out, negb (bool_decide (out = [])), u)
  end.
(** Every turn but the last reads a block. *)
Definition readURL u : outcome (list Z * bool * t) := url_loop (S (S (length (gz_bytes (src u))))) u [].
(** [while (r.readURL(&url))]. *)
Fixpoint read_urls (fuel : nat) u : outcome (list (list Z)) :=
  match fuel with
  | O => OutOfFuel
  | S fuel =>
    '(s, more, u) ← readURL u;
    if more : bool then l ← read_urls fuel u; Ok (s :: l) else Ok []
  end.

(** ** The lines of a file *)

(** The last line needs no newline, unless it is empty. *)
Fixpoint lines (cur : list Z) (l : list Z) : list (list Z) :=
  match l with
  | [] => match cur with [] => [] | _ => [cur] end
  | c :: l => if c =? 10 then cur :: lines [] l else lines (cur ++ [c]) l
  end.
Definition rest u : list Z :=
  chunk (buf u) (bufPos u) (bufLen u) ++ gz_bytes (src u).
Record wf u : Prop := {
  wf_buf : length (buf u) = buf_size;
  wf_pos : 0 <= bufPos u <= bufLen u;
  wf_len : bufLen u <= Z.of_nat buf_size;
  wf_sound : gz_damaged (src u) = false
}.
Lemma fill_spec u : length (buf u) = buf_size -> gz_damaged (src u) = false ->
  exists u', fill u = (u', negb (bool_decide (gz_bytes (src u) = []))) /\ wf u' /\ rest u' = gz_bytes (src u) /\
    (length (gz_bytes (src u')) <= length (gz_bytes (src u)) - 1)%nat.
Proof.
  intros Hb Hd. unfold fill, read, gzread. destruct (gz_bytes (src u)) as [|c l] eqn:Es.
  - rewrite Hd. change (to_uint32 0) with 0. eexists. split; [done|]. split_and!; [|unfold rest, chunk; cbn; by rewrite Es|cbn; rewrite Es; cbn; lia].
    split; cbn [buf bufPos bufLen src]; [cbn; by rewrite drop_0|lia|unfold buf_size; lia|done].
  - rewrite <- Es. set (data := take buf_size (gz_bytes (src u))).
    assert (length data = Nat.min buf_size (length (gz_bytes (src u)))) as Hl by apply length_take.
    assert (0 < length (gz_bytes (src u)))%nat as Hpos by (rewrite Es; cbn; lia). unfold buf_size in *.
    assert (to_uint32 (Z.of_nat (length data)) = Z.of_nat (length data)) as -> by (apply wrapu_small; lia).
    eexists. split; [|split_and!; [split; cbn [buf bufPos bufLen src gz_bytes gz_damaged]|..]].
    + f_equal. rewrite bool_decide_eq_false_2 by (by rewrite Es). cbn [negb]. destruct (Z.ltb_spec 0 (Z.of_nat (length data))); [done|lia].
    + cbn [buf]. rewrite length_app, length_drop. unfold buf_size. lia.
    + cbn [bufPos bufLen]. lia.
    + cbn [bufLen]. unfold buf_size. lia.
    + done.
    + unfold rest, chunk. cbn [buf bufPos bufLen src gz_bytes]. rewrite Z.sub_0_r, Nat2Z.id. change (Z.to_nat 0) with 0%nat.
      rewrite drop_0, take_app_length. subst data. apply take_drop.
    + cbn [src gz_bytes]. rewrite length_drop. lia.
Qed.
Lemma scan_spec n : forall l pos, 0 <= pos -> (Z.to_nat pos + n <= length l)%nat ->
  exists k, (k <= n)%nat /\ scan n l pos = Ok (pos + Z.of_nat k) /\ Forall (fun c => c <> 10) (take k (drop (Z.to_nat pos) l)) /\
    ((k < n)%nat -> l !! (Z.to_nat pos + k)%nat = Some 10).
Proof.
  induction n as [|n IH]; intros l pos Hp Hl; cbn [scan].
  { exists 0%nat. split_and!; [lia|f_equal; lia|constructor|lia]. }
  destruct (lookup_lt_is_Some_2 l (Z.to_nat pos)) as [c Hc]; [lia|].
  assert (vec_at l pos = Ok c) as -> by (rewrite <- (Z2Nat.id pos) by lia; by apply vec_at_Some). run.
  destruct (Z.eqb_spec c 10) as [->|Hne].
  - exists 0%nat. split_and!; [lia|f_equal; lia|constructor|]. intros _. by rewrite Nat.add_0_r.
  - destruct (IH l (pos + 1)) as (k & Hk & -> & Hall & Hend); [lia|lia|]. exists (S k). split_and!; [lia|f_equal; lia| |].
    + rewrite (drop_S l c) by done. cbn [take]. constructor; [done|]. by replace (S (Z.to_nat pos)) with (Z.to_nat (pos + 1)) by lia.
    + intros Hlt. replace (Z.to_nat pos + S k)%nat with (Z.to_nat (pos + 1) + k)%nat by lia. apply Hend. lia.
Qed.
Lemma lines_plain l : forall cur m, Forall (fun c => c <> 10) l -> lines cur (l ++ m) = lines (cur ++ l) m.
Proof.
  induction l as [|c l IH]; intros cur m Hall; [by rewrite app_nil_r|]. apply Forall_cons in Hall as [Hc Hall]. cbn [app lines].
  destruct (Z.eqb_spec c 10); [done|]. rewrite IH by done. by rewrite <- app_assoc.
Qed.
Lemma url_loop_spec fuel : forall u out, wf u -> (length (gz_bytes (src u)) < fuel)%nat ->
  exists s more u', url_loop fuel u out = Ok (s, more, u') /\ wf u' /\
    lines out (rest u) = if more : bool then s :: lines [] (rest u') else [].
Proof.
  induction fuel as [|fuel IH]; intros u out Hwf Hf; [lia|]. pose proof Hwf as [Hb Hp Hl Hd]. unfold buf_size in *. cbn [url_loop].
  destruct (scan_spec (Z.to_nat (bufLen u - bufPos u)) (buf u) (bufPos u)) as (k & Hk & -> & Hall & Hend); [lia|lia|]. run.
  assert (chunk (buf u) (bufPos u) (bufPos u + Z.of_nat k) = take k (drop (Z.to_nat (bufPos u)) (buf u))) as Hc
    by (unfold chunk; f_equal; lia).
  rewrite Hc. set (s0 := take k _) in *. destruct (Z.ltb_spec (bufPos u + Z.of_nat k) (bufLen u)) as [Hlt|Hge].
  - eexists _, _, _. split; [done|]. split; [split; cbn; unfold buf_size; (done || lia)|].
    specialize (Hend ltac:(lia)). unfold rest at 1, chunk.
    replace (Z.to_nat (bufLen u - bufPos u)) with (k + S (Z.to_nat (bufLen u - (bufPos u + Z.of_nat k + 1))))%nat by lia.
    rewrite <- take_take_drop, drop_drop. rewrite (drop_S (buf u) 10 (Z.to_nat (bufPos u) + k)) by exact Hend. cbn [take]. rewrite <- app_assoc.
    fold s0. rewrite lines_plain by done. cbn [app lines]. change (10 =? 10) with true. f_equal. f_equal.
    unfold rest, chunk. cbn [buf bufPos bufLen src]. do 3 f_equal. lia.
  - assert (k = Z.to_nat (bufLen u - bufPos u)) as Ek by lia.
    destruct (fill_spec (mk (src u) (buf u) (bufLen u) (bufPos u + Z.of_nat k))) as (u1 & -> & Hwf1 & Hr1 & Hl1);
      [by unfold buf_size; cbn|done|]. cbn [src] in Hr1, Hl1 |- *.
    assert (rest u = s0 ++ gz_bytes (src u)) as Hrest by (unfold rest, chunk; by rewrite <- Ek).
    rewrite Hrest, lines_plain by done. case_bool_decide as Hsrc; cbn [negb].
    + eexists _, _, _. split; [done|]. split; [done|]. rewrite Hr1, Hsrc. cbn [lines]. destruct (out ++ s0) as [|c l] eqn:Eo; [done|].
      rewrite bool_decide_eq_false_2 by done. done.
    + destruct (IH u1 (out ++ s0) Hwf1) as (s & more & u' & -> & Hwf' & E); [destruct (gz_bytes (src u)); [done|cbn in *; lia]|].
      exists s, more, u'. by rewrite <- Hr1.
Qed.
Lemma read_urls_spec ls : forall u fuel, wf u -> lines [] (rest u) = ls -> (length ls < fuel)%nat -> read_urls fuel u = Ok ls.
Proof.
  induction ls as [|s ls IH]; intros u fuel Hwf E Hf; (destruct fuel as [|fuel]; [lia|]); cbn [read_urls]; unfold readURL;
    destruct (url_loop_spec (S (S (length (gz_bytes (src u))))) u [] Hwf) as (s0 & more & u' & -> & Hwf' & E'); try lia;
    rewrite E in E'; run; destruct more; try done.
  injection E' as -> E'. rewrite (IH u' fuel) by (done || cbn in Hf; lia). done.
Qed.

(** The URLs that are read are the lines of the file, in order, whatever the
    lengths of the lines and wherever the blocks of 16384 bytes end; a last
    line without a newline is read too. *)
Theorem urls_are_lines (text : list Z) : 
  read_urls (S (length (lines [] text))) (URLReader_new {| gz_bytes := text; gz_damaged := false |}) = Ok (lines [] text).
Proof.
  unfold URLReader_new. destruct (fill_spec (mk {| gz_bytes := text; gz_damaged := false |} (replicate buf_size 0) 0 0)) as (u & -> & Hwf & Hr & _).
  - apply length_replicate.
  - done.
  - cbn [fst]. apply read_urls_spec; [done|by rewrite Hr|lia].
Qed.
End URLReader.

Module Properties.
Import BitReader.
Record t := mk { src : gzFile; physCR : bool; natBOL : bool; props : gmap (list Z) (list Z) }.
Implicit Types p : t.
Definition set_src p f : t := mk f (physCR p) (natBOL p) (props p).
Definition set_bol p b : t := mk (src p) (physCR p) b (props p).

(** Space, tab and form feed; these, newline and carriage return. *)
Definition isLWS (ch : Z) : bool := (ch =? 32) || (ch =? 9) || (ch =? 12).
Definition isWS (ch : Z) : bool := isLWS ch || (ch =? 10) || (ch =? 13).
Definition getPhys p : outcome (Z * t) :=
  '(ch, f) ← getc (src p);
  '(ch, f) ← (if physCR p && (ch =? 10) then getc f else Ok (ch, f));
  Ok (if ch =? 13 then 10 else ch, mk f (ch =? 13) (natBOL p) (props p)).

(** The loops read at least one character in a turn, except at the end. *)
Definition turns p : nat := S (S (length (gz_bytes (src p)))).
Fixpoint skip_ws (fuel : nat) (ch : Z) p : outcome (Z * t) :=
  match fuel with
  | O => OutOfFuel
  | S fuel => if isWS ch then '(ch, p) ← getPhys p; skip_ws fuel ch p else Ok (ch, p)
  end.
Fixpoint skip_line (fuel : nat) p : outcome (Z * t) :=
  match fuel with
  | O => OutOfFuel
  | S fuel => '(ch, p) ← getPhys p; if negb (ch =? 10) && negb (ch =? -1) then skip_line fuel p else Ok (ch, p)
  end.
(** The loop [while (natBOL)] and what follows. *)
Fixpoint nat_loop (fuel : nat) (ch : Z) p : outcome (Z * t) :=
  match fuel with
  | O => OutOfFuel
  | S fuel =>
    if natBOL p then
      '(ch, p) ← skip_ws (turns p) ch p;
      if (ch =? 35) || (ch =? 33) then
        '(ch, p) ← skip_line (turns p) p;
        if ch =? -1 then Ok (ch, p) else nat_loop fuel ch p
      else Ok (ch, set_bol p false)
    else Ok (ch, set_bol p (ch =? 10))
  end.
Definition getNat p : outcome (Z * t) := '(ch, p) ← getPhys p; nat_loop (turns p) ch p.
Fixpoint escaped_loop (fuel : nat) p : outcome (Z * bool * t) :=
  match fuel with
  | O => OutOfFuel
  | S fuel =>
    '(ch, p) ← getNat p;
    if ch =? 92 then
      '(ch, p) ← getNat p;
      if ch =? 116 then Ok (9, true, p)
      else if ch =? 110 then Ok (10, true, p)
      else if ch =? 102 then Ok (12, true, p)
      else if ch =? 114 then Ok (13, true, p)
      else if ch =? 10 then escaped_loop fuel p
      else if ch =? 117 then Throw
      else Ok (ch, true, p)
    else Ok (ch, false, p)
  end.
Definition getEscaped p : outcome (Z * bool * t) := escaped_loop (turns p) p.

(** [while (!escaped && isLWS(ch)) ch = getEscaped(&escaped)]. *)
Fixpoint skip_lws (fuel : nat) (ch : Z) (escaped : bool) p : outcome (Z * bool * t) :=
  match fuel with
  | O => OutOfFuel
  | S fuel =>
    if negb escaped && isLWS ch then '(ch, escaped, p) ← getEscaped p; skip_lws fuel ch escaped p
    else Ok (ch, escaped, p)
  end.
Definition separator (ch : Z) : bool := (ch =? 61) || (ch =? 58).
Fixpoint key_loop (fuel : nat) (key : list Z) p : outcome (list Z * Z * bool * t) :=
  match fuel with
  | O => OutOfFuel
  | S fuel =>
    '(ch, escaped, p) ← getEscaped p;
    if negb escaped && (separator ch || isWS ch || (ch =? -1)) then
      '(ch, escaped, p) ← skip_lws (turns p) ch escaped p;
      '(ch, escaped, p) ← (if negb escaped && separator ch
                           then '(ch, escaped, p) ← getEscaped p; skip_lws (turns p) ch escaped p
                           else Ok (ch, escaped, p));
      Ok (key, ch, escaped, p)
    else key_loop fuel (key ++ [wrapu 8 ch]) p
  end.
Fixpoint value_loop (fuel : nat) (val : list Z) (ch : Z) (escaped : bool) p : outcome (list Z * t) :=
  match fuel with
  | O => OutOfFuel
  | S fuel =>
    if escaped || negb ((ch =? 10) || (ch =? -1)) then
      '(ch', escaped, p) ← getEscaped p; value_loop fuel (val ++ [wrapu 8 ch]) ch' escaped p
    else Ok (val, p)
  end.
Definition getEntry p : outcome (bool * t) :=
  '(key, ch, escaped, p) ← key_loop (turns p) [] p;
  if (ch =? -1) && bool_decide (key = []) then Ok (false, p)
  else
    '(val, p) ← value_loop (turns p) [] ch escaped p;
    Ok (true, mk (src p) (physCR p) (natBOL p) (<[key := val]> (props p))).
Fixpoint entries (fuel : nat) p : outcome t :=
  match fuel with
  | O => OutOfFuel
  | S fuel => '(more, p) ← getEntry p; if more : bool then entries fuel p else Ok p
  end.
Definition PropertiesReader_new (f : gzFile) : outcome t :=
  let p := mk f false true ∅ in entries (turns p) p.
Definition get p (key def : list Z) : list Z := default def (props p !! key).

(** ** Files of properties *)
Inductive line := Blank | Comment (text : list Z) | Entry (key val : list Z).
Definition print_line (x : line) : list Z :=
  match x with
  | Blank => [10]
  | Comment text => 35 :: text ++ [10]
  | Entry key val => key ++ [61] ++ val ++ [10]
  end.
Definition print (ls : list line) : list Z := ls ≫= print_line.
Definition defined (ls : list line) (m : gmap (list Z) (list Z)) : gmap (list Z) (list Z) :=
  fold_left (fun m x => match x with Entry k v => <[k := v]> m | _ => m end) ls m.
(** Bytes without a meaning of their own in a key, in a value and in a
    comment. *)
Definition key_char (c : Z) : Prop := 0 <= c < 256 /\ isWS c = false /\ separator c = false /\ c <> 92.
Definition value_char (c : Z) : Prop := 0 <= c < 256 /\ c <> 10 /\ c <> 13 /\ c <> 92.
Definition comment_char (c : Z) : Prop := 0 <= c < 256 /\ c <> 10 /\ c <> 13.
Definition head (l : list Z) : Z := match l with [] => -1 | c :: _ => c end.
Definition line_ok (x : line) : Prop :=
  match x with
  | Blank => True
  | Comment text => Forall comment_char text
  | Entry key val => Forall key_char key /\ head key <> 35 /\ head key <> 33 /\ Forall value_char val /\ isLWS (head val) = false
  end.
#[global] Instance key_char_dec c : Decision (key_char c).
Proof. unfold key_char. apply _. Defined.
#[global] Instance value_char_dec c : Decision (value_char c).
Proof. unfold value_char. apply _. Defined.
#[global] Instance comment_char_dec c : Decision (comment_char c).
Proof. unfold comment_char. apply _. Defined.
#[global] Instance line_ok_dec x : Decision (line_ok x).
Proof. destruct x; unfold line_ok; apply _. Defined.
Definition lit_bytes (s : cstr) : list Z := uchar <$> s.
Example sample_properties :
  (p ← PropertiesReader_new {| gz_bytes := lit_bytes (lit "#BVGraph") ++ [13; 10] ++ lit_bytes (lit "nodes = 1") ++ [92; 10] ++
        lit_bytes (lit "  23") ++ [10; 10] ++ lit_bytes (lit "zetak:3"); gz_damaged := false |};
   Ok (get p (lit_bytes (lit "nodes")) [], get p (lit_bytes (lit "zetak")) [])) =
  Ok (lit_bytes (lit "123"), lit_bytes (lit "3")).
Proof. vm_compute. reflexivity. Qed.

(** ** Reading a printed file back

    No carriage return is printed, so the state between two characters is the
    text that is left and whether a line begins. *)
Definition st (b : bool) (l : list Z) (m : gmap (list Z) (list Z)) : t := mk {| gz_bytes := l; gz_damaged := false |} false b m.
Definition no_entry (x : line) : Prop := match x with Entry _ _ => False | _ => True end.
(** What may follow the lines that are skipped. *)
Definition content (ch : Z) : Prop := isWS ch = false /\ ch <> 35 /\ ch <> 33.

Lemma ws_cases ch : isWS ch = false -> isLWS ch = false /\ ch <> 10 /\ ch <> 13.
Proof. unfold isWS. rewrite !orb_false_iff, !Z.eqb_neq. tauto. Qed.
Lemma getPhys_st b l m : head l <> 13 -> getPhys (st b l m) = Ok (head l, st b (tail l) m).
Proof.
  intros Hne. unfold getPhys, getc, st. cbn. destruct l as [|c l]; [done|]. cbn in *. run. by destruct (Z.eqb_spec c 13).
Qed.
Lemma skip_line_text text : forall fuel T b m, Forall comment_char text -> (length text < fuel)%nat ->
  skip_line fuel (st b (text ++ 10 :: T) m) = Ok (10, st b T m).
Proof.
  induction text as [|c text IH]; intros fuel T b m Hall Hf; (destruct fuel as [|fuel]; [lia|]); cbn [skip_line app].
  { rewrite getPhys_st by done. done. }
  apply Forall_cons in Hall as [(Hc & H10 & H13) Hall]. rewrite getPhys_st by done. cbn [head tail]. run.
  destruct (Z.eqb_spec c 10), (Z.eqb_spec c (-1)); try lia. cbn. apply IH; [done|cbn in Hf; lia].
Qed.
Lemma nat_loop_newline f T m : head T <> 13 -> nat_loop (S f) 10 (st true T m) = nat_loop (S f) (head T) (st true (tail T) m).
Proof.
  intros Hne. cbn [nat_loop]. change (natBOL (st true T m)) with true. change (natBOL (st true (tail T) m)) with true. cbv iota.
  f_equal. unfold turns at 1. cbn [skip_ws]. change (isWS 10) with true. cbv iota. rewrite getPhys_st by done. run.
  by destruct T as [|c T].
Qed.
Lemma head_skipped pre T : Forall no_entry pre -> content (head T) -> head (print pre ++ T) <> 13.
Proof.
  intros Hpre (Hws & _). destruct Hpre as [|[| |] pre Hx _]; cbn; [|done|done|done]. by apply ws_cases in Hws as (_ & _ & ?).
Qed.
Lemma nat_loop_skips pre : forall fuel T m, Forall no_entry pre -> Forall line_ok pre -> content (head T) -> (length pre < fuel)%nat ->
  nat_loop fuel (head (print pre ++ T)) (st true (tail (print pre ++ T)) m) = Ok (head T, st false (tail T) m).
Proof.
  induction pre as [|x pre IH]; intros fuel T m Hn Hok Hc Hf; (destruct fuel as [|fuel]; [lia|]).
  { cbn [print mbind list_bind app nat_loop]. change (natBOL (st true (tail T) m)) with true. destruct Hc as (Hws & H35 & H33). cbv iota.
    unfold turns. cbn [skip_ws]. rewrite Hws. run. destruct (Z.eqb_spec (head T) 35), (Z.eqb_spec (head T) 33); done. }
  apply Forall_cons in Hn as [Hx Hn]. apply Forall_cons in Hok as [Hxo Hok]. pose proof (head_skipped pre T Hn Hc) as H13. cbn in Hf.
  destruct x as [|text|]; [|..|done]; cbn [print mbind list_bind print_line app head tail].
  - rewrite nat_loop_newline by done. apply IH; (done || lia).
  - rewrite <- !app_assoc. cbn [app nat_loop]. change (natBOL (st true _ m)) with true. cbv iota.
    unfold turns. cbn [skip_ws]. run. change (isWS 35) with false. run. change ((35 =? 35) || (35 =? 33)) with true. cbv iota.
    rewrite skip_line_text by (done || (unfold st; cbn; rewrite length_app; cbn; lia)). run. change (10 =? -1) with false. cbv iota.
    destruct fuel as [|fuel]; [lia|]. rewrite nat_loop_newline by done. apply IH; (done || lia).
Qed.
Lemma print_length ls : (length ls <= length (print ls))%nat.
Proof. induction ls as [|[| |] ls IH]; cbn; rewrite ?length_app; cbn; rewrite ?length_app; cbn; unfold print in *; lia. Qed.
Lemma getNat_bol pre T m : Forall no_entry pre -> Forall line_ok pre -> content (head T) ->
  getNat (st true (print pre ++ T) m) = Ok (head T, st false (tail T) m).
Proof.
  intros Hn Hok Hc. unfold getNat. rewrite getPhys_st by (by apply head_skipped). run. apply nat_loop_skips; try done.
  pose proof (print_length pre). unfold turns, st. cbn. destruct (print pre) as [|c l] eqn:E; cbn in *; [lia|]. rewrite length_app. lia.
Qed.
Lemma getEscaped_plain p ch p' : getNat p = Ok (ch, p') -> ch <> 92 -> getEscaped p = Ok (ch, false, p').
Proof. intros E Hne. unfold getEscaped, turns. cbn [escaped_loop]. rewrite E. run. by destruct (Z.eqb_spec ch 92). Qed.
Lemma getEscaped_mid T m : head T <> 13 -> head T <> 92 ->
  getEscaped (st false T m) = Ok (head T, false, st (head T =? 10) (tail T) m).
Proof. intros H13 H92. apply getEscaped_plain; [|done]. unfold getNat. rewrite getPhys_st by done. done. Qed.
Lemma skip_lws_none p ch : isLWS ch = false -> skip_lws (turns p) ch false p = Ok (ch, false, p).
Proof. intros E. unfold turns. cbn [skip_lws]. by rewrite E. Qed.

Lemma byte_same c : 0 <= c < 256 -> wrapu 8 c = c.
Proof. intros Hc. apply wrapu_small. lia. Qed.
Lemma key_loop_spec T m : head T <> 13 -> head T <> 92 -> isLWS (head T) = false ->
  forall k fuel acc p, Forall key_char k -> (length k < fuel)%nat ->
  getEscaped p = Ok (head (k ++ 61 :: T), false, st false (tail (k ++ 61 :: T)) m) ->
  key_loop fuel acc p = Ok (acc ++ k, head T, false, st (head T =? 10) (tail T) m).
Proof.
  intros H13 H92 Hlws. induction k as [|c k IH]; intros fuel acc p Hk Hf E; (destruct fuel as [|fuel]; [lia|]);
    cbn [key_loop]; rewrite E; cbn [app head tail]; run.
  - change (negb false && (separator 61 || isWS 61 || (61 =? -1))) with true. cbv iota. rewrite skip_lws_none by done. run.
    change (negb false && separator 61) with true. cbv iota. rewrite getEscaped_mid by done. run.
    rewrite skip_lws_none by done. run. by rewrite app_nil_r.
  - apply Forall_cons in Hk as [(Hc & Hws & Hsep & H92c) Hk]. rewrite Hws, Hsep. destruct (Z.eqb_spec c (-1)); [lia|]. cbn [negb andb orb].
    rewrite byte_same by done. assert (head (k ++ 61 :: T) <> 13 /\ head (k ++ 61 :: T) <> 92 /\ head (k ++ 61 :: T) <> 10) as (? & ? & ?).
    { destruct Hk as [|c' k' (? & Hws' & ? & ?)]; [done|]. apply ws_cases in Hws' as (_ & ? & ?). done. }
    rewrite (IH fuel (acc ++ [c])); [by rewrite <- app_assoc|done|cbn in Hf; lia|]. rewrite getEscaped_mid by done.
    by destruct (Z.eqb_spec (head (k ++ 61 :: T)) 10).
Qed.
Lemma value_loop_spec T m v : forall fuel acc, Forall value_char v -> (length v < fuel)%nat ->
  value_loop fuel acc (head (v ++ 10 :: T)) false (st (head (v ++ 10 :: T) =? 10) (tail (v ++ 10 :: T)) m) = Ok (acc ++ v, st true T m).
Proof.
  induction v as [|c v IH]; intros fuel acc Hv Hf; (destruct fuel as [|fuel]; [lia|]); cbn [app head tail value_loop].
  { change (10 =? 10) with true. cbn. by rewrite app_nil_r. }
  apply Forall_cons in Hv as [(Hc & H10 & H13 & H92) Hv]. destruct (Z.eqb_spec c 10), (Z.eqb_spec c (-1)); try lia. cbn [orb negb].
  assert (head (v ++ 10 :: T) <> 13 /\ head (v ++ 10 :: T) <> 92) as [? ?] by (destruct Hv as [|? ? (? & ? & ? & ?)]; done).
  rewrite getEscaped_mid by done. run. rewrite byte_same, IH by (done || cbn in Hf; lia). by rewrite <- app_assoc.
Qed.
Lemma getEntry_entry pre k v T m : Forall no_entry pre -> Forall line_ok pre -> line_ok (Entry k v) ->
  getEntry (st true (print pre ++ print_line (Entry k v) ++ T) m) = Ok (true, st true T (<[k := v]> m)).
Proof.
  intros Hn Hok (Hk & H35 & H33 & Hv & Hlws). unfold getEntry. cbn [print_line]. rewrite <- !app_assoc. cbn [app].
  set (V := v ++ 10 :: T).
  assert (head V <> 13 /\ head V <> 92 /\ isLWS (head V) = false /\ (head V =? -1) = false) as (? & ? & ? & Hend).
  { subst V. destruct Hv as [|c v' (? & ? & ? & ?)]; [done|]. cbn in *. split_and!; [done|done|done|]. apply Z.eqb_neq. lia. }
  assert (content (head (k ++ 61 :: V)) /\ head (k ++ 61 :: V) <> 92) as [Hcont H92] by (destruct Hk as [|c k' (? & ? & ? & ?)]; done).
  assert (length k + length v + 2 <= length (print pre ++ k ++ [61%Z] ++ V))%nat as Hlen
    by (subst V; rewrite !length_app; cbn; lia). cbn [app] in Hlen.
  rewrite (key_loop_spec V m) with (k := k);
    [|done|done|done|done|unfold turns, st; cbn [src gz_bytes]; lia|apply getEscaped_plain; [by apply getNat_bol|done]].
  run. cbn [app]. rewrite Hend. cbn [andb]. subst V. rewrite value_loop_spec; [done|done|].
  unfold turns, st. cbn [src gz_bytes]. destruct v; cbn; rewrite ?length_app; lia.
Qed.
Lemma getEntry_end pre m : Forall no_entry pre -> Forall line_ok pre -> getEntry (st true (print pre ++ []) m) = Ok (false, st false [] m).
Proof.
  intros Hn Hok. unfold getEntry. change (turns (st true (print pre ++ []) m)) with (S (S (length (print pre ++ [])))). cbn [key_loop].
  rewrite (getEscaped_plain _ (-1) (st false [] m)) by (done || by apply (getNat_bol pre [])). done.
Qed.
Lemma entries_spec ls : forall pre fuel m, Forall no_entry pre -> Forall line_ok pre -> Forall line_ok ls -> (length ls < fuel)%nat ->
  entries fuel (st true (print pre ++ print ls) m) = Ok (st false [] (defined ls m)).
Proof.
  induction ls as [|x ls IH]; intros pre fuel m Hn Hp Hok Hf.
  { destruct fuel as [|fuel]; [lia|]. cbn [entries]. change (print []) with (@nil Z). rewrite getEntry_end by done. done. }
  apply Forall_cons in Hok as [Hx Hok]. change (print (x :: ls)) with (print_line x ++ print ls). cbn in Hf.
  assert (no_entry x -> entries fuel (st true (print pre ++ print_line x ++ print ls) m) = Ok (st false [] (defined ls m))) as Hskip.
  { intros Hxn. rewrite app_assoc.
    replace (print pre ++ print_line x) with (print (pre ++ [x])) by (unfold print; rewrite bind_app; cbn; by rewrite app_nil_r).
    apply IH; [apply Forall_app; by repeat constructor|apply Forall_app; by repeat constructor|done|lia]. }
  destruct x as [|text|k v]; [by apply Hskip|by apply Hskip|].
  destruct fuel as [|fuel]; [lia|]. cbn [entries]. rewrite getEntry_entry by done. run. cbn [defined fold_left].
  apply (IH [] fuel); (done || constructor || lia).
Qed.

(** Reading gives the mapping that the file defines: comments and blank lines
    are skipped, the last line of a key counts, values are read whole. *)
Lemma properties_read (ls : list line) : Forall line_ok ls ->
  PropertiesReader_new {| gz_bytes := print ls; gz_damaged := false |} = Ok (st false [] (defined ls ∅)).
Proof.
  intros Hok. unfold PropertiesReader_new. apply (entries_spec ls [] _ ∅); try done; [constructor..|].
  pose proof (print_length ls). unfold turns. cbn. lia.
Qed.

End Properties.
