(* ===== verification/WebDatabase.v ===== *)
(** * WebGraph databases: external/webgraph/webgraph.cc

    The constructor of [Reader]: the properties of the graph, the graph it may
    refer to, and the integers among the properties, read with [strtol].  The
    files of a database are a map from paths to (decompressed) contents. *)
From S2P Require Import Prelude StringPiece Decimal BitReader WebGraph WebText.

Module Database.
Import BitReader WebGraph.
Notation "'$' s" := (Properties.lit_bytes (lit s)) (at level 1, format "'$' s").

(** ** [strtol] with base 0 *)
(** A C string ends at its first zero. *)
Fixpoint c_str (s : list Z) : list Z := match s with [] => [] | c :: s => if c =? 0 then [] else c :: c_str s end.
Definition isspace (c : Z) : bool := (c =? 32) || ((9 <=? c) && (c <=? 13)).
Fixpoint skip_space (s : list Z) : list Z := match s with c :: s' => if isspace c then skip_space s' else s | [] => [] end.
Definition digit_value (c : Z) : Z :=
  if (48 <=? c) && (c <=? 57) then c - 48
  else if (97 <=? c) && (c <=? 122) then c - 87
  else if (65 <=? c) && (c <=? 90) then c - 55
  else 36.
Fixpoint read_digits (base : Z) (s : list Z) (acc : Z) : Z * list Z :=
  match s with
  | c :: s' => if digit_value c <? base then read_digits base s' (base * acc + digit_value c) else (acc, s)
  | [] => (acc, [])
  end.
Definition sign (s : list Z) : bool * list Z :=
  match s with c :: s' => if c =? 45 then (true, s') else if c =? 43 then (false, s') else (false, s) | [] => (false, []) end.
Definition radix (s : list Z) : Z * list Z :=
  match s with
  | 48 :: x :: d :: s' => if ((x =? 120) || (x =? 88)) && (digit_value d <? 16) then (16, d :: s') else (8, s)
  | 48 :: _ => (8, s)
  | _ => (10, s)
  end.
(** The number, the text after it and whether the number was out of range; a
    text without a number is not consumed. *)
Definition strtol (s : list Z) : Z * list Z * bool :=
  let '(neg, body) := sign (skip_space s) in
  let '(base, body) := radix body in
  match body with
  | c :: _ =>
    if digit_value c <? base then
      let '(n, rest) := read_digits base body 0 in
      let n := if neg : bool then - n else n in
      if n <? - 2 ^ 63 then (- 2 ^ 63, rest, true) else if 2 ^ 63 <=? n then (2 ^ 63 - 1, rest, true) else (n, rest, false)
    else (0, s, false)
  | [] => (0, s, false)
  end.
Definition getInt (p : Properties.t) (key : list Z) (def : Z) : outcome Z :=
  match Properties.props p !! key with
  | None => Ok def
  | Some v =>
    let '(res, rest, erange) := strtol (c_str v) in
    if erange || negb (bool_decide (rest = [])) then Throw else Ok (to_int32 res)
  end.

(** ** Opening a database *)
(** [gzopen]; a file that is not there is an [IOError]. *)
Definition gzopen (fs : gmap (list Z) gzFile) (path : list Z) : outcome gzFile :=
  match fs !! c_str path with None => Throw | Some f => Ok f end.
Definition properties_of (fs : gmap (list Z) gzFile) (base : list Z) : outcome Properties.t :=
  f ← gzopen fs (base ++ $".properties"); Properties.PropertiesReader_new f.
(** [substr(0, rfind('/') + 1)]. *)
Fixpoint upto_slash (s : list Z) : option (list Z) :=
  match s with
  | [] => None
  | c :: s => match upto_slash s with Some d => Some (c :: d) | None => if c =? 47 then Some [c] else None end
  end.
Definition graph_base (base under : list Z) : list Z :=
  match under with [] => base | _ => default $"./" (upto_slash base) ++ under end.

Record t := mk { basePath : list Z; nodes : Z; reader : Reader }.
Definition Reader_open (fs : gmap (list Z) gzFile) (base : list Z) : outcome t :=
  pr ← properties_of fs base;
  let under := Properties.get pr $"underlyinggraph" [] in
  let graphBase := graph_base base under in
  pr ← match under with [] => Ok pr | _ => properties_of fs graphBase end;
  let graphClass := Properties.get pr $"graphclass" [] in
  if negb (bool_decide (graphClass = $"it.unimi.dsi.webgraph.BVGraph") ||
           bool_decide (graphClass = $"class it.unimi.dsi.webgraph.BVGraph")) then Throw
  else
    W ← getInt pr $"windowsize" 0;
    minlen ← getInt pr $"minintervallength" 0;
    k ← getInt pr $"zetak" 3;
    nodes ← getInt pr $"nodes" 0;
    if negb (bool_decide (Properties.get pr $"compressionflags" [] = [])) then Throw
    else
      f ← gzopen fs (graphBase ++ $".graph.gz");
      r ← Reader_new f W minlen k;
      Ok (mk base nodes r).
Definition newURLReader (fs : gmap (list Z) gzFile) (d : t) : outcome URLReader.t :=
  f ← gzopen fs (basePath d ++ $".urls.gz"); Ok (URLReader.URLReader_new f).

(** ** Numbers *)
Definition decimal (n : Z) : list Z := Properties.lit_bytes (show_int n).
Lemma digit_range c : isdigit c = true -> 48 <= uchar c <= 57 /\ digit_value (uchar c) = uchar c - 48.
Proof.
  unfold isdigit, digit_value. rewrite andb_true_iff, !Z.leb_le. intros ?.
  destruct (Z.leb_spec 48 (uchar c)), (Z.leb_spec (uchar c) 57); cbn; lia.
Qed.
Lemma read_digits_spec s : forall acc, is_digits s -> read_digits 10 (Properties.lit_bytes s) acc = (parse_digits s acc, []).
Proof.
  induction s as [|c s IH]; intros acc Hs; [done|]. apply Forall_cons in Hs as [Hc Hs]. apply digit_range in Hc as [Hr Hv].
  cbn [Properties.lit_bytes fmap list_fmap read_digits]. rewrite Hv. destruct (Z.ltb_spec (uchar c - 48) 10); [|lia].
  by rewrite (IH _ Hs).
Qed.
Lemma digits_first fuel : forall n acc, 0 < n < 10 ^ Z.of_nat fuel -> exists c s, digits fuel n acc = c :: s /\ 49 <= uchar c <= 57.
Proof.
  induction fuel as [|fuel IH]; intros n acc Hn; [cbn in Hn; lia|]. cbn [digits]. destruct (Z.ltb_spec n 10).
  - eexists _, _. split; [done|]. rewrite Z.mod_small, uchar_char_of by lia. lia.
  - apply IH. rewrite Nat2Z.inj_succ, Z.pow_succ_r in Hn by lia. split; [apply Z.div_str_pos; lia|]. apply Z.div_lt_upper_bound; lia.
Qed.
Lemma strtol_decimal n : 0 <= n < 2 ^ 31 -> strtol (decimal n) = (n, [], false) /\ c_str (decimal n) = decimal n.
Proof.
  intros Hn. destruct (decide (n = 0)) as [->|Hne]; [done|]. unfold decimal, show_int. destruct (Z.ltb_spec n 0); [lia|].
  pose proof (digits_digits 20 n [] (Forall_nil_2 _)) as Hd. pose proof (parse_digits_spec 20 n [] ltac:(lia)) as Hp. change (parse_digits [] n) with n in Hp.
  destruct (digits_first 20 n [] ltac:(lia)) as (c & s & E & Hc). rewrite E in *. clear E. split.
  - pose proof (read_digits_spec (c :: s) 0 Hd) as Hr. rewrite Hp in Hr. cbn [Properties.lit_bytes fmap list_fmap] in *.
    unfold strtol. cbn [skip_space]. unfold isspace. destruct (Z.eqb_spec (uchar c) 32), (Z.leb_spec (uchar c) 13); try lia.
    rewrite andb_false_r. cbn [orb sign]. destruct (Z.eqb_spec (uchar c) 45), (Z.eqb_spec (uchar c) 43); try lia.
    assert (radix (uchar c :: (uchar <$> s)) = (10, uchar c :: (uchar <$> s))) as ->.
    { assert (forall z l, 49 <= z <= 57 -> radix (z :: l) = (10, z :: l)) as Hx; [|by apply Hx].
      intros z l Hz. assert (z = 49 \/ z = 50 \/ z = 51 \/ z = 52 \/ z = 53 \/ z = 54 \/ z = 55 \/ z = 56 \/ z = 57) as Hz' by lia.
      by destruct_or! Hz'; subst z. }
    apply Forall_cons in Hd as [Hd _]. apply digit_range in Hd as [_ Hv]. rewrite Hv. destruct (Z.ltb_spec (uchar c - 48) 10); [|lia].
    rewrite Hr. destruct (Z.ltb_spec n (- 2 ^ 63)), (Z.leb_spec (2 ^ 63) n); try lia. done.
  - clear -Hd. revert Hd. generalize (c :: s). clear c s. induction l as [|c s IH]; intros Hd; [done|]. apply Forall_cons in Hd as [Hc Hd].
    apply digit_range in Hc as [Hr _]. cbn [Properties.lit_bytes fmap list_fmap c_str]. destruct (Z.eqb_spec (uchar c) 0); [lia|].
    f_equal. by apply IH.
Qed.

(** ** A database that is written is read back *)
(** The properties of a graph of [n] nodes compressed with the given parameters. *)
Record bvgraph (m : gmap (list Z) (list Z)) (W minlen k n : Z) : Prop := {
  bv_class : m !! $"graphclass" = Some $"it.unimi.dsi.webgraph.BVGraph" \/ m !! $"graphclass" = Some $"class it.unimi.dsi.webgraph.BVGraph";
  bv_window : m !! $"windowsize" = Some (decimal W);
  bv_minlen : m !! $"minintervallength" = Some (decimal minlen);
  bv_zeta : m !! $"zetak" = Some (decimal k) \/ (m !! $"zetak" = None /\ k = 3);
  bv_nodes : m !! $"nodes" = Some (decimal n);
  bv_flags : default [] (m !! $"compressionflags") = []
}.
Lemma getInt_decimal p key def n : Properties.props p !! key = Some (decimal n) -> 0 <= n < 2 ^ 31 -> getInt p key def = Ok n.
Proof.
  intros E Hn. unfold getInt. rewrite E. destruct (strtol_decimal n Hn) as [E1 ->]. rewrite E1. cbn. f_equal. apply to_int32_small. lia.
Qed.
Lemma c_str_app s s' : c_str s = s -> c_str s' = s' -> c_str (s ++ s') = s ++ s'.
Proof.
  induction s as [|c s IH]; intros E E'; [done|]. cbn in *. destruct (c =? 0); [done|]. injection E as E. by rewrite IH.
Qed.
Lemma gzopen_at fs base ext f : c_str base = base -> c_str ext = ext -> fs !! (base ++ ext) = Some f -> gzopen fs (base ++ ext) = Ok f.
Proof. intros Hb He E. unfold gzopen. rewrite c_str_app by done. by rewrite E. Qed.
Definition text_file (ls : list Properties.line) : gzFile := {| gz_bytes := Properties.print ls; gz_damaged := false |}.
Lemma properties_of_at fs base ls : c_str base = base -> Forall Properties.line_ok ls ->
  fs !! (base ++ $".properties") = Some (text_file ls) ->
  properties_of fs base = Ok (Properties.st false [] (Properties.defined ls ∅)).
Proof.
  intros Hb Hok E. unfold properties_of. rewrite (gzopen_at _ _ _ (text_file ls)) by done. run. by apply Properties.properties_read.
Qed.

Section Database.
Context (fs : gmap (list Z) gzFile) (base : list Z) (top ls : list Properties.line).
Context (W minlen k n : Z) (g : list (code * list Z)).
Definition under : list Z := default [] (Properties.defined top ∅ !! $"underlyinggraph").
Definition target : list Z := graph_base base under.
Hypothesis top_ok : Forall Properties.line_ok top.
Hypothesis top_file : fs !! (base ++ $".properties") = Some (text_file top).
Hypothesis ls_ok : Forall Properties.line_ok ls.
Hypothesis ls_file : if decide (under = []) then ls = top else fs !! (target ++ $".properties") = Some (text_file ls).
Hypothesis graph_file : fs !! (target ++ $".graph.gz") = Some (packed (encode_graph W minlen k [] g)).
Hypothesis paths : c_str base = base /\ c_str target = target.
Hypothesis ls_graph : bvgraph (Properties.defined ls ∅) W minlen k n.
Hypothesis ranges : 0 <= W < 2 ^ 29 /\ 0 <= minlen < 2 ^ 29 /\ 1 <= k < 2 ^ 30 /\ 0 <= n < 2 ^ 31.

Lemma open_properties :
  (match under with [] => Ok (Properties.st false [] (Properties.defined top ∅)) | _ => properties_of fs target end) =
  Ok (Properties.st false [] (Properties.defined ls ∅)).
Proof.
  clear top_file graph_file ls_graph ranges. destruct paths as [_ Ht]. destruct (decide (under = [])) as [E|Hne].
  - rewrite E. by rewrite ls_file.
  - rewrite (properties_of_at fs target ls) by done. by destruct under.
Qed.

(** C35. A WebGraph database opens: given the properties of a graph, directly or
    through the underlying graph they name, next to the compressed graph they
    describe, the constructor takes over the parameters of the compression
    and the number of nodes, and the lists of links are then read back in
    order. *)
Theorem database_roundtrip : graph_ok W minlen [] g -> Z.of_nat (length g) < 2 ^ 29 ->
  exists d r', Reader_open fs base = Ok d /\ basePath d = base /\ nodes d = n /\
    read_graph (S (length g)) (reader d) = Ok (g.*2, r').
Proof.
  intros Hg Hlen. destruct ranges as (HW & Hm & Hk & Hn), paths as [Hb Ht], ls_graph as [Hclass Hw Hmin Hz Hnod Hf].
  destruct (graph_reads W minlen k HW Hm Hk g Hg Hlen) as (r & r' & Er & Eg).
  exists (mk base n r), r'. split; [|done]. unfold Reader_open. rewrite (properties_of_at fs base top) by done. run.
  change (Properties.get _ $"underlyinggraph" []) with under. fold target. rewrite open_properties. run.
  assert (negb (bool_decide (Properties.get (Properties.st false [] (Properties.defined ls ∅)) $"graphclass" [] = $"it.unimi.dsi.webgraph.BVGraph") ||
    bool_decide (Properties.get (Properties.st false [] (Properties.defined ls ∅)) $"graphclass" [] = $"class it.unimi.dsi.webgraph.BVGraph")) = false) as ->.
  { unfold Properties.get. cbn [Properties.props Properties.st]. by destruct Hclass as [-> | ->]. }
  rewrite (getInt_decimal _ $"windowsize" 0 W) by (done || lia). run.
  rewrite (getInt_decimal _ $"minintervallength" 0 minlen) by (done || lia). run.
  assert (getInt (Properties.st false [] (Properties.defined ls ∅)) $"zetak" 3 = Ok k) as ->.
  { destruct Hz as [Hz|[Hz ->]]; [apply getInt_decimal; (done || lia)|]. unfold getInt. cbn [Properties.props Properties.st]. by rewrite Hz. }
  run. rewrite (getInt_decimal _ $"nodes" 0 n) by (done || lia). run.
  unfold Properties.get. cbn [Properties.props Properties.st]. rewrite Hf. rewrite bool_decide_eq_true_2 by done. cbn [negb].
  rewrite (gzopen_at fs target _ _ Ht eq_refl graph_file). run. rewrite Er. done.
Qed.
End Database.

Definition sample_top : list Properties.line := [Properties.Comment $" web"; Properties.Entry $"underlyinggraph" $"raw"].
Definition sample_lines : list Properties.line :=
  [Properties.Entry $"graphclass" $"it.unimi.dsi.webgraph.BVGraph"; Properties.Entry $"windowsize" $"2";
   Properties.Blank; Properties.Entry $"minintervallength" $"3"; Properties.Entry $"nodes" $"4"].
Definition sample_files : gmap (list Z) gzFile :=
  {[ $"data/web.properties" := text_file sample_top; $"data/raw.properties" := text_file sample_lines;
     $"data/raw.graph.gz" := packed (encode_graph 2 3 3 [] sample_graph) ]}.
Example sample_opens :
  (d ← Reader_open sample_files $"data/web"; '(ns, _) ← read_graph 5 (reader d); Ok (nodes d, ns)) = Ok (4, snd <$> sample_graph).
Proof. vm_compute. reflexivity. Qed.
Lemma database_roundtrip_witness : exists d r',
  Reader_open sample_files $"data/web" = Ok d /\ basePath d = $"data/web" /\ nodes d = 4 /\
  read_graph 5 (reader d) = Ok (snd <$> sample_graph, r').
Proof.
  apply (database_roundtrip sample_files $"data/web" sample_top sample_lines 2 3 3 4 sample_graph).
  - apply (bool_decide_unpack _). vm_compute. exact I.
  - vm_compute. reflexivity.
  - apply (bool_decide_unpack _). vm_compute. exact I.
  - vm_compute. reflexivity.
  - vm_compute. reflexivity.
  - split; vm_compute; reflexivity.
  - split; [left; vm_compute; reflexivity|vm_compute; reflexivity|vm_compute; reflexivity|right; split; vm_compute; reflexivity|
            vm_compute; reflexivity|vm_compute; reflexivity].
  - lia.
  - exact sample_graph_ok.
  - cbn. lia.
Defined.
End Database.
