(* ===== verification/Descriptor.v ===== *)
(** * Table descriptors and triggers: kernel/table.h, kernel/table-registry.h, and the handler of worker/worker.cc

    A [TableDescriptor] holds pointers: to the marshallers, the factories, the
    helper and the triggers.  The descriptor of a shard is a copy of that of
    its table, so that both point to the same triggers but a helper that is set
    later reaches only the table.  Objects are numbered: a pointer is the
    number of its object, [None] the null pointer.  A field that no
    constructor sets is [Unset]. *)
From S2P Require Import Prelude StringPiece Float Table Master Job.

Module Descriptor.
Abbreviation ptr := (option Z).
Inductive field (A : Type) : Type := Unset | Set_to (a : A).
Arguments Unset {A}.
Arguments Set_to {A} _.
(** Reading a field that was not set is undefined. *)
Definition read {A} (f : field A) : outcome A := match f with Set_to a => Ok a | Unset => Undefined end.

Record TableDescriptor := Desc {
  table_id : Z;
  num_shards : Z;
  shard : field Z;
  default_shard_size : field Z;
  schedule_portion : field spec_float;
  triggers : list Z;
  sharder : ptr;
  iterkernel : ptr;
  termchecker : ptr;
  key_marshal : ptr;
  value1_marshal : ptr;
  value2_marshal : ptr;
  value3_marshal : ptr;
  partition_factory : ptr;
  deltaT_factory : field ptr;
  max_stale_time : spec_float;
  helper : ptr
}.
(** [TableDescriptor()] calls [Reset]. *)
Definition Reset : TableDescriptor :=
  Desc (-1) (-1) Unset Unset Unset [] None None None None None None None None Unset (S754_zero false) None.
Definition TableDescriptor_new (id shards : Z) : TableDescriptor :=
  Desc id shards Unset Unset Unset [] None None None None None None None None Unset (S754_zero false) None.
Definition set_shard (d : TableDescriptor) (i : Z) : TableDescriptor :=
  Desc (table_id d) (num_shards d) (Set_to i) (default_shard_size d) (schedule_portion d) (triggers d) (sharder d)
    (iterkernel d) (termchecker d) (key_marshal d) (value1_marshal d) (value2_marshal d) (value3_marshal d)
    (partition_factory d) (deltaT_factory d) (max_stale_time d) (helper d).
Definition set_triggers (d : TableDescriptor) (l : list Z) : TableDescriptor :=
  Desc (table_id d) (num_shards d) (shard d) (default_shard_size d) (schedule_portion d) l (sharder d)
    (iterkernel d) (termchecker d) (key_marshal d) (value1_marshal d) (value2_marshal d) (value3_marshal d)
    (partition_factory d) (deltaT_factory d) (max_stale_time d) (helper d).
Definition with_helper (d : TableDescriptor) (w : ptr) : TableDescriptor :=
  Desc (table_id d) (num_shards d) (shard d) (default_shard_size d) (schedule_portion d) (triggers d) (sharder d)
    (iterkernel d) (termchecker d) (key_marshal d) (value1_marshal d) (value2_marshal d) (value3_marshal d)
    (partition_factory d) (deltaT_factory d) (max_stale_time d) w.

(** ** [TableBase] *)
Record TableBase := Base { info_ : TableDescriptor; terminated_ : bool }.
Definition not_null (p : ptr) : bool := bool_decide (is_Some p).
Definition Init (info : TableDescriptor) : outcome TableBase :=
  _ ← CHECK (not_null (key_marshal info));
  _ ← CHECK (not_null (value1_marshal info));
  _ ← CHECK (not_null (value2_marshal info));
  _ ← CHECK (not_null (value3_marshal info));
  Ok (Base info false).
Definition id (t : TableBase) : Z := table_id (info_ t).
Definition with_info (t : TableBase) (d : TableDescriptor) : TableBase := Base d (terminated_ t).
Definition terminate (t : TableBase) : TableBase := Base (info_ t) true.

(** ** Triggers *)
(** The constructor of [TriggerBase] sets [enabled_] only. *)
Record TriggerBase := Trigger { t_table : field Z; t_helper : field ptr; triggerid : field Z; enabled_ : bool }.
Definition TriggerBase_new : TriggerBase := Trigger Unset Unset Unset true.
Definition enable (t : TriggerBase) (b : bool) : TriggerBase := Trigger (t_table t) (t_helper t) (triggerid t) b.
Definition enabled (t : TriggerBase) : bool := enabled_ t.
(** The trigger objects. *)
Abbreviation heap := (gmap Z TriggerBase).

Definition num_triggers (t : TableBase) : Z := to_int32 (Z.of_nat (length (triggers (info_ t)))).
Definition trigger (t : TableBase) (idx : Z) : outcome Z := vec_at (triggers (info_ t)) idx.
(** [this] is the address of the table. *)
Definition register_trigger (this : Z) (s : heap * TableBase) (p : Z) : outcome (heap * TableBase * Z) :=
  let '(h, t) := s in
  o ← deref (h !! p);
  let n := num_triggers t in
  let hp := match helper (info_ t) with Some w => Set_to (Some w) | None => t_helper o end in
  Ok (<[p := Trigger (Set_to this) hp (Set_to n) (enabled_ o)]> h,
      with_info t (set_triggers (info_ t) (triggers (info_ t) ++ [p])), n).
Definition point_to (w : ptr) (h : heap) (p : Z) : outcome heap :=
  o ← deref (h !! p); Ok (<[p := Trigger (t_table o) (Set_to w) (triggerid o) (enabled_ o)]> h).
Definition set_helper (s : heap * TableBase) (w : ptr) : outcome (heap * TableBase) :=
  let '(h, t) := s in
  h ← for_each (point_to w) (triggers (info_ t)) h;
  Ok (h, with_info t (with_helper (info_ t) w)).

(** ** The descriptors of a global table and of its shards *)
Record GlobalTable := Global { address : Z; base : TableBase; partitions_ : list TableBase; binit : bool }.
Definition set_base (g : GlobalTable) (b : TableBase) : GlobalTable := Global (address g) b (partitions_ g) (binit g).
(** [create_deltaT] and [create_localT]: a copy of the table's descriptor. *)
Definition create_shard (factory : ptr) (info : TableDescriptor) (i : Z) : outcome TableBase :=
  _ ← deref factory; Init (set_shard info i).
Definition create_deltaT (info : TableDescriptor) (i : Z) : outcome TableBase :=
  f ← read (deltaT_factory info); create_shard f info i.
Definition create_localT (info : TableDescriptor) (i : Z) : outcome TableBase :=
  create_shard (partition_factory info) info i.
Definition push_delta (info : TableDescriptor) (ps : list TableBase) (i : Z) : outcome (list TableBase) :=
  p ← create_deltaT info i; Ok (ps ++ [p]).
(** [resize] of a negative number throws. *)
Definition GlobalTable_Init (addr : Z) (info : TableDescriptor) : outcome GlobalTable :=
  b ← Init info;
  if num_shards info <? 0 then Throw else
  ps ← for_each (push_delta (info_ b)) (seqZ 0 (num_shards info)) [];
  Ok (Global addr b ps false).
Definition init_shard (local : Z -> bool) (info : TableDescriptor) (ps : list TableBase) (i : Z) : outcome (list TableBase) :=
  if local i then p ← create_localT info i; vec_set ps i p else Ok ps.
Definition InitStateTable (local : Z -> bool) (g : GlobalTable) : outcome GlobalTable :=
  ps ← for_each (init_shard local (info_ (base g))) (seqZ 0 (Z.of_nat (length (partitions_ g)))) (partitions_ g);
  Ok (Global (address g) (base g) ps true).
(** The objects that [CreateTable] allocates. *)
Record objects := Objects { o_table : Z; o_key : Z; o_v1 : Z; o_v2 : Z; o_v3 : Z; o_state : Z; o_delta : Z }.
Definition CreateTable (o : objects) (id shards : Z) (portion : spec_float) (sharding kernel checker : ptr)
    (tables : gmap Z GlobalTable) : outcome (gmap Z GlobalTable * GlobalTable) :=
  let info := Desc id shards Unset Unset (Set_to portion) [] sharding kernel checker (Some (o_key o)) (Some (o_v1 o))
                (Some (o_v2 o)) (Some (o_v3 o)) (Some (o_state o)) (Set_to (Some (o_delta o))) (S754_zero false) None in
  g ← GlobalTable_Init (o_table o) info;
  Ok (match tables !! id with Some _ => tables | None => <[id := g]> tables end, g).

(** ** Workers and tables *)
(** The tables in the order of the registry. *)
Abbreviation registry := (list (Z * GlobalTable)).
Definition adopt (w : Z) (s : heap * registry) (x : Z * GlobalTable) : outcome (heap * registry) :=
  '(h, b) ← set_helper (s.1, base x.2) (Some w);
  Ok (h, s.2 ++ [(x.1, set_base x.2 b)]).
(** The loop at the end of the constructors of [Worker], and in [Master::run]. *)
Definition set_helpers (w : Z) (h : heap) (r : registry) : outcome (heap * registry) := for_each (adopt w) r (h, []).
(** [tables()[i]] of an unknown table is a null pointer. *)
Definition table_at (r : registry) (i : Z) : outcome GlobalTable :=
  deref (snd <$> (snd <$> list_find (fun x => x.1 = i) r)).
Definition HandleEnableTrigger (h : heap) (r : registry) (tbl trigger_id : Z) (on : bool) : outcome heap :=
  g ← table_at r tbl;
  p ← trigger (base g) trigger_id;
  o ← deref (h !! p);
  Ok (<[p := enable o on]> h).

(** ** Registration *)
Definition register_one (this : Z) (s : heap * TableBase * list Z) (p : Z) : outcome (heap * TableBase * list Z) :=
  '(h, t, n) ← register_trigger this s.1 p; Ok (h, t, s.2 ++ [n]).
Definition register_all (this : Z) (ps : list Z) (h : heap) (t : TableBase) : outcome (heap * TableBase * list Z) :=
  for_each (register_one this) ps (h, t, []).

(** The state of a registered trigger. *)
Definition joined (this : Z) (hp : ptr) (i : nat) (o : TriggerBase) : TriggerBase :=
  Trigger (Set_to this) (match hp with Some w => Set_to (Some w) | None => t_helper o end) (Set_to (Z.of_nat i)) (enabled_ o).
Record registered (this : Z) (h : heap) (t : TableBase) (pre : list Z) (s : heap * TableBase * list Z) : Prop := {
  reg_info : s.1.2 = with_info t (set_triggers (info_ t) pre);
  reg_ids : s.2 = seqZ 0 (Z.of_nat (length pre));
  reg_in : forall i p o, pre !! i = Some p -> h !! p = Some o -> s.1.1 !! p = Some (joined this (helper (info_ t)) i o);
  reg_out : forall p, p ∉ pre -> s.1.1 !! p = h !! p
}.

Lemma register_registered this h t pre p s o : registered this h t pre s -> p ∉ pre -> h !! p = Some o ->
  Z.of_nat (length pre) < 2 ^ 31 ->
  exists s', register_one this s p = Ok s' /\ registered this h t (pre ++ [p]) s'.
Proof.
  intros [Hi Hids Hin Hout] Hp Ho Hl. destruct s as [[h1 t1] ids]. cbn [fst snd] in *. subst t1 ids.
  assert (h1 !! p = Some o) as Ep by by rewrite Hout.
  unfold register_one, register_trigger, num_triggers. cbn [fst snd]. rewrite Ep. run. eexists. split; [done|].
  cbn [info_ with_info set_triggers triggers helper terminated_]. rewrite to_int32_small by lia.
  split; cbn [fst snd].
  - done.
  - rewrite length_app. cbn. rewrite Nat2Z.inj_add, seqZ_app by lia. done.
  - intros i q oq Hq Hoq. destruct (decide (q = p)) as [->|Hne].
    + rewrite lookup_insert_eq. apply lookup_app_Some in Hq as [Hq|[Hge Hq]]; [destruct Hp; by eapply list_elem_of_lookup_2|].
      apply list_lookup_singleton_Some in Hq as [Hq _]. replace i with (length pre) by lia. by simplify_eq.
    + rewrite lookup_insert_ne by done. apply lookup_app_Some in Hq as [Hq|[Hge Hq]]; [by apply Hin|].
      apply list_lookup_singleton_Some in Hq as [_ <-]. done.
  - intros q Hq. rewrite not_elem_of_app, list_elem_of_singleton in Hq. rewrite lookup_insert_ne by naive_solver. apply Hout. naive_solver.
Qed.
Lemma registration this h t ps : triggers (info_ t) = [] -> NoDup ps -> Forall (fun p => is_Some (h !! p)) ps ->
  Z.of_nat (length ps) < 2 ^ 31 ->
  exists s, register_all this ps h t = Ok s /\ registered this h t ps s.
Proof.
  intros Ht Hnd Hall Hl. apply (for_each_inv (register_one this) (fun pre s => registered this h t pre s)).
  - split; cbn; [|done|done|done]. destruct t as [[]]. cbn in *. by subst.
  - intros pre p todo s -> Hs. apply NoDup_app in Hnd as (_ & Hd & _). apply Forall_app in Hall as [_ [[o Ho] _]%Forall_cons].
    rewrite length_app in Hl. eapply register_registered; [done| |done|lia]. intros Hin. by apply (Hd p Hin), list_elem_of_here.
Qed.

(** ** Helpers *)
Definition aim (w : ptr) (o : TriggerBase) : TriggerBase := Trigger (t_table o) (Set_to w) (triggerid o) (enabled_ o).
(** [h'] is [h] with the helper of the triggers in [l] replaced. *)
Definition aimed (w : ptr) (l : list Z) (h h' : heap) : Prop :=
  forall p, h' !! p = if decide (p ∈ l) then aim w <$> h !! p else h !! p.
Lemma aim_aim w o : aim w (aim w o) = aim w o.
Proof. done. Qed.
Lemma aimed_app w l1 l2 h h1 h2 : aimed w l1 h h1 -> aimed w l2 h1 h2 -> aimed w (l1 ++ l2) h h2.
Proof.
  intros H1 H2 p. rewrite (H2 p), (H1 p). repeat case_decide; set_unfold; try tauto; [by destruct (h !! p)].
Qed.
Lemma aimed_in w l h h' p : aimed w l h h' -> is_Some (h !! p) -> is_Some (h' !! p).
Proof. intros E [o Ho]. rewrite (E p), Ho. case_decide; eauto. Qed.
Lemma point_all w l h : Forall (fun p => is_Some (h !! p)) l -> exists h', for_each (point_to w) l h = Ok h' /\ aimed w l h h'.
Proof.
  intros Hall. apply (for_each_inv (point_to w) (fun pre h' => aimed w pre h h')).
  - intros p. by rewrite decide_False by set_solver.
  - intros pre p todo h1 -> E. apply Forall_app in Hall as [_ [Hp _]%Forall_cons].
    destruct (aimed_in _ _ _ _ _ E Hp) as [o Ho]. unfold point_to. rewrite Ho. run. eexists. split; [done|].
    eapply aimed_app; [done|]. intros q. destruct (decide (q = p)) as [->|Hne].
    + rewrite lookup_insert_eq, decide_True, Ho by set_solver. done.
    + rewrite lookup_insert_ne, decide_False by set_solver. done.
Qed.

Definition all_triggers (r : registry) : list Z := mjoin ((fun x => triggers (info_ (base x.2))) <$> r).
Definition adopted (w : ptr) (x : Z * GlobalTable) : Z * GlobalTable :=
  (x.1, set_base x.2 (with_info (base x.2) (with_helper (info_ (base x.2)) w))).
(** The constructor reaches every table and every trigger, and nothing else. *)
Lemma helpers_set w h r : Forall (fun p => is_Some (h !! p)) (all_triggers r) ->
  exists h', set_helpers w h r = Ok (h', adopted (Some w) <$> r) /\ aimed (Some w) (all_triggers r) h h'.
Proof.
  intros Hall. destruct (for_each_inv (adopt w) (fun pre s => s.2 = adopted (Some w) <$> pre /\ aimed (Some w) (all_triggers pre) h s.1)
    r (h, [])) as ([h' r'] & E & Er & Eh); [| |cbn in Er; subst r'; by exists h'].
  - split; [done|]. intros p. by rewrite decide_False by set_solver.
  - intros pre x todo [h1 r1] -> [Er Eh]. cbn [fst snd] in *. subst r1. unfold all_triggers in *. rewrite fmap_app in Hall. cbn in Hall.
    rewrite join_app in Hall. apply Forall_app in Hall as [_ Hall]. cbn in Hall. apply Forall_app in Hall as [Hx _].
    destruct (point_all (Some w) (triggers (info_ (base x.2))) h1) as (h2 & E2 & Eh2).
    { eapply Forall_impl; [exact Hx|]. intros p. by apply aimed_in with (1 := Eh). }
    unfold adopt, set_helper. cbn [fst snd]. rewrite E2. run. eexists. split; [done|]. cbn [fst snd].
    rewrite !fmap_app, join_app. split; [done|]. cbn. rewrite app_nil_r. by eapply aimed_app.
Qed.

(** ** Enabling *)
Lemma table_at_adopted w r i g : table_at r i = Ok g -> table_at (adopted w <$> r) i = Ok (adopted w (i, g)).2.
Proof.
  unfold table_at. rewrite list_find_fmap. intros [x Hx]%deref_Ok%fmap_Some. apply deref_Ok, fmap_Some. exists (adopted w x). destruct Hx as [Hx ->].
  split; [|done]. apply fmap_Some in Hx as ([n y] & Hf & ->).
  rewrite (list_find_ext _ (fun x : Z * GlobalTable => x.1 = i)), Hf by done. done.
Qed.
Lemma table_at_middle (pre post : registry) i g : i ∉ pre.*1 -> table_at (pre ++ (i, g) :: post) i = Ok g.
Proof.
  intros Hi. unfold table_at. rewrite list_find_app_r; cbn; [by rewrite decide_True|].
  apply list_find_None, Forall_forall. intros [j x] Hx. cbn. intros ->. apply Hi, list_elem_of_fmap. by exists (i, x).
Qed.

(** Triggers from registration to the master's request: the triggers
    registered with a table get their position as identifier; the worker's
    constructor makes the worker the helper of all tables and triggers; the
    master's [enable_trigger] with the identifier of a trigger is sent to every
    worker, whose handler switches that trigger and no other. *)
Theorem triggers_switched (w : Z) (h : heap) (pre post : registry) tbl g ps i p (j : Job.job) on :
  tbl ∉ pre.*1 -> triggers (info_ (base g)) = [] -> NoDup ps -> Forall (fun p => is_Some (h !! p)) (ps ++ all_triggers (pre ++ post)) ->
  Z.of_nat (length ps) < 2 ^ 31 -> ps !! i = Some p ->
  exists h1 b ids n h2 r h3,
    register_all (address g) ps h (base g) = Ok (h1, b, ids) /\ ids !! i = Some n /\
    set_helpers w h1 (pre ++ (tbl, set_base g b) :: post) = Ok (h2, r) /\
    Job.enable_trigger j n tbl on = (fun st => Job.EnableTrigger (Master.w_id st + 1) n tbl on) <$> Master.workers_ (Job.master j) /\
    HandleEnableTrigger h2 r tbl n on = Ok h3 /\
    h3 !! p = Some (Trigger (Set_to (address g)) (Set_to (Some w)) (Set_to n) on) /\
    (forall q, q <> p -> h3 !! q = h2 !! q).
Proof.
  intros Htbl Hg Hnd [Hps Hall]%Forall_app Hl Hi.
  destruct (registration (address g) h (base g) ps Hg Hnd Hps Hl) as ([[h1 b] ids] & E1 & [Hb Hids Hin Hout]). cbn [fst snd] in *. subst b ids.
  pose proof (lookup_lt_Some _ _ _ Hi) as Hlt. destruct (proj1 (Forall_lookup _ _) Hps i p Hi) as [o Ho].
  assert (forall q, is_Some (h !! q) -> is_Some (h1 !! q)) as Hkeep.
  { intros q [oq Hq]. destruct (decide (q ∈ ps)) as [[k Hk]%list_elem_of_lookup|Hn]; [erewrite Hin by done|rewrite Hout by done]; eauto. }
  set (b := with_info (base g) (set_triggers (info_ (base g)) ps)) in *. set (r := pre ++ (tbl, set_base g b) :: post).
  assert (Forall (fun p => is_Some (h1 !! p)) (all_triggers r) /\ p ∈ all_triggers r) as [Hr Hp].
  { unfold all_triggers, r in *. rewrite fmap_app, join_app in *. cbn in *. rewrite !Forall_app in *. destruct Hall as [H1 H2].
    apply list_elem_of_lookup_2 in Hi. repeat split; try (eapply Forall_impl; [eassumption|exact Hkeep]). set_solver. }
  destruct (helpers_set w h1 r Hr) as (h2 & E2 & Ha).
  assert (h2 !! p = Some (Trigger (Set_to (address g)) (Set_to (Some w)) (Set_to (Z.of_nat i)) (enabled_ o))) as Hh2.
  { rewrite (Ha p), decide_True, (Hin i p o) by done. done. }
  exists h1, b, (seqZ 0 (Z.of_nat (length ps))), (Z.of_nat i), h2, (adopted (Some w) <$> r). eexists.
  split; [done|]. split; [apply lookup_seqZ; lia|]. split; [done|]. split; [done|]. split.
  - unfold HandleEnableTrigger. erewrite table_at_adopted by by apply table_at_middle. run.
    unfold trigger. cbn [adopted base set_base info_ with_info with_helper triggers snd b set_triggers]. erewrite vec_at_Some by done. run. rewrite Hh2. run. done.
  - split; [by rewrite lookup_insert_eq|]. intros q Hq. by rewrite lookup_insert_ne.
Qed.
(** A trigger that the table does not have. *)
Lemma unknown_trigger_undefined h r tbl g n on : table_at r tbl = Ok g -> n < 0 \/ Z.of_nat (length (triggers (info_ (base g)))) <= n ->
  HandleEnableTrigger h r tbl n on = Undefined.
Proof.
  intros E Hn. unfold HandleEnableTrigger, trigger, vec_at. rewrite E. run. destruct (Z.ltb_spec n 0); [done|]. rewrite lookup_ge_None_2 by lia. done.
Qed.

(** ** Descriptors of shards *)
Definition complete (info : TableDescriptor) : Prop :=
  Forall (fun p => not_null p = true) [key_marshal info; value1_marshal info; value2_marshal info; value3_marshal info].
Lemma Init_complete info i : complete info -> Init (set_shard info i) = Ok (Base (set_shard info i) false).
Proof. unfold complete. rewrite !Forall_cons. intros (E1 & E2 & E3 & E4 & _). unfold Init. cbn. by rewrite E1, E2, E3, E4. Qed.
Lemma deltas_created info f n : complete info -> deltaT_factory info = Set_to (Some f) -> 0 <= n ->
  for_each (push_delta info) (seqZ 0 n) [] = Ok ((fun i => Base (set_shard info i) false) <$> seqZ 0 n).
Proof.
  intros Hc Hf Hn. destruct (for_each_inv (push_delta info) (fun pre s => s = (fun i => Base (set_shard info i) false) <$> pre) (seqZ 0 n) []) as (s & E & ->); [done| |done].
  intros pre i todo s _ ->. unfold push_delta, create_deltaT, create_shard. rewrite Hf. run. cbn [read]. run. rewrite Init_complete by done. run.
  eexists. split; [done|]. by rewrite fmap_app.
Qed.
Lemma states_created (local : Z -> bool) info f ps : complete info -> partition_factory info = Some f ->
  exists ps', for_each (init_shard local info) (seqZ 0 (Z.of_nat (length ps))) ps = Ok ps' /\ length ps' = length ps /\
    forall (i : nat) b, ps' !! i = Some b -> if local (Z.of_nat i) then b = Base (set_shard info (Z.of_nat i)) false else ps !! i = Some b.
Proof.
  intros Hc Hf. destruct (for_each_inv (init_shard local info) (fun pre ps' => length ps' = length ps /\
    forall (i : nat) b, ps' !! i = Some b -> if decide (Z.of_nat i ∈ pre /\ local (Z.of_nat i) = true)
      then b = Base (set_shard info (Z.of_nat i)) false else ps !! i = Some b) (seqZ 0 (Z.of_nat (length ps))) ps) as (ps' & E & Hl & Hb).
  - split; [done|]. intros i b. rewrite decide_False by set_solver. done.
  - intros pre i todo ps1 Ei [Hl Hb]. assert (0 <= i < Z.of_nat (length ps)) as Hi.
    { assert (i ∈ seqZ 0 (Z.of_nat (length ps))) by (rewrite Ei; set_solver). rewrite elem_of_seqZ in *. lia. }
    unfold init_shard. destruct (local i) eqn:El.
    + unfold create_localT, create_shard. rewrite Hf. run. rewrite Init_complete by done. run.
      rewrite <- (Z2Nat.id i), vec_set_lt, Z2Nat.id by lia. eexists. split; [done|]. rewrite length_insert. split; [done|].
      intros k b Hk. destruct (decide (k = Z.to_nat i)) as [->|Hne].
      * rewrite list_lookup_insert_eq in Hk by lia. simplify_eq. rewrite Z2Nat.id by lia. by rewrite decide_True by set_solver.
      * rewrite list_lookup_insert_ne in Hk by done. apply Hb in Hk. assert (Z.of_nat k <> i) by lia.
        destruct (decide (Z.of_nat k ∈ pre /\ _)); [rewrite decide_True by set_solver|rewrite decide_False by set_solver]; done.
    + eexists. split; [done|]. split; [done|]. intros k b Hk%Hb. destruct (decide (Z.of_nat k = i)) as [Ek|Hne].
      * rewrite Ek, El in *. rewrite decide_False in Hk by naive_solver. by rewrite decide_False by naive_solver.
      * destruct (decide (Z.of_nat k ∈ pre /\ _)); [rewrite decide_True by set_solver|rewrite decide_False by set_solver]; done.
  - exists ps'. split; [done|]. split; [done|]. intros i b Hi. pose proof (lookup_lt_Some _ _ _ Hi). specialize (Hb i b Hi).
    destruct (local (Z.of_nat i)) eqn:El; [rewrite decide_True in Hb by (split; [apply elem_of_seqZ; lia|done])|rewrite decide_False in Hb by naive_solver]; done.
Qed.
(** A table that is created before the worker exists: the descriptors of the
    delta tables keep the null helper, those of the state tables, copied later,
    have the worker. *)
Lemma shard_descriptors o tbl shards portion sh k c tables w local : 0 <= shards ->
  exists tables' g g', CreateTable o tbl shards portion sh k c tables = Ok (tables', g) /\
    InitStateTable local (adopted (Some w) (tbl, g)).2 = Ok g' /\ Z.of_nat (length (partitions_ g')) = shards /\
    forall (i : nat) b, partitions_ g' !! i = Some b ->
      shard (info_ b) = Set_to (Z.of_nat i) /\ helper (info_ b) = if local (Z.of_nat i) then Some w else None.
Proof.
  intros Hs. unfold CreateTable, GlobalTable_Init. set (info := Desc _ _ _ _ _ _ _ _ _ _ _ _ _ _ _ _ _).
  assert (complete info) as Hc by (by repeat constructor). change (Init info) with (Ok (Base info false)). run.
  cbn [num_shards info info_]. destruct (Z.ltb_spec shards 0); [lia|]. rewrite (deltas_created info (o_delta o)) by done. run.
  set (ps := _ <$> seqZ 0 shards). set (info' := with_helper info (Some w)).
  destruct (states_created local info' (o_state o) ps) as (ps' & E & Hl & Hb); [done|done|].
  eexists _, _, _. split; [done|]. split; [unfold InitStateTable; cbn [adopted snd partitions_ base set_base info_ with_info]; fold info'; rewrite E; run; done|].
  cbn [partitions_]. unfold ps in Hl. rewrite length_fmap, length_seqZ in Hl. split; [lia|].
  intros i b Hi. specialize (Hb i b Hi). destruct (local (Z.of_nat i)); [by subst b|].
  unfold ps in Hb. apply list_lookup_fmap_Some in Hb as (z & -> & Hz). apply lookup_seqZ in Hz as [-> _]. done.
Qed.

(** ** Example: two triggers of one table *)
Section Sample.
Definition two : heap := {[ 10 := TriggerBase_new; 11 := TriggerBase_new ]}.
Definition plain : GlobalTable := Eval vm_compute in
  match CreateTable (Objects 100 1 2 3 4 5 6) 0 2 (S754_zero false) None None None ∅ with Ok (_, g) => g | _ => Global 0 (Base Reset false) [] false end.
Lemma triggers_switched_witness : exists h1 b ids n h2 r h3,
  register_all (address plain) [10; 11] two (base plain) = Ok (h1, b, ids) /\ ids !! 1%nat = Some n /\
  set_helpers 7 h1 ([] ++ (0, set_base plain b) :: []) = Ok (h2, r) /\
  Job.enable_trigger Job.two_workers n 0 false = [Job.EnableTrigger 1 n 0 false; Job.EnableTrigger 2 n 0 false] /\
  HandleEnableTrigger h2 r 0 n false = Ok h3 /\
  h3 !! 11 = Some (Trigger (Set_to 100) (Set_to (Some 7)) (Set_to n) false) /\ (forall q, q <> 11 -> h3 !! q = h2 !! q).
Proof.
  apply (triggers_switched 7 two [] [] 0 plain [10; 11] 1 11 Job.two_workers false).
  - set_solver.
  - done.
  - apply (bool_decide_unpack _). vm_compute. exact I.
  - repeat constructor; by eexists.
  - done.
  - done.
Defined.
End Sample.
End Descriptor.
