(* ===== verification/Untyped.v ===== *)
(** * The untyped interface of tables: kernel/table.h, kernel/global-table.h

    [UntypedTable] gives access to a table through marshalled keys and values:
    [contains_str], [get_str] and [update_str], for local and global tables.
    The reads of [TypedGlobalTable] that insist on a local shard are here
    too. *)
From S2P Require Import Prelude Float StringPiece Probe Table SampleKernel DeltaTable StateTable GlobalTable Checkpoint.

Module Untyped.
Class UntypedTable (T : Type) := {
  contains_str : T -> cstr -> outcome bool;
  get_str : T -> cstr -> outcome cstr
}.

Section Untyped.
Context {K V D : Type} `{Countable K} `{!Hashable K}.
Context `{!ValueInit K} `{!ValueInit V} `{!ValueInit D}.
Context `{!IterateKernel K V D} `{!Sharder K} `{!Marshal K} `{!Marshal V} `{!Marshal D}.

#[export] Instance Delta_untyped : UntypedTable (DeltaTable.t K V) := {
  contains_str tb s := k ← unmarshal s; DeltaTable.contains tb k;
  get_str tb s := k ← unmarshal s; v ← DeltaTable.get tb k; Ok (marshal v)
}.
#[export] Instance State_untyped : UntypedTable (StateTable.t K V D) := {
  contains_str tb s := k ← unmarshal s; StateTable.contains tb k;
  get_str tb s :=
    k ← unmarshal s;
    f1 ← StateTable.getF1 tb k; f2 ← StateTable.getF2 tb k; f3 ← StateTable.getF3 tb k;
    Ok (marshal f1 ++ marshal f2 ++ marshal f3)
}.
#[export] Instance Global_untyped : UntypedTable (GlobalTable.t (K := K) (V := V) (D := D)) := {
  contains_str tb s := k ← unmarshal s; GlobalTable.contains tb k;
  get_str tb s :=
    k ← unmarshal s;
    f1 ← GlobalTable.getF1 tb k; f2 ← GlobalTable.getF2 tb k; f3 ← GlobalTable.getF3 tb k;
    Ok (marshal f1 ++ marshal f2 ++ marshal f3)
}.
(** [TypedTable::update_str] of a global table. *)
Definition global_update_str (tb : GlobalTable.t (K := K) (V := V) (D := D)) (e : entry) : outcome (GlobalTable.t (K := K) (V := V) (D := D)) :=
  k ← unmarshal (e_k e); v1 ← unmarshal (e_v1 e); v2 ← unmarshal (e_v2 e); v3 ← unmarshal (e_v3 e);
  GlobalTable.put tb k v1 v2 v3.
Definition get_localF1 (tb : GlobalTable.t (K := K) (V := V) (D := D)) (k : K) : outcome V :=
  GlobalTable.read_local (fun s => StateTable.getF1 s k) tb k.
Definition get_localF2 (tb : GlobalTable.t (K := K) (V := V) (D := D)) (k : K) : outcome V :=
  GlobalTable.read_local (fun s => StateTable.getF2 s k) tb k.
Definition get_localF3 (tb : GlobalTable.t (K := K) (V := V) (D := D)) (k : K) : outcome D :=
  GlobalTable.read_local (fun s => StateTable.getF3 s k) tb k.

Context `{!PriorityLaws K V D} `{!MarshalLaws K} `{!MarshalLaws V} `{!MarshalLaws D}.

(** ** What the untyped calls see of a table *)
Lemma delta_contains_str (tb : DeltaTable.t K V) (k : K) : DeltaTable.wf tb -> representable k ->
  contains_str tb (marshal k) = Ok (bool_decide (is_Some (DeltaTable.contents tb !! k))).
Proof. intros Hwf Hk. cbn. rewrite unmarshal_marshal by done. run. by apply DeltaTable.contains_spec. Qed.
Lemma delta_get_str (tb : DeltaTable.t K V) (k : K) : DeltaTable.wf tb -> representable k ->
  get_str tb (marshal k) = match DeltaTable.contents tb !! k with Some v => Ok (marshal v) | None => Fatal end.
Proof. intros Hwf Hk. cbn. rewrite unmarshal_marshal by done. run. rewrite DeltaTable.get_spec by done. by case_match. Qed.
Lemma state_contains_str (tb : StateTable.t K V D) (k : K) : StateTable.wf tb -> representable k ->
  contains_str tb (marshal k) = Ok (bool_decide (is_Some (StateTable.contents tb !! k))).
Proof. intros Hwf Hk. cbn. rewrite unmarshal_marshal by done. run. by apply StateTable.state_contains_spec. Qed.
Lemma state_get_str (tb : StateTable.t K V D) (k : K) : StateTable.wf tb -> representable k ->
  get_str tb (marshal k) =
    match StateTable.contents tb !! k with
    | Some c => Ok (marshal (StateTable.v1 c) ++ marshal (StateTable.v2 c) ++ marshal (StateTable.v3 c))
    | None => Fatal
    end.
Proof.
  intros Hwf Hk. cbn. rewrite unmarshal_marshal by done. run. pose proof (StateTable.gets_spec tb k Hwf) as Hg.
  case_match; [destruct Hg as (E1 & E2 & E3 & _); by rewrite E1, E2, E3|destruct Hg as (E1 & _); by rewrite E1].
Qed.

(** ** Insert and look up through marshalled data *)
Lemma delta_str_roundtrip (tb : DeltaTable.t K V) (k : K) (v : V) w2 w3 : DeltaTable.wf tb -> DeltaTable.size_ tb < 2 ^ 30 - 1 ->
  representable k -> representable v ->
  exists tb', update_str tb (Entry (marshal k) (marshal v) w2 w3) = Ok tb' /\ DeltaTable.wf tb' /\
    contains_str tb' (marshal k) = Ok true /\ get_str tb' (marshal k) = Ok (marshal v) /\
    forall k' : K, representable k' -> k' <> k ->
      contains_str tb' (marshal k') = contains_str tb (marshal k') /\ get_str tb' (marshal k') = get_str tb (marshal k').
Proof.
  intros Hwf Hsz Hk Hv. destruct (DeltaTable.put_spec 0 tb k v Hwf Hsz) as (tb' & E & Hwf' & Hc & _).
  exists tb'. cbn [update_str Delta_checkpointed e_k e_v1]. rewrite !unmarshal_marshal by done. run.
  rewrite delta_contains_str, delta_get_str, Hc, lookup_insert_eq by done. do 4 (split; [done|]).
  intros k' Hk' Hne. by rewrite !delta_contains_str, !delta_get_str, Hc, lookup_insert_ne by done.
Qed.
Lemma state_str_roundtrip (tb : StateTable.t K V D) (k : K) (w1 w2 : V) (w3 : D) : StateTable.wf tb ->
  StateTable.contents tb !! k <> None \/ StateTable.entries_ tb < StateTable.size_ tb ->
  representable k -> representable w1 -> representable w2 -> representable w3 ->
  exists tb', update_str tb (Entry (marshal k) (marshal w1) (marshal w2) (marshal w3)) = Ok tb' /\ StateTable.wf tb' /\
    contains_str tb' (marshal k) = Ok true /\ get_str tb' (marshal k) = Ok (marshal w1 ++ marshal w2 ++ marshal w3) /\
    forall k' : K, representable k' -> k' <> k ->
      contains_str tb' (marshal k') = contains_str tb (marshal k') /\ get_str tb' (marshal k') = get_str tb (marshal k').
Proof.
  intros Hwf Hroom Hk H1 H2 H3. destruct (StateTable.put_room 1 tb k w1 w2 w3 Hwf Hroom) as (tb' & E & Hwf' & Hc & _).
  exists tb'. cbn [update_str State_checkpointed e_k e_v1 e_v2 e_v3]. rewrite !unmarshal_marshal by done. run.
  rewrite state_contains_str, state_get_str, Hc, lookup_insert_eq by done. do 4 (split; [done|]).
  intros k' Hk' Hne. by rewrite !state_contains_str, !state_get_str, Hc, lookup_insert_ne by done.
Qed.
End Untyped.
End Untyped.
