(* ===== verification/WorkerLoop.v ===== *)
(** * The life of a worker: the constructor, the main loop and the end of worker/worker.cc

    Worker.v has the handlers and Checkpoint.v the restoring; this file puts
    them together as [CheckForMasterUpdates], [CheckNetwork], [KernelLoop] and
    [StartWorker] do.  What the network delivers to a turn of the loop, and the
    user's kernel, are arguments. *)
From S2P Require Import Prelude Float StringPiece Probe Table SampleKernel DeltaTable StateTable GlobalTable Master Cluster Worker RecordFile Checkpoint.

Module WorkerLoop.
Import GlobalTable Worker.
Section WorkerLoop.
Context {K V D : Type} `{Countable K} `{!Hashable K}.
Context `{!ValueInit K} `{!ValueInit V} `{!ValueInit D}.
Context `{!IterateKernel K V D} `{!Sharder K} `{!Marshal K} `{!Marshal V} `{!Marshal D}.
Context {W R : Type} `{!FileOps W R}.
Variable bufmsg : Z.
Variable wire_size : KVPairData -> Z.
#[local] Abbreviation table := (GlobalTable.t (K := K) (V := V) (D := D)).
#[local] Abbreviation worker := (Worker.t (K := K) (V := V) (D := D)).
#[local] Abbreviation output := (Worker.output).

(** ** The constructor *)
Definition set_helper (h : TableHelper) (tb : table) : table :=
  GlobalTable.mk (table_id tb) (num_shards tb) (Some h) (partitions_ tb) (partinfo_ tb) (pending_writes_ tb)
    (snapshot_index tb) (sent_bytes_ tb) (update_queue tb) (binit tb).
(** [network_id] is the rank of the process; a negative number of workers makes [resize] throw. *)
Definition Worker_new (network_id num_workers : Z) (ts : list (Z * table)) : outcome worker :=
  let id := to_int32 (network_id - 1) in
  if num_workers <? 0 then Throw
  else Ok (Worker.mk id 0 Master.CP_NONE ∅ (replicate (Z.to_nat num_workers) 0) true ∅
             ((fun x => (x.1, set_helper {| helper_id := id; helper_epoch := 0 |} x.2)) <$> ts) ∅).
Definition pending_kernel_bytes (w : worker) : outcome Z :=
  for_each (fun t (x : Z * table) => n ← pending_write_bytes x.2; Ok (to_int64 (t + n))) (tables w) 0.

(** ** A turn of the loop *)
(** What a poll finds: whether to shut down, the requests to start, finish and
    restore checkpoints, and the put requests. *)
Record poll := Poll {
  p_shutdown : bool;
  p_starts : list (Z * Master.CheckpointType * list Z);
  p_finishes : list unit;
  p_restores : list Z;
  p_puts : list (bool * KVPairData)
}.
Inductive sent :=
  | Out (o : output)
  | Restored
  | KernelDone (tbl shard : Z) (l : list (Master.Taskid * Z)).
Variable fuel : nat.
Variable read_dir : cstr.
Variable d : disk.
Definition restore_request (s : worker * list sent) (epoch : Z) : outcome (worker * list sent) :=
  '(w, rs) ← Restore.Restore (W := W) fuel read_dir d epoch s.1;
  Ok (w, s.2 ++ ((fun _ => Restored) <$> rs)).
Definition CheckForMasterUpdates (w : worker) (p : poll) : outcome (worker * list sent) :=
  '(w, os) ← Worker.CheckForMasterUpdates w (p_shutdown p) (p_starts p) (p_finishes p);
  if p_shutdown p then Ok (w, Out <$> os)
  else for_each restore_request (p_restores p) (w, Out <$> os).
Definition CheckNetwork (w : worker) (p : poll) : outcome (worker * list sent) :=
  '(w, os1) ← CheckForMasterUpdates w p;
  '(w, os2) ← HandlePutRequest bufmsg wire_size w (p_puts p);
  '(w, os3) ← for_each (flush_dirty wire_size) (elements (dirty_tables_ w)) (w, []);
  Ok (set_dirty w ∅, os1 ++ (Out <$> os2) ++ (Out <$> os3)).
(** A poll, or the request to run a kernel on a shard; [run] is the kernel. *)
Inductive event :=
  | Idle (p : poll)
  | Run (tbl shard : Z) (run : worker -> outcome (worker * list output)) (puts : nat -> list (bool * KVPairData)).
Definition turn (w : worker) (e : event) : outcome (worker * list sent) :=
  match e with
  | Idle p => CheckNetwork w p
  | Run tbl shard run puts =>
    '(w, os, l) ← RunKernel bufmsg wire_size run puts w tbl shard;
    Ok (w, (Out <$> os) ++ [KernelDone tbl shard l])
  end.
(** [KernelLoop] on the events of its turns: the worker, what it sent, the
    events that are left, and whether it returned. *)
Fixpoint KernelLoop (evs : list event) (w : worker) (out : list sent) : outcome (worker * list sent * list event * bool) :=
  if negb (running_ w) then Ok (w, out, evs, true)
  else
    match evs with
    | [] => Ok (w, out, [], false)
    | e :: evs => '(w, os) ← turn w e; KernelLoop evs w (out ++ os)
    end.
(** [StartWorker]: process 0 is the master. *)
Definition StartWorker (network_id num_workers : Z) (ts : list (Z * table)) (evs : list event) :
    outcome (option (worker * list sent * list event * bool)) :=
  if network_id =? 0 then Ok None
  else w ← Worker_new network_id num_workers ts; Some <$> KernelLoop evs w [].

(** ** A new worker *)
(** The tables as [CreateTable] leaves them. *)
Definition created (x : Z * table) : Prop :=
  partinfo_ x.2 = replicate (Z.to_nat (num_shards x.2)) PartitionInfo_new /\ 0 <= num_shards x.2.
(** It knows the tables of the registry, is their helper, and owns no shard
    until the master assigns some. *)
Lemma new_worker rank n ts : 0 < rank < 2 ^ 31 -> 0 <= n -> Forall created ts ->
  exists w, Worker_new rank n ts = Ok w /\ id w = rank - 1 /\ length (peers_ w) = Z.to_nat n /\ running_ w = true /\
    layout ((fun x => (x.1, num_shards x.2)) <$> ts) w /\
    forall i tb j, (i, tb) ∈ tables w -> 0 <= j < num_shards tb -> is_local_shard tb j = Ok false.
Proof.
  intros Hr Hn Hts. unfold Worker_new. destruct (Z.ltb_spec n 0); [lia|]. eexists. split; [done|]. cbn [id peers_ running_ tables].
  rewrite to_int32_small by lia. rewrite length_replicate. do 3 (split; [done|]). split; [split; cbn [tables]|].
  - by rewrite <- list_fmap_compose.
  - apply Forall_fmap. eapply Forall_impl; [exact Hts|]. intros [i tb] [E Hs]. cbn in *. rewrite E, length_replicate. lia.
  - intros i tb j ([i0 tb0] & [= -> ->] & Hin)%list_elem_of_fmap Hj. destruct (proj1 (Forall_forall _ _) Hts _ Hin) as [E Hs]. cbn in *.
    unfold is_local_shard, owner, get_partition_info. cbn [partinfo_ set_helper helper]. rewrite E.
    rewrite <- (Z2Nat.id j) by lia. erewrite vec_at_Some by (apply lookup_replicate; split; [done|lia]). run. cbn [sinfo_owner PartitionInfo_new helper_id]. by destruct (Z.eqb_spec (-1) (rank - 1)); [lia|].
Qed.

(** ** What the loop answers *)
Definition answers (out : list sent) : list (Z * Z) :=
  omap (fun o => match o with KernelDone tbl sh _ => Some (tbl, sh) | _ => None end) out.
Definition requests (evs : list event) : list (Z * Z) :=
  omap (fun e => match e with Run tbl sh _ _ => Some (tbl, sh) | Idle _ => None end) evs.
Lemma sent_answers_out os : answers (Out <$> os) = [].
Proof. by induction os. Qed.
Lemma sent_answers_app l1 l2 : answers (l1 ++ l2) = answers l1 ++ answers l2.
Proof. apply omap_app. Qed.
Lemma requests_app l1 l2 : requests (l1 ++ l2) = requests l1 ++ requests l2.
Proof. apply omap_app. Qed.
Lemma restores_answer l : forall s s', for_each restore_request l s = Ok s' -> answers s'.2 = answers s.2.
Proof.
  induction l as [|e l IH]; intros s s' E; cbn [for_each] in E; inv_ok; [done|]. rewrite (IH _ _ E).
  unfold restore_request in *. inv_ok. destruct a0 as [w rs]. inv_ok. cbn. rewrite sent_answers_app.
  assert (forall rs : list Restore.reply, answers ((fun _ => Restored) <$> rs) = []) as -> by (intros l0; by induction l0). by rewrite app_nil_r.
Qed.
Lemma turn_answers w e w' os : turn w e = Ok (w', os) -> answers os = requests [e].
Proof.
  destruct e as [p|tbl sh run puts]; cbn [turn]; intros E.
  - unfold CheckNetwork in E. apply bind_Ok in E as ([w1 os1] & E1 & E). apply bind_Ok in E as ([w2 os2] & E2 & E).
    apply bind_Ok in E as ([w3 os3] & E3 & [= _ <-]). rewrite !sent_answers_app, !sent_answers_out, !app_nil_r.
    unfold CheckForMasterUpdates in E1. apply bind_Ok in E1 as ([w0 os0] & E0 & E1). destruct (p_shutdown p); [injection E1 as _ <-; apply sent_answers_out|].
    apply restores_answer in E1. cbn [snd] in E1. rewrite E1. apply sent_answers_out.
  - apply bind_Ok in E as ([[w1 os1] l] & E1 & [= _ <-]). by rewrite sent_answers_app, sent_answers_out.
Qed.
(** Each request that was taken is answered once, in order; the loop ends when the worker
    is told to stop and takes nothing afterwards, and before that takes everything. *)
Lemma loop_answers evs : forall w out w' out' rest ret, KernelLoop evs w out = Ok (w', out', rest, ret) ->
  exists taken, evs = taken ++ rest /\ answers out' = answers out ++ requests taken /\
    (ret = true -> running_ w' = false) /\ (ret = false -> rest = [] /\ running_ w' = true).
Proof.
  induction evs as [|e evs IH]; intros w out w' out' rest ret E; cbn [KernelLoop] in E; destruct (running_ w) eqn:Hw; cbn [negb] in E; [injection E as <- <- <- <-..| |injection E as <- <- <- <-].
  - exists []. split; [done|]. split; [symmetry; apply app_nil_r|]. naive_solver.
  - exists []. split; [done|]. split; [symmetry; apply app_nil_r|]. naive_solver.
  - apply bind_Ok in E as ([w1 os] & Et & E). destruct (IH _ _ _ _ _ _ E) as (taken & -> & Ea & H1 & H2). exists (e :: taken). split; [done|].
    split; [|done]. rewrite Ea, sent_answers_app, <- app_assoc. rewrite (turn_answers _ _ _ _ Et). f_equal. symmetry. apply (requests_app [e]).
  - exists []. split; [done|]. split; [symmetry; apply app_nil_r|]. naive_solver.
Qed.
(** A shard that the worker does not own stops it. *)
Lemma foreign_shard_fatal w tbl shard run puts evs o out : running_ w = true -> peer_for_shard w tbl shard = Ok o -> o <> id w ->
  KernelLoop (Run tbl shard run puts :: evs) w out = Fatal.
Proof.
  intros Hw Ho Hne. cbn [KernelLoop]. rewrite Hw. cbn [negb turn]. unfold RunKernel. rewrite Ho. run.
  destruct (Z.eqb_spec o (id w)); [done|]. done.
Qed.
End WorkerLoop.
End WorkerLoop.
