(* ===== verification/Files.v ===== *)
(** * Whole files and directories: the static functions of util/file.cc

    [File::Slurp], [Dump] and [Exists] over a map from paths to contents, and
    [File::Mkdirs] over the directories of a file system that several
    processes share, as the master and the workers do when they start a
    checkpoint.  Which directories the system refuses to create, for want of
    permission or space, is a parameter. *)
From stdpp Require Import relations.
From S2P Require Import Prelude StringPiece Table RecordFile Checkpoint.

Module Files.
(** ** Whole files *)
(** The size of [buffer]. *)
Definition block : nat := Z.to_nat 32768.
#[local] Opaque block.
(** The loop of [Slurp], with the stream and what was read. *)
Fixpoint slurp_loop (fuel : nat) (f : LocalFile.t) (out : cstr) : outcome cstr :=
  match fuel with
  | O => OutOfFuel
  | S fuel =>
    if LocalFile.eof f then Ok out
    else
      let '(f, n, buffer) := LocalFile.read f block in
      if 0 <? n then slurp_loop fuel f (out ++ buffer) else Ok out
  end.
Definition Slurp (fuel : nat) (d : disk) (path : cstr) : outcome cstr :=
  match d !! path with Some bytes => slurp_loop fuel (LocalFile.open_r bytes) [] | None => Fatal end.
Definition Exists (d : disk) (path : cstr) : bool := bool_decide (is_Some (d !! path)).
(** Mode "w+" empties the file; [writable] says which paths can be opened. *)
Definition Dump (writable : cstr -> bool) (path data : cstr) (d : disk) : outcome disk :=
  if writable path then Ok (<[path := LocalFile.data (LocalFile.write LocalFile.open_w data)]> d) else Fatal.

Lemma block_pos : (0 < block)%nat.
Proof. apply (Z2Nat.inj_lt 0 32768); lia. Qed.
(** One block per round, and a round that finds the end. *)
Lemma slurp_rest fuel bytes : forall p out, (p <= length bytes)%nat -> (length bytes - p < block * fuel)%nat ->
  slurp_loop (S fuel) (LocalFile.mk bytes p false) out = Ok (out ++ drop p bytes).
Proof.
  pose proof block_pos as Hb. induction fuel as [|fuel IH]; intros p out Hp Hf; [lia|].
  remember (S fuel) as n eqn:En. cbn [slurp_loop LocalFile.eof LocalFile.feof LocalFile.read LocalFile.fpos LocalFile.data].
  rewrite orb_false_l. set (chunk := take block (drop p bytes)).
  assert (length chunk = Nat.min block (length bytes - p)) as Hc by (unfold chunk; by rewrite length_take, length_drop).
  destruct (Z.ltb_spec 0 (Z.of_nat (length chunk))) as [Hn|Hn].
  - destruct (Nat.ltb_spec (length chunk) block) as [Hs|Hs]; subst n.
    + cbn [slurp_loop LocalFile.eof LocalFile.feof]. unfold chunk. by rewrite take_ge by (rewrite length_drop; lia).
    + rewrite IH by lia. rewrite <- app_assoc. unfold chunk. replace (length _) with block by (fold chunk; lia). by rewrite <- drop_drop, take_drop.
  - by rewrite drop_ge, app_nil_r by lia.
Qed.
Definition slurp_fuel (bytes : cstr) : nat := length bytes / block + 2.
(** A file that was dumped is read back. *)
Lemma dump_slurp writable path data d : writable path = true ->
  exists d', Dump writable path data d = Ok d' /\ Exists d' path = true /\ Slurp (slurp_fuel data) d' path = Ok data.
Proof.
  intros Hw. unfold Dump. rewrite Hw. eexists. split; [done|]. unfold Exists, Slurp. rewrite lookup_insert_eq.
  split; [by apply bool_decide_eq_true|]. assert (LocalFile.data (LocalFile.write LocalFile.open_w data) = data) as -> by (cbn; by rewrite drop_nil, app_nil_r).
  unfold slurp_fuel, LocalFile.open_r. rewrite Nat.add_comm. cbn [Nat.add]. rewrite slurp_rest; [done|lia|].
  pose proof block_pos. pose proof (Nat.div_mod_eq (length data) block). pose proof (Nat.mod_upper_bound (length data) block). lia.
Qed.

(** ** Directories *)
Section Directories.
Variable refused : cstr -> bool.
(** The paths below the root, with [true] for a directory and [false] for a
    file: absolute names without empty components, [.] or [..]; the root is the
    empty name. *)
Abbreviation fs := (gmap cstr bool).
Definition parent (p : cstr) : cstr := rev (tail (drop_while (fun c => negb (bool_decide (c = "/"%char))) (rev p))).
Abbreviation below := (fun (dir c : cstr) => dir ++ "/"%char :: c).
Definition dot : cstr := lit ".".
Definition dotdot : cstr := lit "..".
(** The resolution of a path: its non-empty components, and a walk over them;
    there are no symbolic links. *)
Fixpoint components (acc p : cstr) : list cstr :=
  match p with
  | [] => if decide (acc = []) then [] else [acc]
  | c :: p => if decide (c = "/"%char) then (if decide (acc = []) then [] else [acc]) ++ components [] p else components (acc ++ [c]) p
  end.
Definition enter (f : fs) (dir c : cstr) : option cstr :=
  if decide (c = dot) then Some dir
  else if decide (c = dotdot) then Some (parent dir)
  else if decide (f !! below dir c = Some true) then Some (below dir c) else None.
Fixpoint walk (f : fs) (dir : cstr) (cs : list cstr) : option cstr :=
  match cs with [] => Some dir | c :: cs => match enter f dir c with Some dir => walk f dir cs | None => None end end.
Inductive made := Made (f : fs) | EExist | EOther.
(** The name [c] in the directory [dir]. *)
Definition mkdir_at (f : fs) (dir c : cstr) : made :=
  if decide (c = dot \/ c = dotdot) then EExist
  else match f !! below dir c with
       | Some _ => EExist
       | None => if refused (below dir c) then EOther else Made (<[below dir c := true]> f)
       end.
Definition mkdir (f : fs) (p : cstr) : made :=
  let cs := components [] p in
  match last cs with
  | None => EExist
  | Some c => match walk f [] (removelast cs) with Some dir => mkdir_at f dir c | None => EOther end
  end.
(** [mkdir] and the [PCHECK]. *)
Definition create (f : fs) (p : cstr) : outcome fs :=
  match mkdir f p with Made f' => Ok f' | EExist => Ok f | EOther => Fatal end.
Definition make_bit (s : cstr * fs) (bit : cstr) : outcome (cstr * fs) :=
  let bit := strip bit in
  if decide (length bit = 0%nat) then Ok s
  else let prefix := s.1 ++ "/"%char :: bit in f ← create s.2 prefix; Ok (prefix, f).
(** [cur] is the current directory. *)
Definition absolute (cur path : cstr) : cstr :=
  if decide (head path = Some "/"%char) then path else cur ++ "/"%char :: path.
Definition Mkdirs (cur path : cstr) (f : fs) : outcome fs :=
  s ← for_each make_bit (split (absolute cur path) ["/"%char]) ([], f); Ok s.2.

(** The paths that a call gives to [mkdir], in order ... *)
Fixpoint prefixes (p : cstr) (bits : list cstr) : list cstr :=
  match bits with
  | [] => []
  | b :: bits => let b := strip b in
      if decide (length b = 0%nat) then prefixes p bits else (p ++ "/"%char :: b) :: prefixes (p ++ "/"%char :: b) bits
  end.
Definition calls (cur path : cstr) : list cstr := prefixes [] (split (absolute cur path) ["/"%char]).
(** ... and the directories that these name, from the directory [dir] on. *)
Definition moves (dir c : cstr) : cstr :=
  if decide (c = dot) then dir else if decide (c = dotdot) then parent dir else below dir c.
Fixpoint targets (dir : cstr) (bits : list cstr) : list cstr :=
  match bits with
  | [] => []
  | b :: bits => let b := strip b in
      if decide (length b = 0%nat) then targets dir bits
      else (if decide (b = dot \/ b = dotdot) then [] else [below dir b]) ++ targets (moves dir b) bits
  end.
Definition visited (cur path : cstr) : list cstr := targets [] (split (absolute cur path) ["/"%char]).
Lemma make_bits bits : forall p f,
  (s ← for_each make_bit bits (p, f); Ok s.2) = for_each create (prefixes p bits) f.
Proof.
  induction bits as [|b bits IH]; intros p f; [done|]. cbn [for_each prefixes].
  assert (make_bit (p, f) b = if decide (length (strip b) = 0%nat) then Ok (p, f)
    else f' ← create f (p ++ "/"%char :: strip b); Ok (p ++ "/"%char :: strip b, f')) as -> by done.
  destruct (decide _); run; [apply IH|]. cbn [for_each]. destruct (create f _); run; [apply IH|done..].
Qed.
Lemma mkdirs_calls cur path f : Mkdirs cur path f = for_each create (calls cur path) f.
Proof. apply make_bits. Qed.

(** ** Resolution of the paths of a call *)
Lemma components_app p b : forall acc, components acc (p ++ "/"%char :: b) = components acc p ++ components [] b.
Proof.
  induction p as [|c p IH]; intros acc; cbn [components app]; [done|]. case_decide; [by rewrite IH, app_assoc|apply IH].
Qed.
Lemma components_one b : forall acc, acc ++ b <> [] -> Forall (fun c => c <> "/"%char) b -> components acc b = [acc ++ b].
Proof.
  induction b as [|c b IH]; intros acc Hne Hb; cbn [components].
  - rewrite app_nil_r in *. by rewrite decide_False.
  - apply Forall_cons in Hb as [Hc Hb]. rewrite decide_False by done. rewrite IH, <- app_assoc; [done|by destruct acc|done].
Qed.
Lemma walk_app f cs1 cs2 : forall dir, walk f dir (cs1 ++ cs2) = match walk f dir cs1 with Some d => walk f d cs2 | None => None end.
Proof. induction cs1 as [|c cs1 IH]; intros dir; [done|]. cbn [walk app]. destruct (enter f dir c); [apply IH|done]. Qed.
Abbreviation slashless := (Forall (fun c => c <> "/"%char)).
(** [mkdir] of a path below one that leads to [dir]. *)
Lemma mkdir_below f p dir b : walk f [] (components [] p) = Some dir -> b <> [] -> slashless b ->
  mkdir f (p ++ "/"%char :: b) = mkdir_at f dir b.
Proof.
  intros Hw Hne Hb. unfold mkdir. rewrite components_app, (components_one b []), last_snoc, removelast_last by done. by rewrite Hw.
Qed.
Lemma walk_below f p dir b : walk f [] (components [] p) = Some dir -> b <> [] -> slashless b ->
  walk f [] (components [] (p ++ "/"%char :: b)) = enter f dir b.
Proof.
  intros Hw Hne Hb. rewrite components_app, (components_one b []), walk_app, Hw by done. cbn [walk app]. by destruct (enter f dir b).
Qed.
Lemma slashless_strip b : slashless b -> slashless (strip b).
Proof. destruct (strip_correct b) as (pre & post & E & _). rewrite E at 1. by intros [_ [Hb _]%Forall_app]%Forall_app. Qed.

(** ** Several processes that make directories at the same time *)
(** For each process the directories it still visits; [None] when it stopped
    with a fatal error. *)
Record system := System { disk_of : fs; procs : list (option (list cstr)) }.
Inductive mk_step : system -> system -> Prop :=
  | mk_ok f ps i x todo f' : ps !! i = Some (Some (x :: todo)) -> create f x = Ok f' ->
      mk_step (System f ps) (System f' (<[i := Some todo]> ps))
  | mk_fatal f ps i x todo : ps !! i = Some (Some (x :: todo)) -> create f x = Fatal ->
      mk_step (System f ps) (System f (<[i := None]> ps)).
(** A process that can go on, with the directories [new] to be there: it has
    come to a directory, and nothing it still names is a file or refused. *)
Definition ready (f : fs) (todo new : list cstr) : Prop :=
  exists p dir bits, todo = prefixes p bits /\ new = targets dir bits /\ Forall slashless bits /\
    walk f [] (components [] p) = Some dir /\ Forall (fun x => f !! x <> Some false /\ refused x = false) new.
(** Directories are only added. *)
Definition grows (f f' : fs) : Prop := forall x b, f !! x = Some b -> f' !! x = Some b.
Definition no_new_files (f f' : fs) : Prop := forall x, f' !! x = Some false -> f !! x = Some false.
Lemma walk_grows f f' cs : grows f f' -> forall dir d, walk f dir cs = Some d -> walk f' dir cs = Some d.
Proof.
  intros Hg. induction cs as [|c cs IH]; intros dir d; [done|]. cbn [walk]. unfold enter. case_decide; [apply IH|].
  case_decide; [apply IH|]. destruct (decide (f !! below dir c = Some true)) as [E|]; [|done]. rewrite decide_True by auto. apply IH.
Qed.
Lemma ready_grows f f' todo new : grows f f' -> no_new_files f f' -> ready f todo new -> ready f' todo new.
Proof.
  intros Hg Hn (p & dir & bits & Ht & Hv & Hb & Hw & Hall). exists p, dir, bits. split_and!; [done..|by eapply walk_grows|].
  eapply Forall_impl; [exact Hall|]. intros x [H1 H2]. split; [|done]. intros E. by apply H1, Hn.
Qed.
Lemma ready_start f cur path :
  (forall x, x ∈ visited cur path -> f !! x <> Some false /\ refused x = false) -> ready f (calls cur path) (visited cur path).
Proof.
  intros H. exists [], [], (split (absolute cur path) ["/"%char]).
  split_and!; [done|done|apply split_correct|done|]. by apply Forall_forall.
Qed.
(** A name in a directory. *)
Lemma mkdir_at_ready f dir c : dot <> c /\ dotdot <> c -> f !! below dir c <> Some false -> refused (below dir c) = false ->
  exists f', match mkdir_at f dir c with Made f' => Ok f' | EExist => Ok f | EOther => Fatal end = Ok f' /\
    grows f f' /\ no_new_files f f' /\ f' !! below dir c = Some true /\ forall y, y <> below dir c -> f' !! y = f !! y.
Proof.
  intros [H1 H2] Hx Hr. unfold mkdir_at. rewrite decide_False by naive_solver. destruct (f !! below dir c) as [[|]|] eqn:E; [|done|].
  - exists f. split_and!; [done|by intros ?|by intros ?|done|done].
  - rewrite Hr. eexists. split; [done|]. split_and!.
    + intros y b Hy. rewrite lookup_insert_ne by congruence. done.
    + intros y Hy. destruct (decide (y = below dir c)) as [->|]; [by rewrite lookup_insert_eq in Hy|by rewrite lookup_insert_ne in Hy].
    + apply lookup_insert_eq.
    + intros y Hy. by rewrite lookup_insert_ne.
Qed.
(** The next call of [mkdir] succeeds, and its directory is there. *)
Lemma create_ready f x todo new : ready f (x :: todo) new ->
  exists f' here new', create f x = Ok f' /\ grows f f' /\ no_new_files f f' /\ new = here ++ new' /\ ready f' todo new' /\
    Forall (fun y => f' !! y = Some true) here /\ forall y, y ∉ here -> f' !! y = f !! y.
Proof.
  intros (p & dir & bits & Ht & -> & Hb & Hw & Hall). revert Ht Hb Hall.
  induction bits as [|b bits IH]; intros Ht Hb Hall; [done|]. apply Forall_cons in Hb as [Hb%slashless_strip Hbits].
  cbn [prefixes targets] in *. destruct (decide (length (strip b) = 0%nat)) as [|Hne]; [by apply IH|].
  injection Ht as -> Et. set (c := strip b) in *. assert (c <> []) as Hc by (by intros E; rewrite E in Hne).
  unfold create. rewrite (mkdir_below f p dir c) by done. pose proof (walk_below f p dir c Hw Hc Hb) as Hnext.
  destruct (decide (c = dot \/ c = dotdot)) as [Hdot|Hplain].
  - exists f, [], (targets (moves dir c) bits). unfold mkdir_at. rewrite decide_True by done.
    split_and!; [done|by intros ?|by intros ?|done| |done|done]. exists (p ++ "/"%char :: c), (moves dir c), bits.
    split_and!; [done..| |done]. rewrite Hnext. unfold enter, moves. destruct Hdot as [->| ->]; done.
  - apply Forall_app in Hall as [[Hx _]%Forall_cons Hall].
    destruct (mkdir_at_ready f dir c) as (f' & E & Hg & Hn & Hin & Hother); [naive_solver|apply Hx|apply Hx|].
    exists f', [below dir c], (targets (below dir c) bits).
    assert (moves dir c = below dir c) as Em by (unfold moves; by rewrite !decide_False by naive_solver). rewrite Em in *.
    split_and!; [done..| |by constructor|intros y Hy; apply Hother; set_solver].
    exists (p ++ "/"%char :: c), (below dir c), bits. split_and!; [done..| |].
    + rewrite (walk_below f' p dir c) by (done || by eapply walk_grows). unfold enter.
      by rewrite !decide_False, decide_True by naive_solver.
    + eapply Forall_impl; [exact Hall|]. intros y [H1 H2]. split; [|done]. intros Hy. by apply H1, Hn.
Qed.
(** At the end nothing is to be done. *)
Lemma ready_nil f new : ready f [] new -> new = [].
Proof.
  intros (p & dir & bits & Ht & -> & _). revert Ht. induction bits as [|b bits IH]; [done|]. cbn. case_decide; [done|]. done.
Qed.

(** One process alone: exactly the visited directories are added. *)
Lemma creates_all todo : forall f new, ready f todo new -> exists f', for_each create todo f = Ok f' /\
  forall x, f' !! x = if decide (x ∈ new) then Some true else f !! x.
Proof.
  induction todo as [|y todo IH]; intros f new Hr.
  { apply ready_nil in Hr as ->. exists f. split; [done|]. intros x. by rewrite decide_False by set_solver. }
  destruct (create_ready f y todo new Hr) as (f1 & here & new' & E & _ & _ & -> & Hr1 & Hy & Hother). destruct (IH f1 new' Hr1) as (f' & E' & Hf).
  exists f'. cbn [for_each]. rewrite E. run. split; [done|]. intros x. rewrite Hf. destruct (decide (x ∈ new')).
  - by rewrite decide_True by set_solver.
  - destruct (decide (x ∈ here)) as [Hh|Hne]; [rewrite decide_True by set_solver|rewrite decide_False by set_solver; auto].
    rewrite Forall_forall in Hy. auto.
Qed.
(** What holds while the processes run. *)
Definition progressing (f0 : fs) (paths : list (cstr * cstr)) (s : system) : Prop :=
  Forall2 (fun cp p => exists fin todo new, p = Some todo /\ visited cp.1 cp.2 = fin ++ new /\ ready (disk_of s) todo new /\
     Forall (fun x => disk_of s !! x = Some true) fin) paths (procs s) /\
  forall x, disk_of s !! x = Some false <-> f0 !! x = Some false.
Lemma mk_step_progressing f0 paths s s' : progressing f0 paths s -> mk_step s s' -> progressing f0 paths s'.
Proof.
  intros [Hp Hf] Hs. destruct Hs as [f ps i x todo f' Hi Hc|f ps i x todo Hi Hc]; cbn [disk_of procs] in *;
    destruct (Forall2_lookup_r _ _ _ _ _ Hp Hi) as (cp & Hcp & fin & todo0 & new & [= <-] & Hv & Hr & Hfin);
    destruct (create_ready f x todo new Hr) as (f1 & here & new' & E & Hg & Hn & -> & Hr1 & Hx & Hother); rewrite E in Hc; [|done].
  injection Hc as <-. split; cbn [disk_of procs].
  - rewrite <- (list_insert_id paths i cp) by done. apply Forall2_insert.
    + eapply Forall2_impl; [exact Hp|]. intros cq q (fin' & todo' & new1 & -> & Hv' & Hr' & Hfin').
      exists fin', todo', new1. split; [done|]. split; [done|]. split; [by eapply ready_grows|]. eapply Forall_impl; [exact Hfin'|]. intros y. apply Hg.
    + exists (fin ++ here), todo, new'. split; [done|]. split; [by rewrite <- app_assoc|]. split; [done|]. apply Forall_app. split; [|done].
      eapply Forall_impl; [exact Hfin|]. intros y. apply Hg.
  - intros y. rewrite <- Hf. split; [apply Hn|apply Hg].
Qed.

(** C36. [File::Mkdirs]: a call whose directories are neither files nor refused
    adds exactly the directories of its path and their parents, with [.] and
    [..] resolved as the system does.  Several
    processes that make directories of a shared file system at the same time,
    as master and workers do at a checkpoint, do not disturb each other: in
    every interleaving of their system calls none of them fails or is stuck, no file
    appears or disappears, and when all are done every directory is there. *)
Theorem mkdirs_concurrent (f : fs) (paths : list (cstr * cstr)) :
  (forall cp x, cp ∈ paths -> x ∈ visited cp.1 cp.2 -> f !! x <> Some false /\ refused x = false) ->
  (forall cp, cp ∈ paths -> exists f', Mkdirs cp.1 cp.2 f = Ok f' /\
     forall x, f' !! x = if decide (x ∈ visited cp.1 cp.2) then Some true else f !! x) /\
  (forall f' ps, rtc mk_step (System f ((fun cp => Some (calls cp.1 cp.2)) <$> paths)) (System f' ps) ->
     (forall i p, ps !! i = Some p -> exists todo, p = Some todo /\ forall x rest, todo = x :: rest -> exists f'', create f' x = Ok f'') /\
     (forall x, f' !! x = Some false <-> f !! x = Some false) /\
     (Forall (fun p => p = Some []) ps -> forall cp x, cp ∈ paths -> x ∈ visited cp.1 cp.2 -> f' !! x = Some true)).
Proof.
  intros Hok. assert (forall cp, cp ∈ paths -> ready f (calls cp.1 cp.2) (visited cp.1 cp.2)) as Hready.
  { intros cp Hcp. apply ready_start. eauto. }
  split; [intros cp Hcp; rewrite mkdirs_calls; by apply creates_all, Hready|].
  intros f' ps Hr. assert (progressing f paths (System f' ps)) as [Hp Hf].
  { revert Hr. generalize (System f' ps). apply rtc_ind_r; [|eauto using mk_step_progressing]. split; [|done].
    cbn. apply Forall2_fmap_r, Forall_Forall2_diag, Forall_forall. intros cp Hcp. exists [], (calls cp.1 cp.2), (visited cp.1 cp.2).
    by split_and!; [..|auto|]. }
  cbn [disk_of procs] in *. split; [|split; [done|]].
  - intros i p Hi. destruct (Forall2_lookup_r _ _ _ _ _ Hp Hi) as (cp & _ & fin & todo & new & -> & _ & Hrd & _). exists todo. split; [done|].
    intros x rest ->. destruct (create_ready f' x rest new Hrd) as (f1 & here & new' & E & _). eauto.
  - intros Hdone cp x [i Hcp]%list_elem_of_lookup Hx. destruct (Forall2_lookup_l _ _ _ _ _ Hp Hcp) as (p & Hi & fin & todo & new & -> & Hv & Hrd & Hfin).
    pose proof (proj1 (Forall_lookup _ _) Hdone _ _ Hi) as E. cbn in E. simplify_eq. apply ready_nil in Hrd as ->.
    rewrite app_nil_r in Hv. rewrite Hv in Hx. by apply (proj1 (Forall_forall _ _) Hfin).
Qed.
End Directories.

(** A regular file at the end of the path is taken for a directory: [EEXIST]
    does not tell them apart. *)
Lemma mkdirs_on_file : Mkdirs (fun _ => false) (lit "/") (lit "/a") {[ lit "/a" := false ]} = Ok {[ lit "/a" := false ]}.
Proof. vm_compute. done. Qed.
(** A path below a regular file is refused. *)
Lemma mkdirs_below_file : Mkdirs (fun _ => false) (lit "/") (lit "/a/b") {[ lit "/a" := false ]} = Fatal.
Proof. vm_compute. done. Qed.

(** The master and two workers, one of them with a relative path that leads up. *)
Definition three : list (cstr * cstr) := [(lit "/", lit "/cp/epoch_00001/"); (lit "/home", lit "/cp/epoch_00001/"); (lit "/cp/run", lit "../log/.")].
Lemma mkdirs_concurrent_witness :
  (exists f', Mkdirs (fun _ => false) (lit "/cp/run") (lit "../log/.") ∅ = Ok f' /\ f' !! lit "/cp" = Some true /\ f' !! lit "/cp/run" = Some true /\
     f' !! lit "/cp/log" = Some true) /\
  (forall f' ps, rtc (mk_step (fun _ => false)) (System ∅ ((fun cp => Some (calls cp.1 cp.2)) <$> three)) (System f' ps) ->
     Forall (fun p => p = Some []) ps -> f' !! lit "/cp/epoch_00001" = Some true /\ f' !! lit "/cp/log" = Some true).
Proof.
  destruct (mkdirs_concurrent (fun _ => false) ∅ three) as [Hone Hall]; [by intros|]. split.
  - destruct (Hone (lit "/cp/run", lit "../log/.")) as (f' & E & Hf); [by do 2 right; left|]. exists f'. split; [exact E|].
    rewrite !Hf. split_and!; vm_compute; done.
  - intros f' ps Hr Hd. destruct (Hall f' ps Hr) as (_ & _ & Hin). split.
    + apply (Hin Hd (lit "/", lit "/cp/epoch_00001/")); [by left|]. vm_compute. right. left.
    + apply (Hin Hd (lit "/cp/run", lit "../log/.")); [by do 2 right; left|]. vm_compute. do 2 right. left.
Defined.
End Files.
