(* ===== verification/Utilities.v ===== *)
(** * Utilities: util/common.h, util/common.cc, util/file.cc, util/static-initializers.h

    Ranges, histograms, statistics, spin locks, whole files and directories,
    and the registry of initialisers.  [log] of the C library is a
    parameter. *)
From S2P Require Import Prelude StringPiece Float Table StateTable RecordFile Registry.

Module Utilities.
(** ** [range] *)
(** [step] is not used. *)
Definition range3 (from to step : Z) : list Z := seqZ from (to - from).
Definition range (to : Z) : list Z := range3 0 to 1.
Lemma range_ignores_step from to step : range3 from to step = range3 from to 1.
Proof. done. Qed.

(** ** Hashes of pairs and tuples (util/tuple.h)

    [std::tr1::hash] of the components gives [size_t]s; those of a tuple are
    hashed as an array of eight-byte words. *)
Definition hash_pair (ha hb : Z) : Z := Z.lxor ha hb.
Definition hash_tuple2 (ha hb : Z) : Z := SuperFastHash (le_bytes 8 ha ++ le_bytes 8 hb).
Definition hash_tuple3 (ha hb hc : Z) : Z := SuperFastHash (le_bytes 8 ha ++ le_bytes 8 hb ++ le_bytes 8 hc).
(** The hash of a pair does not see the order, and all pairs of equal components
    have the same hash. *)
Lemma hash_pair_sym ha hb : hash_pair ha hb = hash_pair hb ha.
Proof. apply Z.lxor_comm. Qed.
Lemma hash_pair_diagonal h : hash_pair h h = 0.
Proof. apply Z.lxor_nilpotent. Qed.

(** ** [Histogram] *)
Section Histogram.
Variable log : spec_float -> spec_float.
(** 1e-9 and 1.1, rounded to double. *)
Definition kMinVal : spec_float := S754_finite false 4835703278458517 (-82).
Definition kLogBase : spec_float := S754_finite false 4953959590107546 (-52).
(** [static_cast<int>] is undefined outside the range of [int]. *)
Definition cast_int (x : spec_float) : outcome Z :=
  match x with
  | S754_nan | S754_infinity _ => Undefined
  | _ => let n := StateTable.trunc x in if (- 2 ^ 31 <=? n) && (n <? 2 ^ 31) then Ok n else Undefined
  end.
Definition bucketForVal (v : spec_float) : outcome Z :=
  if SFltb v kMinVal then Ok 0
  else
    let v := f64_div v kMinVal in
    let v := f64_add v kLogBase in
    n ← cast_int (f64_div (log v) (log kLogBase));
    Ok (to_int32 (1 + n)).
Record Histogram := { count : Z; buckets : list Z }.
Definition Histogram_new : Histogram := {| count := 0; buckets := [] |}.
(** [buckets.size() <= b] compares as unsigned; [resize] fills with 0. *)
Definition add (h : Histogram) (val : spec_float) : outcome Histogram :=
  b ← bucketForVal val;
  bs ← (if Z.of_nat (length (buckets h)) <=? wrapu 64 b
        then if wrapu 64 (b + 1) <? 2 ^ 61 then Ok (buckets h ++ replicate (Z.to_nat (b + 1) - length (buckets h)) 0) else Throw
        else Ok (buckets h));
  n ← vec_at bs b;
  bs ← vec_set bs b (to_int32 (n + 1));
  Ok {| count := to_int32 (count h + 1); buckets := bs |}.
Definition add_all (h : Histogram) (l : list spec_float) : outcome Histogram := for_each add l h.

(** How many of the values fall into bucket [b]. *)
Definition hits (l : list spec_float) (b : Z) : Z := Z.of_nat (length (filter (fun v => bucketForVal v = Ok b) l)).
Record counts (h : Histogram) (l : list spec_float) : Prop := {
  counts_count : count h = Z.of_nat (length l);
  counts_bucket : forall i : nat, default 0 (buckets h !! i) = hits l (Z.of_nat i)
}.
Lemma hits_snoc l v b : hits (l ++ [v]) b = hits l b + (if decide (bucketForVal v = Ok b) then 1 else 0).
Proof. unfold hits. rewrite filter_app, length_app. case_decide as E; [rewrite filter_cons_True|rewrite filter_cons_False]; cbn; lia || done. Qed.
Lemma hits_bound l b : 0 <= hits l b <= Z.of_nat (length l).
Proof. unfold hits. pose proof (length_filter (fun v => bucketForVal v = Ok b) l). lia. Qed.
Lemma vec_at_nat {A} (l : list A) (i : nat) x : l !! i = Some x -> vec_at l (Z.of_nat i) = Ok x.
Proof. apply vec_at_Some. Qed.

Lemma add_counts h l v b : counts h l -> bucketForVal v = Ok b -> 0 <= b < 2 ^ 31 - 1 -> Z.of_nat (length l) < 2 ^ 31 - 1 ->
  exists h', add h v = Ok h' /\ counts h' (l ++ [v]).
Proof.
  intros [Hc Hb] Ev Hv Hl. unfold add. rewrite Ev. run. set (i := Z.to_nat b).
  assert (exists bs, (if Z.of_nat (length (buckets h)) <=? wrapu 64 b
      then if wrapu 64 (b + 1) <? 2 ^ 61 then Ok (buckets h ++ replicate (Z.to_nat (b + 1) - length (buckets h)) 0) else Throw
      else Ok (buckets h)) = Ok bs /\ (i < length bs)%nat /\ forall j : nat, default 0 (bs !! j) = hits l (Z.of_nat j)) as (bs & E & Hi & Hbs).
  { rewrite !wrapu_small by lia. destruct (Z.leb_spec (Z.of_nat (length (buckets h))) b).
    - destruct (Z.ltb_spec (b + 1) (2 ^ 61)); [|lia]. eexists. split; [done|]. split; [rewrite length_app, length_replicate; subst i; lia|].
      intros j. rewrite <- Hb. destruct (decide (j < length (buckets h))%nat) as [Hj|Hj]; [by rewrite lookup_app_l|].
      rewrite lookup_app_r by lia. rewrite (lookup_ge_None_2 (buckets h)) by lia.
      destruct (replicate _ 0 !! _) as [z|] eqn:Ez; [|done]. apply lookup_replicate in Ez as [-> _]. done.
    - exists (buckets h). split; [done|]. split; [subst i; lia|done]. }
  rewrite E. run. destruct (lookup_lt_is_Some_2 bs i Hi) as [n Hn].
  assert (vec_at bs b = Ok n) as -> by (rewrite <- (Z2Nat.id b) by lia; by apply vec_at_Some). run.
  assert (vec_set bs b (to_int32 (n + 1)) = Ok (<[i := to_int32 (n + 1)]> bs)) as -> by (rewrite <- (Z2Nat.id b) by lia; by apply vec_set_lt). run.
  eexists. split; [done|]. pose proof (Hbs i) as Hni. rewrite Hn in Hni. change (n = hits l (Z.of_nat i)) in Hni. pose proof (hits_bound l (Z.of_nat i)).
  split; cbn [count buckets].
  - rewrite Hc, length_app. cbn. rewrite to_int32_small by lia. lia.
  - intros j. rewrite hits_snoc, <- Hbs, Ev. destruct (decide (j = i)) as [->|Hne].
    + rewrite list_lookup_insert_eq, Hn by done. cbn. rewrite decide_True by (f_equal; subst i; lia). apply to_int32_small. lia.
    + rewrite list_lookup_insert_ne by done. rewrite decide_False by (intros [= ->]; subst i; lia). lia.
Qed.
(** Every value is counted once, in its bucket. *)
Lemma histogram_counts l : Forall (fun v => exists b, bucketForVal v = Ok b /\ 0 <= b < 2 ^ 31 - 1) l -> Z.of_nat (length l) < 2 ^ 31 ->
  exists h, add_all Histogram_new l = Ok h /\ counts h l.
Proof.
  intros Hall Hl. unfold add_all. destruct (for_each_inv add (fun pre h => counts h pre) l Histogram_new) as (h & E & Hh); [| |by exists h].
  - split; [done|]. intros i. done.
  - intros pre x todo h -> Hh. apply Forall_app in Hall as [_ [(b & Ex & Hx) _]%Forall_cons]. rewrite length_app in Hl. cbn in Hl. eapply add_counts; [done|done|done|lia].
Qed.
End Histogram.

(** ** [Stats] *)
Abbreviation Stats := (gmap cstr spec_float).
Definition stat (s : Stats) (k : cstr) : spec_float := default (S754_zero false) (s !! k).
Definition stat_add (s : Stats) (k : cstr) (v : spec_float) : Stats := <[k := f64_add (stat s k) v]> s.
Definition Merge (s other : Stats) : Stats := fold_left (fun s kv => stat_add s kv.1 kv.2) (map_to_list other) s.
Lemma merge_list (l : list (cstr * spec_float)) k : forall s : Stats, NoDup l.*1 ->
  fold_left (fun s kv => stat_add s kv.1 kv.2) l s !! k =
  match (list_to_map l : Stats) !! k with Some v => Some (f64_add (stat s k) v) | None => s !! k end.
Proof.
  induction l as [|[k' v'] l IH]; intros s Hnd; cbn [fold_left fst snd]; [by rewrite list_to_map_nil, lookup_empty|].
  cbn [fmap list_fmap fst] in Hnd. apply NoDup_cons in Hnd as [Hk' Hnd]. rewrite IH, list_to_map_cons by done. unfold stat_add. destruct (decide (k' = k)) as [->|Hne].
  - rewrite not_elem_of_list_to_map_1 by exact Hk'. by rewrite !lookup_insert_eq.
  - rewrite lookup_insert_ne by done. unfold stat. by rewrite !lookup_insert_ne.
Qed.
(** The order in which the other statistics are visited does not matter. *)
Lemma merge_stat (s other : Stats) k : Merge s other !! k =
  match other !! k with Some v => Some (f64_add (stat s k) v) | None => s !! k end.
Proof. unfold Merge. rewrite merge_list by apply NoDup_fst_map_to_list. by rewrite list_to_map_to_list. Qed.

(** ** [SpinLock]: threads that lock before and unlock after their critical section *)
Inductive thread := Outside | Locking | Inside.
#[export] Instance thread_eq_dec : EqDecision thread.
Proof. solve_decision. Defined.
Record spin := Spin { d : Z; threads : list thread }.
(** [__sync_bool_compare_and_swap(&d, 0, 1)]. *)
Definition compare_and_swap (x : Z) : Z * bool := if x =? 0 then (1, true) else (x, false).
Inductive spin_step : spin -> spin -> Prop :=
  | call_lock x ts i : ts !! i = Some Outside -> spin_step (Spin x ts) (Spin x (<[i := Locking]> ts))
  | swapped x x' ts i : ts !! i = Some Locking -> compare_and_swap x = (x', true) -> spin_step (Spin x ts) (Spin x' (<[i := Inside]> ts))
  | spun x x' ts i : ts !! i = Some Locking -> compare_and_swap x = (x', false) -> spin_step (Spin x ts) (Spin x' ts)
  | unlock x ts i : ts !! i = Some Inside -> spin_step (Spin x ts) (Spin 0 (<[i := Outside]> ts)).
Definition SpinLock_new (n : nat) : spin := Spin 0 (replicate n Outside).
Definition exclusive (s : spin) : Prop :=
  (d s = 0 /\ forall i, threads s !! i <> Some Inside) \/
  (d s = 1 /\ exists i, threads s !! i = Some Inside /\ forall j, threads s !! j = Some Inside -> j = i).
Lemma insert_other (ts : list thread) i j x y : ts !! i = Some x -> <[i := y]> ts !! j = Some Inside ->
  y = Inside /\ j = i \/ j <> i /\ ts !! j = Some Inside.
Proof.
  intros Hi Hj. destruct (decide (j = i)) as [->|Hne].
  - rewrite list_lookup_insert_eq in Hj by (by eapply lookup_lt_Some). naive_solver.
  - rewrite list_lookup_insert_ne in Hj by done. auto.
Qed.
Lemma spin_exclusive s s' : exclusive s -> spin_step s s' -> exclusive s'.
Proof.
  unfold exclusive. intros He Hs. destruct Hs as [x ts i Hi|x x' ts i Hi Hc|x x' ts i Hi Hc|x ts i Hi]; cbn [d threads] in *.
  - destruct He as [[-> He]|[-> (k & Hk & Hu)]]; [left|right]; (split; [done|]).
    + intros j Hj. destruct (insert_other ts i j _ _ Hi Hj) as [[? ?]|[_ Hj']]; [done|by eapply He].
    + exists k. split; [rewrite list_lookup_insert_ne by congruence; done|]. intros j Hj.
      destruct (insert_other ts i j _ _ Hi Hj) as [[? ?]|[_ Hj']]; [done|auto].
  - unfold compare_and_swap in Hc. destruct (Z.eqb_spec x 0); simplify_eq. destruct He as [[_ He]|[? _]]; [|done]. right. split; [done|]. exists i.
    split; [by rewrite list_lookup_insert_eq by (by eapply lookup_lt_Some)|]. intros j Hj.
    destruct (insert_other ts i j _ _ Hi Hj) as [[_ ?]|[_ Hj']]; [done|by destruct (He j)].
  - unfold compare_and_swap in Hc. destruct (Z.eqb_spec x 0); simplify_eq. done.
  - destruct He as [[_ He]|[_ (k & Hk & Hu)]]; [by destruct (He i)|]. left. split; [done|]. intros j Hj.
    destruct (insert_other ts i j _ _ Hi Hj) as [[? ?]|[Hne Hj']]; [done|]. apply Hu in Hi, Hj'. congruence.
Qed.
(** At most one thread is inside, and a free lock can be taken by any thread that waits for it. *)
Lemma spin_mutex n s : rtc spin_step (SpinLock_new n) s ->
  (forall i j, threads s !! i = Some Inside -> threads s !! j = Some Inside -> i = j) /\
  (forall i, threads s !! i = Some Locking -> (forall j, threads s !! j <> Some Inside) ->
     spin_step s (Spin 1 (<[i := Inside]> (threads s)))).
Proof.
  intros Hr. assert (exclusive s) as He.
  { revert s Hr. apply rtc_ind_r; [|eauto using spin_exclusive].
    left. split; [done|]. cbn. intros i [? _]%lookup_replicate. done. }
  split.
  - intros i j Hi Hj. destruct He as [[_ He]|[_ (k & _ & Hu)]]; [by destruct (He i)|]. by rewrite (Hu i), (Hu j).
  - intros i Hi Hno. destruct He as [[Hd _]|[_ (k & Hk & _)]]; [|by destruct (Hno k)]. destruct s as [x ts]. cbn in *. subst x.
    by apply swapped with (i := i).
Qed.
(** ** [Registry<T>] of util/static-initializers.h and its initialisers *)
Section Initializers.
Context {S : Type}.
(** A [std::map] from names to pointers, in the order of the names. *)
Abbreviation Map := (list (cstr * option (S -> outcome S))).
Fixpoint put (k : cstr) (v : option (S -> outcome S)) (m : Map) : Map :=
  match m with
  | [] => [(k, v)]
  | (k', v') :: m =>
    if Registry.string_less k k' then (k, v) :: (k', v') :: m
    else if Registry.string_less k' k then (k', v') :: put k v m
    else (k, v) :: m
  end.
Definition lookup_map (k : cstr) (m : Map) : option (option (S -> outcome S)) := snd <$> (snd <$> list_find (fun x => x.1 = k) m).
(** [operator[]] inserts a null pointer under an unknown name. *)
Definition get_object (k : cstr) (m : Map) : Map * option (S -> outcome S) :=
  match lookup_map k m with Some v => (m, v) | None => (put k None m, None) end.
(** [RunInitializers] and [RunTests]. *)
Definition RunInitializers (m : Map) (s : S) : outcome S :=
  for_each (fun s x => run ← deref (x.2); run s) m s.

(** The names increase. *)
Fixpoint ordered (m : Map) : Prop :=
  match m with [] => True | (k, _) :: m => Forall (fun x => Registry.string_less k x.1 = true) m /\ ordered m end.
Lemma put_keys k v m x : x ∈ put k v m -> x = (k, v) \/ x ∈ m.
Proof.
  induction m as [|[k' v'] m IH]; cbn; [set_solver|]. destruct (Registry.string_less k k'); [set_solver|]. destruct (Registry.string_less k' k); set_solver.
Qed.
Lemma put_ordered k v m : ordered m -> ordered (put k v m).
Proof.
  induction m as [|[k' v'] m IH]; cbn; [done|]. intros [Hk' Hm]. destruct (Registry.string_less k k') eqn:E1; cbn.
  - split; [|done]. constructor; [done|]. eapply Forall_impl; [exact Hk'|]. intros x. by apply Registry.string_less_trans.
  - destruct (Registry.string_less k' k) eqn:E2; cbn.
    + split; [|by apply IH]. apply Forall_forall. intros x [->|Hx]%put_keys; [done|]. by apply (proj1 (Forall_forall _ _) Hk').
    + rewrite (Registry.string_less_total k k') by done. done.
Qed.
Lemma lookup_put_eq k v m : lookup_map k (put k v m) = Some v.
Proof.
  unfold lookup_map. induction m as [|[k' v'] m IH]; cbn; [by rewrite decide_True|].
  destruct (Registry.string_less k k') eqn:E1; cbn; [by rewrite decide_True|].
  destruct (Registry.string_less k' k) eqn:E2; cbn; [|by rewrite decide_True].
  destruct (decide (k' = k)) as [->|]; [by rewrite Registry.string_less_irrefl in E2|]. cbn.
  by destruct (list_find _ (put k v m)) as [[? ?]|].
Qed.
(** Asking for a name that nobody registered leaves a null pointer behind,
    which the next run of the initialisers dereferences. *)
Lemma unknown_name_undefined k s : RunInitializers (get_object k []).1 s = Undefined.
Proof. done. Qed.
End Initializers.
End Utilities.
