(* ===== verification/WeightedGraph.v ===== *)
(** * Weighted graphs: the rest of examples/gengraph.cc

    The generator of weighted graphs, with and without the second file for
    Hadoop, read back by the kernels with weights (shortest paths, Adsorption).
    The random numbers are streams as in Examples.v; [log] and the conversion
    of a [float] to text are parameters.  The commands that upload the files
    are not modelled. *)
From S2P Require Import Prelude StringPiece Decimal Float Examples.

Module WeightedGraph.
Import GenGraph.
Section WeightedGraph.
Variable rand : nat -> Z.
Variable rand_weight : nat -> spec_float.
Variable log : spec_float -> spec_float.
Variable show_float : spec_float -> cstr.

Definition one : spec_float := f32_of_Z 1.
(** The weights of [InitLinks2] and of [InitLinks3]. *)
Definition log_weight (w : spec_float) : spec_float := log (f32_add one w).
Definition inverse_weight (w : spec_float) : spec_float := f32_div one w.
(** [n] calls of [rand_target] and [m] of [rand_weight] were made before. *)
Fixpoint draw_weighted (weight : spec_float -> spec_float) (fuel count : nat) (key : Z) (n m : nat) : outcome (list Link * nat * nat) :=
  match count with
  | O => Ok ([], n, m)
  | S count =>
    '(target, n) ← draw rand fuel key n;
    '(links, n, m') ← draw_weighted weight fuel count key n (S m);
    Ok ({| link_end := target; link_weight := weight (rand_weight m) |} :: links, n, m')
  end.
Definition init_links (weight : spec_float -> spec_float) (fuel : nat) (degree key : Z) (n m : nat) : outcome (list Link * nat * nat) :=
  let degree := if 10000 <? degree then 10000 else degree in
  draw_weighted weight fuel (Z.to_nat degree) key n m.
Definition InitLinks2 := init_links log_weight.
Definition InitLinks3 := init_links inverse_weight.

(** The texts of a vertex in the two files. *)
Definition link_text (l : Link) : cstr := show_int (link_end l) ++ ","%char :: show_float (link_weight l) ++ [" "%char].
Definition weighted_text (links : list Link) : cstr := mjoin (link_text <$> links).
Definition weighted_line (i : Z) (links : list Link) : cstr := show_int i ++ "009"%char :: weighted_text links.
Definition hadoop_mark (i : Z) : cstr := if i =? 0 then lit "f0:" else lit "p:".
Definition hadoop_line (i : Z) (links : list Link) : cstr := show_int i ++ "009"%char :: hadoop_mark i ++ weighted_text links.
(** The loop over the vertices of a shard, with the texts of both files. *)
Fixpoint gen_weighted_loop (steps fuel : nat) (degree : Z -> Z) (graph_size num_shards i : Z) (n m : nat) : outcome (cstr * cstr) :=
  match steps with
  | O => OutOfFuel
  | S steps =>
    if i <? graph_size then
      '(links, n, m) ← InitLinks2 fuel (degree i) i n m;
      '(rest, hrest) ← gen_weighted_loop steps fuel degree graph_size num_shards (to_int32 (i + num_shards)) n m;
      Ok (weighted_line i links ++ "010"%char :: rest, hadoop_line i links ++ "010"%char :: hrest)
    else Ok ([], [])
  end.
Definition gen_hadoop_weightgraph (fuel : nat) (degree : Z -> Z) (graph_size num_shards current_shard : Z) : outcome (cstr * cstr) :=
  gen_weighted_loop (S (Z.to_nat graph_size)) fuel degree graph_size num_shards current_shard 0 0.
Definition gen_weightgraph (fuel : nat) (degree : Z -> Z) (graph_size num_shards current_shard : Z) : outcome cstr :=
  fst <$> gen_hadoop_weightgraph fuel degree graph_size num_shards current_shard.
(** The second file of [gen_hadoop_unweightgraph]. *)
Definition hadoop_unweighted_line (i : Z) (links : list Z) : cstr := show_int i ++ "009"%char :: lit "1:" ++ links_text links.
Fixpoint gen_unweighted_loop (steps fuel : nat) (degree : Z -> Z) (graph_size num_shards i : Z) (n : nat) : outcome (cstr * cstr) :=
  match steps with
  | O => OutOfFuel
  | S steps =>
    if i <? graph_size then
      '(links, n) ← InitLinks rand fuel (degree i) i n;
      '(rest, hrest) ← gen_unweighted_loop steps fuel degree graph_size num_shards (to_int32 (i + num_shards)) n;
      Ok (graph_line i links ++ "010"%char :: rest, hadoop_unweighted_line i links ++ "010"%char :: hrest)
    else Ok ([], [])
  end.
Definition gen_hadoop_unweightgraph (fuel : nat) (degree : Z -> Z) (graph_size num_shards current_shard : Z) : outcome (cstr * cstr) :=
  gen_unweighted_loop (S (Z.to_nat graph_size)) fuel degree graph_size num_shards current_shard 0.

(** The upload does not change what is generated. *)
Lemma hadoop_same_graph steps : forall fuel degree size shards i n,
  fst <$> gen_unweighted_loop steps fuel degree size shards i n = fst <$> gen_loop rand steps fuel degree size shards i n.
Proof.
  induction steps as [|steps IH]; intros fuel degree size shards i n; [done|]. cbn [gen_unweighted_loop gen_loop].
  destruct (i <? size); [|done]. destruct (InitLinks rand fuel (degree i) i n) as [[links n1]| | | |]; run; [|done..].
  specialize (IH fuel degree size shards (to_int32 (i + shards)) n1).
  destruct (gen_unweighted_loop steps fuel degree size shards (to_int32 (i + shards)) n1) as [[r1 h1]| | | |],
    (gen_loop rand steps fuel degree size shards (to_int32 (i + shards)) n1) as [[r2 n2]| | | |]; cbn in IH |- *; congruence.
Qed.

(** ** Reading a line back *)
Variable cast_int : cstr -> outcome Z.
Variable cast_float : cstr -> outcome spec_float.
(** What is left of a weight after printing: [operator<<] writes six digits. *)
Variable printed : spec_float -> spec_float.
Hypothesis cast_show : forall i, - 2 ^ 31 <= i < 2 ^ 31 -> cast_int (show_int i) = Ok i.
Hypothesis cast_float_show : forall w, cast_float (show_float w) = Ok (printed w).
Hypothesis show_float_plain : forall w c, c ∈ show_float w -> c <> " "%char /\ c <> ","%char /\ c <> "009"%char /\ c <> "010"%char.
Abbreviation is_int i := (- 2 ^ 31 <= i < 2 ^ 31).
Definition print_link (l : Link) : Link := {| link_end := link_end l; link_weight := printed (link_weight l) |}.

Lemma link_field l : is_int (link_end l) -> forall rest,
  weighted_link cast_int cast_float (link_text l ++ rest) (length (link_text l) - 1) = Ok (print_link l) /\
  find_char " " (link_text l ++ rest) = Some (length (link_text l) - 1)%nat.
Proof.
  intros Hi rest. destruct l as [e w]. cbn [link_end] in Hi. unfold link_text, print_link. cbn [link_end link_weight].
  set (field := show_int e ++ ","%char :: show_float w).
  assert (show_int e ++ ","%char :: show_float w ++ [" "%char] = field ++ [" "%char]) as Ef by (unfold field; by rewrite <- app_assoc).
  rewrite Ef, length_app, <- app_assoc. cbn [length app]. replace (length field + 1 - 1)%nat with (length field) by lia.
  assert (" "%char ∉ field) as Hsp.
  { unfold field. rewrite elem_of_app, elem_of_cons. intros [Hin|[Hin|Hin]]; [|done|by apply show_float_plain in Hin as [? _]].
    by eapply plain_absent; [apply (show_int_plain e)|..|exact Hin]. }
  split; [|by apply find_char_app]. unfold weighted_link. rewrite take_app_length.
  assert (find_char "," (field ++ " "%char :: rest) = Some (length (show_int e))) as ->.
  { unfold field. rewrite <- app_assoc. cbn [app]. apply find_char_app. by eapply plain_absent; [apply show_int_plain|]. }
  assert (take (length (show_int e)) field = show_int e) as -> by apply take_app_length.
  rewrite (cast_show e Hi). run.
  assert (substr field (S (length (show_int e))) (length field) = Ok (show_float w)) as ->; [|run; rewrite cast_float_show; by run].
  unfold substr. rewrite decide_True by (unfold field; rewrite length_app; cbn; lia). f_equal.
  unfold field at 2. rewrite drop_after. apply take_ge. unfold field. rewrite length_app. cbn. lia.
Qed.
Lemma weighted_text_cons l ls : weighted_text (l :: ls) = link_text l ++ weighted_text ls.
Proof. done. Qed.
Lemma link_text_length l : (1 < length (link_text l))%nat.
Proof. unfold link_text. rewrite length_app. cbn. rewrite length_app. cbn. lia. Qed.
Lemma weighted_links_text ls : forall fuel, (length ls < fuel)%nat -> Forall (fun l => is_int (link_end l)) ls ->
  weighted_links cast_int cast_float fuel (weighted_text ls) = Ok (print_link <$> ls).
Proof.
  induction ls as [|l ls IH]; intros fuel Hf Hls; destruct fuel as [|fuel]; try (cbn in Hf; lia); [done|].
  apply Forall_cons in Hls as [Hl Hls]. cbn [length] in Hf. rewrite weighted_text_cons. cbn [weighted_links].
  destruct (link_field l Hl (weighted_text ls)) as [E1 E2]. pose proof (link_text_length l). rewrite E2, E1, decide_True by lia. run.
  replace (S (length (link_text l) - 1)) with (length (link_text l)) by lia. rewrite drop_app_length, (IH fuel) by (done || lia). by run.
Qed.
Lemma weighted_text_length ls : (length ls <= length (weighted_text ls))%nat.
Proof. induction ls as [|l ls IH]; [done|]. rewrite weighted_text_cons, length_app. pose proof (link_text_length l). cbn [length]. lia. Qed.
Lemma weighted_line_read i ls k data : is_int i -> Forall (fun l => is_int (link_end l)) ls ->
  read_data_weighted cast_int cast_float (weighted_line i ls) k data = Ok (i, print_link <$> ls).
Proof.
  intros Hi Hls. unfold read_data_weighted, split_tab, weighted_line.
  rewrite find_char_app by (by eapply plain_absent; [apply show_int_plain|]).
  rewrite take_app_length, (cast_show i Hi), drop_after. run.
  rewrite weighted_links_text; [by run| |done]. pose proof (weighted_text_length ls). lia.
Qed.
Lemma weighted_line_newline i ls : "010"%char ∉ weighted_line i ls.
Proof.
  unfold weighted_line. rewrite elem_of_app, elem_of_cons. intros [Hin|[Hin|Hin]]; [|done|].
  - by eapply plain_absent; [apply (show_int_plain i)|..|exact Hin].
  - induction ls as [|l ls IH]; [by apply not_elem_of_nil in Hin|]. rewrite weighted_text_cons in Hin.
    apply elem_of_app in Hin as [Hin|Hin]; [|auto]. unfold link_text in Hin.
    apply elem_of_app in Hin as [Hin|[Hin|[Hin|Hin%list_elem_of_singleton]%elem_of_app]%elem_of_cons]; [|done| |done].
    + by eapply plain_absent; [apply (show_int_plain (link_end l))|..|exact Hin].
    + by apply show_float_plain in Hin as (_ & _ & _ & ?).
Qed.

(** ** Generating *)
Variables (fuel : nat) (size : Z) (degree : Z -> Z) (num_shards : Z).
Hypothesis rand_range : forall n, 0 <= rand n < size.
Hypothesis rand_varies : forall key n, exists j, (j < fuel)%nat /\ rand (n + j) <> key.
Hypothesis shards_pos : 0 < num_shards.
Hypothesis size_small : size + num_shards < 2 ^ 31.

Lemma draw_weighted_spec weight count key : forall n m, exists links n' m',
  draw_weighted weight fuel count key n m = Ok (links, n', m') /\
  Forall (fun p => p <> key /\ 0 <= p < size) (link_end <$> links) /\ length links = count.
Proof.
  induction count as [|count IH]; intros n m; cbn [draw_weighted]; [by eauto 6|].
  destruct (draw_spec rand size rand_range key fuel n (rand_varies key n)) as (p & n1 & -> & Hp). run.
  destruct (IH n1 (S m)) as (links & n2 & m2 & -> & Hl & Hlen). run. eexists _, n2, m2. split; [done|].
  split; [by constructor|]. cbn. lia.
Qed.
Lemma InitLinks2_spec d key n m : exists links n' m', InitLinks2 fuel d key n m = Ok (links, n', m') /\
  links_of size d key (link_end <$> links).
Proof.
  unfold InitLinks2, init_links, links_of. destruct (draw_weighted_spec log_weight (Z.to_nat (if 10000 <? d then 10000 else d)) key n m) as (links & n' & m' & -> & Hl & Hlen).
  exists links, n', m'. split; [done|]. split; [done|]. rewrite length_fmap, Hlen. destruct (Z.ltb_spec 10000 d); lia.
Qed.
Definition ends (r : Z * list Link) : Z * list Z := (r.1, link_end <$> r.2).
Lemma gen_weighted_spec steps : forall i n m, 0 <= i -> i < 2 ^ 31 -> (Z.to_nat (size - i) < steps)%nat ->
  exists rows, gen_weighted_loop steps fuel degree size num_shards i n m =
      Ok (mjoin ((fun r => weighted_line r.1 r.2 ++ ["010"%char]) <$> rows), mjoin ((fun r => hadoop_line r.1 r.2 ++ ["010"%char]) <$> rows)) /\
    rows_from size degree num_shards i (ends <$> rows).
Proof.
  induction steps as [|steps IH]; intros i n m Hi Hi' Hs; [lia|]. cbn [gen_weighted_loop]. destruct (Z.ltb_spec i size) as [Hlt|Hge].
  - destruct (InitLinks2_spec (degree i) i n m) as (links & n1 & m1 & -> & Hl). run. rewrite to_int32_small by lia.
    destruct (IH (i + num_shards) n1 m1) as (rows & -> & (k & Hk & Hend) & Hrows); [lia..|]. run. exists ((i, links) :: rows). split.
    { cbn [fmap list_fmap fst snd]. by rewrite !mjoin_cons, <- !app_assoc. }
    split; [|by constructor]. exists (S k). split; [|lia]. cbn [seq].
    rewrite !fmap_cons, Hk, <- fmap_S_seq, <- list_fmap_compose. f_equal; [cbn; lia|]. apply list_fmap_ext. intros j x _. cbn. lia.
  - exists []. split; [done|]. split; [|constructor]. exists 0%nat. split; [done|]. lia.
Qed.
Lemma weighted_lines rows : getlines "010" (mjoin ((fun r => weighted_line r.1 r.2 ++ ["010"%char]) <$> rows)) = (fun r => weighted_line r.1 r.2) <$> rows.
Proof.
  induction rows as [|[i l] rows IH]; [done|]. cbn [fmap list_fmap fst snd].
  rewrite mjoin_cons, <- app_assoc. cbn [app]. rewrite getlines_app by apply weighted_line_newline. f_equal. exact IH.
Qed.

(** A weighted graph is read back: [gen_weightgraph] writes a line for each
    vertex of its shard, with min(degree, 10000) links to other vertices, and
    [read_data] of the kernels with weights returns exactly that vertex, those
    targets, and the weights as they were printed. *)
Theorem weighted_graph_read_back shard : 0 <= shard < 2 ^ 31 ->
  exists file rows, gen_weightgraph fuel degree size num_shards shard = Ok file /\
    rows_from size degree num_shards shard (ends <$> rows) /\
    Forall2 (fun line r => forall k data, read_data_weighted cast_int cast_float line k data = Ok (r.1, print_link <$> r.2))
      (getlines "010" file) rows.
Proof.
  intros [Hs Hs']. unfold gen_weightgraph, gen_hadoop_weightgraph.
  destruct (gen_weighted_spec (S (Z.to_nat size)) shard 0 0 Hs Hs') as (rows & -> & Hrows); [lia|]. run. cbn [fst].
  eexists _, rows. split; [done|]. split; [done|]. rewrite weighted_lines. apply Forall2_fmap_l, Forall_Forall2_diag.
  destruct Hrows as [(m & Hm & _) Hrows]. apply (proj1 (Forall_fmap _ _ _)) in Hrows.
  assert (Forall (fun r => 0 <= r.1) rows) as Hpos.
  { apply (Forall_fmap fst (fun i => 0 <= i)). rewrite <- list_fmap_compose in Hm. change (rows.*1 = (fun j => shard + num_shards * Z.of_nat j) <$> seq 0 m) in Hm.
    rewrite Hm. apply Forall_fmap, Forall_true. intros j. cbn. lia. }
  rewrite Forall_forall in *. intros [i l] Hin k data. destruct (Hrows _ Hin) as [Hlt [Hl _]]. specialize (Hpos _ Hin). cbn [fst snd ends] in *.
  apply weighted_line_read; [lia|]. apply (proj1 (Forall_fmap _ _ _)) in Hl. eapply Forall_impl; [exact Hl|]. cbn. lia.
Qed.
End WeightedGraph.
End WeightedGraph.
