(* ===== verification/Logger.v ===== *)
(** * The logger of the storage layer: kernel/logger.hpp

    A [file_logger] writes lines to a file and to the console.  Each thread has
    a buffer of its own, in which [operator<<] collects a line until it is
    flushed; the level of the line is one field for all threads.  An operation
    is one atomic step.  Formatted text ([fmt] and its arguments, or a value
    with its [operator<<]) is given as text; which files can be opened is a
    parameter. *)
From S2P Require Import Prelude StringPiece Decimal RecordFile Checkpoint.

Module Logger.
Definition LOG_FATAL : Z := 4.
Definition LOG_ERROR : Z := 3.
Definition LOG_WARNING : Z := 2.
Definition LOG_INFO : Z := 1.
Definition LOG_DEBUG : Z := 0.
Definition newline : ascii := "010"%char.
Definition messages : list cstr :=
  lit <$> ["DEBUG:    "; "INFO:     "; "WARNING:  "; "ERROR:    "; "FATAL:    "]%string.

(** [std::ofstream]: a new one is good without a file; writing something to
    it or closing it makes it bad. *)
Inductive ofstream := NoFile | Bad | Open (name : cstr).
Record tls_entry := Entry { streambuffer : cstr; streamactive : bool }.
(** [streamloglevel] has no value before the first active stream. *)
Record file_logger := Mk {
  fout : ofstream;
  log_file : cstr;
  streamloglevel : option Z;
  log_to_console : bool;
  log_level : Z;
  entries : gmap nat tls_entry;
  console : cstr;
  files : disk
}.
Definition file_logger_new (d : disk) : file_logger := Mk NoFile [] None true LOG_DEBUG ∅ [] d.
Definition set_log_to_console (l : file_logger) (b : bool) : file_logger :=
  Mk (fout l) (log_file l) (streamloglevel l) b (log_level l) (entries l) (console l) (files l).
Definition set_log_level (l : file_logger) (n : Z) : file_logger :=
  Mk (fout l) (log_file l) (streamloglevel l) (log_to_console l) n (entries l) (console l) (files l).
Definition set_fout (l : file_logger) (f : ofstream) (d : disk) : file_logger :=
  Mk f (log_file l) (streamloglevel l) (log_to_console l) (log_level l) (entries l) (console l) d.
Definition set_name (l : file_logger) (n : cstr) : file_logger :=
  Mk (fout l) n (streamloglevel l) (log_to_console l) (log_level l) (entries l) (console l) (files l).
Definition set_console (l : file_logger) (c : cstr) : file_logger :=
  Mk (fout l) (log_file l) (streamloglevel l) (log_to_console l) (log_level l) (entries l) c (files l).
Definition set_entry (l : file_logger) (t : nat) (e : tls_entry) : file_logger :=
  Mk (fout l) (log_file l) (streamloglevel l) (log_to_console l) (log_level l) (<[t := e]> (entries l)) (console l) (files l).
Definition set_stream_level (l : file_logger) (n : Z) : file_logger :=
  Mk (fout l) (log_file l) (Some n) (log_to_console l) (log_level l) (entries l) (console l) (files l).

(** ** Files *)
Definition good (f : ofstream) : bool := match f with Bad => false | _ => true end.
Definition write_file (l : file_logger) (s : cstr) : file_logger :=
  match fout l with
  | Open n => set_fout l (Open n) (<[n := default [] (files l !! n) ++ s]> (files l))
  | NoFile => if decide (s = []) then l else set_fout l Bad (files l)
  | Bad => l
  end.
Definition close (f : ofstream) : ofstream := match f with Open _ => NoFile | _ => Bad end.
Definition set_log_file (can_open : cstr -> bool) (l : file_logger) (file : cstr) : file_logger * bool :=
  let l := if good (fout l) then set_name (set_fout l (close (fout l)) (files l)) [] else l in
  if decide (0 < length file)%nat then
    if can_open file then (set_name (set_fout l (Open file) (<[file := []]> (files l))) file, true)
    else (set_fout l Bad (files l), false)
  else (l, true).
(** [~file_logger]. *)
Definition file_logger_delete (l : file_logger) : file_logger :=
  if good (fout l) then set_fout l (close (fout l)) (files l) else l.

(** ** The console *)
Definition escape : ascii := "027"%char.
Definition BRIGHT : Z := 1.
Definition RED : Z := 1.
Definition GREEN : Z := 2.
Definition YELLOW : Z := 3.
Definition BLUE : Z := 4.
Definition textcolor (attr fg : Z) : cstr :=
  escape :: "["%char :: show_int attr ++ ";"%char :: show_int (fg + 30) ++ ["m"%char].
Definition reset_color : cstr := [escape; "["%char; "0"%char; "m"%char].
Definition line_color (level : Z) : cstr :=
  if level =? LOG_FATAL then textcolor BRIGHT RED
  else if level =? LOG_ERROR then textcolor BRIGHT RED
  else if level =? LOG_WARNING then textcolor BRIGHT GREEN
  else if level =? LOG_DEBUG then textcolor BRIGHT YELLOW
  else textcolor BRIGHT BLUE.
Definition lograw (l : file_logger) (level : Z) (buf : cstr) : file_logger :=
  let l := if good (fout l) then write_file l buf else l in
  if log_to_console l then set_console l (console l ++ line_color level ++ buf ++ reset_color) else l.

(** ** Lines at once *)
(** [strrchr(file, '/') + 1], or [file]. *)
Definition base_name (file : cstr) : cstr := rev (take (default (length file) (find_char "/" (rev file))) (rev file)).
Definition header (level : Z) (file function : cstr) (line : Z) : outcome cstr :=
  m ← vec_at messages level;
  Ok (m ++ base_name file ++ lit "(" ++ function ++ lit ":" ++ show_int line ++ lit "): ").
Definition shown (l : file_logger) (level : Z) : bool := (0 <=? level) && (level <=? 3) && (log_level l <=? level).
(** The colours of [_log], which has none for the lower levels. *)
Definition log_color (level : Z) : cstr :=
  if level =? LOG_FATAL then textcolor BRIGHT RED
  else if level =? LOG_ERROR then textcolor BRIGHT RED
  else if level =? LOG_WARNING then textcolor BRIGHT GREEN
  else [].
(** [str] has 1024 characters; the newline and the end are written at the
    length the message would have had. *)
Definition log (l : file_logger) (level : Z) (file function : cstr) (line : Z) (text : cstr) : outcome file_logger :=
  if shown l level then
    h ← header level file function line;
    if Z.of_nat (length h + length text) + 1 <? 1024 then
      let str := LocalFile.until_zero (h ++ text ++ [newline]) in
      let l := if good (fout l) then write_file l str else l in
      Ok (if log_to_console l then set_console l (console l ++ log_color level ++ str ++ reset_color) else l)
    else Undefined
  else Ok l.
Definition logbuf (l : file_logger) (level : Z) (file function : cstr) (line : Z) (buf : cstr) : outcome file_logger :=
  if shown l level then
    h ← header level file function line;
    if 2047 <? Z.of_nat (length h) then Ok (set_console l (console l ++ lit "Header length exceed buffer length!"))
    else
      let str := if Z.of_nat (length h) =? 2047 then take 2046 h ++ ["000"%char] else h in
      Ok (lograw (lograw (lograw l level str) level buf) level [newline])
  else Ok l.

(** ** Streams *)
Definition start_stream (l : file_logger) (t : nat) (level : Z) (file function : cstr) (line : Z) : outcome file_logger :=
  let e := default (Entry [] false) (entries l !! t) in
  if log_level l <=? level then
    b ← (if decide (length (streambuffer e) = 0%nat) then header level file function line else Ok (streambuffer e));
    Ok (set_stream_level (set_entry l t (Entry b true)) level)
  else Ok (set_entry l t (Entry (streambuffer e) false)).
(** What is flushed is returned too. *)
Definition stream_flush (l : file_logger) (t : nat) : outcome (file_logger * list cstr) :=
  match entries l !! t with
  | None => Ok (l, [])
  | Some e =>
    level ← deref (streamloglevel l);
    Ok (set_entry (lograw l level (streambuffer e)) t (Entry [] (streamactive e)), [streambuffer e])
  end.
Inductive op :=
  | Start (level : Z) (file function : cstr) (line : Z)
  | Str (a : cstr)
  | Value (text : cstr)
  | Endl
  | Manipulator.
(** An operation of a thread; [true] when it throws. *)
Definition exec (l : file_logger) (t : nat) (o : op) : outcome (file_logger * list cstr * bool) :=
  match o with
  | Start level file function line => l ← start_stream l t level file function line; Ok (l, [], false)
  | _ =>
    match entries l !! t with
    | Some (Entry b true) =>
      match o with
      | Str a =>
        let l := set_entry l t (Entry (b ++ a) true) in
        c ← deref (last a);
        if decide (c = newline) then '(l, out) ← stream_flush l t; Ok (l, out, false) else Ok (l, [], false)
      | Value text => Ok (set_entry l t (Entry (b ++ text) true), [], false)
      | Endl =>
        let l := set_entry l t (Entry (b ++ [newline]) true) in
        '(l, out) ← stream_flush l t;
        Ok (l, out, bool_decide (streamloglevel l = Some LOG_FATAL))
      | _ => Ok (l, [], false)
      end
    | _ => Ok (l, [], false)
    end
  end.

(** ** Several threads *)
(** The operations of the threads in the order they happen; what is flushed is
    recorded with its thread, and the threads in which an operation throws. *)
Record trace := Trace { logger : file_logger; flushed : list (nat * cstr); thrown : list nat }.
Definition run_step (s : trace) (e : nat * op) : outcome trace :=
  '(l, out, b) ← exec (logger s) e.1 e.2;
  Ok (Trace l (flushed s ++ (pair e.1 <$> out)) (thrown s ++ if b : bool then [e.1] else [])).
Definition run (evs : list (nat * op)) (l : file_logger) : outcome trace := for_each run_step evs (Trace l [] []).

(** An active stream has a level. *)
Definition leveled (l : file_logger) : Prop := forall t b, entries l !! t = Some (Entry b true) -> is_Some (streamloglevel l).
(** The operations that the program may use. *)
Definition fine (o : op) : Prop :=
  match o with Start level _ _ _ => 0 <= level <= LOG_FATAL | Str a => a <> [] | _ => True end.
Definition shows (l : file_logger) (t : nat) : option tls_entry := entries l !! t.

Lemma lograw_entries l level buf : entries (lograw l level buf) = entries l.
Proof. unfold lograw, write_file, set_console, set_fout. by repeat case_match. Qed.
Lemma lograw_level l level buf : log_level (lograw l level buf) = log_level l /\ streamloglevel (lograw l level buf) = streamloglevel l /\
  log_to_console (lograw l level buf) = log_to_console l.
Proof. unfold lograw, write_file, set_console, set_fout. by repeat case_match. Qed.
Lemma lograw_console l level buf : log_to_console l = true ->
  console (lograw l level buf) = console l ++ line_color level ++ buf ++ reset_color.
Proof. intros Hc. unfold lograw, write_file, set_console, set_fout. destruct (fout l); cbn; [case_decide; cbn|..]; by rewrite Hc. Qed.
Lemma header_total level file function line : 0 <= level <= LOG_FATAL -> exists h, header level file function line = Ok h /\ h <> [].
Proof.
  intros Hl. unfold header, LOG_FATAL in *. assert (level = 0 \/ level = 1 \/ level = 2 \/ level = 3 \/ level = 4) as [ -> |[ -> |[ -> |[ -> | -> ]]]] by lia; by eexists.
Qed.

(** What an operation of thread [t] does. *)
Record stepped (l : file_logger) (t : nat) (l' : file_logger) (out : list cstr) : Prop := {
  st_other : forall u, u <> t -> entries l' !! u = entries l !! u;
  st_level : log_level l' = log_level l;
  st_keep : is_Some (streamloglevel l) -> is_Some (streamloglevel l');
  st_console : log_to_console l' = log_to_console l;
  st_lines : Forall (fun x => last x = Some newline) out;
  st_written : log_to_console l = true -> exists ls, length ls = length out /\
    console l' = console l ++ mjoin (zip_with (fun level x => line_color level ++ x ++ reset_color) ls out)
}.
Lemma stepped_entry l t e : stepped l t (set_entry l t e) [].
Proof.
  split; try done; [intros u Hu; by apply lookup_insert_ne|]. intros _. exists []. cbn. by rewrite app_nil_r.
Qed.
Lemma stepped_same l t : stepped l t l [].
Proof. split; try done. intros _. exists []. cbn. by rewrite app_nil_r. Qed.
Lemma stepped_flush l t b l' out : last b = Some newline -> stream_flush (set_entry l t (Entry b true)) t = Ok (l', out) ->
  out = [b] /\ entries l' !! t = Some (Entry [] true) /\ streamloglevel l' = streamloglevel l /\ stepped l t l' out.
Proof.
  intros Hb E. unfold stream_flush in E. cbn [entries set_entry] in E. rewrite lookup_insert_eq in E.
  apply bind_Ok in E as (lv & _ & [= <- <-]). split; [done|]. cbn [entries set_entry streambuffer streamactive streamloglevel].
  rewrite lookup_insert_eq. split; [done|]. destruct (lograw_level (set_entry l t (Entry b true)) lv b) as (E1 & E2 & E3).
  split; [exact E2|]. split; cbn [entries set_entry log_level streamloglevel log_to_console console].
  - intros u Hu. rewrite lookup_insert_ne, lograw_entries by done. cbn. by rewrite lookup_insert_ne.
  - exact E1.
  - cbn [set_entry streambuffer] in *. by rewrite E2.
  - exact E3.
  - by constructor.
  - intros Hc. exists [lv]. split; [done|]. cbn. rewrite app_nil_r. by apply (lograw_console (set_entry l t (Entry b true))).
Qed.
Lemma last_snoc_app (b a : cstr) : a <> [] -> last (b ++ a) = last a.
Proof. intros Ha. destruct a as [|x a] using rev_ind; [done|]. by rewrite app_assoc, !last_snoc. Qed.
Lemma leveled_step l t l' out : stepped l t l' out -> leveled l ->
  (forall b, entries l' !! t = Some (Entry b true) -> is_Some (streamloglevel l')) -> leveled l'.
Proof.
  intros Hs Hl Ht u b Hu. destruct (decide (u = t)) as [->|Hne]; [by eapply Ht|].
  apply (st_keep _ _ _ _ Hs). rewrite (st_other _ _ _ _ Hs) in Hu by done. by eapply Hl.
Qed.
Lemma exec_stepped l t o l' out b : exec l t o = Ok (l', out, b) -> stepped l t l' out /\ (leveled l -> leveled l').
Proof.
  intros E. destruct o as [level file function line|a|text| |]; cbn [exec] in E.
  { unfold start_stream in E. destruct (log_level l <=? level).
    - apply bind_Ok in E as (l1 & E1 & [= <- <- <-]). apply bind_Ok in E1 as (h & _ & [= <-]).
      assert (stepped l t (set_stream_level (set_entry l t (Entry h true)) level) []) as Hs.
      { destruct (stepped_entry l t (Entry h true)). by split. }
      split; [exact Hs|]. intros Hl. by eapply leveled_step.
    - apply bind_Ok in E as (l1 & [= <-] & [= <- <- <-]). split; [apply stepped_entry|].
      intros Hl. eapply leveled_step; [apply stepped_entry|done|]. cbn. intros c Hc. by rewrite lookup_insert_eq in Hc. }
  all: destruct (entries l !! t) as [[buf [|]]|] eqn:Ee; try (injection E as <- <- <-; split; [apply stepped_same|done]).
  - apply bind_Ok in E as (c & Hc%deref_Ok & E). case_decide as Hn; [subst c|].
    + apply bind_Ok in E as ([l1 out1] & E & [= <- <- <-]). apply stepped_flush in E as (_ & _ & El & Hs); [|by rewrite last_snoc_app by (by intros ->)].
      split; [exact Hs|]. intros Hl. eapply leveled_step; [done|done|]. intros d _. rewrite El. by eapply Hl.
    + injection E as <- <- <-. split; [apply stepped_entry|]. intros Hl. eapply leveled_step; [apply stepped_entry|done|]. intros d _. by eapply Hl.
  - injection E as <- <- <-. split; [apply stepped_entry|]. intros Hl. eapply leveled_step; [apply stepped_entry|done|]. intros d _. by eapply Hl.
  - apply bind_Ok in E as ([l1 out1] & E & [= <- <- _]). apply stepped_flush in E as (_ & _ & El & Hs); [|apply last_snoc].
    split; [exact Hs|]. intros Hl. eapply leveled_step; [done|done|]. intros d _. rewrite El. by eapply Hl.
Qed.
(** The result of a flush depends on the thread's own buffer only. *)
Lemma flush_alike l l2 t e : leveled l2 -> entries l2 !! t = Some e -> streamactive e = true -> forall buf l' out,
  stream_flush (set_entry l t (Entry buf true)) t = Ok (l', out) ->
  exists l2', stream_flush (set_entry l2 t (Entry buf true)) t = Ok (l2', out) /\ entries l' !! t = entries l2' !! t.
Proof.
  intros Hl He Ha buf l' out E. unfold stream_flush in *. cbn [entries set_entry streamloglevel] in *. rewrite lookup_insert_eq in *.
  destruct e as [b0 []]; [|done]. destruct (Hl t b0 He) as [lv ->]. apply bind_Ok in E as (lv0 & _ & [= <- <-]). run.
  eexists. split; [done|]. cbn [entries set_entry]. by rewrite !lookup_insert_eq.
Qed.
Lemma exec_alike l l2 t o l' out b : entries l !! t = entries l2 !! t -> log_level l = log_level l2 -> leveled l2 ->
  exec l t o = Ok (l', out, b) -> exists l2' b2, exec l2 t o = Ok (l2', out, b2) /\ entries l' !! t = entries l2' !! t.
Proof.
  intros He Hlv Hl E. destruct o as [level file function line|a|text| |]; cbn [exec] in *.
  { unfold start_stream in *. rewrite <- He, <- Hlv. destruct (log_level l <=? level).
    - apply bind_Ok in E as (l1 & E1 & [= <- <- <-]). apply bind_Ok in E1 as (h & -> & [= <-]). run. eexists _, _. split; [done|]. cbn. by rewrite !lookup_insert_eq.
    - apply bind_Ok in E as (l1 & [= <-] & [= <- <- <-]). run. eexists _, _. split; [done|]. cbn. by rewrite !lookup_insert_eq. }
  all: rewrite <- He; destruct (entries l !! t) as [[buf [|]]|] eqn:Ee; try (injection E as <- <- <-; eexists _, _; split; [done|congruence]).
  - apply bind_Ok in E as (c & -> & E). run. case_decide.
    + apply bind_Ok in E as ([l1 out1] & E & [= <- <- <-]). edestruct (flush_alike l l2 t) as (l2' & E2 & Eq); [done|by symmetry|done|exact E|].
      rewrite E2. run. eauto.
    + injection E as <- <- <-. eexists _, _. split; [done|]. cbn. by rewrite !lookup_insert_eq.
  - injection E as <- <- <-. eexists _, _. split; [done|]. cbn. by rewrite !lookup_insert_eq.
  - apply bind_Ok in E as ([l1 out1] & E & [= <- <- _]). edestruct (flush_alike l l2 t) as (l2' & E2 & Eq); [done|by symmetry|done|exact E|].
    rewrite E2. run. eauto.
Qed.
Lemma flush_total l t buf : leveled l -> (exists b, entries l !! t = Some (Entry b true)) -> exists r, stream_flush (set_entry l t (Entry buf true)) t = Ok r.
Proof.
  intros Hl [b Hb]. unfold stream_flush. cbn [entries set_entry streamloglevel]. rewrite lookup_insert_eq. destruct (Hl t b Hb) as [lv ->]. by eexists.
Qed.
Lemma exec_total l t o : leveled l -> fine o -> exists l' out b, exec l t o = Ok (l', out, b).
Proof.
  intros Hl Hf. destruct o as [level file function line|a|text| |]; cbn [exec fine] in *.
  { unfold start_stream. destruct (log_level l <=? level); [|run; by eauto]. destruct (header_total level file function line Hf) as (h & -> & _).
    case_decide; run; by eauto. }
  all: destruct (entries l !! t) as [[buf [|]]|] eqn:Ee; try by eauto.
  - destruct (last a) as [c|] eqn:Ea; [|by apply last_None in Ea]. run. case_decide; [|by eauto].
    destruct (flush_total l t (buf ++ a) Hl) as ([l1 out1] & ->); [by eauto|]. run. by eauto.
  - destruct (flush_total l t (buf ++ [newline]) Hl) as ([l1 out1] & ->); [by eauto|]. run. by eauto.
Qed.

Definition of_thread {A} (t : nat) (l : list (nat * A)) : list A := omap (fun x => if decide (x.1 = t) then Some x.2 else None) l.
Definition alone (t : nat) (evs : list (nat * op)) : list (nat * op) := filter (fun e => e.1 = t) evs.
Lemma of_thread_app {A} t (l1 l2 : list (nat * A)) : of_thread t (l1 ++ l2) = of_thread t l1 ++ of_thread t l2.
Proof. apply omap_app. Qed.
Lemma of_thread_same {A} t (l : list A) : of_thread t (pair t <$> l) = l.
Proof. unfold of_thread. induction l as [|x l IH]; [done|]. cbn. rewrite decide_True by done. by f_equal. Qed.
Lemma of_thread_other {A} t u (l : list A) : u <> t -> of_thread t (pair u <$> l) = [].
Proof. intros Hu. unfold of_thread. induction l as [|x l IH]; [done|]. cbn. by rewrite decide_False. Qed.

(** The lines on the console, with the colours of their levels. *)
Definition coloured (ls : list Z) (xs : list cstr) : cstr := mjoin (zip_with (fun level x => line_color level ++ x ++ reset_color) ls xs).
Lemma coloured_app ls1 ls2 xs1 xs2 : length ls1 = length xs1 -> coloured (ls1 ++ ls2) (xs1 ++ xs2) = coloured ls1 xs1 ++ coloured ls2 xs2.
Proof. intros Hl. unfold coloured. rewrite zip_with_app by done. apply join_app. Qed.
(** What holds of the run of all threads after the operations [pre]. *)
Record going (d : disk) (pre : list (nat * op)) (s : trace) : Prop := {
  go_leveled : leveled (logger s);
  go_level : log_level (logger s) = LOG_DEBUG;
  go_console : log_to_console (logger s) = true;
  go_lines : Forall (fun x => last x.2 = Some newline) (flushed s);
  go_written : exists ls, length ls = length (flushed s) /\ console (logger s) = coloured ls (flushed s).*2;
  go_alone : forall t, exists s', run (alone t pre) (file_logger_new d) = Ok s' /\ leveled (logger s') /\ log_level (logger s') = LOG_DEBUG /\
    entries (logger s) !! t = entries (logger s') !! t /\ of_thread t (flushed s) = (flushed s').*2
}.
Lemma going_alone_step d pre s t o l' out b u : going d pre s -> exec (logger s) t o = Ok (l', out, b) -> fine o ->
  exists s', run (alone u (pre ++ [(t, o)])) (file_logger_new d) = Ok s' /\ leveled (logger s') /\ log_level (logger s') = LOG_DEBUG /\
    entries l' !! u = entries (logger s') !! u /\ of_thread u (flushed s ++ (pair t <$> out)) = (flushed s').*2.
Proof.
  intros Hg E Hf. destruct (go_alone _ _ _ Hg u) as (s' & Er & Hl & Hlv & He & Ho). destruct (exec_stepped _ _ _ _ _ _ E) as [Hs _].
  unfold alone in *. rewrite filter_app, of_thread_app. destruct (decide (u = t)) as [->|Hne].
  - rewrite filter_cons_True by done. rewrite filter_nil. assert (log_level (logger s) = log_level (logger s')) as Eq by by rewrite Hlv, (go_level _ _ _ Hg).
    destruct (exec_alike _ (logger s') _ _ _ _ _ He Eq Hl E) as (l2 & b2 & E2 & Ee).
    destruct (exec_stepped _ _ _ _ _ _ E2) as [Hs2 Hl2]. unfold run in *. rewrite for_each_app, Er. run. cbn [for_each]. unfold run_step at 1.
    cbn [fst snd]. rewrite E2. run. eexists. split; [done|]. cbn [logger flushed]. split; [by apply Hl2|].
    split; [by rewrite (st_level _ _ _ _ Hs2)|]. split; [done|]. rewrite Ho, of_thread_same, fmap_app. f_equal.
    rewrite <- list_fmap_compose. symmetry. apply list_fmap_id.
  - rewrite filter_cons_False by (cbn; congruence). rewrite filter_nil, app_nil_r. exists s'. split; [done|]. split; [done|]. split; [done|].
    rewrite (st_other _ _ _ _ Hs) by done. split; [done|]. by rewrite of_thread_other, app_nil_r.
Qed.
(** Threads that log at the same time: in every interleaving of their
    operations the console receives whole lines, each flushed by one thread
    and set in one colour, and the lines of a thread are those it writes when
    it runs alone. *)
Theorem log_lines_whole d evs : Forall (fun e => fine e.2) evs ->
  exists s, run evs (file_logger_new d) = Ok s /\
    Forall (fun x => last x.2 = Some newline) (flushed s) /\
    (exists ls, length ls = length (flushed s) /\ console (logger s) = coloured ls (flushed s).*2) /\
    forall t, exists s', run (alone t evs) (file_logger_new d) = Ok s' /\ of_thread t (flushed s) = (flushed s').*2.
Proof.
  intros Hall. destruct (for_each_inv run_step (going d) evs (Trace (file_logger_new d) [] [])) as (s & E & [_ _ _ Hl Hw Ha]).
  - split; try done; [by exists []|]. intros t. eexists. split; [done|]. by split.
  - intros pre [t o] todo s -> Hg. apply Forall_app in Hall as [_ [Hf _]%Forall_cons]. cbn [snd] in Hf.
    destruct (exec_total (logger s) t o (go_leveled _ _ _ Hg) Hf) as (l' & out & b & E). destruct (exec_stepped _ _ _ _ _ _ E) as [Hs Hl].
    unfold run_step. cbn [fst snd]. rewrite E. run. eexists. split; [done|]. split; cbn [logger flushed].
    + by apply Hl, Hg.
    + by rewrite (st_level _ _ _ _ Hs), (go_level _ _ _ Hg).
    + by rewrite (st_console _ _ _ _ Hs), (go_console _ _ _ Hg).
    + apply Forall_app. split; [apply Hg|]. apply Forall_fmap. exact (st_lines _ _ _ _ Hs).
    + destruct (go_written _ _ _ Hg) as (ls & Hlen & Ec). destruct (st_written _ _ _ _ Hs (go_console _ _ _ Hg)) as (ls2 & Hlen2 & Ec2).
      exists (ls ++ ls2). rewrite !length_app, length_fmap. split; [lia|]. rewrite Ec2, Ec, fmap_app, coloured_app by (rewrite length_fmap; lia).
      f_equal. unfold coloured. by rewrite <- list_fmap_compose, list_fmap_id.
    + intros u. by eapply going_alone_step.
  - exists s. split; [done|]. split; [done|]. split; [done|]. intros t. destruct (Ha t) as (s' & Er & _ & _ & _ & Ho). by exists s'.
Qed.

(** The level is shared: a thread that ends an information line throws
    because another thread has started a fatal one. *)
Lemma level_shared d : exists s, run [(0%nat, Start LOG_INFO (lit "a.cc") (lit "f") 1); (1%nat, Start LOG_FATAL (lit "b.cc") (lit "g") 2); (0%nat, Endl)]
    (file_logger_new d) = Ok s /\ thrown s = [0%nat].
Proof. by eexists. Qed.
(** [logger(LOG_FATAL, ...)] writes nothing. *)
Lemma fatal_message_dropped l file function line text : log l LOG_FATAL file function line text = Ok l.
Proof. done. Qed.
(** A message of 1023 characters or more overruns the buffer. *)
Lemma long_message_undefined l level file function line text h : shown l level = true -> header level file function line = Ok h ->
  1023 <= Z.of_nat (length h + length text) -> log l level file function line text = Undefined.
Proof. intros Hs Hh Hl. unfold log. rewrite Hs, Hh. run. by destruct (Z.ltb_spec (Z.of_nat (length h + length text) + 1) 1024); [lia|]. Qed.
(** An empty string looks before its own start. *)
Lemma empty_string_undefined l t b : entries l !! t = Some (Entry b true) -> exec l t (Str []) = Undefined.
Proof. intros E. unfold exec. by rewrite E. Qed.
End Logger.
