(* ===== verification/Sums.v ===== *)
(** * Kernels that add: the equation that the asynchronous iteration solves

    PageRank, Katz and Adsorption add what their neighbours send.  For every
    kernel whose accumulation is a commutative monoid with the default delta as
    unit, and whose [g_func] sends the growth of a contribution that is
    additive in the value, Iteration.v's runs satisfy an equation at every
    moment: the value of a vertex and what is pending for it add up to what it
    started with and the contributions of the current values of all vertices.
    Once nothing is pending the values solve the fixed-point equation of the
    kernel.  The laws hold in exact arithmetic; the [float]s of the examples
    meet them up to rounding ([pagerank_not_associative]). *)
From S2P Require Import Prelude Float StringPiece Decimal Probe Table DeltaTable StateTable GlobalTable Cluster Cache FlatStore Maiter Worker Loading Examples Iteration.

(** [contribution k data j v] is what vertex [k] with the value [v] adds to
    vertex [j] in all. *)
Class SumLaws (K V D : Type) `{!EqDecision K} `{!IterateKernel K V D} := {
  contribution : K -> D -> K -> V -> V;
  sum_unit : forall a, accumulate (K := K) (D := D) (default_v (K := K) (D := D)) a = a;
  sum_plain : forall k d v data, process_delta_v (K := K) (D := D) k d v data = (d, v, data);
  sum_sent : forall k d v data j,
    accumulate (K := K) (D := D) (contribution k data j v)
      (default (default_v (K := K) (D := D))
         (GlobalTable.carried (D := D) (g_func k d (accumulate (K := K) (D := D) v d) data []) j)) =
    contribution k data j (accumulate (K := K) (D := D) v d)
}.

Module Sums.
Import GlobalTable.
Section Sums.
Context {K V D : Type} `{Countable K} `{!Hashable K}.
Context `{!ValueInit K} `{!ValueInit V} `{!ValueInit D}.
Context `{!IterateKernel K V D} `{!Sharder K} `{!Marshal K} `{!Marshal V}.
Variable bufmsg : Z.
Variable wire_size : KVPairData -> Z.
Variable adj : K -> D.
Context `{!AccumulateLaws K V D} `{!MarshalLaws K} `{!MarshalLaws V} `{!SumLaws K V D}.
Context (owners : list Z).
Hypothesis representable_accumulate : forall a b : V,
  representable a -> representable b -> representable (accumulate (K := K) (D := D) a b).
Hypothesis representable_default : representable (default_v (K := K) (V := V) (D := D)).
Hypothesis representable_sent : forall k d v j x,
  representable d -> representable v -> (j, x) ∈ g_func (V := V) k d v (adj k) [] -> representable j /\ representable x.
Abbreviation cluster := (Cluster.t (K := K) (V := V) (D := D)).
Implicit Types c : cluster.
#[local] Abbreviation zero := (default_v (K := K) (V := V) (D := D)).
#[local] Notation "a ⊕ b" := (accumulate (K := K) (D := D) a b) (at level 50, left associativity).
#[local] Abbreviation value := (Iteration.value owners).
#[local] Abbreviation start := (Iteration.start (K := K) (V := V) (D := D)).

(** ** Sums *)
Lemma add_zero (a : V) : a ⊕ zero = a.
Proof. rewrite accumulate_comm. apply sum_unit. Qed.
Lemma add_swap (a b d : V) : a ⊕ (b ⊕ d) = b ⊕ (a ⊕ d).
Proof. rewrite !accumulate_assoc. by rewrite (accumulate_comm a b). Qed.
Lemma add_swap_r (a b d : V) : a ⊕ b ⊕ d = a ⊕ d ⊕ b.
Proof. by rewrite <- !accumulate_assoc, (accumulate_comm b). Qed.
Lemma default_oadd (a b : option V) : default zero (oadd (K := K) (D := D) a b) = default zero a ⊕ default zero b.
Proof. destruct a, b; cbn; [done|by rewrite add_zero|by rewrite sum_unit|by rewrite sum_unit]. Qed.
Definition sum (l : list V) : V := foldr (fun a b => a ⊕ b) zero l.
(** Changing one summand. *)
Lemma sum_grows (f g : K -> V) (l : list K) k x : NoDup l -> k ∈ l -> g k = f k ⊕ x -> (forall j, j <> k -> g j = f j) ->
  sum (g <$> l) = sum (f <$> l) ⊕ x.
Proof.
  intros Hnd Hin Hk Hj. induction l as [|j l IH]; [by apply not_elem_of_nil in Hin|].
  apply NoDup_cons in Hnd as [Hn Hnd]. cbn [fmap list_fmap sum foldr]. fold (sum (g <$> l)). fold (sum (f <$> l)).
  destruct (decide (j = k)) as [->|Hne].
  - rewrite Hk. assert (g <$> l = f <$> l) as ->; [|apply add_swap_r].
    apply list_fmap_ext. intros i y Hy. apply Hj. intros ->. by apply Hn, (list_elem_of_lookup_2 _ i).
  - rewrite Hj, IH by (done || set_solver). by rewrite accumulate_assoc.
Qed.
Lemma sum_of_zeros (f : K -> V) l : (forall k, k ∈ l -> f k = zero) -> sum (f <$> l) = zero.
Proof. intros Hf. induction l as [|k l IH]; [done|]. cbn. fold (sum (f <$> l)). rewrite Hf, IH by set_solver. apply sum_unit. Qed.

(** ** The equation *)
(** The value of a vertex, what is pending for it, what all vertices
    contribute to it, and what it starts with. *)
Definition current c (k : K) : V := default zero (value c k).
Definition pending c (k : K) : V := default zero (Cluster.total c k).
Definition gathered (vertices : list K) c (j : K) : V :=
  sum ((fun k => contribution k (adj k) j (current c k)) <$> vertices).
Definition given (k : K) : V := StateTable.v2 (start k) ⊕ StateTable.v1 (start k).
Record balanced (vertices : list K) c : Prop := {
  ba_wf : Cluster.wf bufmsg owners c;
  ba_rows : Iteration.rows_in c;
  ba_vertices : forall k, is_Some (value c k) <-> k ∈ vertices;
  ba_equation : forall j, j ∈ vertices -> current c j ⊕ pending c j = given j ⊕ gathered vertices c j
}.

Lemma current_value c k v : value c k = Some v -> current c k = v.
Proof. intros E. unfold current. by rewrite E. Qed.
Lemma iterated_balanced vertices c c' k0 d v : NoDup vertices -> balanced vertices c ->
  Cluster.wf bufmsg owners c' -> Iteration.rows_in c' -> Iteration.iterated adj owners c c' k0 d v -> balanced vertices c'.
Proof.
  intros Hnd [Hwf Hrows Hvs Heq] Hwf' Hrows' (Hv0 & Hv & Ht). set (out := g_func k0 d (v ⊕ d) (adj k0) []) in *.
  assert (k0 ∈ vertices) as Hk0 by (apply Hvs; by rewrite Hv0). pose proof (current_value c k0 v Hv0) as Hc0.
  assert (forall k, current c' k = if decide (k0 = k) then v ⊕ d else current c k) as Hc.
  { intros k. unfold current. rewrite Hv. by case_decide. }
  assert (forall j, gathered vertices c' j = gathered vertices c j ⊕ default zero (carried (D := D) out j)) as Hg.
  { intros j. unfold gathered. apply (sum_grows _ _ vertices k0); [done|done|..].
    - rewrite Hc, decide_True, Hc0 by done. symmetry. apply sum_sent.
    - intros k Hk. by rewrite Hc, decide_False. }
  split; [done|done|..].
  - intros k. rewrite Hv, <- Hvs. case_decide as E; [|done]. subst k. by rewrite Hv0.
  - intros j Hj. specialize (Heq j Hj). rewrite Hg, accumulate_assoc, <- Heq, Hc. unfold pending in *.
    destruct (Ht j) as (old & rest & Et & Hold & ->). rewrite Et in *. rewrite !default_oadd in *.
    destruct (decide (k0 = j)) as [<-|Hne].
    + rewrite Hold, Hc0 by done. cbn [default id]. change (id d) with d. change (id zero) with zero. rewrite sum_unit.
      rewrite <- !accumulate_assoc. f_equal. f_equal. apply accumulate_comm.
    + rewrite <- !accumulate_assoc. f_equal. f_equal. apply accumulate_comm.
Qed.
Lemma istep_balanced vertices c c' : NoDup vertices -> balanced vertices c -> Iteration.istep bufmsg wire_size adj c c' -> balanced vertices c'.
Proof.
  intros Hnd Hb Hs. pose proof Hb as [Hwf Hrows Hvs Heq]. destruct Hs as [c c' Hs|ws ms w tb i p s x tb' ms' Hw Hp Hx Hu E].
  - destruct (Cluster.silent_total bufmsg wire_size owners representable_accumulate c c' Hwf Hs) as [Hwf' Ht].
    destruct (Iteration.exchange_keeps bufmsg wire_size owners representable_accumulate c c' Hwf Hrows Hs) as [Hv Hrows'].
    split; [done|done|intros k; by rewrite Hv|]. intros j Hj. specialize (Heq j Hj).
    unfold current, pending, gathered in *. rewrite Ht, Hv. rewrite Heq. f_equal. f_equal. apply list_fmap_ext. intros _ k _. unfold current. by rewrite Hv.
  - destruct (Iteration.iterate_spec_plain bufmsg wire_size adj owners representable_accumulate representable_default representable_sent
      ws ms w tb i p s x tb' ms' sum_plain Hwf Hrows Hw Hp Hx Hu E) as (Hwf' & Hrows' & Hit). by eapply iterated_balanced.
Qed.

(** Vertices contribute nothing before their first iteration. *)
Hypothesis start_silent : forall k j, contribution k (adj k) j (StateTable.v2 (start k)) = zero.
Lemma initial_balanced vertices c : Iteration.initial bufmsg owners c -> (forall k, is_Some (value c k) <-> k ∈ vertices) -> balanced vertices c.
Proof.
  intros (Hwf & Hq & Hrows & Hstart) Hvs.
  assert (forall k, k ∈ vertices -> current c k = StateTable.v2 (start k) /\ pending c k = StateTable.v1 (start k)) as Hk.
  { intros k [v Hv]%Hvs. destruct (Iteration.value_row bufmsg owners c k v Hwf Hv) as (o & tb & cell & _ & Hw & Hr & <-).
    pose proof (Hstart o tb k cell Hw Hr) as ->. split; [by apply current_value|].
    unfold pending. by rewrite (Iteration.quiescent_row bufmsg owners c o tb k _ Hwf Hq Hw Hr). }
  split; [done|done|done|]. intros j Hj. destruct (Hk j Hj) as [-> ->]. unfold gathered. rewrite sum_of_zeros; [by rewrite add_zero|].
  intros k Hin. destruct (Hk k Hin) as [-> _]. apply start_silent.
Qed.
(** Nothing is buffered, under way or left to add. *)
Definition drained c : Prop := Cluster.quiescent c /\
  forall w tb k cell, Cluster.workers c !! w = Some tb -> row tb k = Some cell -> StateTable.v1 cell = zero.
Lemma drained_pending c k : Cluster.wf bufmsg owners c -> drained c -> is_Some (value c k) -> pending c k = zero.
Proof.
  intros Hwf [Hq Hd] [v Hv]. destruct (Iteration.value_row bufmsg owners c k v Hwf Hv) as (o & tb & cell & _ & Hw & Hr & _).
  unfold pending. rewrite (Iteration.quiescent_row bufmsg owners c o tb k _ Hwf Hq Hw Hr). by eapply Hd.
Qed.

(** C8. Additive kernels solve their equation: from loaded tables, after any
    interleaving of iterations of any rows on any workers, flushes and
    deliveries in any order, every row is still there, and at every moment the
    value of a vertex and what is pending for it (in its row, in delta tables
    and in messages) add up to what it started with and what the current values
    of all vertices contribute to it; once nothing is pending, the values
    are a solution of that equation. *)
Theorem sum_equation (vertices : list K) c0 c :
  Iteration.initial bufmsg owners c0 -> NoDup vertices -> (forall k, is_Some (value c0 k) <-> k ∈ vertices) ->
  Iteration.isteps bufmsg wire_size adj c0 c ->
  (forall k, is_Some (value c k) <-> k ∈ vertices) /\
  (forall j, j ∈ vertices -> current c j ⊕ pending c j = given j ⊕ gathered vertices c j) /\
  (drained c -> forall j, j ∈ vertices -> current c j = given j ⊕ gathered vertices c j).
Proof.
  intros Hi Hnd Hvs Hs. assert (balanced vertices c) as [Hwf _ Hv Heq].
  { pose proof (initial_balanced vertices c0 Hi Hvs) as Hb. clear Hi Hvs. induction Hs as [|c1 c2 c3 Hs _ IH]; [done|]. eauto using istep_balanced. }
  split; [done|]. split; [done|]. intros Hd j Hj. rewrite <- (Heq j Hj), drained_pending, add_zero; [done|done|done|]. by apply Hv.
Qed.
End Sums.

(** ** Example: Katz with exact numbers

    The kernel of examples/katz.cc over unbounded integers in place of
    [float], with [beta] and [source] for its flags.  Numbers are marshalled as
    their binary digits. *)
Section Katz.
Fixpoint pos_text (p : positive) : cstr :=
  match p with xH => [] | xO p => "0"%char :: pos_text p | xI p => "1"%char :: pos_text p end.
Fixpoint text_pos (s : cstr) : positive :=
  match s with [] => xH | c :: s => if decide (c = "0"%char) then xO (text_pos s) else xI (text_pos s) end.
Lemma text_pos_text p : text_pos (pos_text p) = p.
Proof. induction p as [p IH|p IH|]; cbn; rewrite ?IH; done. Qed.
#[local] Instance digits_marshal : Marshal Z := {
  marshal z := pos_text (encode z);
  unmarshal s := match decode (text_pos s) with Some z => Ok z | None => Undefined end
}.
#[local] Instance digits_laws : MarshalLaws Z.
Proof. exists (fun _ => True). intros z _. cbn. by rewrite text_pos_text, decode_encode. Defined.

Variables beta source : Z.
Definition katz_exact : IterateKernel Z Z (list Z) := {|
  read_data line k data := Ok (k, data);
  init_c k delta data := (if k =? source then 1000000 else 0, data);
  default_v := 0;
  init_v k v data := (0, data);
  accumulate a b := a + b;
  process_delta_v k delta value data := (delta, value, data);
  priority pri value delta := delta;
  g_func k delta value data output := output ++ ((fun target => (target, beta * delta)) <$> data);
  getKey line := parse_int line;
  getValue line := Ok [];
  v_zero := 0;
  v_eqb := Z.eqb;
  v_ltb := Z.ltb;
  v_double := f64_of_Z
|}.
#[local] Existing Instance katz_exact.
#[local] Instance katz_exact_laws : AccumulateLaws Z Z (list Z).
Proof. split; intros; unfold accumulate, katz_exact; lia. Qed.
Definition times (j : Z) (data : list Z) : Z := Z.of_nat (length (filter (fun t => t = j) data)).
Lemma carried_same (j x : Z) (data : list Z) : default 0 (carried (D := list Z) ((fun t => (t, x)) <$> data) j) = times j data * x.
Proof.
  unfold times. induction data as [|t data IH]; [done|]. rewrite fmap_cons, carried_cons. cbn [fst snd].
  change 0 with (default_v (K := Z) (D := list Z)). case_decide as E.
  - rewrite filter_cons_True by done. destruct (carried _ j) as [y|]; cbn in IH |- *; lia.
  - rewrite filter_cons_False by done. exact IH.
Qed.
#[local] Instance katz_exact_sums : SumLaws Z Z (list Z).
Proof.
  exists (fun k data j v => times j data * (beta * v)).
  - done.
  - done.
  - intros k d v data j. change (g_func k d (accumulate v d) data []) with ((fun t : Z => (t, beta * d)) <$> data).
    change (default_v (K := Z) (D := list Z)) with 0. rewrite carried_same. unfold accumulate, katz_exact. lia.
Defined.
End Katz.

(** Two workers, the edge 1 -> 2 with weight 2 and the source 1. *)
Section Sample.
#[local] Existing Instance digits_marshal.
#[local] Existing Instance digits_laws.
#[local] Instance sample_katz : IterateKernel Z Z (list Z) := katz_exact 2 1.
#[local] Instance sample_katz_laws : AccumulateLaws Z Z (list Z) := katz_exact_laws 2 1.
#[local] Instance sample_katz_sums : SumLaws Z Z (list Z) := katz_exact_sums 2 1.
#[local] Instance sample_mod : Sharder Z := Sharding.Mod.
#[local] Abbreviation table := (GlobalTable.t (K := Z) (V := Z) (D := list Z)).

Definition pair_owners : list Z := [0; 1].
Definition pair_adj (k : Z) : list Z := if k =? 1 then [2] else [].
Definition pair_size (d : KVPairData) : Z := Z.of_nat (length (kv_data d)).
Definition started (w : Z) : outcome table :=
  tb ← Init 0 2 (Some {| helper_id := w; helper_epoch := 0 |});
  tb ← UpdatePartitions tb 0 0 0;
  tb ← UpdatePartitions tb 1 1 0;
  Maiter.init_table tb 4 (lit "1#2#").
Definition empty_table : table := GlobalTable.mk 0 0 None [] [] 0 0 0 [] false.
Definition result {A} (m : outcome A) (d : A) : A := match m with Ok a => a | _ => d end.
Definition table0 : table := Eval vm_compute in result (started 0) empty_table.
Definition table1 : table := Eval vm_compute in result (started 1) empty_table.
Definition pair_cluster : Cluster.t := Cluster.mk [table0; table1] [].

Lemma pair_tables w tb : Cluster.workers pair_cluster !! w = Some tb ->
  (w = 0%nat /\ tb = table0) \/ (w = 1%nat /\ tb = table1).
Proof. intros Hw. destruct w as [|[|w]]; cbn in Hw; [left|right|done]; by injection Hw as <-. Qed.
Lemma pair_rows w tb k cell : Cluster.workers pair_cluster !! w = Some tb -> row tb k = Some cell ->
  (k = 2 \/ k = 1) /\ cell = Iteration.start (D := list Z) k.
Proof.
  intros Hw Hr.
  assert (forall tb i, tb = table0 \/ tb = table1 ->
    match partitions_ tb !! i with Some (State s) => StateTable.contents s !! k | _ => None end = Some cell ->
    (k = 2 \/ k = 1) /\ cell = Iteration.start (D := list Z) k) as Hgen.
  { clear. intros tb i [-> | ->] Hr; destruct i as [|[|i]]; cbn in Hr; try done.
    all: unfold StateTable.contents, to_map in Hr; apply elem_of_list_to_map_2, list_elem_of_singleton in Hr;
      injection Hr as -> ->; (split; [auto|by vm_compute]). }
  apply (Hgen tb (Z.to_nat (get_shard tb k))); [|done].
  destruct (pair_tables w tb Hw) as [[_ ->]|[_ ->]]; auto.
Qed.
Ltac only_row :=
  intros k Hk; apply elem_of_dom in Hk; unfold StateTable.contents, to_map in Hk;
  rewrite dom_list_to_map in Hk; apply elem_of_list_to_set, list_elem_of_singleton in Hk; by subst k.
Ltac shard_wf :=
  (split_and!; [done|by apply StateTable.state_wfb_sound|only_row]) ||
  (split; [done|]; split_and!; [by apply DeltaTable.wfb_sound|done|done|]; by intros k v Hk).
Lemma pair_wf : Cluster.wf 10 pair_owners pair_cluster.
Proof.
  split; [|constructor]. intros w tb Hw.
  destruct (pair_tables w tb Hw) as [[-> ->]|[-> ->]];
    (split; [|split; [by vm_compute|done]]); (split; try done; [by exists 0|]);
    intros i p Hp; destruct i as [|[|i]]; cbn in Hp; try done; injection Hp as <-; shard_wf.
Qed.
Lemma pair_initial : Iteration.initial 10 pair_owners pair_cluster.
Proof.
  split; [exact pair_wf|]. split_and!.
  - split; [|by intros m ?%not_elem_of_nil]. intros w tb i d Hw Hp.
    destruct (pair_tables w tb Hw) as [[_ ->]|[_ ->]]; destruct i as [|[|i]]; cbn in Hp; try done; by injection Hp as <-.
  - intros w tb Hw k cell Hr. destruct (pair_rows w tb k cell Hw Hr) as [[-> | ->] ->]; by vm_compute.
  - intros w tb k cell Hw Hr. by destruct (pair_rows w tb k cell Hw Hr).
Qed.
Lemma pair_vertices k : is_Some (Iteration.value pair_owners pair_cluster k) <-> k ∈ [1; 2].
Proof.
  split.
  - intros [v Hv]. destruct (Iteration.value_row 10 pair_owners pair_cluster k v pair_wf Hv) as (o & tb & cell & _ & Hw & Hr & _).
    destruct (pair_rows o tb k cell Hw Hr) as [[-> | ->] _]; set_solver.
  - rewrite !elem_of_cons. intros [->|[->|[]%not_elem_of_nil]]; by eexists.
Qed.

(** Vertex 1 iterates, worker 1 sends its delta table, worker 0 receives it,
    vertex 2 iterates. *)
Definition iterated1 : table * list message :=
  Eval vm_compute in result (Maiter.run_iter 10 pair_size table1 1 1 (pair_adj 1)) (empty_table, []).
Definition flushed1 : table * list message :=
  Eval vm_compute in result (SendUpdates pair_size iterated1.1) (empty_table, []).
Definition parcel : KVPairData :=
  Eval vm_compute in match flushed1.2 with [PutRequest _ d] => d | _ => KVPairData_Clear end.
Definition received0 : table * list message :=
  Eval vm_compute in result (ApplyUpdates 10 pair_size false table0 parcel) (empty_table, []).
Definition iterated2 : table * list message :=
  Eval vm_compute in result (Maiter.run_iter 10 pair_size received0.1 0 2 (pair_adj 2)) (empty_table, []).
Definition pair_end : Cluster.t := Cluster.mk [iterated2.1; flushed1.1] [].
Lemma pair_run : Iteration.isteps 10 pair_size pair_adj pair_cluster pair_end.
Proof.
  eapply Iteration.isteps_next.
  { eapply (Iteration.istep_iterate 10 pair_size pair_adj [table0; table1] [] 1 table1 1 1); [done|done|done|done|].
    instantiate (1 := iterated1.2). instantiate (1 := iterated1.1). by vm_compute. }
  eapply Iteration.isteps_next.
  { apply Iteration.istep_exchange. apply (Cluster.step_flush 10 pair_size [table0; iterated1.1] [] 1 iterated1.1 flushed1.1 flushed1.2); [done|].
    by vm_compute. }
  eapply Iteration.isteps_next.
  { apply Iteration.istep_exchange. apply (Cluster.step_deliver 10 pair_size [table0; flushed1.1] [] [] 1 parcel false table0 received0.1 received0.2);
      [done|by vm_compute]. }
  eapply Iteration.isteps_next.
  { apply (Iteration.istep_iterate 10 pair_size pair_adj [received0.1; flushed1.1] [] 0 received0.1 0 2
      _ _ iterated2.1 iterated2.2 eq_refl eq_refl eq_refl eq_refl). by vm_compute. }
  apply Iteration.isteps_refl.
Qed.
Lemma pair_drained : drained pair_end.
Proof.
  split; [split; [|by intros m ?%not_elem_of_nil]|].
  - intros w tb i d Hw Hp. destruct w as [|[|w]]; cbn in Hw; try done; injection Hw as <-;
      destruct i as [|[|i]]; cbn in Hp; try done; by injection Hp as <-.
  - intros w tb k cell Hw Hr. unfold row in Hr. remember (Z.to_nat (get_shard tb k)) as i eqn:E. clear E.
    destruct w as [|[|w]]; cbn in Hw; try done; injection Hw as <-; destruct i as [|[|i]]; cbn in Hr; try done.
    all: unfold StateTable.contents, to_map in Hr; apply elem_of_list_to_map_2, list_elem_of_singleton in Hr; by injection Hr as -> ->.
Qed.
Lemma pair_accumulate (a b : Z) : representable a -> representable b -> representable (accumulate (K := Z) (D := list Z) a b).
Proof. done. Qed.
Lemma pair_sent (k d v j x : Z) : representable d -> representable v ->
  (j, x) ∈ g_func (V := Z) k d v (pair_adj k) [] -> representable j /\ representable x.
Proof. done. Qed.
Lemma pair_silent (k j : Z) : contribution k (pair_adj k) j (StateTable.v2 (Iteration.start (D := list Z) k)) = default_v (K := Z) (V := Z) (D := list Z).
Proof. cbn. lia. Qed.
(** Twice what the source has arrives at vertex 2. *)
Lemma sum_equation_witness :
  drained pair_end /\ current pair_owners pair_end 1 = 1000000 /\
  current pair_owners pair_end 2 = given (D := list Z) 2 + gathered pair_adj pair_owners [1; 2] pair_end 2 /\
  given (D := list Z) 2 + gathered pair_adj pair_owners [1; 2] pair_end 2 = 2000000.
Proof.
  destruct (sum_equation 10 pair_size pair_adj pair_owners pair_accumulate I pair_sent pair_silent [1; 2] pair_cluster pair_end
    pair_initial ltac:(by repeat constructor; set_solver) pair_vertices pair_run) as (_ & _ & Heq).
  split_and!; [exact pair_drained|by vm_compute| |by vm_compute].
  apply (Heq pair_drained 2). set_solver.
Defined.
End Sample.
End Sums.
