(* ===== verification/StoreFiles.v ===== *)
(** * The files of the store: store/writer.cpp, store/reader.cpp, store/flat_file.h, store/blockreader.h, store/index.h

    FlatStore.v and BlockStore.v are about the bytes of the files; this file
    opens them.  [Writer] creates its two files on a disk and reads the input
    from it; [Reader] maps the two files (MMap.v) and reads numbers at the
    addresses it was given; [BlockReader] maps one block of the data file and
    takes it as a C string; [Index] reads its keys from a file.  What [mmap]
    does is a parameter with its documented behaviour as hypotheses. *)
From S2P Require Import Prelude Float StringPiece Table Cache FlatStore MMap BlockStore.

Module StoreFiles.
Abbreviation disk := (gmap cstr cstr).

(** ** File names (store/const.h) *)
Definition DATA_FILE : cstr := lit "/media/ssd/MMap/vec".
Definition META_FILE : cstr := lit "/media/ssd/MMap/hdr".
Definition INPUT_FILE : cstr := lit "/media/ssd/MMap/pg_google".

(** ** [Writer] *)
Section Writer.
Variable lexical_cast : cstr -> outcome Z.
(** Whether [open(name, O_RDWR | O_CREAT | O_TRUNC)] succeeds. *)
Variable can_create : cstr -> bool.

(** [FlatFile(filename)]: the file is there and empty; without it the
    descriptor is negative, and [write] to it does nothing. *)
Definition FlatFile_open (d : disk) (name : cstr) : disk * option cstr :=
  if can_create name then (<[name := []]> d, Some name) else (d, None).
Definition FlatFile_write (d : disk) (fd : option cstr) (data : cstr) : disk :=
  match fd with Some name => <[name := default [] (d !! name) ++ data]> d | None => d end.
(** [Writer()] and [write()]: an input that cannot be opened has no lines. *)
Definition Writer_run (d : disk) : outcome disk :=
  let '(d, vec_fd) := FlatFile_open d DATA_FILE in
  let '(d, hdr_fd) := FlatFile_open d META_FILE in
  w ← FlatStore.write lexical_cast (default [] (d !! INPUT_FILE));
  Ok (FlatFile_write (FlatFile_write d hdr_fd (hdr w)) vec_fd (vec w)).

Lemma Writer_run_files d input w :
  can_create DATA_FILE = true -> can_create META_FILE = true -> d !! INPUT_FILE = Some input ->
  FlatStore.write lexical_cast input = Ok w ->
  exists d', Writer_run d = Ok d' /\ d' !! DATA_FILE = Some (vec w) /\ d' !! META_FILE = Some (hdr w) /\
    (forall n, n <> DATA_FILE -> n <> META_FILE -> d' !! n = d !! n).
Proof.
  intros Hd Hm Hi Hw. unfold Writer_run, FlatFile_open. rewrite Hd, Hm.
  rewrite !lookup_insert_ne, Hi by done. cbn [default]. change (id input) with input. rewrite Hw. run. eexists. split; [done|].
  unfold FlatFile_write. assert (META_FILE <> DATA_FILE) as Hne by done.
  split_and!; [|rewrite (lookup_insert_ne _ DATA_FILE META_FILE), !lookup_insert_eq by done; done|intros n H1 H2; by rewrite !lookup_insert_ne by done].
  rewrite lookup_insert_eq, !(lookup_insert_ne _ META_FILE DATA_FILE), lookup_insert_eq by done. done.
Qed.
End Writer.

(** ** [Reader] *)
Section Reader.
(** The system calls of MMap.v and the memory that the process reads. *)
Variable os_open : cstr -> MMap.access_mode -> Z.
Variable os_filesize : Z -> option Z.
Variable os_mmap : option Z -> Z -> Z -> Z -> option Z.
Variable os_munmap : Z -> Z -> bool.
Variable os_close : Z -> bool.
Variable memory : Z -> option ascii.

Record Reader := { dataFile : MMap.MMapedFile; hdrFile : MMap.MMapedFile; data_ptr : Z; hdr_ptr : Z }.
(** The constructor; the areas of the process go along. *)
Definition Reader_new (a : MMap.areas) : outcome (Reader * MMap.areas) :=
  '(h, a, hp) ← MMap.readMmapFile os_open os_filesize os_mmap MMap.MMapedFile_new a META_FILE;
  '(f, a, fp) ← MMap.readMmapFile os_open os_filesize os_mmap MMap.MMapedFile_new a DATA_FILE;
  Ok ({| dataFile := f; hdrFile := h; data_ptr := fp; hdr_ptr := hp |}, a).
(** The destructor. *)
Definition Reader_delete (r : Reader) (a : MMap.areas) : outcome MMap.areas :=
  '(_, a) ← MMap.munmapAndCloseFile os_munmap os_close (hdrFile r) a;
  '(_, a) ← MMap.munmapAndCloseFile os_munmap os_close (dataFile r) a;
  Ok a.

(** [ptr[i]] of a [long*]: eight bytes of memory. *)
Fixpoint load (n : nat) (addr : Z) : outcome cstr :=
  match n with
  | O => Ok []
  | S n => c ← deref (memory addr); s ← load n (addr + 1); Ok (c :: s)
  end.
Definition load_long (ptr i : Z) : outcome Z := s ← load 8 (ptr + 8 * i); unmarshal s.
Fixpoint load_longs (ptr i : Z) (n : nat) : outcome (list Z) :=
  match n with
  | O => Ok []
  | S n => x ← load_long ptr i; xs ← load_longs ptr (i + 1) n; Ok (x :: xs)
  end.
Definition Reader_read (r : Reader) (index : Z) : outcome (list Z) :=
  pos ← load_long (hdr_ptr r) index;
  next ← load_long (hdr_ptr r) (index + 1);
  let dist := to_int64 (next - pos) in
  if dist <? 0 then Undefined else load_longs (data_ptr r) pos (Z.to_nat dist).

(** *** Memory that holds a file *)
Definition shows (addr : Z) (file : cstr) : Prop :=
  forall (i : nat) c, file !! i = Some c -> memory (addr + Z.of_nat i) = Some c.
Lemma load_shows addr file i n : shows addr file -> (i + n <= length file)%nat ->
  load n (addr + Z.of_nat i) = Ok (take n (drop i file)).
Proof.
  intros Hs. revert i. induction n as [|n IH]; intros i Hn; [done|]. cbn [load].
  destruct (lookup_lt_is_Some_2 file i) as [c Hc]; [lia|]. rewrite (Hs i c Hc). run.
  replace (addr + Z.of_nat i + 1) with (addr + Z.of_nat (S i)) by lia. rewrite IH by lia. run.
  by rewrite (drop_S _ _ _ Hc).
Qed.
Lemma load_long_file ptr file i x : shows ptr file -> FlatStore.long_at file i = Ok x -> load_long ptr i = Ok x.
Proof.
  intros Hs. unfold FlatStore.long_at, load_long. destruct (Z.ltb_spec i 0); [done|]. case_decide as Hl; [|done]. intros E.
  replace (ptr + 8 * i) with (ptr + Z.of_nat (8 * Z.to_nat i)) by lia. rewrite (load_shows _ file) by done. run. exact E.
Qed.
Lemma load_longs_file ptr file i n xs : shows ptr file -> FlatStore.longs_from file i n = Ok xs -> load_longs ptr i n = Ok xs.
Proof.
  intros Hs. revert i xs. induction n as [|n IH]; intros i xs E; [done|]. cbn [FlatStore.longs_from load_longs] in *.
  apply bind_Ok in E as (x & Ex & E). apply bind_Ok in E as (ys & Ey & [= <-]).
  rewrite (load_long_file _ _ _ _ Hs Ex). run. rewrite (IH _ _ Ey). done.
Qed.
(** Reading through the pointers is reading from the bytes of the files. *)
Lemma Reader_read_files r w index l : shows (hdr_ptr r) (hdr w) -> shows (data_ptr r) (vec w) ->
  FlatStore.read w index = Ok l -> Reader_read r index = Ok l.
Proof.
  intros Hh Hv E. unfold FlatStore.read in E. unfold Reader_read.
  apply bind_Ok in E as (pos & Ep & E). apply bind_Ok in E as (next & En & E).
  rewrite (load_long_file _ _ _ _ Hh Ep). run. rewrite (load_long_file _ _ _ _ Hh En). run.
  destruct (_ <? 0); [done|]. by eapply load_longs_file.
Qed.

(** *** What the system promises for the files of a disk *)
Record maps (d : disk) : Prop := {
  maps_open : forall name c, d !! name = Some c -> 0 <= os_open name MMap.READ_ONLY /\
    os_filesize (os_open name MMap.READ_ONLY) = Some (Z.of_nat (length c));
  maps_area : forall name c, d !! name = Some c -> c <> [] -> exists addr,
    os_mmap None (Z.of_nat (length c)) (os_open name MMap.READ_ONLY) 0 = Some addr /\ shows addr c;
  maps_empty : forall fd, os_mmap None 0 fd 0 = None
}.
Lemma readMmapFile_shows d a name c : maps d -> d !! name = Some c -> name <> [] -> c <> [] -> exists f a' addr,
  MMap.readMmapFile os_open os_filesize os_mmap MMap.MMapedFile_new a name = Ok (f, a', addr) /\ shows addr c.
Proof.
  intros [Ho Ha _] Hd Hn Hc. destruct (Ho name c Hd) as [Hfd Hsz]. destruct (Ha name c Hd Hc) as (addr & Em & Hs).
  destruct name as [|x name]; [done|]. unfold MMap.readMmapFile, MMap.ensure_open. cbn [MMap.fd MMap.MMapedFile_new Z.eqb Pos.eqb].
  destruct (Z.ltb_spec (os_open (x :: name) MMap.READ_ONLY) 0); [lia|]. run. unfold MMap.filesize. cbn [MMap.fd]. rewrite Hsz. run.
  cbn [MMap.fd]. rewrite Em. eauto.
Qed.
Lemma readMmapFile_empty d a name : maps d -> d !! name = Some [] -> name <> [] ->
  MMap.readMmapFile os_open os_filesize os_mmap MMap.MMapedFile_new a name = Throw.
Proof.
  intros [Ho _ He] Hd Hn. destruct (Ho name [] Hd) as [Hfd Hsz].
  destruct name as [|x name]; [done|]. unfold MMap.readMmapFile, MMap.ensure_open. cbn [MMap.fd MMap.MMapedFile_new Z.eqb Pos.eqb].
  destruct (Z.ltb_spec (os_open (x :: name) MMap.READ_ONLY) 0); [lia|]. run. unfold MMap.filesize. cbn [MMap.fd]. rewrite Hsz. run.
  cbn [MMap.fd length Z.of_nat]. by rewrite He.
Qed.
Lemma Reader_new_shows d a w : maps d -> d !! META_FILE = Some (hdr w) -> d !! DATA_FILE = Some (vec w) ->
  hdr w <> [] -> vec w <> [] -> exists r a', Reader_new a = Ok (r, a') /\ shows (hdr_ptr r) (hdr w) /\ shows (data_ptr r) (vec w).
Proof.
  intros Hm Hh Hv Hne Hve. unfold Reader_new.
  destruct (readMmapFile_shows d a META_FILE (hdr w) Hm Hh) as (h & a1 & hp & -> & Hhs); [done|done|]. run.
  destruct (readMmapFile_shows d a1 DATA_FILE (vec w) Hm Hv) as (f & a2 & fp & -> & Hfs); [done|done|]. run. eauto.
Qed.

Variable lexical_cast : cstr -> outcome Z.
Hypothesis lexical_cast_long : forall s x, lexical_cast s = Ok x -> representable x.
Variable can_create : cstr -> bool.
Hypothesis created : can_create DATA_FILE = true /\ can_create META_FILE = true.
Lemma write_files input ls : FlatStore.parse lexical_cast (getlines "010" input) = Ok ls ->
  Forall (fun l => Z.of_nat (length l) < 2 ^ 31) ls -> FlatStore.sum_length ls < 2 ^ 63 ->
  exists w, FlatStore.write lexical_cast input = Ok w /\ hdr w = FlatStore.bytes (0 :: FlatStore.totals 0 ls) /\
    vec w = FlatStore.bytes (mjoin ls) /\ forall i l, ls !! i = Some l -> FlatStore.read w (Z.of_nat i) = Ok l.
Proof.
  intros Hp Hl Hs. unfold FlatStore.write.
  rewrite (FlatStore.write_lines_spec lexical_cast lexical_cast_long _ ls) by (done || lia). eexists. split; [done|]. split; [done|]. split; [done|].
  intros i l Hi. destruct (FlatStore.write_read lexical_cast lexical_cast_long _ ls i l Hp Hl Hs Hi) as (w & Ew & Er).
  rewrite (FlatStore.write_lines_spec lexical_cast lexical_cast_long _ ls) in Ew by (done || lia). injection Ew as <-. exact Er.
Qed.
Lemma hdr_nonempty ls : FlatStore.bytes (0 :: FlatStore.totals 0 ls) <> [].
Proof. intros E%(f_equal length). rewrite FlatStore.length_bytes in E. cbn in E. lia. Qed.
Lemma vec_nonempty lines ls : FlatStore.parse lexical_cast lines = Ok ls -> ls <> [] -> FlatStore.bytes (mjoin ls) <> [].
Proof.
  intros E Hne Hb%(f_equal length). rewrite FlatStore.length_bytes in Hb. destruct lines as [|line lines]; cbn in E; [by injection E as <-|].
  apply bind_Ok in E as (l & El & E). apply bind_Ok in E as (ls' & _ & [= <-]).
  destruct (FlatStore.handleLine_nonempty lexical_cast lexical_cast_long _ _ El) as [Hl _]. rewrite mjoin_cons, length_app in Hb.
  destruct l; [done|]. cbn in Hb. lia.
Qed.

(** C29. The flat store from text to memory: [Writer] creates its files from
    the input file and changes no other file; once they are mapped, [Reader]
    finds at index [i] the numbers of line [i].  With an empty input the data
    file is empty, and the constructor of [Reader] throws. *)
Theorem store_opened d input ls a :
  d !! INPUT_FILE = Some input -> FlatStore.parse lexical_cast (getlines "010" input) = Ok ls ->
  Forall (fun l => Z.of_nat (length l) < 2 ^ 31) ls -> FlatStore.sum_length ls < 2 ^ 63 ->
  exists d', Writer_run lexical_cast can_create d = Ok d' /\
    (forall n, n <> DATA_FILE -> n <> META_FILE -> d' !! n = d !! n) /\
    (maps d' -> if decide (ls = []) then Reader_new a = Throw
     else exists r a', Reader_new a = Ok (r, a') /\
       forall i l, ls !! i = Some l -> Reader_read r (Z.of_nat i) = Ok l).
Proof.
  intros Hi Hp Hl Hs. destruct (write_files input ls Hp Hl Hs) as (w & Ew & Eh & Ev & Hr).
  destruct (Writer_run_files lexical_cast can_create d input w (proj1 created) (proj2 created) Hi Ew) as (d' & E & Hv & Hh & Hf).
  exists d'. split; [done|]. split; [done|]. intros Hm. pose proof (hdr_nonempty ls) as Hne. rewrite <- Eh in Hne. case_decide as Hls.
  - unfold Reader_new. destruct (readMmapFile_shows d' a META_FILE (hdr w) Hm Hh) as (h & a1 & hp & -> & _); [done|done|]. run.
    rewrite (readMmapFile_empty d') by (done || (rewrite Hv, Ev, Hls; done)). done.
  - destruct (Reader_new_shows d' a w Hm Hh Hv Hne) as (r & a' & En & Hsh & Hsv); [rewrite Ev; by eapply vec_nonempty|].
    exists r, a'. split; [done|]. intros i l Hil. eapply Reader_read_files; eauto.
Qed.
End Reader.

(** *** A system that keeps these promises, for every disk of small files *)
Definition sys_open (name : cstr) (mode : MMap.access_mode) : Z := Zpos (encode name).
Definition sys_file (d : disk) (fd : Z) : option cstr :=
  match fd with Zpos p => name ← decode p; d !! (name : cstr) | _ => None end.
Definition sys_filesize (d : disk) (fd : Z) : option Z := (fun c => Z.of_nat (length c)) <$> sys_file d fd.
Definition sys_mmap (hint : option Z) (n fd offset : Z) : option Z := if n =? 0 then None else Some (fd * 2 ^ 40).
Definition sys_memory (d : disk) (addr : Z) : option ascii :=
  c ← sys_file d (addr / 2 ^ 40); (c : cstr) !! Z.to_nat (addr mod 2 ^ 40).
Lemma sys_file_open d name : sys_file d (sys_open name MMap.READ_ONLY) = d !! name.
Proof. unfold sys_file, sys_open. by rewrite decode_encode. Qed.
Lemma sys_maps d : (forall name c, d !! name = Some c -> Z.of_nat (length c) < 2 ^ 40) ->
  maps sys_open (sys_filesize d) sys_mmap (sys_memory d) d.
Proof.
  intros Hl. split.
  - intros name c Hd. split; [done|]. unfold sys_filesize. by rewrite sys_file_open, Hd.
  - intros name c Hd Hc. unfold sys_mmap. destruct (Z.eqb_spec (Z.of_nat (length c)) 0); [by destruct c|].
    eexists. split; [done|]. intros i x Hx. pose proof (lookup_lt_Some _ _ _ Hx). specialize (Hl name c Hd). unfold sys_memory.
    replace ((_ + _) / 2 ^ 40) with (sys_open name MMap.READ_ONLY) by (rewrite Z.div_add_l, Z.div_small; lia).
    rewrite sys_file_open, Hd. cbn [mbind option_bind].
    rewrite Z.add_comm, Z.mod_add, Z.mod_small, Nat2Z.id by lia. done.
  - done.
Qed.

Definition sample_disk : disk := {[ INPUT_FILE := lit "1 2" ++ "010"%char :: lit "7" ]}.
Lemma store_opened_witness : exists d' r a', Writer_run cast_digit (fun _ => true) sample_disk = Ok d' /\
  Reader_new sys_open (sys_filesize d') sys_mmap [] = Ok (r, a') /\
  Reader_read (sys_memory d') r 0 = Ok [1; 2] /\ Reader_read (sys_memory d') r 1 = Ok [7].
Proof.
  set (d1 := match Writer_run cast_digit (fun _ => true) sample_disk with Ok d => d | _ => ∅ end).
  destruct (store_opened sys_open (sys_filesize d1) sys_mmap (sys_memory d1) cast_digit cast_digit_long (fun _ => true) (conj eq_refl eq_refl)
    sample_disk (lit "1 2" ++ "010"%char :: lit "7") [[1; 2]; [7]] []) as (d' & E & _ & Hr).
  - by vm_compute.
  - by vm_compute.
  - by repeat constructor.
  - by vm_compute.
  - assert (d' = d1) as -> by (unfold d1; by rewrite E). exists d1.
    destruct (Hr (sys_maps d1 ltac:(clear; intros name c Hc; assert (map_Forall (fun _ c => Z.of_nat (length c) < 2 ^ 40) d1) as Hf by (by apply (bool_decide_unpack _); vm_compute); exact (Hf name c Hc)))) as (r & a' & En & Hl).
    exists r, a'. split; [exact E|]. split; [exact En|]. split; [exact (Hl 0%nat _ eq_refl)|exact (Hl 1%nat _ eq_refl)].
Defined.

(** ** [BlockReader] *)
Section BlockReader.
Variable BLOCK_SIZE : nat.
Variable pagesize : nat.

(** The bytes of the data file behind the descriptor, while it is open. *)
Record BlockReader := { block_file : option cstr }.
Definition BlockReader_new (d : disk) : BlockReader := {| block_file := d !! DATA_FILE |}.
(** The mapped block, byte by byte: the file, zeros up to the end of its last
    page, and beyond that a fault. *)
Definition file_pages (f : cstr) : nat := ((length f + pagesize - 1) / pagesize * pagesize)%nat.
Definition block_byte (f : cstr) (offset n : nat) : option ascii :=
  if decide (n < BLOCK_SIZE)%nat then
    match f !! (offset + n)%nat with
    | Some c => Some c
    | None => if decide (offset + n < file_pages f)%nat then Some "000"%char else None
    end
  else None.
(** [std::string(buffer)]: up to the first zero; reading outside the mapping
    is undefined. *)
Fixpoint c_string (byte : nat -> option ascii) (fuel n : nat) : outcome cstr :=
  match fuel with
  | O => Undefined
  | S fuel =>
    c ← deref (byte n);
    if decide (c = "000"%char) then Ok [] else s ← c_string byte fuel (S n); Ok (c :: s)
  end.
(** [blockIndex * BLOCK_SIZE] is a product of [int]s.  [mmap] fails for an
    offset that is negative or not a multiple of the page size, and without a
    descriptor; then the descriptor is closed. *)
Definition getBlockText (r : BlockReader) (blockIndex : Z) : outcome (BlockReader * cstr) :=
  let offset := blockIndex * Z.of_nat BLOCK_SIZE in
  if (offset <? - 2 ^ 31) || (2 ^ 31 <=? offset) then Undefined
  else
    match block_file r with
    | Some f =>
      if (offset <? 0) || negb (offset mod Z.of_nat pagesize =? 0) then Ok ({| block_file := None |}, [])
      else texter ← c_string (block_byte f (Z.to_nat offset)) (S BLOCK_SIZE) 0; Ok (r, texter)
    | None => Ok (r, [])
    end.

Hypothesis pages : (0 < pagesize)%nat /\ (BLOCK_SIZE mod pagesize = 0)%nat.

Lemma c_string_text byte fuel n s : (length s < fuel)%nat -> "000"%char ∉ s ->
  (forall i c, s !! i = Some c -> byte (n + i)%nat = Some c) -> byte (n + length s)%nat = Some "000"%char ->
  c_string byte fuel n = Ok s.
Proof.
  revert fuel n. induction s as [|c s IH]; intros [|fuel] n Hl Hz Hs He; cbn in Hl; try lia.
  - cbn. cbn in He. rewrite Nat.add_0_r in He. by rewrite He.
  - apply not_elem_of_cons in Hz as [Hc Hz]. cbn [c_string]. pose proof (Hs 0%nat c eq_refl) as E0. rewrite Nat.add_0_r in E0. rewrite E0. run.
    rewrite decide_False by congruence. rewrite IH; [done|lia|done| |].
    + intros i x Hx. rewrite <- (Hs (S i) x Hx). f_equal. lia.
    + rewrite <- He. f_equal. cbn. lia.
Qed.
Lemma c_string_overrun byte fuel n : (forall i, byte i <> Some "000"%char) -> (exists m, n <= m /\ byte m = None)%nat ->
  c_string byte fuel n = Undefined.
Proof.
  intros Hz. revert n. induction fuel as [|fuel IH]; intros n (m & Hm & Hb); [done|]. cbn [c_string].
  destruct (byte n) as [c|] eqn:E; [|done]. run. rewrite decide_False by (intros ->; by apply (Hz n)).
  rewrite IH; [done|]. exists m. split; [|done]. destruct (decide (n = m)); [congruence|lia].
Qed.
Lemma block_offset (i : nat) : Z.of_nat i * Z.of_nat BLOCK_SIZE mod Z.of_nat pagesize = 0.
Proof.
  destruct pages as [Hp Hb]. apply Nat.Div0.mod_divides in Hb as [k Hk]. rewrite Hk, Nat2Z.inj_mul.
  rewrite (Z.mul_comm (Z.of_nat pagesize)), Z.mul_assoc. apply Z.mod_mul. lia.
Qed.
Lemma getBlockText_open f (i : nat) : Z.of_nat i * Z.of_nat BLOCK_SIZE < 2 ^ 31 ->
  getBlockText {| block_file := Some f |} (Z.of_nat i) =
  (texter ← c_string (block_byte f (i * BLOCK_SIZE)) (S BLOCK_SIZE) 0; Ok ({| block_file := Some f |}, texter)).
Proof.
  intros Hi. unfold getBlockText. cbn [block_file].
  destruct (Z.ltb_spec (Z.of_nat i * Z.of_nat BLOCK_SIZE) (- 2 ^ 31)); [lia|].
  destruct (Z.leb_spec (2 ^ 31) (Z.of_nat i * Z.of_nat BLOCK_SIZE)); [lia|].
  destruct (Z.ltb_spec (Z.of_nat i * Z.of_nat BLOCK_SIZE) 0); [lia|]. rewrite block_offset. cbn [orb negb Z.eqb].
  by rewrite <- Nat2Z.inj_mul, Nat2Z.id.
Qed.
Lemma file_pages_bound f : (length f <= file_pages f < length f + pagesize)%nat /\ (file_pages f = length f <-> (length f mod pagesize = 0)%nat).
Proof.
  destruct pages as [Hp _]. unfold file_pages. pose proof (Nat.div_mod_eq (length f + pagesize - 1) pagesize) as E.
  pose proof (Nat.mod_upper_bound (length f + pagesize - 1) pagesize) as Hu.
  set (q := ((length f + pagesize - 1) / pagesize)%nat) in *. set (m := ((length f + pagesize - 1) mod pagesize)%nat) in *.
  assert (length f <= q * pagesize < length f + pagesize)%nat as Hb by lia. split; [lia|]. split; intros Hq.
  - rewrite <- Hq. apply Nat.Div0.mod_mul.
  - apply Nat.Div0.mod_divides in Hq as [k Hk]. rewrite Hk in Hb |- *. clearbody q m.
    assert (k <= q)%nat by (apply (Nat.mul_le_mono_pos_r _ _ pagesize); lia).
    assert (q < S k)%nat by (apply (Nat.mul_lt_mono_pos_r pagesize); lia). assert (q = k) as -> by lia. lia.
Qed.

(** The text of a block that is not full: what the file has of it, since its
    last page ends in zeros. *)
Lemma partial_block_text f (i : nat) : Z.of_nat i * Z.of_nat BLOCK_SIZE < 2 ^ 31 -> "000"%char ∉ f ->
  (i * BLOCK_SIZE <= length f < S i * BLOCK_SIZE)%nat -> (length f mod pagesize <> 0)%nat ->
  getBlockText {| block_file := Some f |} (Z.of_nat i) = Ok ({| block_file := Some f |}, drop (i * BLOCK_SIZE) f).
Proof.
  intros Hi Hz Hl Hm. rewrite getBlockText_open by done. destruct (file_pages_bound f) as [Hb He].
  rewrite (c_string_text _ _ _ (drop (i * BLOCK_SIZE) f)); [done|rewrite length_drop; lia| | |].
  - intros Hin%list_elem_of_In. apply Hz. rewrite <- (take_drop (i * BLOCK_SIZE) f). apply elem_of_app. right. by apply list_elem_of_In.
  - intros j c Hj. pose proof (lookup_lt_Some _ _ _ Hj) as Hlt. rewrite length_drop in Hlt. rewrite lookup_drop in Hj.
    unfold block_byte. rewrite decide_True by lia. cbn [Nat.add]. by rewrite Hj.
  - rewrite length_drop. unfold block_byte. rewrite decide_True by lia. cbn [Nat.add].
    rewrite (lookup_ge_None_2 f) by lia. rewrite decide_True; [done|]. assert (file_pages f <> length f) by tauto. lia.
Qed.
(** A full block has no zero to end at. *)
Lemma full_block_undefined f (i : nat) : Z.of_nat i * Z.of_nat BLOCK_SIZE < 2 ^ 31 -> "000"%char ∉ f ->
  (S i * BLOCK_SIZE <= length f)%nat \/ (length f mod pagesize = 0)%nat -> getBlockText {| block_file := Some f |} (Z.of_nat i) = Undefined.
Proof.
  intros Hi Hz Hl. rewrite getBlockText_open by done. rewrite c_string_overrun; [done| |].
  - intros n. unfold block_byte. case_decide as Hn; [|done]. destruct (f !! _) as [c|] eqn:E.
    + intros [= ->]. apply Hz. by apply (list_elem_of_lookup_2 _ _ _ E).
    + apply lookup_ge_None in E. destruct Hl as [Hl|Hl]; [lia|]. destruct (file_pages_bound f) as [_ [_ He]]. rewrite decide_False; [done|]. rewrite He by done. lia.
  - exists BLOCK_SIZE. split; [lia|]. unfold block_byte. by rewrite decide_False by lia.
Qed.

(** *** The blocks that [BlockWriter] writes *)
Definition no_double (s : cstr) : Prop := forall i, s !! i = Some hash_sep -> s !! S i <> Some hash_sep.
Lemma no_double_app a b : no_double a -> no_double b -> head b <> Some hash_sep -> no_double (a ++ b).
Proof.
  intros Ha Hb Hh i. destruct (decide (S i < length a)%nat) as [Hi|Hi]; [rewrite !lookup_app_l by lia; apply Ha|].
  rewrite (lookup_app_r a b (S i)) by lia. destruct (decide (S i = length a)) as [E|Hne].
  - intros _. rewrite E, Nat.sub_diag. by rewrite <- head_lookup.
  - rewrite (lookup_app_r a b i) by lia. intros H1. replace (S i - length a)%nat with (S (i - length a)) by lia. by apply Hb.
Qed.
Lemma no_double_free s : hash_sep ∉ s -> no_double s.
Proof. intros Hs i Hi. by apply list_elem_of_lookup_2 in Hi. Qed.
Lemma no_double_snoc s : hash_sep ∉ s -> no_double (s ++ [hash_sep]).
Proof.
  intros Hs i Hi. destruct (decide (i < length s)%nat) as [Hlt|Hge].
  - rewrite lookup_app_l in Hi by done. by apply list_elem_of_lookup_2 in Hi.
  - rewrite lookup_ge_None_2; [done|]. rewrite length_app. cbn. lia.
Qed.
Lemma no_double_drop s n : no_double s -> no_double (drop n s).
Proof. intros Hs i. rewrite !lookup_drop. replace (n + S i)%nat with (S (n + i)) by lia. apply Hs. Qed.
Lemma no_double_diverges s fuel : no_double s -> KVReader.getRecordList fuel s = OutOfFuel.
Proof.
  intros Hs. unfold KVReader.getRecordList, KVReader.splitString. rewrite KVReader.erase_until_diverges; [done|].
  intros a b E. apply (Hs (length a)); subst s; rewrite lookup_app_r by lia.
  - by rewrite Nat.sub_diag.
  - by replace (S (length a) - length a)%nat with 1%nat by lia.
Qed.
Lemma split_on_elem f s w x : w ∈ split_on f s -> x ∈ w -> x ∈ s.
Proof.
  revert w. induction s as [|y s IH]; intros w Hw Hx; cbn in Hw; [apply list_elem_of_singleton in Hw as ->; done|].
  destruct (f y).
  - apply elem_of_cons in Hw as [->|Hw]; [by apply not_elem_of_nil in Hx|]. right. by eapply IH.
  - destruct (split_on f s) as [|v vs]; [apply list_elem_of_singleton in Hw as ->; set_solver|].
    apply elem_of_cons in Hw as [->|Hw]; [|right; eapply IH; [by right|done]].
    apply elem_of_cons in Hx as [->|Hx]; [by left|]. right. eapply IH; [by left|done].
Qed.
(** The lines that the store is made for. *)
Definition block_line (line : cstr) : Prop := "000"%char ∉ line /\ hash_sep ∉ line /\ (length line <= BLOCK_SIZE)%nat.
Lemma handleLine_record w line w' hl : block_line line -> handleLine w line = Ok (w', hl) ->
  "000"%char ∉ hl /\ no_double hl /\ head hl <> Some hash_sep /\ hl <> [] /\ out w' = out w /\ buffer w' = buffer w.
Proof.
  intros (Hz & Hh & _) E. unfold handleLine in E.
  apply bind_Ok in E as (k & Ek%deref_Ok%list_elem_of_lookup_2 & E). apply bind_Ok in E as (v & Ev%deref_Ok%list_elem_of_lookup_2 & [= <- <-]).
  assert (forall x f, x ∈ split_on f (trim_right line) -> forall c, c ∈ x -> c ∈ line) as Hin.
  { intros x f Hx c Hc. pose proof (split_on_elem _ _ _ _ Hx Hc) as Ht. destruct (trim_right_if_prefix isspace line) as (post & E & _).
    rewrite E. apply elem_of_app. by left. }
  assert ("000"%char ∉ k /\ hash_sep ∉ k /\ "000"%char ∉ v /\ hash_sep ∉ v) as (Hkz & Hkh & Hvz & Hvh).
  { split_and!; intros Hc; [apply Hz; exact (Hin _ _ Ek _ Hc)|apply Hh; exact (Hin _ _ Ek _ Hc)|apply Hz; exact (Hin _ _ Ev _ Hc)|apply Hh; exact (Hin _ _ Ev _ Hc)]. }
  split_and!; try done.
  - cbn [app]. rewrite elem_of_app, elem_of_cons, elem_of_app, list_elem_of_singleton. intros [?|[?|[?|?]]]; done.
  - replace (k ++ equals :: v ++ [hash_sep]) with ((k ++ equals :: v) ++ [hash_sep]) by (by rewrite <- !app_assoc).
    apply no_double_snoc. rewrite elem_of_app, elem_of_cons. intros [?|[?|?]]; done.
  - destruct k as [|c k]; [done|]. cbn. intros [= ->]. apply Hkh. by left.
  - by destruct k.
Qed.

Hypothesis block_pos : (0 < BLOCK_SIZE)%nat.
(** Between two lines: [n] blocks are written, the last with one byte too many
    perhaps, and the buffer holds the records of the next one. *)
Record writing (n : nat) (w : BlockWriter) : Prop := {
  wr_out : (n * BLOCK_SIZE <= length (out w) <= n * BLOCK_SIZE + 1)%nat;
  wr_zero : "000"%char ∉ out w;
  wr_buffer_zero : "000"%char ∉ buffer w;
  wr_records : no_double (buffer w);
  wr_size : (length (buffer w) <= BLOCK_SIZE + 1)%nat
}.
Lemma write_at_end file (off : nat) data : (off <= length file <= off + length data)%nat ->
  write_at file off data = take off file ++ data.
Proof.
  intros Hl. unfold write_at. replace (off - length file)%nat with 0%nat by lia. cbn [replicate].
  rewrite app_nil_r, (drop_ge file), app_nil_r by lia. done.
Qed.
Lemma zero_free_end file (off : nat) data : "000"%char ∉ file -> "000"%char ∉ data -> "000"%char ∉ take off file ++ data.
Proof. intros Hf Hd [Ht|?]%elem_of_app; [|done]. apply Hf. rewrite <- (take_drop off file). apply elem_of_app. by left. Qed.
Lemma block_written n w : writing n w -> writing (S n) (set_buffer (write BLOCK_SIZE (fillBuffer BLOCK_SIZE (setMasters w (buffer w))) n
  (buffer (fillBuffer BLOCK_SIZE (setMasters w (buffer w))))) []).
Proof.
  intros [Ho Hz Hbz Hr Hs]. cbn [buffer fillBuffer setMasters].
  assert ("000"%char ∉ buffer w ++ replicate (BLOCK_SIZE - length (buffer w)) hash_sep) as Hfz.
  { intros [?|?%elem_of_replicate_inv]%elem_of_app; done. }
  assert (BLOCK_SIZE <= length (buffer w ++ replicate (BLOCK_SIZE - length (buffer w)) hash_sep) <= BLOCK_SIZE + 1)%nat as Hfl.
  { rewrite length_app, length_replicate. lia. }
  split; cbn [out buffer set_buffer write fillBuffer setMasters].
  - rewrite write_at_end by lia. rewrite length_app, length_take_le by lia. cbn. lia.
  - rewrite write_at_end by lia. by apply zero_free_end.
  - apply not_elem_of_nil.
  - by intros j Hj.
  - cbn. lia.
Qed.
Lemma write_line_writing n w line n' w' : block_line line -> writing n w -> write_line BLOCK_SIZE (n, w) line = Ok (n', w') ->
  writing n' w' /\ buffer w' <> [].
Proof.
  intros Hline Hw E. pose proof (write_line_bound BLOCK_SIZE n w line n' w' (proj2 (proj2 Hline)) E) as Hsize.
  unfold write_line in E.
  assert (exists n1 w1 hl w2, writing n1 w1 /\ handleLine w1 line = Ok (w2, hl) /\ n' = n1 /\ w' = set_buffer w2 (buffer w2 ++ hl))
    as (n1 & w1 & hl & w2 & [Ho Hz Hbz Hr Hs] & Eh & -> & ->).
  { case_decide; apply bind_Ok in E as ([w2 hl] & Eh & [= <- <-]); [exists (S n)|exists n]; eexists _, hl, w2;
      (split; [|split; [exact Eh|done]]); [by apply block_written|done]. }
  destruct (handleLine_record _ _ _ _ Hline Eh) as (Hhz & Hhd & Hhh & Hne & Eo & Eb).
  split; [split|]; cbn [out buffer set_buffer] in *; rewrite ?Eo, ?Eb in *; try done.
  - intros [?|?]%elem_of_app; done.
  - by apply no_double_app.
  - by intros [_ ?]%app_nil.
Qed.
Lemma batchedWrite_blocks input w : Forall block_line (getlines "010" input) -> batchedWrite BLOCK_SIZE input = Ok w ->
  "000"%char ∉ out w /\ exists n, (n * BLOCK_SIZE <= length (out w))%nat /\ no_double (drop (n * BLOCK_SIZE) (out w)).
Proof.
  intros Hl E. unfold batchedWrite in E. apply bind_Ok in E as ([n w1] & Ef & E).
  set (w0 := {| masters := []; buffer := []; keys := []; out := [] |}) in *.
  assert (forall lines n0 w0, Forall block_line lines -> writing n0 w0 -> (buffer w0 = [] -> out w0 = []) ->
    for_each (write_line BLOCK_SIZE) lines (n0, w0) = Ok (n, w1) -> writing n w1 /\ (buffer w1 = [] -> out w1 = [])) as Hgen.
  { clear -block_pos pages. intros lines. induction lines as [|line lines IH]; intros n0 w0 Hl Hw He Ef; cbn [for_each] in Ef; [by injection Ef as <- <-|].
    apply Forall_cons in Hl as [Hline Hl]. apply bind_Ok in Ef as ([n2 w2] & E2 & Ef).
    destruct (write_line_writing _ _ _ _ _ Hline Hw E2) as [Hw2 Hb2]. by eapply IH. }
  destruct (Hgen _ 0%nat w0 Hl ltac:(split; cbn; [lia|apply not_elem_of_nil|apply not_elem_of_nil|by intros j Hj|lia]) ltac:(done) Ef) as [[Ho Hz Hbz Hr Hs] He].
  case_decide as Hb; injection E as <-.
  - cbn [out fillBuffer write setMasters]. rewrite write_at_end by lia. split; [by apply zero_free_end|]. exists n.
    rewrite length_app, length_take_le by lia. split; [lia|]. by rewrite drop_app_length' by (rewrite length_take; lia).
  - assert (buffer w1 = []) as Eb by (destruct (buffer w1); [done|cbn in Hb; lia]). rewrite (He Eb).
    split; [apply not_elem_of_nil|]. exists 0%nat. split; [cbn; lia|]. by intros j Hj.
Qed.

(** No block can be read: a block that fills its mapping has no zero byte,
    so that [std::string(buffer)] runs past the mapping, and the last one, which
    is written before it is filled, lacks the fill characters that [KVReader]
    looks for, so that its loop does not end. *)
Theorem blocks_unreadable input w (i : nat) :
  Forall block_line (getlines "010" input) -> batchedWrite BLOCK_SIZE input = Ok w ->
  (i * BLOCK_SIZE < length (out w))%nat -> Z.of_nat i * Z.of_nat BLOCK_SIZE < 2 ^ 31 ->
  getBlockText {| block_file := Some (out w) |} (Z.of_nat i) = Undefined \/
  exists r text, getBlockText {| block_file := Some (out w) |} (Z.of_nat i) = Ok (r, text) /\
    forall fuel, KVReader.getRecordList fuel text = OutOfFuel.
Proof.
  intros Hl E Hi Hoff. destruct (batchedWrite_blocks input w Hl E) as (Hz & n & Hn & Hd).
  destruct (decide (S i * BLOCK_SIZE <= length (out w))%nat) as [Hf|Hp]; [left; apply full_block_undefined; auto|].
  destruct (decide (length (out w) mod pagesize = 0)%nat) as [Hm|Hm]; [left; apply full_block_undefined; auto|].
  right. eexists _, _. split; [apply partial_block_text; [done|done|lia|done]|]. intros fuel. apply no_double_diverges.
  assert (n <= i)%nat as Hni by (destruct (decide (n <= i)%nat); [done|]; assert (S i * BLOCK_SIZE <= n * BLOCK_SIZE)%nat by (apply Nat.mul_le_mono_r; lia); lia).
  replace (i * BLOCK_SIZE)%nat with (n * BLOCK_SIZE + (i - n) * BLOCK_SIZE)%nat by nia. rewrite <- drop_drop. by apply no_double_drop.
Qed.

(** *** The index of the blocks *)
Definition key_line (line : cstr) : Prop := equals ∉ line /\ "255"%char ∉ line.
Definition good_key (k : cstr) : Prop := equals ∉ k /\ hash_sep ∉ k /\ "255"%char ∉ k.
Definition marks (ks : list cstr) : cstr := mjoin ((fun k => k ++ [hash_sep]) <$> ks).
(** Block [j] of a file starts with the key [k]. *)
Definition starts_with (file : cstr) (j : nat) (k : cstr) : Prop :=
  (length k + 1 <= BLOCK_SIZE)%nat /\ take (length k + 1) (drop (j * BLOCK_SIZE) file) = k ++ [equals].
Definition first_key (b k : cstr) : Prop := good_key k /\ exists rest, b = k ++ equals :: rest ++ [hash_sep].
Record indexed (n : nat) (w : BlockWriter) (ks : list cstr) : Prop := {
  ix_marks : masters w = marks ks;
  ix_keys : Forall good_key ks;
  ix_count : length ks = n;
  ix_blocks : forall j k, ks !! j = Some k -> starts_with (out w) j k;
  ix_buffer : buffer w = [] \/ exists k, first_key (buffer w) k
}.
Lemma setMasters_key w k : first_key (buffer w) k -> masters (setMasters w (buffer w)) = masters w ++ k ++ [hash_sep].
Proof. intros [(He & _) [rest E]]. cbn [masters setMasters]. rewrite E, find_char_app by done. by rewrite take_app_length. Qed.
Lemma marks_snoc ks k : marks (ks ++ [k]) = marks ks ++ k ++ [hash_sep].
Proof. unfold marks. rewrite fmap_app, join_app. cbn. by rewrite app_nil_r. Qed.
(** Writing a block keeps the earlier ones and starts with its first key. *)
Lemma starts_with_written file n b fill ks k : (n * BLOCK_SIZE <= length file)%nat -> (forall j k, ks !! j = Some k -> starts_with file j k) ->
  length ks = n -> first_key b k -> (length b <= BLOCK_SIZE + 1)%nat ->
  forall j k', (ks ++ [k]) !! j = Some k' -> starts_with (take (n * BLOCK_SIZE) file ++ b ++ fill) j k'.
Proof.
  intros Hn Hks Hlen [_ [rest ->]] Hb j k' Hj. apply lookup_app_Some in Hj as [Hj|[Hge Hj]].
  - destruct (Hks j k' Hj) as [Hk Ek]. pose proof (lookup_lt_Some _ _ _ Hj). split; [done|]. rewrite <- Ek.
    assert ((S j) * BLOCK_SIZE <= n * BLOCK_SIZE)%nat by (apply Nat.mul_le_mono_r; lia).
    rewrite drop_app_le by (rewrite length_take; lia). rewrite take_app_le by (rewrite length_drop, length_take; lia).
    rewrite take_drop_commute, take_take. rewrite (take_drop_commute file). do 2 f_equal. lia.
  - apply list_lookup_singleton_Some in Hj as [Hj0 <-]. assert (j = n) as -> by lia. rewrite !length_app in Hb. cbn in Hb. rewrite length_app in Hb. cbn in Hb.
    split; [lia|]. rewrite drop_app_length' by (rewrite length_take; lia). rewrite <- app_assoc. cbn [app].
    rewrite take_app_add. done.
Qed.
Lemma block_indexed n w ks k fill : writing n w -> indexed n w ks -> first_key (buffer w) k ->
  masters (setMasters w (buffer w)) = marks (ks ++ [k]) /\ Forall good_key (ks ++ [k]) /\ length (ks ++ [k]) = S n /\
  forall j k', (ks ++ [k]) !! j = Some k' -> starts_with (write_at (out w) (n * BLOCK_SIZE) (buffer w ++ fill)) j k'.
Proof.
  intros [Ho Hz Hbz Hr Hs] [Em Hk Hc Hb _] Hf. rewrite setMasters_key with (k := k), Em, marks_snoc by done. split; [done|].
  split; [apply Forall_app; split; [done|]; constructor; [apply Hf|done]|]. split; [rewrite length_app; cbn; lia|].
  assert (1 <= length (buffer w))%nat. { destruct Hf as [_ [rest ->]]. rewrite length_app. cbn. lia. }
  rewrite write_at_end by (rewrite length_app; lia). apply starts_with_written; (done || lia).
Qed.
Lemma handleLine_key w line w' hl : block_line line -> key_line line -> handleLine w line = Ok (w', hl) ->
  masters w' = masters w /\ out w' = out w /\ buffer w' = buffer w /\ exists k, first_key hl k.
Proof.
  intros (_ & Hh & _) [He Hf] E. unfold handleLine in E.
  apply bind_Ok in E as (k & Ek%deref_Ok%list_elem_of_lookup_2 & E). apply bind_Ok in E as (v & _ & [= <- <-]).
  split_and!; [done|done|done|]. exists k. split; [|by exists v].
  assert (forall c, c ∈ k -> c ∈ line) as Hin.
  { intros c Hc. destruct (trim_right_if_prefix isspace line) as (post & E & _). rewrite E. apply elem_of_app. left. by eapply split_on_elem. }
  split_and!; intros Hc; [apply He|apply Hh|apply Hf]; by apply Hin.
Qed.
Lemma first_key_app b hl k : first_key b k -> (exists k', first_key hl k') -> first_key (b ++ hl) k.
Proof.
  intros [Hk [rest ->]] [k' [_ [rest' ->]]]. split; [done|]. exists (rest ++ [hash_sep] ++ k' ++ equals :: rest').
  by repeat (progress (rewrite <- ?app_assoc; cbn [app])).
Qed.
Lemma write_line_indexed n w ks line n' w' : block_line line -> key_line line -> writing n w -> indexed n w ks ->
  write_line BLOCK_SIZE (n, w) line = Ok (n', w') -> exists ks', indexed n' w' ks'.
Proof.
  intros Hline Hkey Hw Hix E. unfold write_line in E. destruct (ix_buffer _ _ _ Hix) as [Hb|[k Hb]].
  - rewrite Hb, decide_False in E by (destruct Hline as (_ & _ & ?); cbn; lia). apply bind_Ok in E as ([w2 hl] & Eh & [= <- <-]).
    destruct (handleLine_key _ _ _ _ Hline Hkey Eh) as (Em & Eo & Eb & k & Hk). exists ks. destruct Hix.
    split; cbn [masters out buffer set_buffer]; rewrite ?Em, ?Eo; try done. right. exists k. by rewrite Eb, Hb.
  - case_decide.
    + apply bind_Ok in E as ([w2 hl] & Eh & [= <- <-]). destruct (handleLine_key _ _ _ _ Hline Hkey Eh) as (Em & Eo & Eb & k2 & Hk2).
      destruct (block_indexed n w ks k (replicate (BLOCK_SIZE - length (buffer w)) hash_sep) Hw Hix Hb) as (Hm & Hg & Hl & Hs).
      exists (ks ++ [k]). split; cbn [masters out buffer set_buffer]; rewrite ?Em, ?Eo, ?Eb; [exact Hm|exact Hg|exact Hl|exact Hs|].
      right. by exists k2.
    + apply bind_Ok in E as ([w2 hl] & Eh & [= <- <-]). destruct (handleLine_key _ _ _ _ Hline Hkey Eh) as (Em & Eo & Eb & Hk2).
      exists ks. destruct Hix. split; cbn [masters out buffer set_buffer]; rewrite ?Em, ?Eo; try done.
      right. exists k. rewrite Eb. by apply first_key_app.
Qed.
Lemma batchedWrite_indexed input w : Forall (fun line => block_line line /\ key_line line) (getlines "010" input) ->
  batchedWrite BLOCK_SIZE input = Ok w ->
  exists ks, masters w = marks ks /\ Forall good_key ks /\ forall j k, ks !! j = Some k -> starts_with (out w) j k.
Proof.
  intros Hl E. unfold batchedWrite in E. apply bind_Ok in E as ([n w1] & Ef & E).
  set (w0 := {| masters := []; buffer := []; keys := []; out := [] |}) in *.
  assert (forall lines n0 w0 ks, Forall (fun line => block_line line /\ key_line line) lines -> writing n0 w0 -> indexed n0 w0 ks ->
    for_each (write_line BLOCK_SIZE) lines (n0, w0) = Ok (n, w1) -> writing n w1 /\ exists ks, indexed n w1 ks) as Hgen.
  { clear -block_pos pages. intros lines. induction lines as [|line lines IH]; intros n0 w0 ks Hl Hw He Ef; cbn [for_each] in Ef; [injection Ef as <- <-; eauto|].
    apply Forall_cons in Hl as [[Hline Hkey] Hl]. apply bind_Ok in Ef as ([n2 w2] & E2 & Ef).
    destruct (write_line_writing _ _ _ _ _ Hline Hw E2) as [Hw2 _]. destruct (write_line_indexed _ _ _ _ _ _ Hline Hkey Hw He E2) as [ks2 Hk2]. by eapply IH. }
  destruct (Hgen _ 0%nat w0 [] Hl ltac:(split; cbn; [lia|apply not_elem_of_nil|apply not_elem_of_nil|by intros j Hj|lia])
    ltac:(split; try done; by left) Ef) as [Hw [ks Hix]].
  case_decide as Hb; injection E as <-; [|exists ks; destruct Hix; by split_and!].
  destruct (ix_buffer _ _ _ Hix) as [Hnil|[k Hk]]; [by rewrite Hnil in Hb|].
  destruct (block_indexed n w1 ks k [] Hw Hix Hk) as (Hm & Hg & _ & Hs). rewrite app_nil_r in Hs. by exists (ks ++ [k]).
Qed.
End BlockReader.

(** Blocks of eight bytes in pages of four: the first block is full, the second
    one is not. *)
Lemma blocks_unreadable_sample : exists w, batchedWrite 8 (lit "1	22" ++ "010"%char :: lit "3	44") = Ok w /\
  getBlockText 8 4 {| block_file := Some (out w) |} 0 = Undefined /\
  getBlockText 8 4 {| block_file := Some (out w) |} 1 = Ok ({| block_file := Some (out w) |}, lit "3=44#").
Proof. eexists. by split. Qed.

(** ** [Index] *)
Section Index.
Variable lexical_cast : cstr -> outcome Z.
(** [saveMasters]: the file is written anew. *)
Definition saveMasters (w : BlockWriter) (d : disk) (metafile : cstr) : disk := <[metafile := masters w]> d.
Definition saveKeys (w : BlockWriter) (d : disk) (keysfile : cstr) : disk := <[keysfile := keys w]> d.
(** A file that cannot be opened gives an empty text. *)
Definition Index_new (d : disk) : outcome (list Z) :=
  Index.initIndex lexical_cast (FileManager.readFully (default [] (d !! META_FILE))).
Definition updateIndex (index : list Z) : bool := true.
(** [setw(iLen)] and [setfill(cFill)] fill on the left. *)
Definition getFixedWidthString (strSrc : cstr) (iLen : Z) (cFill : ascii) : cstr :=
  replicate (Z.to_nat iLen - length strSrc) cFill ++ strSrc.
Lemma getlines_marks ks : Forall good_key ks -> getlines hash_sep (marks ks) = ks.
Proof.
  induction 1 as [|k ks (_ & Hk & _) _ IH]; [done|]. unfold marks. cbn [fmap list_fmap]. rewrite mjoin_cons, <- app_assoc. cbn [app].
  rewrite getlines_app by done. f_equal. exact IH.
Qed.
Lemma find_char_absent c s : c ∉ s -> find_char c s = None.
Proof. induction s as [|x s IH]; intros Hs; [done|]. apply not_elem_of_cons in Hs as [Hx Hs]. cbn. rewrite decide_False by congruence. by rewrite IH. Qed.
Lemma Index_new_marks d ks : Forall good_key ks -> d !! META_FILE = Some (marks ks) -> Index_new d = Index.cast_all lexical_cast ks.
Proof.
  intros Hks Hd. unfold Index_new, FileManager.readFully, Index.initIndex, Index.splitString. rewrite Hd. cbn [default].
  change (id (marks ks)) with (marks ks). rewrite (find_char_absent "255").
  - destruct Hks as [|k ks Hk Hks]; [done|].
    assert (find_char hash_sep (marks (k :: ks)) = Some (length k)) as ->; [|rewrite getlines_marks; [done|by constructor]].
    unfold marks. cbn [fmap list_fmap]. rewrite mjoin_cons, <- app_assoc. cbn [app]. by rewrite find_char_app by apply Hk.
  - unfold marks. intros (x & Hx & Hl)%list_elem_of_join. apply list_elem_of_fmap in Hl as (k & -> & Hk).
    rewrite Forall_forall in Hks. destruct (Hks k Hk) as (_ & _ & Hf). apply elem_of_app in Hx as [?|?%list_elem_of_singleton]; done.
Qed.

(** The index of a block store: the masters that [BlockWriter] saves are
    loaded by [Index] as the numbers of the first keys of the blocks, in
    order, and block [j] of the data starts with the key at [j]. *)
Theorem index_loaded (BLOCK_SIZE : nat) d input w :
  (0 < BLOCK_SIZE)%nat ->
  Forall (fun line => block_line BLOCK_SIZE line /\ key_line line) (getlines "010" input) ->
  batchedWrite BLOCK_SIZE input = Ok w ->
  exists ks, Index_new (saveMasters w d META_FILE) = Index.cast_all lexical_cast ks /\
    forall j k, ks !! j = Some k -> starts_with BLOCK_SIZE (out w) j k.
Proof.
  intros Hb Hl E.
  destruct (batchedWrite_indexed BLOCK_SIZE 1 (conj Nat.lt_0_1 (Nat.mod_1_r _)) Hb input w Hl E) as (ks & Em & Hg & Hs).
  exists ks. split; [|done]. apply Index_new_marks; [done|]. unfold saveMasters. by rewrite lookup_insert_eq, Em.
Qed.
End Index.
End StoreFiles.
